(** * The AI response-generation engine of the messenger backend

    A shallow embedding of the response engine that follows the router in
    [backend/src/routes/messengerRoutes.js]: the response-cache key, the
    response parser, the credential quarantine handler, the two-phase
    provider dispatcher [generateReply] and the vision fallback chain
    [processImageWithVision].

    JavaScript strings are sequences of UTF-16 code units, asynchronous
    calls are sequential, and every call that leaves the process (inference,
    key pool, product search, downloads) is answered by an explicit [World]
    that sees the whole history of earlier calls. *)

From Stdlib Require Import String Ascii.
From Stdlib Require Import List NArith ZArith Bool Lia Permutation.
Import ListNotations.

Set Warnings "-register-all".


(* ================================================================== *)
(** * JavaScript strings *)
(* ================================================================== *)

Module Js.

(** A string is its list of UTF-16 code units. *)
Definition jsstring := list N.

(** An ASCII literal of the source. *)
Definition lit (s : string) : jsstring :=
  map N_of_ascii (list_ascii_of_string s).

Arguments lit s%_string.

Fixpoint eqb (a b : jsstring) : bool :=
  match a, b with
  | [], [] => true
  | x :: a', y :: b' => N.eqb x y && eqb a' b'
  | _, _ => false
  end.

(** [s.length] *)
Definition len (s : jsstring) : Z := Z.of_nat (length s).

(** Code-unit comparison, exact or as the [i] flag of a regular expression
    sees the ASCII letters. *)
Definition lower_unit (c : N) : N :=
  if (65 <=? c)%N && (c <=? 90)%N then (c + 32)%N else c.

Definition same (ci : bool) (c d : N) : bool :=
  if ci then N.eqb (lower_unit c) (lower_unit d) else N.eqb c d.

(** Does pattern [p] match at the head of [s]? *)
Fixpoint matchesAt (ci : bool) (s p : jsstring) {struct p} : bool :=
  match p, s with
  | [], _ => true
  | c :: p', d :: s' => same ci c d && matchesAt ci s' p'
  | _ :: _, [] => false
  end.

(** [s.startsWith(p)] *)
Definition startsWith (s p : jsstring) : bool := matchesAt false s p.

(** Is there a position of [s] where [p] matches? *)
Fixpoint occurs (ci : bool) (s p : jsstring) : bool :=
  matchesAt ci s p ||
  match s with
  | [] => false
  | _ :: s' => occurs ci s' p
  end.

(** [s.includes(p)] *)
Definition includes (s p : jsstring) : bool := occurs false s p.

(** [s.indexOf(p)]; [None] stands for -1. *)
Fixpoint indexOf (s p : jsstring) : option nat :=
  if startsWith s p then Some 0%nat
  else match s with
       | [] => None
       | _ :: s' => option_map S (indexOf s' p)
       end.

(** [s.lastIndexOf(p)]; [None] stands for -1. *)
Fixpoint lastIndexOf (s p : jsstring) : option nat :=
  match s with
  | [] => if startsWith [] p then Some 0%nat else None
  | _ :: s' =>
      match lastIndexOf s' p with
      | Some i => Some (S i)
      | None => if startsWith s p then Some 0%nat else None
      end
  end.

(** [s.substring(a, b)] for [a <= b]. *)
Definition substring (a b : nat) (s : jsstring) : jsstring :=
  firstn (b - a) (skipn a s).

(** White space and line terminators: what [trim] removes and what [\s]
    matches. *)
Definition is_space (c : N) : bool :=
  ((9 <=? c) && (c <=? 13) || (c =? 32) || (c =? 160) || (c =? 5760)
   || (8192 <=? c) && (c <=? 8202) || (c =? 8232) || (c =? 8233)
   || (c =? 8239) || (c =? 8287) || (c =? 12288) || (c =? 65279))%N.

Fixpoint dropWhile (f : N -> bool) (s : jsstring) : jsstring :=
  match s with
  | [] => []
  | c :: s' => if f c then dropWhile f s' else s
  end.

Definition trimStart (s : jsstring) : jsstring := dropWhile is_space s.
Definition trimEnd (s : jsstring) : jsstring := rev (dropWhile is_space (rev s)).

(** [s.trim()] *)
Definition trim (s : jsstring) : jsstring := trimEnd (trimStart s).

(** [String.prototype.toLowerCase] on the ASCII letters.  JavaScript also
    lowers letters beyond ASCII; the places that depend on it either take
    the lowering function as a parameter ([getCacheKey]) or look for the
    ASCII word [quota], whose letters only ASCII capitals lower to. *)
Definition toLowerCase (s : jsstring) : jsstring := map lower_unit s.

(** [s.replace(/p/g, '')] for a literal pattern [p], case-insensitive when
    [ci]: scan from the left; where [p] matches, skip it and resume after
    it.  [skip] counts the units of the current match still to drop. *)
Fixpoint removeAll_from (ci : bool) (p : jsstring) (skip : nat) (s : jsstring)
  : jsstring :=
  match s with
  | [] => []
  | c :: s' =>
      match skip with
      | S k => removeAll_from ci p k s'
      | O =>
          if matchesAt ci s p
          then removeAll_from ci p (length p - 1) s'
          else c :: removeAll_from ci p 0 s'
      end
  end.

Definition removeAll (ci : bool) (p s : jsstring) : jsstring :=
  match p with
  | [] => s
  | _ => removeAll_from ci p 0 s
  end.

(** [s.split(sep)] for a one-unit separator. *)
Fixpoint split_from (sep : N) (cur : jsstring) (s : jsstring) : list jsstring :=
  match s with
  | [] => [rev cur]
  | c :: s' =>
      if N.eqb c sep then rev cur :: split_from sep [] s'
      else split_from sep (c :: cur) s'
  end.

Definition split (sep : N) (s : jsstring) : list jsstring := split_from sep [] s.

(** [parts.join(sep)] *)
Fixpoint join (sep : jsstring) (parts : list jsstring) : jsstring :=
  match parts with
  | [] => []
  | [p] => p
  | p :: rest => p ++ sep ++ join sep rest
  end.

End Js.

Import Js.


(* ================================================================== *)
(** * The response cache key ([getCacheKey]) *)
(* ================================================================== *)

Module Cache.





Section CacheKey.

(** [String.prototype.toLowerCase], a builtin: any function will do. *)
Variable lower : jsstring -> jsstring.



End CacheKey.

End Cache.

(* ================================================================== *)
(** * JSON values, [JSON.parse] and [JSON.stringify] *)
(* ================================================================== *)

Module Json.

(** What [JSON.parse] produces.  A number keeps its lexeme (the engine
    never computes with a parsed number); an object keeps its properties in
    insertion order. *)
Inductive json : Type :=
| JNull
| JBool (b : bool)
| JNum (lexeme : jsstring)
| JStr (s : jsstring)
| JArr (items : list json)
| JObj (fields : list (jsstring * json)).

(** A value held in a variable or a property: a parsed value, a number the
    engine computed, or [undefined]. *)
Inductive value : Type :=
| Undefined
| Json (j : json)
| Num (z : Z).

(** An object under construction: own enumerable properties in order. *)
Definition object := list (jsstring * value).

Fixpoint obj_get {V : Type} (k : jsstring) (o : list (jsstring * V)) : option V :=
  match o with
  | [] => None
  | (k', v) :: o' => if eqb k k' then Some v else obj_get k o'
  end.

(** [o[k] = v]: an existing property keeps its place. *)
Fixpoint obj_set {V : Type} (k : jsstring) (v : V) (o : list (jsstring * V))
  : list (jsstring * V) :=
  match o with
  | [] => [(k, v)]
  | (k', v') :: o' =>
      if eqb k k' then (k, v) :: o' else (k', v') :: obj_set k v o'
  end.

(** ** Parsing *)

Definition is_json_ws (c : N) : bool :=
  ((c =? 32) || (c =? 9) || (c =? 10) || (c =? 13))%N.

Definition skip_ws (s : jsstring) : jsstring := dropWhile is_json_ws s.

Definition is_digit (c : N) : bool := ((48 <=? c) && (c <=? 57))%N.

Definition hex_val (c : N) : option N :=
  if is_digit c then Some (c - 48)%N
  else if ((97 <=? c) && (c <=? 102))%N then Some (c - 87)%N
  else if ((65 <=? c) && (c <=? 70))%N then Some (c - 55)%N
  else None.

Definition hex4 (a b c d : N) : option N :=
  match hex_val a, hex_val b, hex_val c, hex_val d with
  | Some x, Some y, Some z, Some w => Some (((x * 16 + y) * 16 + z) * 16 + w)%N
  | _, _, _, _ => None
  end.

(** The unit a two-character escape stands for. *)
Definition simple_escape (e : N) : option N :=
  if (e =? 34)%N then Some 34%N          (* quote *)
  else if (e =? 92)%N then Some 92%N     (* backslash *)
  else if (e =? 47)%N then Some 47%N     (* slash *)
  else if (e =? 98)%N then Some 8%N      (* b *)
  else if (e =? 102)%N then Some 12%N    (* f *)
  else if (e =? 110)%N then Some 10%N    (* n *)
  else if (e =? 114)%N then Some 13%N    (* r *)
  else if (e =? 116)%N then Some 9%N     (* t *)
  else None.

Definition push {A B : Type} (a : A) (r : option (list A * B)) : option (list A * B) :=
  match r with
  | Some (l, rest) => Some (a :: l, rest)
  | None => None
  end.

(** The characters of a string literal, after its opening quote. *)
Fixpoint parse_chars (s : jsstring) : option (jsstring * jsstring) :=
  match s with
  | [] => None
  | c :: s' =>
      if (c =? 34)%N then Some ([], s')
      else if (c =? 92)%N then
        match s' with
        | [] => None
        | e :: s'' =>
            match simple_escape e with
            | Some d => push d (parse_chars s'')
            | None =>
                if (e =? 117)%N then
                  match s'' with
                  | h1 :: h2 :: h3 :: h4 :: s6 =>
                      match hex4 h1 h2 h3 h4 with
                      | Some d => push d (parse_chars s6)
                      | None => None
                      end
                  | _ => None
                  end
                else None
            end
        end
      else if (c <? 32)%N then None
      else push c (parse_chars s')
  end.

Fixpoint span (f : N -> bool) (s : jsstring) : jsstring * jsstring :=
  match s with
  | [] => ([], [])
  | c :: s' =>
      if f c then let (a, b) := span f s' in (c :: a, b) else ([], s)
  end.

(** A number: optional minus, an integer part without a leading zero,
    an optional fraction, an optional exponent. *)
Definition parse_number (s : jsstring) : option (jsstring * jsstring) :=
  let (sign, s1) :=
    match s with
    | c :: r => if (c =? 45)%N then ([c], r) else ([], s)
    | [] => ([], s)
    end in
  let (int, s2) := span is_digit s1 in
  match int with
  | [] => None
  | d :: ds =>
      if (d =? 48)%N && negb (match ds with [] => true | _ => false end) then None
      else
        let frac :=
          match s2 with
          | c :: r =>
              if (c =? 46)%N then
                let (fd, r') := span is_digit r in
                match fd with
                | [] => None
                | _ => Some (c :: fd, r')
                end
              else Some ([], s2)
          | [] => Some ([], s2)
          end in
        match frac with
        | None => None
        | Some (fr, s3) =>
            let exp :=
              match s3 with
              | c :: r =>
                  if ((c =? 101) || (c =? 69))%N then
                    let (sg, r1) :=
                      match r with
                      | g :: r' =>
                          if ((g =? 43) || (g =? 45))%N then ([g], r') else ([], r)
                      | [] => ([], r)
                      end in
                    let (ed, r2) := span is_digit r1 in
                    match ed with
                    | [] => None
                    | _ => Some (c :: sg ++ ed, r2)
                    end
                  else Some ([], s3)
              | [] => Some ([], s3)
              end in
            match exp with
            | None => None
            | Some (ex, s4) => Some (sign ++ int ++ fr ++ ex, s4)
            end
        end
  end.

(** A keyword at the head of the input. *)
Definition keyword (k : jsstring) (s : jsstring) : option jsstring :=
  if startsWith s k then Some (skipn (length k) s) else None.

(** Duplicate names: the last value wins, at the place of the first. *)
Definition make_object (fs : list (jsstring * json)) : json :=
  JObj (fold_left (fun o kv => obj_set (fst kv) (snd kv) o) fs []).

Fixpoint parse_value (fuel : nat) (s : jsstring) : option (json * jsstring) :=
  match fuel with
  | O => None
  | S f =>
      match skip_ws s with
      | [] => None
      | c :: r =>
          if (c =? 123)%N then
            match skip_ws r with
            | d :: r' =>
                if (d =? 125)%N then Some (JObj [], r')
                else match parse_fields f (skip_ws r) with
                     | Some (fs, rest) => Some (make_object fs, rest)
                     | None => None
                     end
            | [] => None
            end
          else if (c =? 91)%N then
            match skip_ws r with
            | d :: r' =>
                if (d =? 93)%N then Some (JArr [], r')
                else match parse_elems f (skip_ws r) with
                     | Some (vs, rest) => Some (JArr vs, rest)
                     | None => None
                     end
            | [] => None
            end
          else if (c =? 34)%N then
            match parse_chars r with
            | Some (str, rest) => Some (JStr str, rest)
            | None => None
            end
          else
            match keyword (lit "true") (c :: r) with
            | Some rest => Some (JBool true, rest)
            | None =>
            match keyword (lit "false") (c :: r) with
            | Some rest => Some (JBool false, rest)
            | None =>
            match keyword (lit "null") (c :: r) with
            | Some rest => Some (JNull, rest)
            | None =>
            match parse_number (c :: r) with
            | Some (lx, rest) => Some (JNum lx, rest)
            | None => None
            end end end end
      end
  end
with parse_elems (fuel : nat) (s : jsstring) : option (list json * jsstring) :=
  match fuel with
  | O => None
  | S f =>
      match parse_value f s with
      | Some (v, r) =>
          match skip_ws r with
          | c :: r' =>
              if (c =? 44)%N then push v (parse_elems f r')
              else if (c =? 93)%N then Some ([v], r')
              else None
          | [] => None
          end
      | None => None
      end
  end
with parse_fields (fuel : nat) (s : jsstring)
  : option (list (jsstring * json) * jsstring) :=
  match fuel with
  | O => None
  | S f =>
      match skip_ws s with
      | q :: r =>
          if (q =? 34)%N then
            match parse_chars r with
            | Some (k, r1) =>
                match skip_ws r1 with
                | c :: r2 =>
                    if (c =? 58)%N then
                      match parse_value f r2 with
                      | Some (v, r3) =>
                          match skip_ws r3 with
                          | e :: r4 =>
                              if (e =? 44)%N then push (k, v) (parse_fields f r4)
                              else if (e =? 125)%N then Some ([(k, v)], r4)
                              else None
                          | [] => None
                          end
                      | None => None
                      end
                    else None
                | [] => None
                end
            | None => None
            end
          else None
      | [] => None
      end
  end.

(** [JSON.parse(s)]; [None] is the [SyntaxError] it throws.  Every level
    of recursion consumes at least one unit, so the fuel is never short. *)
Definition JSON_parse (s : jsstring) : option json :=
  match parse_value (2 * length s + 2) s with
  | Some (v, rest) =>
      match skip_ws rest with
      | [] => Some v
      | _ => None
      end
  | None => None
  end.

(** ** Serializing *)

Definition hex_digit (n : N) : N := if (n <? 10)%N then (48 + n)%N else (87 + n)%N.

Definition escape_unit (c : N) : jsstring :=
  if (c =? 34)%N then [92; 34]%N
  else if (c =? 92)%N then [92; 92]%N
  else if (c =? 8)%N then [92; 98]%N
  else if (c =? 12)%N then [92; 102]%N
  else if (c =? 10)%N then [92; 110]%N
  else if (c =? 13)%N then [92; 114]%N
  else if (c =? 9)%N then [92; 116]%N
  else if (c <? 32)%N
       then [92; 117; 48; 48; hex_digit (c / 16); hex_digit (c mod 16)]%N
  else [c].

Definition quote (s : jsstring) : jsstring :=
  [34%N] ++ flat_map escape_unit s ++ [34%N].

(** [JSON.stringify(j)] without indentation (a lone surrogate, which the
    builtin escapes, is kept as it is). *)
Fixpoint stringify (j : json) : jsstring :=
  match j with
  | JNull => lit "null"
  | JBool true => lit "true"
  | JBool false => lit "false"
  | JNum lx => lx
  | JStr s => quote s
  | JArr items => [91%N] ++ join [44%N] (map stringify items) ++ [93%N]
  | JObj fields =>
      [123%N]
      ++ join [44%N]
           (map (fun kv => let '(k, v) := kv in quote k ++ [58%N] ++ stringify v)
                fields)
      ++ [125%N]
  end.

(** ** Reading values *)

(** Is the numeric lexeme a zero? *)
Definition zero_lexeme (lx : jsstring) : bool :=
  let mantissa := fst (span (fun c => negb ((c =? 101) || (c =? 69))%N) lx) in
  forallb (fun c => negb (is_digit c) || (c =? 48)%N) mantissa.

(** Truthiness. *)
Definition truthy_json (j : json) : bool :=
  match j with
  | JNull => false
  | JBool b => b
  | JNum lx => negb (zero_lexeme lx)
  | JStr s => negb (match s with [] => true | _ => false end)
  | JArr _ | JObj _ => true
  end.

Definition truthy (v : value) : bool :=
  match v with
  | Undefined => false
  | Json j => truthy_json j
  | Num z => negb (z =? 0)%Z
  end.

(** [a || b] *)
Definition or_else (a b : value) : value := if truthy a then a else b.

(** [j.k] for a [j] that is neither [null] nor [undefined]: an own
    property of an object; none of the names the engine reads exists on a
    string, number, boolean or array. *)
Definition prop (j : json) (k : jsstring) : value :=
  match j with
  | JObj fields =>
      match obj_get k fields with
      | Some v => Json v
      | None => Undefined
      end
  | _ => Undefined
  end.

(** [typeof v === 'string'] *)
Definition is_string (v : value) : bool :=
  match v with
  | Json (JStr _) => true
  | _ => false
  end.

Definition string_of (v : value) : jsstring :=
  match v with
  | Json (JStr s) => s
  | _ => []
  end.

(** [v === 'lit'] *)
Definition is_the_string (v : value) (s : jsstring) : bool :=
  match v with
  | Json (JStr t) => eqb t s
  | _ => false
  end.

End Json.

Import Json.

(* ================================================================== *)
(** * The response parser *)
(* ================================================================== *)

Module Parser.

Definition think_open : jsstring := lit "<think>".
Definition think_close : jsstring := lit "</think>".
Definition fence : jsstring := lit "```".
Definition fence_json : jsstring := lit "```json".

(** [s.replace(/<think>[\s\S]*?<\/think>/gi, '')]: scanning from the left,
    an opening tag that has a closing tag somewhere after it is dropped
    together with everything up to and including the first such closing
    tag.  [inside] says whether the scan is within a block, [skip] counts
    the units of the current tag still to drop. *)
Fixpoint stripThink_from (inside : bool) (skip : nat) (s : jsstring) : jsstring :=
  match s with
  | [] => []
  | c :: s' =>
      match skip with
      | S k => stripThink_from inside k s'
      | O =>
          if inside then
            if matchesAt true s think_close
            then stripThink_from false 7 s'
            else stripThink_from true 0 s'
          else
            if matchesAt true s think_open && occurs true (skipn 7 s) think_close
            then stripThink_from true 6 s'
            else c :: stripThink_from false 0 s'
      end
  end.

Definition stripThink (s : jsstring) : jsstring := stripThink_from false 0 s.

(** Step 2: [.replace(/```json/gi, '').replace(/```/g, '').trim()] *)
Definition stripFences (s : jsstring) : jsstring :=
  trim (removeAll false fence (removeAll true fence_json s)).

(** Step 3: the text from the first [{] to the last [}], when there is
    one after the other. *)
Definition isolateObject (s : jsstring) : jsstring :=
  match indexOf s [123%N], lastIndexOf s [125%N] with
  | Some firstOpen, Some lastClose =>
      if (firstOpen <? lastClose)%nat
      then substring firstOpen (lastClose + 1) s
      else s
  | _, _ => s
  end.

Definition cleanContent (rawContent : jsstring) : jsstring :=
  isolateObject (stripFences (trim (stripThink rawContent))).

(** [extractJsonFromAiResponse]; [None] is the [SyntaxError] that the
    fallback [JSON.parse(rawContent)] of the handler lets escape. *)
Definition extractJsonFromAiResponse (rawContent : jsstring) : option json :=
  match JSON_parse (cleanContent rawContent) with
  | Some v => Some v
  | None => JSON_parse rawContent
  end.

Definition apology : jsstring :=
  lit "Sorry, something went wrong while processing your request.".

(** [v && typeof v === 'string' && v.trim() !== ''] *)
Definition usable_text (v : value) : bool :=
  match v with
  | Json (JStr s) =>
      negb (match s with [] => true | _ => false end)
      && negb (match trim s with [] => true | _ => false end)
  | _ => false
  end.

(** The tool-shape test of [extractReplyFromText] on a parsed object. *)
Definition hasToolShape (parsed : json) : bool :=
  (truthy (prop parsed (lit "tool")) && is_string (prop parsed (lit "tool")))
  || (match prop parsed (lit "tools") with Json (JArr _) => true | _ => false end)
  || (truthy (prop parsed (lit "function")) && is_string (prop parsed (lit "function")))
  || (match parsed with
      | JObj fields => existsb (fun kv => eqb (fst kv) (lit "query")) fields
      | _ => false
      end).

Definition is_line_terminator (c : N) : bool :=
  ((c =? 10) || (c =? 13) || (c =? 8232) || (c =? 8233))%N.

(** The captured group of the reply pattern, followed by the closing
    quote: the text up to the first quote that no backslash escapes; a
    backslash must be followed by a unit that is not a line terminator. *)
Fixpoint scan_body (s : jsstring) : option jsstring :=
  match s with
  | [] => None
  | c :: s' =>
      if (c =? 34)%N then Some []
      else if (c =? 92)%N then
        match s' with
        | [] => None
        | e :: s'' =>
            if is_line_terminator e then None
            else match scan_body s'' with
                 | Some b => Some (c :: e :: b)
                 | None => None
                 end
        end
      else match scan_body s' with
           | Some b => Some (c :: b)
           | None => None
           end
  end.

Definition reply_name : jsstring := [34%N] ++ lit "reply" ++ [34%N].

(** The reply pattern at the head of [s]: the quoted name [reply], white
    space, a colon, white space, a quoted body; the result is group 1. *)
Definition match_reply_at (s : jsstring) : option jsstring :=
  if startsWith s reply_name then
    match dropWhile is_space (skipn 7 s) with
    | c :: r =>
        if (c =? 58)%N then
          match dropWhile is_space r with
          | q :: body => if (q =? 34)%N then scan_body body else None
          | [] => None
          end
        else None
    | [] => None
    end
  else None.

(** [text.match(...)]: group 1 of the leftmost match. *)
Fixpoint match_reply (s : jsstring) : option jsstring :=
  match match_reply_at s with
  | Some b => Some b
  | None =>
      match s with
      | [] => None
      | _ :: s' => match_reply s'
      end
  end.

(** [extractReplyFromText] *)
Definition extractReplyFromText (text : jsstring) : jsstring :=
  match text with
  | [] => []
  | _ =>
      let from_object :=
        match JSON_parse text with
        | Some (JObj fields) =>
            let parsed := JObj fields in
            if usable_text (prop parsed (lit "reply"))
            then Some (string_of (prop parsed (lit "reply")))
            else if usable_text (prop parsed (lit "text"))
            then Some (string_of (prop parsed (lit "text")))
            else if usable_text (prop parsed (lit "message"))
            then Some (string_of (prop parsed (lit "message")))
            else if hasToolShape parsed then Some apology
            else None
        | _ => None
        end in
      match from_object with
      | Some r => r
      | None =>
          match match_reply text with
          | Some (c :: body) =>
              match JSON_parse ([34%N] ++ c :: body ++ [34%N]) with
              | Some (JStr s) => s
              | _ => c :: body
              end
          | _ => text
          end
      end
  end.

End Parser.

Import Parser.

(* ================================================================== *)
(** * Calls, exceptions and the history of a request *)
(* ================================================================== *)

Module Eff.

(** A thrown value: an [Error] with the places where the engine looks for
    an HTTP status and for the message of the provider. *)
Record JsError : Type := mkError {
  err_name : jsstring;
  err_status : option Z;                  (* error.status *)
  err_response_status : option Z;         (* error.response.status *)
  err_response_message : option jsstring; (* error.response.data.error.message *)
  err_message : jsstring }.

Definition TypeError (msg : jsstring) : JsError :=
  mkError (lit "TypeError") None None None msg.

Definition SyntaxError (msg : jsstring) : JsError :=
  mkError (lit "SyntaxError") None None None msg.

Definition ReferenceError (name : jsstring) : JsError :=
  mkError (lit "ReferenceError") None None None (name ++ lit " is not defined").

Definition PlainError (msg : jsstring) : JsError :=
  mkError (lit "Error") None None None msg.

(** How a block of code ends. *)
Inductive Outcome (A : Type) : Type :=
| Ret (a : A)
| Throw (e : JsError).

Arguments Ret {A} a.
Arguments Throw {A} e.

Section Monad.

(** The calls that leave the process. *)
Variable E : Type.

(** A computation reads the history of the request (the calls made so
    far, oldest first) and yields its outcome and the calls it made. *)
Definition M (A : Type) : Type := list E -> Outcome A * list E.

Definition ret {A : Type} (a : A) : M A := fun _ => (Ret a, []).

Definition raise {A : Type} (e : JsError) : M A := fun _ => (Throw e, []).

Definition bind {A B : Type} (m : M A) (k : A -> M B) : M B :=
  fun h =>
    match m h with
    | (Ret a, es) => let (o, es') := k a (h ++ es) in (o, es ++ es')
    | (Throw e, es) => (Throw e, es)
    end.

(** [try { m } catch (e) { handler e }] *)
Definition try_catch {A : Type} (m : M A) (handler : JsError -> M A) : M A :=
  fun h =>
    match m h with
    | (Ret a, es) => (Ret a, es)
    | (Throw e, es) => let (o, es') := handler e (h ++ es) in (o, es ++ es')
    end.

(** A call: it is recorded, and the world answers it knowing the history
    up to and including the call. *)
Definition call {R : Type} (ev : E) (answer : list E -> Outcome R) : M R :=
  fun h => (answer (h ++ [ev]), [ev]).

(** A pure step that may throw. *)
Definition lift {A : Type} (o : Outcome A) : M A := fun _ => (o, []).

End Monad.

Arguments ret {E A} a.
Arguments raise {E A} e.
Arguments bind {E A B} m k.
Arguments try_catch {E A} m handler.
Arguments call {E R} ev answer.
Arguments lift {E A} o.

End Eff.

Import Eff.

Notation "x <- m ;; k" := (bind m (fun x => k))
  (at level 61, m at next level, right associativity).
Notation "m ;;; k" := (bind m (fun _ => k))
  (at level 61, right associativity).

(* ================================================================== *)
(** * The provider dispatcher ([generateReply]) *)
(* ================================================================== *)

Module Engine.

(** ** Data *)

Record Message : Type := mkMessage {
  role : jsstring;
  content : jsstring }.

(** [choices[i].message.content]; [None] when it is [null] or missing. *)
Record Choice : Type := mkChoice {
  message_content : option jsstring }.

(** What [openai.chat.completions.create] resolves to. *)
Record Completion : Type := mkCompletion {
  choices : option (list Choice);
  usage_total_tokens : option Z }.

(** What the own-API endpoint answers: [data.choices[0].message.content]
    and [data.usage.total_tokens]. *)
Record OwnApiData : Type := mkOwnApiData {
  own_content : option jsstring;
  own_total_tokens : option Z }.

(** What [keyService.getSmartKey] resolves to, when not [null]. *)
Record KeyData : Type := mkKeyData {
  key : option jsstring;
  key_model : option jsstring }.

(** [commandApiService.getCommandConfig()] *)
Record CommandConfig : Type := mkCommandConfig {
  cc_provider : option jsstring;
  cc_chatmodel : option jsstring;
  cc_fallback_chatmodel : option jsstring }.

(** The fields of [pageConfig] that the dispatcher reads. *)
Record PageConfig : Type := mkPageConfig {
  page_id : value;
  user_id : value;
  cheap_engine : value;
  ai : option jsstring;
  operator : option jsstring;
  api_key : option jsstring;
  chat_model : option jsstring;
  chatmodel : option jsstring;
  is_external_api : bool }.

(** The place of an inference call in [generateReply]. *)
Inductive Site : Type :=
| Phase1          (* the call with a user key *)
| Phase1Requery   (* the second call of the Phase-1 tool loop *)
| Phase2.         (* the call with a pooled key *)

(** The calls that leave the process. *)
Inductive Event : Type :=
| EOwnApi (bearer model : jsstring) (messages : list Message)
| EInfer (site : Site) (apiKey baseURL model : jsstring)
         (messages : list Message) (json_format : bool)
| ESearch (site : Site) (owner query page : value)
| EGetSmartKey (provider model : jsstring)
| ERecordKeyUsage (apiKey : jsstring) (tokens : Z)
| EMarkKeyAsDead (apiKey : jsstring) (durationMs : Z) (reason : jsstring)
| EMarkKeyAsQuotaExceeded (apiKey : jsstring).

(** Everything outside the engine.  Each answer may depend on the whole
    history of the request, whose last element is the call answered. *)
Record World : Type := mkWorld {
  random_index : nat -> nat;         (* the draw of the shuffle at index i *)
  command_config : option CommandConfig;
  best_free_text : jsstring;         (* bestFreeModels.text *)
  own_api : list Event -> Outcome OwnApiData;
  infer : list Event -> Outcome Completion;
  search : list Event -> Outcome (option (list json));  (* rows, or null *)
  smart_key : list Event -> Outcome (option KeyData);
  key_op : list Event -> Outcome unit }.

(** A loop body ends the function, the iteration or the loop. *)
Inductive Flow : Type :=
| Return (r : option object)
| NextAttempt
| LeaveLoop.

(** ** Small helpers *)

(** A string that is truthy. *)
Definition nonempty (o : option jsstring) : option jsstring :=
  match o with
  | Some (c :: s) => Some (c :: s)
  | _ => None
  end.

(** [o || d] *)
Definition or_default (o : option jsstring) (d : jsstring) : jsstring :=
  match nonempty o with
  | Some s => s
  | None => d
  end.

Definition str (s : jsstring) : value := Json (JStr s).

Fixpoint digits_from (fuel : nat) (n : N) (acc : jsstring) : jsstring :=
  match fuel with
  | O => acc
  | S f =>
      let acc' := (48 + n mod 10)%N :: acc in
      if (n / 10 =? 0)%N then acc' else digits_from f (n / 10)%N acc'
  end.

(** [String(n)] *)
Definition decimal (n : nat) : jsstring := digits_from (S n) (N.of_nat n) [].

(** What a template literal makes of a value. *)
Fixpoint toString (j : json) : jsstring :=
  match j with
  | JNull => lit "null"
  | JBool true => lit "true"
  | JBool false => lit "false"
  | JNum lx => lx
  | JStr s => s
  | JArr items =>
      join [44%N]
        (map (fun x => match x with JNull => [] | _ => toString x end) items)
  | JObj _ => lit "[object Object]"
  end.

Definition display (v : value) : jsstring :=
  match v with
  | Undefined => lit "undefined"
  | Json j => toString j
  | Num z => if (z <? 0)%Z then 45%N :: decimal (Z.to_nat (- z))
             else decimal (Z.to_nat z)
  end.

(** [j.k], which throws on [null]. *)
Definition read (j : json) (k : jsstring) : Outcome value :=
  match j with
  | JNull =>
      Throw (TypeError (lit "Cannot read properties of null (reading '"
                          ++ k ++ lit "')"))
  | _ => Ret (prop j k)
  end.

Fixpoint indexed {A : Type} (f : A -> value) (i : nat) (l : list A) : object :=
  match l with
  | [] => []
  | a :: l' => (decimal i, f a) :: indexed f (S i) l'
  end.

(** [{...j}]: the own enumerable properties of [j]. *)
Definition spread (j : json) : object :=
  match j with
  | JObj fields => map (fun kv => (fst kv, Json (snd kv))) fields
  | JArr items => indexed Json 0 items
  | JStr s => indexed (fun c => str [c]) 0 s
  | _ => []
  end.

(** [if (!parsed.reply) parsed.reply = parsed.response || parsed.text;]
    followed by [{...parsed}].  The assignment creates the property on an
    object or array and does nothing on a primitive (the module is not in
    strict mode); on [null] the read throws. *)
Definition withReply (parsed : json) : Outcome object :=
  match parsed with
  | JNull => Throw (TypeError (lit "Cannot read properties of null (reading 'reply')"))
  | JObj _ | JArr _ =>
      if truthy (prop parsed (lit "reply")) then Ret (spread parsed)
      else Ret (obj_set (lit "reply")
                  (or_else (prop parsed (lit "response")) (prop parsed (lit "text")))
                  (spread parsed))
  | _ => Ret (spread parsed)
  end.

(** [estimateTokenUsage]: the usage the provider reported when positive,
    else a quarter of the characters exchanged, rounded up. *)
Definition estimateTokenUsage (messages : list Message) (replyText : jsstring)
           (baseUsage : Z) : Z :=
  if (0 <? baseUsage)%Z then baseUsage
  else
    let inputChars := fold_left (fun acc m => (acc + len (content m))%Z) messages 0%Z in
    ((inputChars + len replyText + 3) / 4)%Z.

(** [completion.usage ? completion.usage.total_tokens : 0] *)
Definition reported (c : Completion) : Z :=
  match usage_total_tokens c with
  | Some n => n
  | None => 0%Z
  end.

(** ** Engine configuration (lines 721-807) *)

Definition arcee : jsstring := lit "arcee-ai/trinity-large-preview".
Definition gemini_flash : jsstring := lit "gemini-2.5-flash".
Definition gemini_flash_lite : jsstring := lit "gemini-2.5-flash-lite".
Definition llama_70b : jsstring := lit "llama-3.3-70b-versatile".

(** The own properties of [MODEL_ALIASES]. *)
Definition MODEL_ALIASES : list (jsstring * jsstring) :=
  [ (lit "gemini-2.0-flash", gemini_flash);
    (lit "gemini-1.5-flash", gemini_flash);
    (lit "gemini-pro", gemini_flash);
    (lit "gemini2.5-flash", gemini_flash);
    (lit "gemini-2.5-flash-lite", gemini_flash_lite);
    (lit "groq-fast", llama_70b);
    (lit "groq-speed", lit "llama-3.1-8b-instant");
    (lit "grok-4.1-fast", llama_70b);
    (lit "salesmanchatbot-pro", gemini_flash);
    (lit "salesmanchatbot-flash", gemini_flash);
    (lit "salesmanchatbot-lite", gemini_flash_lite) ].

(** [pageConfig.cheap_engine !== false] *)
Definition useCheapEngine (pageConfig : PageConfig) : bool :=
  match cheap_engine pageConfig with
  | Json (JBool false) => false
  | _ => true
  end.

Section Config.

Variable W : World.
Variable pageConfig : PageConfig.

Definition dynamicProvider : jsstring :=
  match (if useCheapEngine pageConfig then command_config W else None) with
  | Some cc => or_default (cc_provider cc) (lit "openrouter")
  | None => lit "openrouter"
  end.

Definition dynamicModel : jsstring :=
  match (if useCheapEngine pageConfig then command_config W else None) with
  | Some cc => or_default (cc_chatmodel cc) arcee
  | None => arcee
  end.

(** The model the page asks for, [None] for [null]. *)
Definition userModel : option jsstring :=
  let chosen :=
    match nonempty (chat_model pageConfig) with
    | Some m => if eqb m (lit "default") then None else Some (trim m)
    | None => None
    end in
  match chosen with
  | Some m => if eqb m (lit "openrouter/auto") then Some (best_free_text W) else Some m
  | None => None
  end.

(** [pageConfig.ai || pageConfig.operator] *)
Definition userProvider : option jsstring :=
  match nonempty (ai pageConfig) with
  | Some p => Some p
  | None => operator pageConfig
  end.

Definition defaultProvider : jsstring :=
  or_default userProvider
    (if useCheapEngine pageConfig then dynamicProvider else lit "gemini").

Definition defaultModel : jsstring :=
  let picked :=
    match nonempty userModel with
    | Some m => m
    | None =>
        if eqb defaultProvider (lit "gemini") then gemini_flash
        else if eqb defaultProvider (lit "openrouter")
        then (if useCheapEngine pageConfig then dynamicModel else arcee)
        else if eqb defaultProvider (lit "groq") then llama_70b
        else if eqb defaultProvider (lit "salesmanchatbot") then lit "salesmanchatbot-pro"
        else (if useCheapEngine pageConfig then dynamicModel else gemini_flash)
    end in
  let freed :=
    match nonempty userModel with
    | None =>
        if eqb defaultProvider (lit "openrouter")
           && includes picked (lit "gemini")
           && negb (includes picked (lit ":free"))
        then arcee else picked
    | Some _ => picked
    end in
  let aliased :=
    match nonempty (obj_get freed MODEL_ALIASES) with
    | Some m => m
    | None => freed
    end in
  match nonempty userModel with
  | None => gemini_flash
  | Some _ => aliased
  end.

(** [defaultProvider === 'salesmanchatbot' || defaultProvider === 'system'] *)
Definition isOurOwnProvider : bool :=
  eqb defaultProvider (lit "salesmanchatbot") || eqb defaultProvider (lit "system").

(** The condition of the own-API path (line 920). *)
Definition ownApiSelected : bool :=
  negb (useCheapEngine pageConfig)
  && eqb defaultProvider (lit "salesmanchatbot")
  && match nonempty (api_key pageConfig) with Some _ => true | None => false end.

(** The condition of Phase 1 (line 954), which sets [userKeyAttempted]. *)
Definition userKeyAttempted : bool :=
  negb (useCheapEngine pageConfig)
  && negb isOurOwnProvider
  && match nonempty (api_key pageConfig) with
     | Some k => negb (eqb k (lit "MANAGED_SECRET_KEY"))
     | None => false
     end.

End Config.

(** ** The shuffle of the user keys (lines 958-961) *)

Fixpoint set_nth {A : Type} (i : nat) (a : A) (l : list A) : list A :=
  match l, i with
  | [], _ => []
  | _ :: l', O => a :: l'
  | x :: l', S i' => x :: set_nth i' a l'
  end.

(** [[l[i], l[j]] = [l[j], l[i]]] for indices within the list. *)
Definition swap {A : Type} (i j : nat) (l : list A) : list A :=
  match nth_error l i, nth_error l j with
  | Some a, Some b => set_nth j a (set_nth i b l)
  | _, _ => l
  end.

(** The loop [for (let i = ...; i > 0; i--)], with [draw i] standing for
    [Math.random()] at index [i]: [j = draw i mod (i + 1)]. *)
Fixpoint shuffle_from {A : Type} (draw : nat -> nat) (i : nat) (l : list A) : list A :=
  match i with
  | O => l
  | S i' => shuffle_from draw i' (swap i (draw i mod (i + 1)) l)
  end.

Definition shuffle {A : Type} (draw : nat -> nat) (l : list A) : list A :=
  shuffle_from draw (length l - 1) l.

(** [api_key.split(',').map(k => k.trim()).filter(k => k)] *)
Definition splitKeys (apiKey : jsstring) : list jsstring :=
  filter (fun k => match k with [] => false | _ => true end)
         (map trim (split 44 apiKey)).

(** ** Product rows of the Phase-2 tool result (lines 1126-1140) *)

Definition no_price : jsstring :=
  [2470; 2494; 2478; 32; 2470; 2503; 2451; 2479; 2492; 2494; 32; 2472; 2503; 2439]%N.
Definition price_label : jsstring := [2470; 2494; 2478]%N.
Definition desc_label : jsstring := [2476; 2495; 2476; 2480; 2467]%N.

(** [s.replace(/\s+/g, ' ')] *)
Fixpoint collapseSpaces (in_run : bool) (s : jsstring) : jsstring :=
  match s with
  | [] => []
  | c :: s' =>
      if is_space c
      then (if in_run then collapseSpaces true s' else 32%N :: collapseSpaces true s')
      else c :: collapseSpaces false s'
  end.

Definition productLine (idx : nat) (p : json) : Outcome jsstring :=
  match p with
  | JNull => Throw (TypeError (lit "Cannot read properties of null (reading 'name')"))
  | _ =>
      let name := display (or_else (prop p (lit "name")) (str (lit "Unnamed Product"))) in
      let priceText :=
        if truthy (prop p (lit "price"))
        then display (prop p (lit "price")) ++ lit " "
             ++ display (or_else (prop p (lit "currency")) (str (lit "BDT")))
        else no_price in
      let line (descText : jsstring) :=
        lit "Item " ++ decimal (idx + 1) ++ lit ": " ++ name ++ lit ". "
        ++ price_label ++ lit ": " ++ priceText ++ lit "."
        ++ match descText with
           | [] => []
           | _ => lit " " ++ desc_label ++ lit ": " ++ descText
           end in
      if truthy (prop p (lit "description")) then
        match prop p (lit "description") with
        | Json (JStr d) => Ret (line (firstn 120 (collapseSpaces false d)))
        | _ => Throw (TypeError (lit "p.description.replace is not a function"))
        end
      else Ret (line [])
  end.

Fixpoint productLines (idx : nat) (rows : list json) : Outcome (list jsstring) :=
  match rows with
  | [] => Ret []
  | p :: rest =>
      match productLine idx p with
      | Throw e => Throw e
      | Ret l =>
          match productLines (S idx) rest with
          | Throw e => Throw e
          | Ret ls => Ret (l :: ls)
          end
      end
  end.

(** The rows with a truthy string [image_url], as [{url, title}]. *)
Definition productImages (rows : list json) : list json :=
  flat_map
    (fun p =>
       match prop p (lit "image_url") with
       | Json (JStr (c :: u)) =>
           [JObj [ (lit "url", JStr (c :: u));
                   (lit "title",
                    match prop p (lit "name") with
                    | Json n => if truthy_json n then n else JStr (lit "Product Image")
                    | _ => JStr (lit "Product Image")
                    end) ]]
       | _ => []
       end)
    rows.

(** The reply synthesized from the rows (lines 1142-1151). *)
Definition synthesized (rows : list json) (tokens : Z) : Outcome object :=
  match productLines 0 rows with
  | Throw e => Throw e
  | Ret lines =>
      Ret [ (lit "reply", str (join [32; 10]%N lines));
            (lit "images", Json (JArr (productImages rows)));
            (lit "sentiment", str (lit "pos"));
            (lit "dm_message", Json JNull);
            (lit "bad_words", Json JNull);
            (lit "order_details", Json JNull);
            (lit "model", str gemini_flash);
            (lit "token_usage", Num tokens) ]
  end.

(** ** The dispatcher *)

Section Dispatcher.

Variable W : World.
Variable pageConfig : PageConfig.

(** The message sequence built by the prompt builder (lines 815-914) and
    the tokens spent on media before dispatch (lines 633-719). *)
Variable messages : list Message.
Variable totalTokenUsage : Z.

(** [responseFormat]: [{ type: json_object }], or [undefined] in external
    API mode. *)
Definition responseFormat : bool := negb (is_external_api pageConfig).

Definition chat (site : Site) (apiKey baseURL model : jsstring)
           (msgs : list Message) (fmt : bool) : M Event Completion :=
  call (EInfer site apiKey baseURL model msgs fmt) (infer W).

Definition searchProducts (site : Site) (query : value)
  : M Event (option (list json)) :=
  call (ESearch site (user_id pageConfig) query (page_id pageConfig)) (search W).

Definition getSmartKey (provider model : jsstring) : M Event (option KeyData) :=
  call (EGetSmartKey provider model) (smart_key W).

Definition recordKeyUsage (apiKey : jsstring) (tokens : Z) : M Event unit :=
  call (ERecordKeyUsage apiKey tokens) (key_op W).

Definition markKeyAsDead (apiKey : jsstring) (ms : Z) (reason : jsstring)
  : M Event unit :=
  call (EMarkKeyAsDead apiKey ms reason) (key_op W).

Definition markKeyAsQuotaExceeded (apiKey : jsstring) : M Event unit :=
  call (EMarkKeyAsQuotaExceeded apiKey) (key_op W).

(** [try { m } catch (e) {}] *)
Definition swallow (m : M Event unit) : M Event unit :=
  try_catch m (fun _ => ret tt).

(** [completion.choices[0].message.content || ''], which throws when
    there is no first choice. *)
Definition firstContent (c : Completion) : Outcome jsstring :=
  match choices c with
  | Some (c0 :: _) =>
      Ret (match message_content c0 with Some s => s | None => [] end)
  | Some [] =>
      Throw (TypeError (lit "Cannot read properties of undefined (reading 'message')"))
  | None =>
      Throw (TypeError (lit "Cannot read properties of undefined (reading '0')"))
  end.

Definition parseContent (rawContent : jsstring) : Outcome json :=
  match extractJsonFromAiResponse rawContent with
  | Some v => Ret v
  | None => Throw (SyntaxError (lit "Unexpected token in JSON"))
  end.

(** [parsed.tool === 'search_products' && parsed.query]; the read of
    [parsed.tool] throws on [null]. *)
Definition isSearchCall (parsed : json) : Outcome bool :=
  match read parsed (lit "tool") with
  | Throw e => Throw e
  | Ret tool =>
      Ret (is_the_string tool (lit "search_products")
           && truthy (prop parsed (lit "query")))
  end.

(** The handler of the inner [try] (lines 1036-1038 and 1158-1160): the raw
    text as the reply. *)
Definition rawReply (rawContent model : jsstring) (tokens : Z) : object :=
  [ (lit "reply", str (extractReplyFromText (trim (stripThink rawContent))));
    (lit "sentiment", str (lit "neutral"));
    (lit "model", str model);
    (lit "token_usage", Num tokens) ].

(** *** The own-API path (lines 920-950) *)

Definition ownApi : M Event (option object) :=
  let modelToUse := or_default (chatmodel pageConfig) (lit "salesmanchatbot-pro") in
  try_catch
    (data <- call (EOwnApi (or_default (api_key pageConfig) []) modelToUse messages)
                  (own_api W) ;;
     match nonempty (own_content data) with
     | Some aiText =>
         let tokenUsage := match own_total_tokens data with Some n => n | None => 0%Z end in
         ret (Some [ (lit "reply", str aiText);
                     (lit "sentiment", str (lit "neutral"));
                     (lit "token_usage", Num (tokenUsage + totalTokenUsage));
                     (lit "model", str modelToUse) ])
     | None => ret None
     end)
    (fun error =>
       ret (Some [ (lit "reply", Json JNull);
                   (lit "error",
                    str (lit "SalesmanChatbot API Error: " ++ err_message error
                         ++ lit ". Check your API key/model."));
                   (lit "token_usage", Num 0);
                   (lit "model",
                    str (or_default (chatmodel pageConfig) (lit "salesmanchatbot-pro"))) ])).

(** *** Phase 1: the user's keys (lines 963-1054) *)

Definition providerOfKey (currentKey : jsstring) : jsstring :=
  if startsWith currentKey (lit "sk-or-v1") then lit "openrouter"
  else if startsWith currentKey (lit "AIzaSy") then lit "google"
  else if startsWith currentKey (lit "gsk_") then lit "groq"
  else if startsWith currentKey (lit "xai-") then lit "xai"
  else defaultProvider W pageConfig.

Definition google_base : jsstring :=
  lit "https://generativelanguage.googleapis.com/v1beta/openai/".

Definition baseURLOf (currentProvider : jsstring) : jsstring :=
  if includes currentProvider (lit "openrouter") then lit "https://openrouter.ai/api/v1"
  else if includes currentProvider (lit "openai") then lit "https://api.openai.com/v1"
  else if includes currentProvider (lit "groq") then lit "https://api.groq.com/openai/v1"
  else if includes currentProvider (lit "xai") then lit "https://api.x.ai/v1"
  else google_base.

(** An identifier is resolved among the bindings that are in scope. *)
Definition identifier (scope : list (jsstring * jsstring)) (name : jsstring)
  : Outcome jsstring :=
  match obj_get name scope with
  | Some v => Ret v
  | None => Throw (ReferenceError name)
  end.

(** The string bindings in scope in the handler of line 1041: those of the
    function and of the loop body.  [openai] and [modelToUse] are declared
    inside the [try] block and end with it. *)
Definition phase1HandlerScope (currentKey currentProvider baseURL : jsstring)
  : list (jsstring * jsstring) :=
  [ (lit "defaultProvider", defaultProvider W pageConfig);
    (lit "defaultModel", defaultModel W pageConfig);
    (lit "dynamicProvider", dynamicProvider W pageConfig);
    (lit "dynamicModel", dynamicModel W pageConfig);
    (lit "currentKey", currentKey);
    (lit "currentProvider", currentProvider);
    (lit "baseURL", baseURL) ].

(** The tool loop of Phase 1 (lines 1007-1029). *)
Definition phase1Tool (currentKey baseURL modelToUse : jsstring) (parsed : json)
           (tokenUsage : Z) : M Event object :=
  products <- searchProducts Phase1 (prop parsed (lit "query")) ;;
  let messages2 :=
    messages
    ++ [ mkMessage (lit "assistant") (stringify parsed);
         mkMessage (lit "system")
           (lit "[System] Search Results: "
            ++ match products with
               | Some rows => stringify (JArr rows)
               | None => lit "null"
               end
            ++ lit ". Now answer the user in Bengali. IMPORTANT: If a product has an 'image_url', you MUST include it in the 'images' array of your JSON response.") ] in
  completion2 <- chat Phase1Requery currentKey baseURL modelToUse messages2 true ;;
  rawContent2 <- lift (firstContent completion2) ;;
  let tokenUsage2 := estimateTokenUsage messages2 rawContent2 (reported completion2) in
  swallow (recordKeyUsage currentKey tokenUsage2) ;;;
  parsed2 <- lift (parseContent rawContent2) ;;
  o <- lift (withReply parsed2) ;;
  ret (obj_set (lit "model") (str modelToUse)
         (obj_set (lit "token_usage") (Num (tokenUsage + tokenUsage2 + totalTokenUsage)) o)).

(** One turn of the loop over the user keys: [Some r] when the function
    returns [r], [None] when the loop goes on to the next key. *)
Definition phase1Attempt (currentKey : jsstring) : M Event (option object) :=
  let currentProvider := providerOfKey currentKey in
  let baseURL := baseURLOf currentProvider in
  try_catch
    (let modelToUse := or_default (chatmodel pageConfig) (defaultModel W pageConfig) in
     completion <- chat Phase1 currentKey baseURL modelToUse messages responseFormat ;;
     match choices completion with
     | Some (c0 :: _) =>
         let rawContent := match message_content c0 with Some s => s | None => [] end in
         let tokenUsage := estimateTokenUsage messages rawContent (reported completion) in
         swallow (recordKeyUsage currentKey tokenUsage) ;;;
         try_catch
           (parsed <- lift (parseContent rawContent) ;;
            tool <- lift (isSearchCall parsed) ;;
            if tool then
              r <- phase1Tool currentKey baseURL modelToUse parsed tokenUsage ;;
              ret (Some r)
            else
              o <- lift (withReply parsed) ;;
              ret (Some (obj_set (lit "model") (str modelToUse)
                           (obj_set (lit "token_usage")
                              (Num (tokenUsage + totalTokenUsage)) o))))
           (fun _ =>
              ret (Some (rawReply rawContent modelToUse (tokenUsage + totalTokenUsage))))
     | _ => ret None
     end)
    (fun error =>
       model <- lift (identifier (phase1HandlerScope currentKey currentProvider baseURL)
                        (lit "modelToUse")) ;;
       ret (Some [ (lit "reply", Json JNull);
                   (lit "error",
                    str (lit "AI Provider Error: " ++ err_message error
                         ++ lit ". Please check your API settings in the dashboard."));
                   (lit "token_usage", Num 0);
                   (lit "model", str model) ])).

(** [for (const currentKey of userKeys)] *)
Fixpoint phase1Loop (userKeys : list jsstring) : M Event (option object) :=
  match userKeys with
  | [] => ret None
  | currentKey :: rest =>
      r <- phase1Attempt currentKey ;;
      match r with
      | Some resp => ret (Some resp)
      | None => phase1Loop rest
      end
  end.

(** *** The quarantine handler (lines 1058-1071) *)

(** [error.status || (error.response ? error.response.status : null)] *)
Definition statusOf (error : JsError) : option Z :=
  match err_status error with
  | Some z => if (z =? 0)%Z then err_response_status error else Some z
  | None => err_response_status error
  end.

Definition statusIs (error : JsError) (code : Z) : bool :=
  match statusOf error with
  | Some z => (z =? code)%Z
  | None => false
  end.

Definition handleAiError (error : JsError) (apiKey modelName : jsstring)
  : M Event unit :=
  let message := err_message error in
  if statusIs error 429 || includes message (lit "429")
     || includes message (lit "quota") || includes message (lit "Too Many Requests")
  then
    if includes (toLowerCase message) (lit "quota")
    then markKeyAsQuotaExceeded apiKey
    else markKeyAsDead apiKey (60 * 1000) (lit "rate_limit_" ++ modelName)
  else if statusIs error 401 || statusIs error 403
  then markKeyAsDead apiKey (24 * 60 * 60 * 1000) (lit "auth_error")
  else if match statusOf error with Some z => (500 <=? z)%Z | None => false end
  then markKeyAsDead apiKey (60 * 1000) (lit "server_error")
  else ret tt.

(** *** Phase 2: the pooled keys (lines 1087-1180) *)

(** [!keyData || !keyData.key || keyData.model !== 'gemini-2.5-flash'],
    negated: the key to use. *)
Definition usableKey (keyData : option KeyData) : option jsstring :=
  match keyData with
  | Some kd =>
      match nonempty (key kd), key_model kd with
      | Some k, Some m => if eqb m gemini_flash then Some k else None
      | _, _ => None
      end
  | None => None
  end.

(** The inner [try] of an attempt (lines 1119-1156). *)
Definition phase2Parse (rawContent : jsstring) (tokenUsage : Z) : M Event object :=
  parsed <- lift (parseContent rawContent) ;;
  tool <- lift (isSearchCall parsed) ;;
  early <-
    (if tool then
       products <- searchProducts Phase2 (prop parsed (lit "query")) ;;
       match products with
       | Some (p :: rows) =>
           r <- lift (synthesized (p :: rows) (tokenUsage + totalTokenUsage)) ;;
           ret (Some r)
       | _ => ret None
       end
     else ret None) ;;
  match early with
  | Some r => ret r
  | None =>
      o <- lift (withReply parsed) ;;
      ret (obj_set (lit "token_usage") (Num (tokenUsage + totalTokenUsage))
             (obj_set (lit "model") (str gemini_flash) o))
  end.

(** One turn of the swarm loop. *)
Definition phase2Attempt : M Event Flow :=
  try_catch
    (keyData <- getSmartKey (lit "google") gemini_flash ;;
     match usableKey keyData with
     | None => ret LeaveLoop
     | Some apiKey =>
         try_catch
           (completion <- chat Phase2 apiKey google_base gemini_flash messages
                               responseFormat ;;
            rawContent <- lift (firstContent completion) ;;
            let tokenUsage := estimateTokenUsage messages rawContent (reported completion) in
            recordKeyUsage apiKey tokenUsage ;;;
            try_catch
              (r <- phase2Parse rawContent tokenUsage ;; ret (Return (Some r)))
              (fun _ =>
                 ret (Return (Some (rawReply rawContent gemini_flash
                                      (tokenUsage + totalTokenUsage))))))
           (fun flashError =>
              handleAiError flashError apiKey gemini_flash ;;;
              ret NextAttempt)
     end)
    (fun setupError => ret NextAttempt).

(** [for (let i = 0; i < 3; i++)], then [return null]. *)
Fixpoint phase2Loop (attempts : nat) : M Event (option object) :=
  match attempts with
  | O => ret None
  | S n =>
      flow <- phase2Attempt ;;
      match flow with
      | Return r => ret r
      | NextAttempt => phase2Loop n
      | LeaveLoop => ret None
      end
  end.

(** The answer of the strict lock (lines 1076-1081). *)
Definition lockResponse : object :=
  [ (lit "reply", Json JNull);
    (lit "error",
     str (lit "Your API Provider settings are incorrect or the key has expired. Please check your dashboard."));
    (lit "token_usage", Num 0);
    (lit "model", str (defaultModel W pageConfig)) ].

(** *** [generateReply] from line 916 on: [None] is [null]. *)
Definition generateReply : M Event (option object) :=
  own <- (if ownApiSelected W pageConfig then ownApi else ret None) ;;
  match own with
  | Some r => ret (Some r)
  | None =>
      served <-
        (if userKeyAttempted W pageConfig
         then phase1Loop (shuffle (random_index W)
                            (splitKeys (or_default (api_key pageConfig) [])))
         else ret None) ;;
      match served with
      | Some r => ret (Some r)
      | None =>
          if userKeyAttempted W pageConfig then ret (Some lockResponse)
          else phase2Loop 3
      end
  end.

End Dispatcher.

End Engine.

(* ================================================================== *)
(** * The vision chain ([processImageWithVision]) *)
(* ================================================================== *)

Module Vision.

(** [customOptions] *)
Record Options : Type := mkOptions {
  opt_prompt : option jsstring;
  opt_provider : option jsstring;
  opt_model : option jsstring }.

(** The header that authenticates the download. *)
Inductive Auth : Type :=
| NoAuth
| WahaKey (apiKey : jsstring)
| FacebookToken (token : jsstring).

(** The calls that leave the process. *)
Inductive Event : Type :=
| EDownload (url : jsstring) (auth : Auth)
| EGetSmartKey (provider model : jsstring)
| EPost (url : jsstring) (bearer : option jsstring) (model prompt mimeType image : jsstring)
| ELogDebug (msg : jsstring).

(** What a download resolves to: the body in base64 and the content type. *)
Record Download : Type := mkDownload {
  body_base64 : jsstring;
  content_type : option jsstring }.

(** What a vision endpoint answers: the text of the first choice or
    candidate, and the token count. *)
Record Answer : Type := mkAnswer {
  answer_text : option jsstring;
  answer_tokens : option Z }.

Record KeyData : Type := mkKeyData {
  key : option jsstring }.

Record World : Type := mkWorld {
  WAHA_BASE_URL : jsstring;
  WAHA_API_KEY : jsstring;
  download : list Event -> Outcome Download;
  smart_key : list Event -> Outcome (option KeyData);
  post : list Event -> Outcome Answer }.

(** What the chain returns: a bare string, or [{ text, usage }]. *)
Inductive Result : Type :=
| Text (s : jsstring)
| Described (text : jsstring) (usage : Z).

Definition unavailable : jsstring :=
  lit "Image found but analysis unavailable due to technical errors.".

(** The first group of [/:(.*?);/]: from the leftmost colon that reaches a
    semicolon without crossing a line terminator, the text in between. *)
Fixpoint until_semicolon (s : jsstring) : option jsstring :=
  match s with
  | [] => None
  | c :: s' =>
      if (c =? 59)%N then Some []
      else if is_line_terminator c then None
      else match until_semicolon s' with
           | Some m => Some (c :: m)
           | None => None
           end
  end.

Fixpoint mimeMatch (s : jsstring) : option jsstring :=
  match s with
  | [] => None
  | c :: s' =>
      if (c =? 58)%N then
        match until_semicolon s' with
        | Some m => Some m
        | None => mimeMatch s'
        end
      else mimeMatch s'
  end.

(** One stage of the chain as the source writes it four times. *)
Record Stage : Type := mkStage {
  trail_name : jsstring;      (* the prefix of its entry in [errors] *)
  log_name : jsstring;        (* the prefix of its debug line *)
  provider : jsstring;
  model : jsstring;
  default_key : bool;         (* retry the key lookup with model [default] *)
  no_key : jsstring;          (* the message thrown without a key *)
  empty : jsstring;           (* the message thrown on an empty answer *)
  success_name : jsstring }.

Definition key_of (kd : option KeyData) : option jsstring :=
  match kd with
  | Some d => Engine.nonempty (key d)
  | None => None
  end.

Section Chain.

Variable W : World.
Variable page_access_token : option jsstring.

Definition logDebug (msg : jsstring) : M Event unit :=
  call (ELogDebug msg) (fun _ => Ret tt).

Definition getSmartKey (provider model : jsstring) : M Event (option KeyData) :=
  call (EGetSmartKey provider model) (smart_key W).

(** Step 0 (lines 1193-1230): the image as base64 and its MIME type. *)
Definition preprocess (imageUrl : jsstring) : M Event (jsstring * jsstring) :=
  if startsWith imageUrl (lit "data:") then
    match split 44 imageUrl with
    | head :: part :: parts =>
        let mimeType :=
          match mimeMatch head with
          | Some m => m
          | None => lit "image/jpeg"
          end in
        ret (filter (fun c => negb (is_space c)) (join [44%N] (part :: parts)),
             mimeType)
    | _ => raise (PlainError (lit "Invalid Data URI format (missing comma)"))
    end
  else
    let auth :=
      if includes imageUrl (WAHA_BASE_URL W)
         || includes imageUrl (lit "wahubbd.salesmanchatbot.online")
      then WahaKey (WAHA_API_KEY W)
      else match (if includes imageUrl (lit "graph.facebook.com")
                  then Engine.nonempty page_access_token else None) with
           | Some token => FacebookToken token
           | None => NoAuth
           end in
    response <- call (EDownload imageUrl auth) (download W) ;;
    let base64Image := body_base64 response in
    let mimeType := Engine.or_default (content_type response) (lit "image/jpeg") in
    logDebug (lit "[Vision] Image Downloaded. Mime: " ++ mimeType ++ lit ", Size: "
              ++ Engine.decimal (length base64Image)) ;;;
    ret (base64Image, mimeType).

(** [error.response?.data?.error?.message || error.message] *)
Definition errMsg (error : JsError) : jsstring :=
  Engine.or_default (err_response_message error) (err_message error).

(** The request to the endpoint of a stage and the reading of its answer. *)
Definition askEndpoint (st : Stage) (systemPrompt mimeType base64Image apiKey : jsstring)
  : M Event Result :=
  let openrouter := eqb (provider st) (lit "openrouter") in
  let url :=
    if openrouter then lit "https://openrouter.ai/api/v1/chat/completions"
    else lit "https://generativelanguage.googleapis.com/v1beta/models/"
         ++ model st ++ lit ":generateContent?key=" ++ apiKey in
  response <- call (EPost url (if openrouter then Some apiKey else None)
                      (model st) systemPrompt mimeType base64Image)
                   (post W) ;;
  match Engine.nonempty (answer_text response) with
  | None => raise (PlainError (empty st))
  | Some result =>
      let usage := match answer_tokens response with Some n => n | None => 0%Z end in
      logDebug (lit "[Vision] Success with " ++ success_name st ++ lit ": "
                ++ firstn 30 result ++ lit "... Usage: " ++ Engine.display (Num usage)) ;;;
      ret (Described result usage)
  end.

(** The [try] block of a stage. *)
Definition attempt (st : Stage) (systemPrompt mimeType base64Image : jsstring)
  : M Event Result :=
  first <- getSmartKey (provider st) (model st) ;;
  keyData <-
    (match key_of first with
     | None => if default_key st then getSmartKey (provider st) (lit "default")
               else ret first
     | Some _ => ret first
     end) ;;
  match key_of keyData with
  | None => raise (PlainError (no_key st))
  | Some apiKey => askEndpoint st systemPrompt mimeType base64Image apiKey
  end.

(** A stage: [Some r] when the function returns [r]; on failure one more
    entry on the trail [errors]. *)
Definition runStage (st : Stage) (systemPrompt mimeType base64Image : jsstring)
           (errors : list jsstring) : M Event (option Result * list jsstring) :=
  try_catch
    (r <- attempt st systemPrompt mimeType base64Image ;; ret (Some r, errors))
    (fun error =>
       logDebug (lit "[Vision] " ++ log_name st ++ lit ": " ++ errMsg error) ;;;
       ret (None, errors ++ [trail_name st ++ lit ": " ++ errMsg error])).

Definition priorityStage (m : jsstring) : Stage :=
  mkStage (lit "Priority OpenRouter") (lit "Priority Error") (lit "openrouter") m true
          (lit "No Key found for OpenRouter") (lit "Empty response from OpenRouter")
          (lit "Priority " ++ m).

Definition flashStage : Stage :=
  mkStage (lit "Gemini 2.5 Flash") (lit "Error 1") (lit "google") Engine.gemini_flash false
          (lit "No Key found for Gemini 2.5 Flash") (lit "Empty response from Gemini")
          Engine.gemini_flash.

Definition liteStage : Stage :=
  mkStage (lit "Gemini 2.5 Flash Lite") (lit "Error 2") (lit "google")
          Engine.gemini_flash_lite false
          (lit "No Key found for Gemini 2.5 Flash Lite")
          (lit "Empty response from Gemini Lite") Engine.gemini_flash_lite.

Definition qwenStage : Stage :=
  mkStage (lit "OpenRouter Qwen") (lit "Error 3") (lit "openrouter")
          (lit "qwen/qwen-2.5-vl-7b-instruct:free") true
          (lit "No Key found for OpenRouter") (lit "Empty response from OpenRouter")
          (lit "qwen/qwen-2.5-vl-7b-instruct:free").

(** The stages in order: the priority attempt when [customOptions] names
    the provider [openrouter] and a model, then the three fallbacks. *)
Definition stages (customOptions : option Options) : list Stage :=
  match customOptions with
  | Some o =>
      match opt_provider o, Engine.nonempty (opt_model o) with
      | Some p, Some m =>
          if eqb p (lit "openrouter") then [priorityStage m] else []
      | _, _ => []
      end
  | None => []
  end
  ++ [flashStage; liteStage; qwenStage].

Fixpoint runStages (sts : list Stage) (systemPrompt mimeType base64Image : jsstring)
         (errors : list jsstring) : M Event Result :=
  match sts with
  | [] =>
      logDebug (lit "[Vision] FATAL: Image Analysis Failed. Reasons: "
                ++ join (lit " | ") errors) ;;;
      ret (Described unavailable 0)
  | st :: rest =>
      r <- runStage st systemPrompt mimeType base64Image errors ;;
      match r with
      | (Some res, _) => ret res
      | (None, errors') => runStages rest systemPrompt mimeType base64Image errors'
      end
  end.

(** [processImageWithVision(imageUrl, pageConfig, customOptions)] *)
Definition processImageWithVision (imageUrl : jsstring)
           (customOptions : option Options) : M Event Result :=
  image <-
    try_catch
      (i <- preprocess imageUrl ;; ret (inr i))
      (fun e =>
         logDebug (lit "[Vision] Pre-processing Failed: " ++ err_message e) ;;;
         ret (inl (Text (lit "Image found but failed to download/decode. Reason: "
                         ++ err_message e)))) ;;
  match image with
  | inl early => ret early
  | inr (base64Image, mimeType) =>
      let systemPrompt :=
        Engine.or_default
          (match customOptions with Some o => opt_prompt o | None => None end)
          (lit "Describe this image in detail.") in
      runStages (stages customOptions) systemPrompt mimeType base64Image []
  end.

End Chain.

End Vision.

(* ================================================================== *)
(** * Vocabulary of the statements *)
(* ================================================================== *)

Module Terms.

(** Is [c] one of the units of [p]? *)
Definition hits (ci : bool) (p : jsstring) (c : N) : bool :=
  existsb (fun d => same ci d c) p.

(** A string of white space. *)
Definition spaces (w : jsstring) : Prop := Forall (fun c => is_space c = true) w.

(** A payload behind a reasoning block and inside a code fence, with
    white space between the parts. *)
Definition wrapped (t w1 w2 w3 payload : jsstring) : jsstring :=
  think_open ++ t ++ think_close ++ w1 ++ fence_json ++ w2 ++ payload ++ w3 ++ fence.

(** The payload of the output contract: [{reply, images, sentiment}]. *)
Definition reply_payload (reply : jsstring) (images : list json) (sentiment : jsstring)
  : json :=
  JObj [ (lit "reply", JStr reply);
         (lit "images", JArr images);
         (lit "sentiment", JStr sentiment) ].

(** ** Reading a response *)

(** [o.k] *)
Definition field (o : object) (k : jsstring) : value :=
  match obj_get k o with
  | Some v => v
  | None => Undefined
  end.

(** [v == null] *)
Definition nullish (v : value) : bool :=
  match v with
  | Undefined | Json JNull => true
  | _ => false
  end.

(** ** Reading the history of a request *)

Import Engine.

Definition is_acquire (ev : Event) : bool :=
  match ev with EGetSmartKey _ _ => true | _ => false end.

Definition is_infer (ev : Event) : bool :=
  match ev with EInfer _ _ _ _ _ _ => true | _ => false end.

Definition is_requery (ev : Event) : bool :=
  match ev with EInfer Phase1Requery _ _ _ _ _ => true | _ => false end.

Definition is_search (ev : Event) : bool :=
  match ev with ESearch _ _ _ _ => true | _ => false end.

Definition is_bookkeeping (ev : Event) : bool :=
  match ev with ERecordKeyUsage _ _ => true | _ => false end.

Definition count (f : Event -> bool) (es : list Event) : nat := length (filter f es).

(** The user keys tried by the first call of a Phase-1 attempt, in order. *)
Definition attempted_keys (es : list Event) : list jsstring :=
  flat_map (fun ev => match ev with
                      | EInfer Phase1 k _ _ _ _ => [k]
                      | _ => []
                      end) es.

(** Every inference call among [es] (made after the history [h]) is a
    Phase-2 call of the canonical model on the Google endpoint, comes
    right after an acquisition from the pool, and uses the key that this
    acquisition handed out. *)
Fixpoint pooled (W : World) (h es : list Event) : Prop :=
  match es with
  | [] => True
  | ev :: es' =>
      match ev with
      | EInfer site k base m _ _ =>
          site = Phase2 /\ base = google_base /\ m = gemini_flash
          /\ exists h0 kd,
               h = h0 ++ [EGetSmartKey (lit "google") gemini_flash]
               /\ smart_key W h = Ret (Some kd)
               /\ usableKey (Some kd) = Some k
      | _ => True
      end
      /\ pooled W (h ++ [ev]) es'
  end.

Definition is_swarm (ev : Event) : bool :=
  match ev with EInfer Phase2 _ _ _ _ _ => true | _ => false end.

(** A call that sets a key aside. *)
Definition is_quarantine (ev : Event) : bool :=
  match ev with
  | EMarkKeyAsDead _ _ _ | EMarkKeyAsQuotaExceeded _ => true
  | _ => false
  end.



(** The acquisition that opens a turn of the swarm loop. *)
Definition acquisition : Event := EGetSmartKey (lit "google") gemini_flash.

(** The inference call of a turn of the swarm loop with the key [k]. *)
Definition inference (pc : PageConfig) (ms : list Message) (k : jsstring) : Event :=
  EInfer Phase2 k google_base gemini_flash ms (responseFormat pc).

(** The tokens charged for a first completion with the content [raw]. *)
Definition usage (ms : list Message) (c : Completion) (raw : jsstring) : Z :=
  estimateTokenUsage ms raw (reported c).

(** The first call of the Phase-1 attempt with the user key [k]. *)
Definition userCall (W : World) (pc : PageConfig) (ms : list Message) (k : jsstring)
  : Event :=
  EInfer Phase1 k (baseURLOf (providerOfKey W pc k))
         (or_default (chatmodel pc) (defaultModel W pc)) ms (responseFormat pc).

(** The content of a first choice: [message.content || '']. *)
Definition contentOf (c0 : Choice) : jsstring :=
  match message_content c0 with Some s => s | None => [] end.

(** The user keys in the order in which the loop takes them. *)
Definition userKeys (W : World) (pc : PageConfig) : list jsstring :=
  shuffle (random_index W) (splitKeys (or_default (api_key pc) [])).

(** The call of the own-API path. *)
Definition ownCall (pc : PageConfig) (ms : list Message) : Event :=
  EOwnApi (or_default (api_key pc) [])
          (or_default (chatmodel pc) (lit "salesmanchatbot-pro")) ms.

(** The calls of a tool round: nothing; or a product search, possibly
    followed by the one re-query, possibly followed by the record of its
    usage. *)
Definition tool_tail (tail : list Event) : Prop :=
  tail = []
  \/ exists s, is_search s = true
     /\ (tail = [s]
         \/ exists r, is_requery r = true
            /\ (tail = [s; r]
                \/ exists b, is_bookkeeping b = true /\ tail = [s; r; b])).

(** The page with another [api_key]. *)
Definition with_api_key (pc : PageConfig) (k : option jsstring) : PageConfig :=
  mkPageConfig (page_id pc) (user_id pc) (cheap_engine pc) (ai pc) (operator pc)
               k (chat_model pc) (chatmodel pc) (is_external_api pc).

(** No completion of the world carries a payload with an [error] field. *)
Definition payloads_without_error (W : World) : Prop :=
  forall (h : list Event) (c : Completion) (rawContent : jsstring) (parsed : json),
    infer W h = Ret c ->
    firstContent c = Ret rawContent ->
    extractJsonFromAiResponse rawContent = Some parsed ->
    nullish (prop parsed (lit "error")) = true.

(** ** The vision chain *)

(** No endpoint of the world ever answers with a text. *)
Definition no_text (W : Vision.World) : Prop :=
  forall tr, match Vision.post W tr with
             | Ret a => nonempty (Vision.answer_text a) = None
             | Throw _ => True
             end.

(** The last debug line of an exhausted chain. *)
Definition fatal_line (trail : list jsstring) : Vision.Event :=
  Vision.ELogDebug (lit "[Vision] FATAL: Image Analysis Failed. Reasons: "
                    ++ join (lit " | ") trail).

Definition is_stage_call (ev : Vision.Event) : bool :=
  match ev with
  | Vision.EGetSmartKey _ _ | Vision.EPost _ _ _ _ _ _ => true
  | _ => false
  end.

End Terms.

Import Terms.

(* ================================================================== *)
(** * Sample pages and worlds *)
(* ================================================================== *)

Module Samples.

Import Engine.

Definition greeting : list Message :=
  [ mkMessage (lit "system") (lit "You are a helpful assistant.");
    mkMessage (lit "user") (lit "hi") ].

(** A page in managed mode. *)
Definition managed_page : PageConfig :=
  mkPageConfig (Json (JStr (lit "1001"))) (Json (JStr (lit "owner-1")))
               (Json (JBool true)) None None None None None false.

(** A page in own-key mode with one OpenRouter key. *)
Definition own_key_page : PageConfig :=
  mkPageConfig (Json (JStr (lit "1001"))) (Json (JStr (lit "owner-1")))
               (Json (JBool false)) (Some (lit "openrouter")) None
               (Some (lit "sk-or-v1-abc")) None None false.

(** The same page with two keys. *)
Definition two_key_page : PageConfig :=
  with_api_key own_key_page (Some (lit "sk-or-v1-abc, sk-or-v1-def")).

(** A page that selects the own API of the product. *)
Definition own_api_page : PageConfig :=
  mkPageConfig (Json (JStr (lit "1001"))) (Json (JStr (lit "owner-1")))
               (Json (JBool false)) (Some (lit "salesmanchatbot")) None
               (Some (lit "user-key")) None None false.

Definition unauthorized : JsError :=
  mkError (lit "Error") (Some 401%Z) None None (lit "401 Incorrect API key provided").

Definition pool_key : KeyData :=
  mkKeyData (Some (lit "AIzaSy-pool-1")) (Some gemini_flash).

(** A world in which every inference call throws [error]; the pool always
    has a key. *)
Definition failing_world (error : JsError) : World :=
  mkWorld (fun _ => 0) None (lit "meta-llama/llama-3.1-8b-instruct:free")
          (fun _ => Throw error)
          (fun _ => Throw error)
          (fun _ => Ret None)
          (fun _ => Ret (Some pool_key))
          (fun _ => Ret tt).

(** A world in which every inference call answers with [content]. *)
Definition answering_world (content : jsstring) : World :=
  mkWorld (fun _ => 0) None (lit "meta-llama/llama-3.1-8b-instruct:free")
          (fun _ => Ret (mkOwnApiData (Some content) (Some 7%Z)))
          (fun _ => Ret (mkCompletion (Some [mkChoice (Some content)]) (Some 42%Z)))
          (fun _ => Ret None)
          (fun _ => Ret (Some pool_key))
          (fun _ => Ret tt).

(** A world for the vision chain in which nothing can be reached. *)
Definition unreachable_world : Vision.World :=
  Vision.mkWorld (lit "https://wahubbd.salesmanchatbot.online") (lit "waha-key")
                 (fun _ => Throw (PlainError (lit "connect ECONNREFUSED")))
                 (fun _ => Ret (Some (Vision.mkKeyData (Some (lit "AIzaSy-pool-1")))))
                 (fun _ => Throw (PlainError (lit "timeout of 20000ms exceeded"))).

(** A world in which the image arrives and every endpoint times out. *)
Definition blind_world : Vision.World :=
  Vision.mkWorld (lit "https://wahubbd.salesmanchatbot.online") (lit "waha-key")
                 (fun _ => Ret (Vision.mkDownload (lit "aGk=") (Some (lit "image/png"))))
                 (fun _ => Ret (Some (Vision.mkKeyData (Some (lit "AIzaSy-pool-1")))))
                 (fun _ => Throw (PlainError (lit "timeout of 20000ms exceeded"))).

(** A world in which every completion comes without choices. *)
Definition empty_world : World :=
  mkWorld (fun _ => 0) None (lit "meta-llama/llama-3.1-8b-instruct:free")
          (fun _ => Ret (mkOwnApiData None None))
          (fun _ => Ret (mkCompletion (Some []) None))
          (fun _ => Ret None)
          (fun _ => Ret (Some pool_key))
          (fun _ => Ret tt).

(** A payload that carries a reply together with an error. *)
Definition reply_with_error : json :=
  JObj [ (lit "reply", JStr (lit "hi")); (lit "error", JStr (lit "x")) ].

End Samples.

Import Samples.

(* ================================================================== *)
(** * Further vocabulary *)
(* ================================================================== *)

Module Notions.

Import Engine.

(** The characters exchanged in a turn: the contents of the messages and
    the reply. *)
Definition chars (ms : list Message) (replyText : jsstring) : Z :=
  (fold_right (fun m acc => len (content m) + acc) 0 ms + len replyText)%Z.

(** A string without white space at either end. *)
Definition trimmed (s : jsstring) : Prop :=
  is_space (hd 0%N s) = false /\ is_space (last s 0%N) = false.

(** The payload by which the model asks for a product search. *)
Definition search_call (query : jsstring) : json :=
  JObj [ (lit "tool", JStr (lit "search_products")); (lit "query", JStr query) ].

(** The product search that the swarm runs for the tool call [parsed]. *)
Definition swarm_search_of (pc : PageConfig) (parsed : json) : Event :=
  ESearch Phase2 (user_id pc) (prop parsed (lit "query")) (page_id pc).

(** The product search of Phase 1 for the tool call [parsed]. *)
Definition user_search_of (pc : PageConfig) (parsed : json) : Event :=
  ESearch Phase1 (user_id pc) (prop parsed (lit "query")) (page_id pc).


(** The reply that [withReply] leaves in the response. *)
Definition reply_of (parsed : json) : value :=
  if truthy (prop parsed (lit "reply")) then prop parsed (lit "reply")
  else or_else (prop parsed (lit "response")) (prop parsed (lit "text")).

Definition is_surrogate (c : N) : bool := ((55296 <=? c) && (c <=? 57343))%N.

Definition plain_text (s : jsstring) : bool :=
  forallb (fun c => negb (is_surrogate c)) s.

(** A name that an object lists before the others, as an array index. *)
Definition index_like (k : jsstring) : bool :=
  match k with
  | [] => false
  | _ => forallb is_digit k
  end.

(** A parsed value that [JSON.stringify] writes back key by key and
    lexeme by lexeme: it holds no number (which is written anew from its
    value), no name that is an array index (which an object lists first)
    and no surrogate (which is escaped when it stands alone). *)
Fixpoint plain (j : json) : bool :=
  match j with
  | JNull | JBool _ => true
  | JNum _ => false
  | JStr s => plain_text s
  | JArr items => forallb plain items
  | JObj fields =>
      forallb (fun kv => plain_text (fst kv) && negb (index_like (fst kv))
                         && plain (snd kv)) fields
  end.

(** A tool call as the system prompt spells it, with its blanks. *)
Definition spaced_call (query : jsstring) : jsstring :=
  lit "{ " ++ quote (lit "tool") ++ lit ": " ++ quote (lit "search_products")
  ++ lit ", " ++ quote (lit "query") ++ lit ": " ++ quote query ++ lit " }".

(** A tool call inside a code fence. *)
Definition fenced_call (query : jsstring) : jsstring :=
  fence_json ++ [10%N] ++ spaced_call query ++ [10%N] ++ fence.

(** The first turn of the swarm after the history [h] gets the key [k]
    and, with it, the completion [c] whose first content is [raw]; the
    usage is recorded. *)
Definition swarm_turn (W : World) (pc : PageConfig) (ms : list Message)
           (h : list Event) (k : jsstring) (c : Completion) (raw : jsstring) : Prop :=
  (exists kd, smart_key W (h ++ [acquisition]) = Ret (Some kd)
              /\ usableKey (Some kd) = Some k)
  /\ infer W (h ++ [acquisition; inference pc ms k]) = Ret c
  /\ firstContent c = Ret raw
  /\ key_op W (h ++ [acquisition; inference pc ms k;
                     ERecordKeyUsage k (usage ms c raw)]) = Ret tt.

(** The calls of such a turn, before any tool call. *)
Definition swarm_calls (pc : PageConfig) (ms : list Message) (k : jsstring)
           (c : Completion) (raw : jsstring) : list Event :=
  [acquisition; inference pc ms k; ERecordKeyUsage k (usage ms c raw)].

(** The product search that the swarm runs for the query [q]. *)
Definition swarm_search (pc : PageConfig) (q : jsstring) : Event :=
  ESearch Phase2 (user_id pc) (str q) (page_id pc).

(** The messages of the re-query of Phase 1: the messages of the first
    call, the tool call, and the rows found. *)
Definition requery_messages (ms : list Message) (parsed : json)
           (products : option (list json)) : list Message :=
  ms
  ++ [ mkMessage (lit "assistant") (stringify parsed);
       mkMessage (lit "system")
         (lit "[System] Search Results: "
          ++ match products with
             | Some rows => stringify (JArr rows)
             | None => lit "null"
             end
          ++ lit ". Now answer the user in Bengali. IMPORTANT: If a product has an 'image_url', you MUST include it in the 'images' array of your JSON response.") ].

(** The product search of Phase 1 for the query [q]. *)
Definition user_search (pc : PageConfig) (q : jsstring) : Event :=
  ESearch Phase1 (user_id pc) (str q) (page_id pc).

(** The re-query of Phase 1 with the key [k]. *)
Definition requery (W : World) (pc : PageConfig) (ms : list Message) (k : jsstring)
           (parsed : json) (products : option (list json)) : Event :=
  EInfer Phase1Requery k (baseURLOf (providerOfKey W pc k))
         (or_default (chatmodel pc) (defaultModel W pc))
         (requery_messages ms parsed products) true.

(** A world in which every inference call answers with [content] and the
    product search answers with [found]. *)
Definition shop_world (content : jsstring) (found : Outcome (option (list json)))
  : World :=
  mkWorld (fun _ => 0) None (lit "meta-llama/llama-3.1-8b-instruct:free")
          (fun _ => Ret (mkOwnApiData (Some content) (Some 7%Z)))
          (fun _ => Ret (mkCompletion (Some [mkChoice (Some content)]) (Some 42%Z)))
          (fun _ => found)
          (fun _ => Ret (Some pool_key))
          (fun _ => Ret tt).

(** A product row with a picture. *)
Definition red_shirt : json :=
  JObj [ (lit "name", JStr (lit "Red Shirt"));
         (lit "price", JNum (lit "450"));
         (lit "image_url", JStr (lit "https://cdn.example/red.png")) ].

(** ** The vision chain *)

Definition is_download (ev : Vision.Event) : bool :=
  match ev with Vision.EDownload _ _ => true | _ => false end.

Definition is_post (ev : Vision.Event) : bool :=
  match ev with Vision.EPost _ _ _ _ _ _ => true | _ => false end.

(** Is the URL one of the WAHA server? *)
Definition waha_url (W : Vision.World) (url : jsstring) : bool :=
  includes url (Vision.WAHA_BASE_URL W)
  || includes url (lit "wahubbd.salesmanchatbot.online").

(** The request that a stage sends with the key [k]. *)
Definition stage_post (st : Vision.Stage) (prompt mimeType image k : jsstring)
  : Vision.Event :=
  if eqb (Vision.provider st) (lit "openrouter")
  then Vision.EPost (lit "https://openrouter.ai/api/v1/chat/completions") (Some k)
                    (Vision.model st) prompt mimeType image
  else Vision.EPost (lit "https://generativelanguage.googleapis.com/v1beta/models/"
                     ++ Vision.model st ++ lit ":generateContent?key=" ++ k)
                    None (Vision.model st) prompt mimeType image.

(** No key is to be had from the pool of the vision chain. *)
Definition no_vision_key (W : Vision.World) : Prop :=
  forall tr, match Vision.smart_key W tr with
             | Ret kd => Vision.key_of kd = None
             | Throw _ => True
             end.

(** A world of the vision chain in which the pool has a key and every
    endpoint describes the image. *)
Definition seeing_world : Vision.World :=
  Vision.mkWorld (lit "https://wahubbd.salesmanchatbot.online") (lit "waha-key")
                 (fun _ => Ret (Vision.mkDownload (lit "aGk=") (Some (lit "image/png"))))
                 (fun _ => Ret (Some (Vision.mkKeyData (Some (lit "AIzaSy-pool-1")))))
                 (fun _ => Ret (Vision.mkAnswer (Some (lit "A red shirt.")) (Some 12%Z))).

(** A world of the vision chain whose pool is empty. *)
Definition keyless_world : Vision.World :=
  Vision.mkWorld (lit "https://wahubbd.salesmanchatbot.online") (lit "waha-key")
                 (fun _ => Ret (Vision.mkDownload (lit "aGk=") (Some (lit "image/png"))))
                 (fun _ => Ret None)
                 (fun _ => Ret (Vision.mkAnswer (Some (lit "A red shirt.")) (Some 12%Z))).

End Notions.

(* ================================================================== *)
(** * The routes of the messenger pages ([router]) *)
(* ================================================================== *)

Module Router.

(** ** Data *)

(** A row of a table, as the database client hands it over: its columns
    in order. *)
Definition Row := list (jsstring * json).

(** [row.name] *)
Definition col (row : Row) (name : jsstring) : value := prop (JObj row) name.

(** [a === b] on the values that rows and users hold.  Two numbers are
    compared by their lexemes (the rows of a request come from one
    serializer, which writes a number in one way); two arrays or objects
    are distinct parsed values and never identical. *)
Definition strict_eq (a b : value) : bool :=
  match a, b with
  | Undefined, Undefined => true
  | Json JNull, Json JNull => true
  | Json (JBool x), Json (JBool y) => Bool.eqb x y
  | Json (JNum x), Json (JNum y) => eqb x y
  | Json (JStr x), Json (JStr y) => eqb x y
  | _, _ => false
  end.

(** [user] of [supabase.auth.getUser]. *)
Record User : Type := mkUser {
  user_id : value;
  user_email : value }.

(** [{ data: { user }, error }] *)
Record AuthReply : Type := mkAuthReply {
  user : option User;
  auth_error : bool }.

(** [{ data, error }] of a query; [error] is the message of the error. *)
Record Reply (A : Type) : Type := mkReply {
  data : option A;
  error : option jsstring }.

Arguments mkReply {A} data error.
Arguments data {A} r.
Arguments error {A} r.

(** The calls to the database client.  [EConfig id] and [EUpdate id _]
    filter on [parseInt(id, 10)]. *)
Inductive Event : Type :=
| EGetUser (token : jsstring)
| EOwnPages (email : value)
| ETeam (columns : jsstring) (member_email : value)
| EPagesIn (page_ids : list jsstring)
| EConfigsIn (page_ids : list value)
| EConfig (id : jsstring)
| EPage (page_id : value)
| EUpdate (id : jsstring) (updates : Row).

Record World : Type := mkWorld {
  get_user : list Event -> Outcome AuthReply;
  select_rows : list Event -> Outcome (Reply (list Row));
  select_one : list Event -> Outcome (Reply Row) }.

(** What a handler sends. *)
Inductive Body : Type :=
| BError (message : jsstring)
| BRows (rows : list Row)
| BRow (row : option Row).

Record Response : Type := mkResponse {
  status : Z;
  body : Body }.

(** [res.status(code).json({ error: message })] *)
Definition refuse (code : Z) (message : jsstring) : Response :=
  mkResponse code (BError message).

(** ** Helpers *)

(** [s.replace(p, '')] for a string pattern: the first occurrence goes. *)
Fixpoint removeFirst (p s : jsstring) : jsstring :=
  if startsWith s p then skipn (length p) s
  else match s with
       | [] => []
       | c :: s' => c :: removeFirst p s'
       end.

(** [authHeader.replace('Bearer ', '')] *)
Definition tokenOf (authHeader : jsstring) : jsstring :=
  removeFirst (lit "Bearer ") authHeader.

(** [permissions.fb_pages] of a row of [team_members] when [permissions]
    is truthy and [fb_pages] is an array; no pages otherwise.  The two
    routes spell this test differently ([row.permissions &&
    row.permissions.fb_pages] followed by [Array.isArray], and
    [t.permissions && Array.isArray(t.permissions.fb_pages)]), to the
    same effect. *)
Definition pagesOf (row : Row) : list json :=
  if truthy (col row (lit "permissions")) then
    match col row (lit "permissions") with
    | Json permissions =>
        match prop permissions (lit "fb_pages") with
        | Json (JArr pages) => pages
        | _ => []
        end
    | _ => []
    end
  else [].

(** [pages.map(id => String(id))] *)
Definition sharedIds (row : Row) : list jsstring := map Engine.toString (pagesOf row).

(** [pages.map(String).includes(String(pageId))] *)
Definition lists (pageId : value) (row : Row) : bool :=
  existsb (fun s => eqb s (Engine.display pageId)) (map Engine.toString (pagesOf row)).

(** [map.set(k, v)] on a [Map] kept as its entries in insertion order. *)
Fixpoint map_set (k : value) (v : Row) (m : list (value * Row)) : list (value * Row) :=
  match m with
  | [] => [(k, v)]
  | (k', v') :: m' =>
      if strict_eq k k' then (k, v) :: m' else (k', v') :: map_set k v m'
  end.

(** [Array.from(new Map(rows.map(item => [item.page_id, item])).values())] *)
Definition uniqueByPage (rows : list Row) : list Row :=
  map snd (fold_left (fun m r => map_set (col r (lit "page_id")) r m) rows []).

(** [{ ...a, ...b }] *)
Definition merge (a b : Row) : Row :=
  fold_left (fun o kv => obj_set (fst kv) (snd kv) o) b a.

(** The row of [/pages] for the page [p] (step 6). *)
Definition enhance (dbConfigs : list Row) (userEmail : value) (p : Row) : Row :=
  let dbInfo :=
    find (fun d => strict_eq (col d (lit "page_id")) (col p (lit "page_id"))) dbConfigs in
  obj_set (lit "is_shared") (JBool (negb (strict_eq (col p (lit "email")) userEmail)))
          (merge p (match dbInfo with Some d => d | None => [] end)).

(** The columns of a configuration that [PUT /config/:id] may change. *)
Definition allowedKeys : list jsstring :=
  [ lit "reply_message"; lit "swipe_reply"; lit "image_detection"; lit "image_send";
    lit "template"; lit "order_tracking"; lit "block_emoji"; lit "unblock_emoji";
    lit "check_conversion"; lit "text_prompt"; lit "image_prompt" ].

(** The loop that fills [updates] from the body of the request. *)
Definition updatesOf (requestBody : Row) : Row :=
  flat_map (fun key => match obj_get key requestBody with
                       | Some v => [(key, v)]
                       | None => []
                       end)
           allowedKeys.

Section Handlers.

Variable W : World.

Definition getUser (token : jsstring) : M Event AuthReply :=
  call (EGetUser token) (get_user W).

Definition rowsOf (ev : Event) : M Event (Reply (list Row)) := call ev (select_rows W).

Definition rowOf (ev : Event) : M Event (Reply Row) := call ev (select_one W).

(** [if (!error && data) ... = data], else the empty list. *)
Definition rowsOrNone (r : Reply (list Row)) : list Row :=
  match error r, data r with
  | None, Some rows => rows
  | _, _ => []
  end.

(** Step 3 of [/pages]: the pages that teams share with the user. *)
Definition fetchSharedPages (userEmail : value) : M Event (list Row) :=
  sharedPageIds <-
    (if truthy userEmail then
       team <- rowsOf (ETeam (lit "permissions, owner_email") userEmail) ;;
       ret (flat_map sharedIds (rowsOrNone team))
     else ret []) ;;
  match sharedPageIds with
  | [] => ret []
  | _ => shared <- rowsOf (EPagesIn sharedPageIds) ;; ret (rowsOrNone shared)
  end.

(** Step 5 of [/pages]: the configurations of the pages. *)
Definition fetchDbConfigs (allPageIds : list value) : M Event (list Row) :=
  match allPageIds with
  | [] => ret []
  | _ => found <- rowsOf (EConfigsIn allPageIds) ;; ret (rowsOrNone found)
  end.

(** [router.get('/pages', ...)] *)
Definition getPages (authHeader : option jsstring) : M Event Response :=
  try_catch
    (who <-
       (match Engine.nonempty authHeader with
        | Some header =>
            reply <- getUser (tokenOf header) ;;
            match user reply with
            | Some u => ret (user_id u, user_email u)
            | None => ret (Json JNull, Json JNull)
            end
        | None => ret (Json JNull, Json JNull)
        end) ;;
     let userId := fst who in
     let userEmail := snd who in
     if negb (truthy userId) then ret (refuse 401 (lit "Unauthorized"))
     else
       mine <- rowsOf (EOwnPages userEmail) ;;
       match error mine with
       | Some message => raise (PlainError message)
       | None =>
           sharedPages <- fetchSharedPages userEmail ;;
           let allPages :=
             (match data mine with Some rows => rows | None => [] end) ++ sharedPages in
           let uniquePages := uniqueByPage allPages in
           let allPageIds := map (fun p => col p (lit "page_id")) uniquePages in
           dbConfigs <- fetchDbConfigs allPageIds ;;
           ret (mkResponse 200 (BRows (map (enhance dbConfigs userEmail) uniquePages)))
       end)
    (fun e => ret (refuse 500 (err_message e))).

(** The part that [GET /config/:id] and [PUT /config/:id] share, word for
    word: who asks, which configuration, and whether they may.  [inr] is
    the configuration row of a request that is allowed. *)
Definition guard (id : jsstring) (authHeader : option jsstring)
  : M Event (Response + Row) :=
  match Engine.nonempty authHeader with
  | None => ret (inl (refuse 401 (lit "Unauthorized")))
  | Some header =>
      reply <- getUser (tokenOf header) ;;
      match (if auth_error reply then None else user reply) with
      | None => ret (inl (refuse 401 (lit "Invalid token")))
      | Some u =>
          let userEmail := user_email u in
          config <- rowOf (EConfig id) ;;
          match (match error config with Some _ => None | None => data config end) with
          | None => ret (inl (refuse 404 (lit "Config not found")))
          | Some configRow =>
              let pageId := col configRow (lit "page_id") in
              page <- rowOf (EPage pageId) ;;
              match error page with
              | Some message => ret (inl (refuse 500 message))
              | None =>
                  let owner :=
                    match data page with
                    | Some pageRow => strict_eq (col pageRow (lit "email")) userEmail
                    | None => false
                    end in
                  allowed <-
                    (if negb owner && truthy userEmail then
                       team <- rowsOf (ETeam (lit "permissions") userEmail) ;;
                       ret (existsb (lists pageId) (rowsOrNone team))
                     else ret owner) ;;
                  if allowed then ret (inr configRow)
                  else ret (inl (refuse 403 (lit "Forbidden")))
              end
          end
      end
  end.

(** [router.get('/config/:id', ...)] *)
Definition getConfig (id : jsstring) (authHeader : option jsstring) : M Event Response :=
  try_catch
    (checked <- guard id authHeader ;;
     match checked with
     | inl refusal => ret refusal
     | inr configRow => ret (mkResponse 200 (BRow (Some configRow)))
     end)
    (fun e => ret (refuse 500 (err_message e))).

(** [router.put('/config/:id', ...)] *)
Definition putConfig (id : jsstring) (authHeader : option jsstring) (requestBody : Row)
  : M Event Response :=
  try_catch
    (checked <- guard id authHeader ;;
     match checked with
     | inl refusal => ret refusal
     | inr _ =>
         updated <- rowOf (EUpdate id (updatesOf requestBody)) ;;
         match error updated with
         | Some message => ret (refuse 500 message)
         | None => ret (mkResponse 200 (BRow (data updated)))
         end
     end)
    (fun e => ret (refuse 500 (err_message e))).

End Handlers.

(** ** Vocabulary of the statements about the routes *)

(** No two of the rows are of the same page. *)
Definition distinct_pages (rows : list Row) : Prop :=
  ForallOrdPairs
    (fun a b => strict_eq (col a (lit "page_id")) (col b (lit "page_id")) = false) rows.

(** The entries of the [Map] of [/pages]: each under the page id of its
    row, no two under the same key. *)
Definition keyed (m : list (value * Row)) : Prop :=
  Forall (fun kv => fst kv = col (snd kv) (lit "page_id")) m.

Definition apart (m : list (value * Row)) : Prop :=
  ForallOrdPairs (fun a b => strict_eq (fst a) (fst b) = false) m.

(** The page row names the e-mail address as its owner. *)
Definition owns (pageRow : option Row) (email : value) : Prop :=
  exists row, pageRow = Some row /\ strict_eq (col row (lit "email")) email = true.

(** One of the team rows lists the page among its pages. *)
Definition shares (team : list Row) (pageId : value) : Prop :=
  exists t p, In t team /\ In p (pagesOf t)
              /\ Engine.toString p = Engine.display pageId.

(** The shared part of the [/config] routes has let through, after the
    history [h] and with the calls [es], the request for the
    configuration [configRow]: the token of the header names a user, the
    configuration [id] exists, and the user owns its page or is on a team
    that lists the page. *)
Definition admitted (W : World) (h : list Event) (id : jsstring)
           (authHeader : option jsstring) (configRow : Row) (es : list Event) : Prop :=
  exists header reply u config page,
    Engine.nonempty authHeader = Some header
    /\ get_user W (h ++ [EGetUser (tokenOf header)]) = Ret reply
    /\ auth_error reply = false /\ user reply = Some u
    /\ select_one W (h ++ [EGetUser (tokenOf header); EConfig id]) = Ret config
    /\ error config = None /\ data config = Some configRow
    /\ select_one W (h ++ [EGetUser (tokenOf header); EConfig id;
                           EPage (col configRow (lit "page_id"))]) = Ret page
    /\ error page = None
    /\ ((owns (data page) (user_email u)
         /\ es = [EGetUser (tokenOf header); EConfig id;
                  EPage (col configRow (lit "page_id"))])
        \/ (truthy (user_email u) = true
            /\ exists team,
                select_rows W (h ++ [EGetUser (tokenOf header); EConfig id;
                                     EPage (col configRow (lit "page_id"));
                                     ETeam (lit "permissions") (user_email u)])
                = Ret team
                /\ shares (rowsOrNone team) (col configRow (lit "page_id"))
                /\ es = [EGetUser (tokenOf header); EConfig id;
                         EPage (col configRow (lit "page_id"));
                         ETeam (lit "permissions") (user_email u)])).

Definition is_update (ev : Event) : bool :=
  match ev with EUpdate _ _ => true | _ => false end.

(** The team query of [/pages]. *)
Definition team_query (userEmail : value) : Event :=
  ETeam (lit "permissions, owner_email") userEmail.

(** The pages that teams share with the user of [userEmail], as step 3
    of [/pages] reads them after the history [h], with the calls [es]:
    none without an address, none when no active team of the user lists a
    page; else the rows that the database returns for the page ids that
    the teams of the user list. *)
Definition shared_with (W : World) (h : list Event) (userEmail : value)
           (shared : list Row) (es : list Event) : Prop :=
  (truthy userEmail = false /\ shared = [] /\ es = [])
  \/ (truthy userEmail = true
      /\ exists team,
           select_rows W (h ++ [team_query userEmail]) = Ret team
           /\ let ids := flat_map sharedIds (rowsOrNone team) in
              (ids = [] /\ shared = [] /\ es = [team_query userEmail])
              \/ (ids <> []
                  /\ exists found,
                       select_rows W (h ++ [team_query userEmail; EPagesIn ids])
                       = Ret found
                       /\ shared = rowsOrNone found
                       /\ es = [team_query userEmail; EPagesIn ids])).

(** The configurations that step 5 of [/pages] reads for [pages] after
    the history [h], with the calls [es]. *)
Definition configs_of (W : World) (h : list Event) (pages : list Row)
           (configs : list Row) (es : list Event) : Prop :=
  let ids := map (fun p => col p (lit "page_id")) pages in
  (ids = [] /\ configs = [] /\ es = [])
  \/ (ids <> []
      /\ exists found,
           select_rows W (h ++ [EConfigsIn ids]) = Ret found
           /\ configs = rowsOrNone found
           /\ es = [EConfigsIn ids]).

(** ** Samples *)

Definition alice : User :=
  mkUser (Json (JStr (lit "u-1"))) (Json (JStr (lit "alice@example.com"))).

Definition config_7 : Row :=
  [ (lit "id", JNum (lit "7")); (lit "page_id", JStr (lit "1001"));
    (lit "text_prompt", JStr (lit "Be brief.")) ].

Definition page_1001 (owner : jsstring) : Row :=
  [ (lit "page_id", JStr (lit "1001")); (lit "email", JStr owner) ].

(** A database with the configuration 7 of the page 1001 owned by
    [owner], without teams, in which every token is the one of Alice. *)
Definition office (owner : jsstring) : World :=
  mkWorld (fun _ => Ret (mkAuthReply (Some alice) false))
          (fun _ => Ret (mkReply (Some []) None))
          (fun h => match last h (EGetUser []) with
                    | EConfig _ => Ret (mkReply (Some config_7) None)
                    | EPage _ => Ret (mkReply (Some (page_1001 owner)) None)
                    | EUpdate _ updates => Ret (mkReply (Some (merge config_7 updates)) None)
                    | _ => Ret (mkReply None None)
                    end).

(** A database in which Alice owns the page 1001 and is on a team that
    shares the pages 1001 and 2002 of Bob. *)
Definition team_of_bob : Row :=
  [ (lit "permissions",
     JObj [ (lit "fb_pages", JArr [JStr (lit "1001"); JNum (lit "2002")]) ]);
    (lit "owner_email", JStr (lit "bob@example.com")) ].

Definition page_2002 : Row :=
  [ (lit "page_id", JStr (lit "2002")); (lit "email", JStr (lit "bob@example.com")) ].

Definition directory : World :=
  mkWorld (fun _ => Ret (mkAuthReply (Some alice) false))
          (fun h => match last h (EGetUser []) with
                    | EOwnPages _ =>
                        Ret (mkReply (Some [page_1001 (lit "alice@example.com")]) None)
                    | ETeam _ _ => Ret (mkReply (Some [team_of_bob]) None)
                    | EPagesIn _ =>
                        Ret (mkReply (Some [page_1001 (lit "alice@example.com");
                                            page_2002]) None)
                    | EConfigsIn _ => Ret (mkReply (Some [config_7]) None)
                    | _ => Ret (mkReply None None)
                    end)
          (fun _ => Ret (mkReply None None)).

End Router.

(* ================================================================== *)
(** * The audio chain ([transcribeAudio]) *)
(* ================================================================== *)

Module Audio.

(** The header that authenticates the download. *)
Inductive Auth : Type :=
| NoAuth
| WahaKey (apiKey : jsstring)
| FacebookToken (token : jsstring).

(** The calls that leave the process.  [audio] is the downloaded buffer,
    which the requests carry in base64 or as a file. *)
Inductive Event : Type :=
| EDownload (url : jsstring) (auth : Auth)
| EGetSmartKey (provider model : jsstring)
| EPostGemini (url mimeType : jsstring) (audio : list N)
| EPostGroq (bearer filename mimeType : jsstring) (audio : list N)
| ELogDebug (msg : jsstring).

(** What the download resolves to: the bytes and the content type. *)
Record Download : Type := mkDownload {
  bytes : list N;
  content_type : option jsstring }.

(** What the Gemini endpoint answers: the text of the first part of the
    first candidate, and the token count. *)
Record Answer : Type := mkAnswer {
  answer_text : option jsstring;
  answer_tokens : option Z }.

Record KeyData : Type := mkKeyData {
  key : option jsstring }.

Record World : Type := mkWorld {
  WAHA_BASE_URL : jsstring;
  WAHA_API_KEY : jsstring;
  best_free_voice : jsstring;          (* bestFreeModels.voice *)
  download : list Event -> Outcome Download;
  smart_key : list Event -> Outcome (option KeyData);
  post_gemini : list Event -> Outcome Answer;
  post_groq : list Event -> Outcome (option jsstring) }.  (* res.data.text *)

(** What the function returns: a bare string, or [{ text, usage }]. *)
Inductive Result : Type :=
| Text (s : jsstring)
| Transcribed (text : jsstring) (usage : Z).

(** An entry of [priorityChain]. *)
Record Option_ : Type := mkOption {
  provider : jsstring;
  model : jsstring }.

Definition key_of (kd : option KeyData) : option jsstring :=
  match kd with
  | Some d => Engine.nonempty (key d)
  | None => None
  end.

(** The MIME type sent on, from the content type of the download. *)
Definition audioMime (contentType : jsstring) : jsstring :=
  if includes contentType (lit "opus") || includes contentType (lit "ogg")
  then lit "audio/ogg"
  else if includes contentType (lit "mp3") || includes contentType (lit "mpeg")
  then lit "audio/mp3"
  else if includes contentType (lit "wav") then lit "audio/wav"
  else if includes contentType (lit "aac") then lit "audio/aac"
  else lit "audio/ogg".

(** [mimeType.split('/')[1]], [undefined] as a template would print it. *)
Definition extension (mimeType : jsstring) : jsstring :=
  match split 47 mimeType with
  | _ :: ext :: _ => ext
  | _ => lit "undefined"
  end.

Section Chain.

Variable W : World.
Variable page_access_token : option jsstring.

Definition logDebug (msg : jsstring) : M Event unit :=
  call (ELogDebug msg) (fun _ => Ret tt).

Definition getSmartKey (provider model : jsstring) : M Event (option KeyData) :=
  call (EGetSmartKey provider model) (smart_key W).

(** Step 1 (lines 1460-1477): the audio and its MIME type. *)
Definition fetch (audioUrl : jsstring) : M Event (list N * jsstring) :=
  let auth :=
    if includes audioUrl (WAHA_BASE_URL W) then WahaKey (WAHA_API_KEY W)
    else match (if includes audioUrl (lit "graph.facebook.com")
                then Engine.nonempty page_access_token else None) with
         | Some token => FacebookToken token
         | None => NoAuth
         end in
  response <- call (EDownload audioUrl auth) (download W) ;;
  let audioBuffer := bytes response in
  let contentType := Engine.or_default (content_type response) (lit "audio/ogg") in
  let mimeType := audioMime contentType in
  logDebug (lit "[Audio] Downloaded. Size: " ++ Engine.decimal (length audioBuffer)
            ++ lit ", Type: " ++ mimeType) ;;;
  ret (audioBuffer, mimeType).

(** The body of the loop over [priorityChain] for one option: [Some r]
    when the function returns [r], [None] when the loop goes on. *)
Definition tryOption (opt : Option_) (audioBuffer : list N) (mimeType : jsstring)
  : M Event (option Result) :=
  try_catch
    (if eqb (provider opt) (lit "openrouter")
        && negb (includes (model opt) (lit "gemini"))
        && negb (includes (model opt) (lit "claude"))
     then ret None
     else
       keyData <- getSmartKey (provider opt) (model opt) ;;
       match key_of keyData with
       | None => ret None
       | Some apiKey =>
           if eqb (provider opt) (lit "google")
              || includes (model opt) (lit "google/gemini")
           then
             if eqb (provider opt) (lit "openrouter") then ret None
             else
               let url := lit "https://generativelanguage.googleapis.com/v1beta"
                          ++ lit "/models/" ++ model opt
                          ++ lit ":generateContent?key=" ++ apiKey in
               res <- call (EPostGemini url mimeType audioBuffer) (post_gemini W) ;;
               match Engine.nonempty (answer_text res) with
               | Some text =>
                   ret (Some (Transcribed
                                (trim text)
                                (match answer_tokens res with
                                 | Some n => n
                                 | None => 0%Z
                                 end)))
               | None => ret None
               end
           else ret None
       end)
    (fun _ => ret None).

Fixpoint tryOptions (options : list Option_) (audioBuffer : list N)
         (mimeType : jsstring) : M Event (option Result) :=
  match options with
  | [] => ret None
  | opt :: rest =>
      r <- tryOption opt audioBuffer mimeType ;;
      match r with
      | Some result => ret (Some result)
      | None => tryOptions rest audioBuffer mimeType
      end
  end.

Definition priorityChain : list Option_ :=
  [ mkOption (lit "google") (lit "gemini-2.5-flash");
    mkOption (lit "google") (lit "gemini-2.5-flash-lite");
    mkOption (lit "openrouter") (best_free_voice W) ].

(** Step 3 (lines 1533-1561): the speech-to-text endpoint of Groq. *)
Definition whisper (audioBuffer : list N) (mimeType : jsstring)
  : M Event (option Result) :=
  try_catch
    (keyData <- getSmartKey (lit "groq") (lit "whisper-large-v3") ;;
     match key_of keyData with
     | None => ret (Some (Transcribed (lit "[Audio Message]") 0))
     | Some apiKey =>
         text <- call (EPostGroq apiKey (lit "audio." ++ extension mimeType)
                                 mimeType audioBuffer)
                      (post_groq W) ;;
         match Engine.nonempty text with
         | Some t => ret (Some (Transcribed t 0))
         | None => ret None
         end
     end)
    (fun _ => ret None).

(** Steps 2 and 3 (lines 1483-1564): the priority chain, the fallback,
    and the sentinel of a total failure. *)
Definition transcribeFrom (audioBuffer : list N) (mimeType : jsstring)
  : M Event Result :=
  first <- tryOptions priorityChain audioBuffer mimeType ;;
  match first with
  | Some result => ret result
  | None =>
      second <- whisper audioBuffer mimeType ;;
      match second with
      | Some result => ret result
      | None => ret (Transcribed (lit "[Audio Message (Transcription Failed)]") 0)
      end
  end.

(** [transcribeAudio(audioUrl, config)] *)
Definition transcribeAudio (audioUrl : jsstring) : M Event Result :=
  audio <-
    try_catch
      (a <- fetch audioUrl ;; ret (Some a))
      (fun _ => ret None) ;;
  match audio with
  | None => ret (Text (lit "[Audio Download Failed]"))
  | Some (audioBuffer, mimeType) => transcribeFrom audioBuffer mimeType
  end.

End Chain.

(** ** Vocabulary of the statements about the audio chain *)

Definition is_post (ev : Event) : bool :=
  match ev with
  | EPostGemini _ _ _ | EPostGroq _ _ _ _ => true
  | _ => false
  end.

Definition supported : list jsstring :=
  [ lit "audio/ogg"; lit "audio/mp3"; lit "audio/wav"; lit "audio/aac" ].

Definition google_models : jsstring :=
  lit "https://generativelanguage.googleapis.com/v1beta/models/".

(** A request to the Gemini endpoint of Google for one of the two named
    models, or a request to the speech-to-text endpoint of Groq. *)
Definition known_request (ev : Event) : Prop :=
  match ev with
  | EPostGemini url mimeType _ =>
      (exists k, url = google_models ++ lit "gemini-2.5-flash"
                       ++ lit ":generateContent?key=" ++ k
                 \/ url = google_models ++ lit "gemini-2.5-flash-lite"
                          ++ lit ":generateContent?key=" ++ k)
      /\ In mimeType supported
  | EPostGroq _ filename mimeType _ =>
      In mimeType supported /\ filename = lit "audio." ++ extension mimeType
  | _ => True
  end.

(** A world in which the audio arrives as MPEG, the pool has a key for
    everything, Gemini answers nothing and Groq transcribes. *)
Definition studio : World :=
  mkWorld (lit "https://wahubbd.salesmanchatbot.online") (lit "waha-key")
          (lit "google/gemini-2.0-flash-exp:free")
          (fun _ => Ret (mkDownload [73; 68; 51]%N (Some (lit "audio/mpeg"))))
          (fun _ => Ret (Some (mkKeyData (Some (lit "key-1")))))
          (fun _ => Ret (mkAnswer None None))
          (fun _ => Ret (Some (lit "hello"))).

(** A world in which the audio cannot be downloaded. *)
Definition offline : World :=
  mkWorld (lit "https://wahubbd.salesmanchatbot.online") (lit "waha-key")
          (lit "meta-llama/llama-3.1-8b-instruct:free")
          (fun _ => Throw (PlainError (lit "Request failed with status code 404")))
          (fun _ => Ret (Some (mkKeyData (Some (lit "key-1")))))
          (fun _ => Ret (mkAnswer None None))
          (fun _ => Ret (Some (lit "hello"))).

End Audio.

(* ================================================================== *)
(** * The picture of a link ([fetchOgImage]) *)
(* ================================================================== *)

Module OgImage.

(** What [axios.get(url)] resolves to: [response.data] when it is a
    string. *)
Inductive Event : Type :=
| EGet (url : jsstring).

Record World : Type := mkWorld {
  get : list Event -> Outcome (option jsstring) }.

(** The class of the two quotes. *)
Definition is_quote (c : N) : bool := ((c =? 34) || (c =? 39))%N.

(** One of the three patterns at the head of [s]: the text [a], a quote,
    the text [b], a quote, the text [c], a quote, then as many units that
    are no quote as there are, at least one, then a quote.  The texts
    match without regard to case; the result is the group. *)
Definition tag_at (a b c : jsstring) (s : jsstring) : option jsstring :=
  if matchesAt true s a then
    match skipn (length a) s with
    | q1 :: s1 =>
        if is_quote q1 && matchesAt true s1 b then
          match skipn (length b) s1 with
          | q2 :: s2 =>
              if is_quote q2 && matchesAt true s2 c then
                match skipn (length c) s2 with
                | q3 :: s3 =>
                    if is_quote q3 then
                      match span (fun x => negb (is_quote x)) s3 with
                      | (x :: group, _ :: _) => Some (x :: group)
                      | _ => None
                      end
                    else None
                | [] => None
                end
              else None
          | [] => None
          end
        else None
    | [] => None
    end
  else None.

(** [html.match(pattern)]: group 1 of the leftmost match. *)
Fixpoint tag (a b c : jsstring) (s : jsstring) : option jsstring :=
  match tag_at a b c s with
  | Some g => Some g
  | None =>
      match s with
      | [] => None
      | _ :: s' => tag a b c s'
      end
  end.

Definition og_image (html : jsstring) : option jsstring :=
  tag (lit "<meta property=") (lit "og:image") (lit " content=") html.

Definition twitter_image (html : jsstring) : option jsstring :=
  tag (lit "<meta name=") (lit "twitter:image") (lit " content=") html.

Definition image_src (html : jsstring) : option jsstring :=
  tag (lit "<link rel=") (lit "image_src") (lit " href=") html.

(** [fetchOgImage(url)]; [None] is [null]. *)
Definition fetchOgImage (W : World) (url : jsstring) : M Event (option jsstring) :=
  try_catch
    (data <- call (EGet url) (get W) ;;
     match data with
     | None => ret None
     | Some html =>
         match og_image html with
         | Some u => ret (Some u)
         | None =>
             match twitter_image html with
             | Some u => ret (Some u)
             | None =>
                 match image_src html with
                 | Some u => ret (Some u)
                 | None => ret None
                 end
             end
         end
     end)
    (fun _ => ret None).

(** ** Vocabulary *)

(** What a group of a pattern is: a piece of the page that is not empty,
    holds no quote and is closed by one. *)
Definition quoted_in (html u : jsstring) : Prop :=
  exists pre q post,
    html = pre ++ u ++ q :: post /\ is_quote q = true /\
    u <> [] /\ Forall (fun c => is_quote c = false) u.

(** ** Samples *)

(** A page that names a picture for Twitter first and one for Open Graph
    after it. *)
Definition two_pictures : jsstring :=
  lit "<head><meta name='twitter:image' content='https://cdn.example/t.png'>"
  ++ lit "<META PROPERTY='og:image' content='https://cdn.example/og.png'></head>".

Definition site (html : jsstring) : World := mkWorld (fun _ => Ret (Some html)).

End OgImage.

(* ================================================================== *)
(** * The choice of the free models ([updateBestFreeModels]) *)
(* ================================================================== *)

Module Optimizer.

(** [m.pricing], when it is truthy. *)
Record Pricing : Type := mkPricing {
  prompt : value;
  completion : value }.

(** An entry of the list of OpenRouter, with the fields the function
    reads.  [id] is [None] when the entry has none; [context_length] is a
    whole number or missing; [modality] is [m.architecture?.modality]. *)
Record Model : Type := mkModel {
  id : option jsstring;
  name : value;
  context_length : option Z;
  modality : value;
  description : value;
  pricing : option Pricing }.

(** An entry of [candidates], which the prompt carries as JSON. *)
Record Candidate : Type := mkCandidate {
  c_id : option jsstring;
  c_name : value;
  c_context : option Z;
  c_modality : value;
  c_description : value }.

(** [bestFreeModels] *)
Record Best : Type := mkBest {
  text : value;
  vision : value;
  voice : value }.

Record KeyData : Type := mkKeyData {
  key : option jsstring }.

(** The calls that leave the process.  The prompt of [EAsk] is a fixed
    text around [JSON.stringify(candidates)]. *)
Inductive Event : Type :=
| EGetModels
| EGetSmartKey (provider model : jsstring)
| EAsk (apiKey baseURL model : jsstring) (candidates : list Candidate)
       (json_format : bool).

(** [models] answers with [response.data.data] when it is an array;
    [ask] with [completion.choices[0].message.content] when it is a
    string. *)
Record World : Type := mkWorld {
  models : list Event -> Outcome (option (list Model));
  smart_key : list Event -> Outcome (option KeyData);
  ask : list Event -> Outcome (option jsstring) }.

(** [v === "0" || v === 0] *)
Definition is_zero (v : value) : bool :=
  is_the_string v (lit "0")
  || match v with
     | Json (JNum lx) => zero_lexeme lx
     | Num z => (z =? 0)%Z
     | _ => false
     end.

(** The predicate of the filter; reading [includes] of a missing [id]
    throws. *)
Definition isFree (m : Model) : Outcome bool :=
  match pricing m with
  | None => Ret false
  | Some p =>
      if is_zero (prompt p) && is_zero (completion p) then
        match id m with
        | Some s => Ret (negb (includes s (lit "gemini-2.0")))
        | None =>
            Throw (TypeError (lit "Cannot read properties of undefined (reading 'includes')"))
        end
      else Ret false
  end.

Fixpoint freeOf (l : list Model) : Outcome (list Model) :=
  match l with
  | [] => Ret []
  | m :: rest =>
      match isFree m with
      | Throw e => Throw e
      | Ret keep =>
          match freeOf rest with
          | Throw e => Throw e
          | Ret ms => Ret (if keep then m :: ms else ms)
          end
      end
  end.

(** [m.context_length || 0] *)
Definition context (m : Model) : Z :=
  match context_length m with
  | Some z => z
  | None => 0%Z
  end.

(** [sort((a, b) => context(b) - context(a))]: the longest context first,
    equal ones in the order they had. *)
Fixpoint insert (m : Model) (sorted : list Model) : list Model :=
  match sorted with
  | [] => [m]
  | y :: rest =>
      if (context m <? context y)%Z then y :: insert m rest else m :: sorted
  end.

Definition sort (l : list Model) : list Model := fold_right insert [] l.

Definition candidate (m : Model) : Candidate :=
  mkCandidate (id m) (name m) (context_length m)
              (or_else (modality m) (Json (JStr (lit "text"))))
              (description m).

Definition key_of (kd : option KeyData) : option jsstring :=
  match kd with
  | Some d => Engine.nonempty (key d)
  | None => None
  end.

Definition has (needle : string) (m : Model) : bool :=
  match id m with
  | Some s => includes s (lit needle)
  | None => false
  end.

(** [/gemini|llama-3|mistral|qwen/i.test(m.id)] *)
Definition reliable (m : Model) : bool :=
  match id m with
  | Some s =>
      occurs true s (lit "gemini") || occurs true s (lit "llama-3")
      || occurs true s (lit "mistral") || occurs true s (lit "qwen")
  | None => false
  end.

Definition id_of (m : Model) : value :=
  match id m with
  | Some s => Json (JStr s)
  | None => Undefined
  end.

(** The choice by rule (lines 408-414), from the sorted free models;
    [freeModels[0]] is missing in an empty list, and reading its [id]
    throws. *)
Definition ruleBased (freeModels : list Model) : Outcome Best :=
  let or_first (found : option Model) : option Model :=
    match found with
    | Some m => Some m
    | None => hd_error freeModels
    end in
  let bestText :=
    or_first (find (fun m => reliable m && negb (has "vision" m)) freeModels) in
  let bestVision :=
    or_first (find (fun m => has "gemini-2.5" m || has "qwen-2.5" m) freeModels) in
  let bestVoice :=
    match find (fun m => has "flash" m && has "gemini" m) freeModels with
    | Some m => Some m
    | None => bestText
    end in
  match bestText, bestVision, bestVoice with
  | Some t, Some v, Some o => Ret (mkBest (id_of t) (id_of v) (id_of o))
  | _, _, _ => Throw (TypeError (lit "Cannot read properties of undefined (reading 'id')"))
  end.

Definition gemini_url : jsstring :=
  lit "https://generativelanguage.googleapis.com/v1beta/openai/".

Section Update.

Variable W : World.

(** The choice by Gemini (lines 355-402). *)
Definition askGemini (candidates : list Candidate) : M Event Best :=
  keyData <- call (EGetSmartKey (lit "google") (lit "gemini-2.5-flash")) (smart_key W) ;;
  match key_of keyData with
  | None => raise (PlainError (lit "No Gemini keys available for optimizer."))
  | Some apiKey =>
      content <- call (EAsk apiKey gemini_url (lit "gemini-2.5-flash") candidates true)
                      (ask W) ;;
      match content with
      | None => raise (SyntaxError (lit "Unexpected token"))
      | Some answer =>
          match JSON_parse answer with
          | None => raise (SyntaxError (lit "Unexpected token"))
          | Some JNull =>
              raise (TypeError (lit "Cannot read properties of null (reading 'text')"))
          | Some result =>
              if truthy (prop result (lit "text"))
                 && truthy (prop result (lit "vision"))
                 && truthy (prop result (lit "voice"))
              then ret (mkBest (prop result (lit "text"))
                               (prop result (lit "vision"))
                               (prop result (lit "voice")))
              else raise (PlainError (lit "Invalid JSON structure from Gemini"))
          end
      end
  end.

(** [updateBestFreeModels()], from the value of [bestFreeModels] to its
    value afterwards. *)
Definition updateBestFreeModels (best : Best) : M Event Best :=
  try_catch
    (listed <- call EGetModels (models W) ;;
     match listed with
     | None => raise (PlainError (lit "Invalid response format"))
     | Some all =>
         filtered <- lift (freeOf all) ;;
         match filtered with
         | [] => ret best
         | _ :: _ =>
             let freeModels := sort filtered in
             try_catch (askGemini (map candidate freeModels))
                       (fun _ => lift (ruleBased freeModels))
         end
     end)
    (fun _ => ret best).

End Update.

(** ** Vocabulary *)

(** The value is the id of an entry of the list that costs nothing and is
    not of the Gemini 2.0 family. *)
Definition free_id (all : list Model) (v : value) : Prop :=
  exists m p s,
    In m all /\ pricing m = Some p /\
    is_zero (prompt p) = true /\ is_zero (completion p) = true /\
    id m = Some s /\ includes s (lit "gemini-2.0") = false /\
    v = Json (JStr s).

(** The request that asks Gemini to choose among [freeModels]. *)
Definition key_request : Event := EGetSmartKey (lit "google") (lit "gemini-2.5-flash").

Definition choice_request (apiKey : jsstring) (freeModels : list Model) : Event :=
  EAsk apiKey gemini_url (lit "gemini-2.5-flash") (map candidate freeModels) true.

(** After the history [h], Gemini is asked with the key [apiKey] that the
    pool hands out and answers with the text [answer]. *)
Definition gemini_answers (W : World) (h : list Event) (freeModels : list Model)
           (apiKey answer : jsstring) : Prop :=
  exists keyData,
    smart_key W (h ++ [key_request]) = Ret keyData
    /\ key_of keyData = Some apiKey
    /\ ask W (h ++ [key_request; choice_request apiKey freeModels]) = Ret (Some answer).

(** The answer is JSON with a truthy [text], [vision] and [voice]. *)
Definition names_three (answer : jsstring) (best : Best) : Prop :=
  exists result,
    JSON_parse answer = Some result
    /\ best = mkBest (prop result (lit "text")) (prop result (lit "vision"))
                     (prop result (lit "voice"))
    /\ truthy (text best) = true /\ truthy (vision best) = true
    /\ truthy (voice best) = true.

(** The choice is the one Gemini made: [best] holds the three fields of
    the answer that the world gave to the request made after [h]. *)
Definition chosen_by_gemini (W : World) (h : list Event) (freeModels : list Model)
           (es : list Event) (best : Best) : Prop :=
  exists apiKey answer,
    gemini_answers W h freeModels apiKey answer
    /\ names_three answer best
    /\ es = [key_request; choice_request apiKey freeModels].

(** The choice is the one by rule: Gemini was not asked, or did not give
    an answer that names three models. *)
Definition chosen_by_rule (W : World) (h : list Event) (freeModels : list Model)
           (es : list Event) (best : Best) : Prop :=
  ruleBased freeModels = Ret best
  /\ (forall apiKey answer,
         gemini_answers W h freeModels apiKey answer ->
         forall b, ~ names_three answer b)
  /\ (es = [key_request]
      \/ exists apiKey, es = [key_request; choice_request apiKey freeModels]).

(** ** Samples *)

Definition free : option Pricing :=
  Some (mkPricing (Json (JStr (lit "0"))) (Json (JStr (lit "0")))).

Definition paid : option Pricing :=
  Some (mkPricing (Json (JStr (lit "0.000002"))) (Json (JStr (lit "0.000004")))).

Definition entry (i : string) (ctx : Z) (p : option Pricing) : Model :=
  mkModel (Some (lit i)) Undefined (Some ctx) Undefined Undefined p.

Definition catalogue : list Model :=
  [ entry "openai/gpt-4o" 128000 paid;
    entry "google/gemini-2.0-flash-exp:free" 1000000 free;
    entry "qwen/qwen-2.5-vl-7b-instruct:free" 32000 free;
    entry "mistralai/mistral-7b-instruct:free" 32000 free ].

(** The list is served and no key of Gemini is at hand. *)
Definition keyless : World :=
  mkWorld (fun _ => Ret (Some catalogue)) (fun _ => Ret None) (fun _ => Ret None).

Definition defaults : Best :=
  mkBest (Json (JStr (lit "meta-llama/llama-3.1-8b-instruct:free")))
         (Json (JStr (lit "qwen/qwen-2.5-vl-7b-instruct:free")))
         (Json (JStr (lit "meta-llama/llama-3.1-8b-instruct:free"))).

(** What Gemini is made to answer: for text a model that is not free. *)
Definition advice : json :=
  JObj [ (lit "text", JStr (lit "openai/gpt-4o"));
         (lit "vision", JStr (lit "qwen/qwen-2.5-vl-7b-instruct:free"));
         (lit "voice", JStr (lit "mistralai/mistral-7b-instruct:free")) ].

(** The list is served, the pool has a key and Gemini answers. *)
Definition advised : World :=
  mkWorld (fun _ => Ret (Some catalogue))
          (fun _ => Ret (Some (mkKeyData (Some (lit "AIzaSy-pool-1")))))
          (fun _ => Ret (Some (stringify advice))).

End Optimizer.

(* ================================================================== *)
(** * The wrapper of the controllers ([generateResponse]) *)
(* ================================================================== *)

Module Wrapper.

Section Response.

(** The object passed as [config] and the one read from the database,
    with the field the wrapper looks at. *)
Variable Config : Type.
Variable text_prompt : Config -> value.

(** The calls that leave the process. *)
Inductive Event : Type :=
| EGetPagePrompts (pageId : value)
| EContact (phone_number session_name : value).

(** [page_prompts] answers with the row, [None] for [null]; [contact]
    with [data.name], [None] when [data] is [null]. *)
Record World : Type := mkWorld {
  page_prompts : list Event -> Outcome (option Config);
  contact : list Event -> Outcome (option value) }.

(** The arguments of the call of [generateReply] the wrapper ends with
    that it computes; the others are passed on as they came. *)
Record ReplyCall : Type := mkReplyCall {
  call_pageConfig : option Config;
  call_pagePrompts : option Config;
  call_senderName : value }.

Variable W : World.

(** Lines 500-512. *)
Definition resolvePrompts (pageId : value) (config : option Config)
           (platform : value) : M Event (option Config) :=
  fetch <- (if is_the_string platform (lit "messenger") then ret true
            else match config with
                 | Some c => ret (negb (truthy (text_prompt c)))
                 | None =>
                     raise (TypeError
                       (lit "Cannot read properties of null (reading 'text_prompt')"))
                 end) ;;
  if fetch : bool
  then try_catch (call (EGetPagePrompts pageId) (page_prompts W))
                 (fun _ => ret config)
  else ret config.

(** Lines 515-532. *)
Definition resolveSender (pageId userId platform : value)
           (explicitSenderName : option jsstring) : M Event value :=
  let senderName :=
    match Engine.nonempty explicitSenderName with
    | Some n => Json (JStr n)
    | None => userId
    end in
  let lookup :=
    match Engine.nonempty explicitSenderName with
    | Some n => eqb n (lit "Unknown")
    | None => true
    end in
  if lookup then
    try_catch
      (if is_the_string platform (lit "whatsapp") then
         data <- call (EContact userId pageId) (contact W) ;;
         match data with
         | Some name =>
             if truthy name && negb (is_the_string name (lit "Unknown"))
             then ret name else ret senderName
         | None => ret senderName
         end
       else ret senderName)
      (fun _ => ret senderName)
  else ret senderName.

(** [generateResponse({ pageId, userId, config, platform, senderName })]
    up to the call of [generateReply] it returns. *)
Definition generateResponse (pageId userId : value) (config : option Config)
           (platform : value) (explicitSenderName : option jsstring)
  : M Event ReplyCall :=
  pagePrompts <- resolvePrompts pageId config platform ;;
  senderName <- resolveSender pageId userId platform explicitSenderName ;;
  ret (mkReplyCall config pagePrompts senderName).

End Response.

Arguments call_pageConfig {Config} r.
Arguments call_pagePrompts {Config} r.
Arguments call_senderName {Config} r.

(** ** Vocabulary *)

Definition unknown : value := Json (JStr (lit "Unknown")).

(** ** Samples *)

(** A number of WhatsApp and a session. *)
Definition phone : value := Json (JStr (lit "8801700000000")).
Definition session : value := Json (JStr (lit "shop-session")).


(** Both lookups fail. *)
Definition down : World jsstring :=
  mkWorld jsstring (fun _ => Throw (PlainError (lit "connect ETIMEDOUT")))
            (fun _ => Throw (PlainError (lit "connect ETIMEDOUT"))).

End Wrapper.

(* ================================================================== *)
(** * The images named in the message ([generateReply], lines 639-644) *)
(* ================================================================== *)

Module Media.

Definition marker_open : jsstring := lit "[User sent images: ".

(** What the dot of a regular expression does not match. *)
Definition is_line_terminator (c : N) : bool :=
  ((c =? 10) || (c =? 13) || (c =? 8232) || (c =? 8233))%N.

(** The lazy group and the bracket that closes it, at the head of [s]:
    the units before the first closing bracket, none of them a line
    terminator. *)
Fixpoint lazy_group (s : jsstring) : option jsstring :=
  match s with
  | [] => None
  | c :: s' =>
      if (c =? 93)%N then Some []
      else if is_line_terminator c then None
      else option_map (cons c) (lazy_group s')
  end.

Definition marker_at (s : jsstring) : option jsstring :=
  if matchesAt false s marker_open
  then lazy_group (skipn (length marker_open) s)
  else None.

(** [userMessage.match(/\[User sent images: (.*?)\]/)]: the text matched
    and the group, at the leftmost place. *)
Fixpoint imageMatch (s : jsstring) : option (jsstring * jsstring) :=
  match marker_at s with
  | Some group => Some (marker_open ++ group ++ [93%N], group)
  | None =>
      match s with
      | [] => None
      | _ :: s' => imageMatch s'
      end
  end.

(** [s.replace(p, '')] for a string [p]: its first occurrence goes. *)
Definition removeFirst (p s : jsstring) : jsstring :=
  match indexOf s p with
  | Some i => firstn i s ++ skipn (i + length p) s
  | None => s
  end.

(** Lines 639-644: the list of images and the message, afterwards. *)
Definition extractImages (userMessage : jsstring) (imageUrls : list jsstring)
  : list jsstring * jsstring :=
  match imageMatch userMessage with
  | Some (whole, c :: group) =>
      (imageUrls ++ map trim (split 44 (c :: group)),
       trim (removeFirst whole userMessage))
  | _ => (imageUrls, userMessage)
  end.

(** ** Vocabulary *)

(** A unit the group can hold. *)
Definition in_group (c : N) : Prop := c <> 93%N /\ is_line_terminator c = false.

End Media.

(* ================================================================== *)
(** * Facts about strings *)
(* ================================================================== *)

Import Cache.

Section StringFacts.

Lemma eqb_eq (a b : jsstring) : eqb a b = true <-> a = b.
Proof.
  revert b; induction a as [|x a IH]; intros [|y b]; simpl; split; intro H;
    try reflexivity; try discriminate.
  - apply andb_true_iff in H as [Hx Hab].
    apply N.eqb_eq in Hx. apply IH in Hab. now subst.
  - injection H as -> ->. apply andb_true_iff; split.
    + apply N.eqb_refl.
    + now apply IH.
Qed.

Lemma eqb_refl (a : jsstring) : eqb a a = true.
Proof. now apply eqb_eq. Qed.

Lemma eqb_neq (a b : jsstring) : eqb a b = false <-> a <> b.
Proof.
  split.
  - intros H E. apply eqb_eq in E. congruence.
  - intros H. destruct (eqb a b) eqn:E; [|reflexivity].
    apply eqb_eq in E. contradiction.
Qed.

Lemma dropWhile_incl (f : N -> bool) (s : jsstring) (c : N) :
  In c (dropWhile f s) -> In c s.
Proof.
  induction s as [|d s IH]; simpl; [tauto|].
  destruct (f d); simpl; intuition.
Qed.

Lemma trim_incl (s : jsstring) (c : N) : In c (trim s) -> In c s.
Proof.
  unfold trim, trimEnd, trimStart. intros H.
  apply in_rev in H. apply dropWhile_incl in H. apply in_rev in H.
  now apply dropWhile_incl in H.
Qed.


End StringFacts.

(* ================================================================== *)
(** * The cache key *)
(* ================================================================== *)

Section CacheFacts.

Variable lower : jsstring -> jsstring.



End CacheFacts.




(* ================================================================== *)
(** * The response parser *)
(* ================================================================== *)

Section Matching.
Variable ci : bool.

Lemma matchesAt_nil (s : jsstring) : matchesAt ci s [] = true.
Proof. reflexivity. Qed.

Lemma matchesAt_app_self (p s : jsstring) : matchesAt ci (p ++ s) p = true.
Proof.
  induction p as [|d p IH]; simpl; [reflexivity|].
  rewrite IH, andb_true_r. unfold same. destruct ci; apply N.eqb_refl.
Qed.

Lemma occurs_head (s p : jsstring) : matchesAt ci s p = true -> occurs ci s p = true.
Proof. intros H. destruct s; cbn [occurs]; now rewrite H. Qed.

Lemma occurs_app_mid (a p b : jsstring) : occurs ci (a ++ p ++ b) p = true.
Proof.
  induction a as [|x a IH]; simpl.
  - apply occurs_head, matchesAt_app_self.
  - rewrite IH. apply orb_true_r.
Qed.

Lemma occurs_cons (c : N) (s p : jsstring) :
  occurs ci (c :: s) p = false ->
  matchesAt ci (c :: s) p = false /\ occurs ci s p = false.
Proof. cbn [occurs]. intros H. now apply orb_false_iff in H. Qed.

(** A match that starts in [u] and is not within [u] covers all of [u]. *)
Lemma matchesAt_straddle (u rest p : jsstring) :
  matchesAt ci (u ++ rest) p = true ->
  matchesAt ci u p = true \/ Forall (fun c => hits ci p c = true) u.
Proof.
  revert p. induction u as [|x u IH]; intros p H.
  - right. constructor.
  - destruct p as [|d p]; [now left|]. simpl in H.
    apply andb_true_iff in H as [Hx H]. apply IH in H as [H|H].
    + left. simpl. now rewrite Hx, H.
    + right. constructor.
      * simpl. now rewrite Hx.
      * eapply Forall_impl; [|exact H]. intros c Hc. simpl. rewrite Hc. apply orb_true_r.
Qed.

(** A match that starts in [u] and is not within [u] reaches the unit
    after [u] with a unit of the pattern that is not its first. *)
Lemma matchesAt_overlap (u v p : jsstring) (c : N) :
  u <> [] ->
  matchesAt ci (u ++ c :: v) p = true ->
  matchesAt ci u p = true \/ hits ci (tl p) c = true.
Proof.
  revert p. induction u as [|x u IH]; intros p Hu H; [congruence|].
  destruct p as [|d p]; [now left|]. simpl in H.
  apply andb_true_iff in H as [Hx H].
  destruct u as [|y u].
  - simpl in H. destruct p as [|e p].
    + left. simpl. now rewrite Hx.
    + apply andb_true_iff in H as [He _]. right. simpl. now rewrite He.
  - apply IH in H as [H|H]; [| |discriminate].
    + left. simpl. simpl in H. now rewrite Hx, H.
    + right. destruct p as [|e p]; [discriminate|]. simpl in *. rewrite H. apply orb_true_r.
Qed.

Lemma no_match_through (u rest p : jsstring) :
  u <> [] -> occurs ci u p = false -> hits ci p (last u 0%N) = false ->
  matchesAt ci (u ++ rest) p = false.
Proof.
  intros Hu Ho Hl. destruct (matchesAt ci (u ++ rest) p) eqn:E; [|reflexivity].
  apply matchesAt_straddle in E as [E|E].
  - destruct u; [congruence|]. apply occurs_cons in Ho as [Ho _]. congruence.
  - exfalso. rewrite Forall_forall in E.
    assert (In (last u 0%N) u) as Hin.
    { destruct (exists_last Hu) as (u' & z & ->). rewrite last_last. apply in_or_app. right. now left. }
    apply E in Hin. congruence.
Qed.

(** ** removeAll *)

Lemma removeAll_from_none (p s : jsstring) :
  occurs ci s p = false -> removeAll_from ci p 0 s = s.
Proof.
  induction s as [|c s IH]; intros H; [reflexivity|].
  apply occurs_cons in H as [Hm Ho]. cbn [removeAll_from]. rewrite Hm. now rewrite IH.
Qed.

Lemma removeAll_from_through (p u rest : jsstring) :
  u <> [] -> occurs ci u p = false -> hits ci p (last u 0%N) = false ->
  removeAll_from ci p 0 (u ++ rest) = u ++ removeAll_from ci p 0 rest.
Proof.
  induction u as [|c u IH]; intros Hu Ho Hl; [congruence|].
  pose proof (no_match_through _ rest _ Hu Ho Hl) as Hm.
  apply occurs_cons in Ho as [_ Ho].
  cbn [app removeAll_from]. cbn [app] in Hm. rewrite Hm. f_equal.
  destruct u as [|d u]; [reflexivity|].
  apply IH; [discriminate|exact Ho|exact Hl].
Qed.

Lemma removeAll_from_miss (p w rest : jsstring) :
  p <> [] -> Forall (fun c => same ci (hd 0%N p) c = false) w ->
  removeAll_from ci p 0 (w ++ rest) = w ++ removeAll_from ci p 0 rest.
Proof.
  intros Hp. destruct p as [|d p]; [congruence|]. cbn [hd].
  induction 1 as [|c w Hc _ IH]; [reflexivity|].
  cbn [app removeAll_from matchesAt]. rewrite Hc. cbn [andb]. now rewrite IH.
Qed.

Lemma removeAll_from_skip (p : jsstring) (n : nat) (a rest : jsstring) :
  length a = n -> removeAll_from ci p n (a ++ rest) = removeAll_from ci p 0 rest.
Proof.
  revert a. induction n as [|n IH]; intros [|c a] H; try discriminate; [reflexivity|].
  simpl. apply IH. now injection H.
Qed.

End Matching.

Lemma space_not_same (ci : bool) (d c : N) :
  is_space d = false -> (d <? 97)%N = true -> is_space c = true -> same ci d c = false.
Proof.
  intros Hd Hlow Hc. unfold same. destruct ci.
  - apply N.eqb_neq. intros E. unfold lower_unit in E.
    apply N.ltb_lt in Hlow.
    destruct ((65 <=? d)%N && (d <=? 90)%N) eqn:D, ((65 <=? c)%N && (c <=? 90)%N) eqn:C;
      try (apply andb_true_iff in D as [D1 D2]; apply N.leb_le in D1, D2);
      try (apply andb_true_iff in C as [C1 C2]; apply N.leb_le in C1, C2).
    + assert (c = d) by lia. subst. congruence.
    + subst c.  unfold is_space in Hc.
      repeat (apply orb_true_iff in Hc as [Hc|Hc]);
        repeat match goal with
               | H : (_ && _)%bool = true |- _ => apply andb_true_iff in H as [? ?]
               | H : (_ <=? _)%N = true |- _ => apply N.leb_le in H
               | H : (_ =? _)%N = true |- _ => apply N.eqb_eq in H
               end; lia.
    + subst d. lia.
    + subst. congruence.
  - apply N.eqb_neq. intros ->. congruence.
Qed.

(** ** stripThink *)

Lemma stripThink_from_miss (w rest : jsstring) :
  Forall (fun c => same true 60%N c = false) w ->
  stripThink_from false 0 (w ++ rest) = w ++ stripThink_from false 0 rest.
Proof.
  induction 1 as [|c w Hc _ IH]; [reflexivity|].
  cbn [app stripThink_from]. unfold think_open at 1. cbn [lit map list_ascii_of_string matchesAt].
  change (N_of_ascii "<"%char) with 60%N. rewrite Hc. cbn [andb]. now rewrite IH.
Qed.

Lemma stripThink_from_through (u rest : jsstring) :
  u <> [] -> occurs true u think_open = false ->
  hits true think_open (last u 0%N) = false ->
  stripThink_from false 0 (u ++ rest) = u ++ stripThink_from false 0 rest.
Proof.
  induction u as [|c u IH]; intros Hu Ho Hl; [congruence|].
  pose proof (no_match_through true _ rest _ Hu Ho Hl) as Hm.
  apply occurs_cons in Ho as [_ Ho].
  cbn [app stripThink_from]. cbn [app] in Hm. rewrite Hm. cbn [andb]. f_equal.
  destruct u as [|d u]; [reflexivity|].
  apply IH; [discriminate|exact Ho|exact Hl].
Qed.

Lemma stripThink_none (s : jsstring) :
  occurs true s think_open = false -> stripThink s = s.
Proof.
  unfold stripThink. induction s as [|c s IH]; intros H; [reflexivity|].
  apply occurs_cons in H as [Hm Ho]. cbn [stripThink_from]. rewrite Hm. cbn [andb].
  now rewrite IH.
Qed.

(** Inside a block, everything up to the first closing tag goes. *)
Lemma stripThink_from_inside (t rest : jsstring) :
  occurs true t think_close = false ->
  stripThink_from true 0 (t ++ think_close ++ rest) = stripThink_from false 0 rest.
Proof.
  induction t as [|c t IH]; intros H.
  - reflexivity.
  - assert (matchesAt true ((c :: t) ++ think_close ++ rest) think_close = false) as Hm.
    { destruct (matchesAt true ((c :: t) ++ think_close ++ rest) think_close) eqn:E;
        [|reflexivity].
      change (think_close ++ rest) with (60%N :: tl think_close ++ rest) in E.
      apply matchesAt_overlap in E as [E|E]; [| |discriminate].
      - apply occurs_cons in H as [H _]. congruence.
      - vm_compute in E. discriminate. }
    apply occurs_cons in H as [_ H].
    cbn [app stripThink_from]. cbn [app] in Hm. rewrite Hm. now apply IH.
Qed.

Lemma stripThink_block (t rest : jsstring) :
  occurs true t think_close = false ->
  stripThink (think_open ++ t ++ think_close ++ rest) = stripThink rest.
Proof.
  intros H. unfold stripThink.
  change (think_open ++ t ++ think_close ++ rest)
    with (60%N :: tl think_open ++ t ++ think_close ++ rest).
  cbn [stripThink_from].
  replace (matchesAt true (60%N :: tl think_open ++ t ++ think_close ++ rest) think_open)
    with true by (symmetry; apply (matchesAt_app_self true think_open)).
  replace (skipn 7 (60%N :: tl think_open ++ t ++ think_close ++ rest))
    with (t ++ think_close ++ rest) by reflexivity.
  rewrite occurs_app_mid. cbn [andb].
  change (tl think_open ++ t ++ think_close ++ rest)
    with (lit "think>" ++ (t ++ think_close ++ rest)).
  transitivity (stripThink_from true 0 (t ++ think_close ++ rest)).
  - reflexivity.
  - now apply stripThink_from_inside.
Qed.

(** ** trim *)

Lemma dropWhile_spaces (w s : jsstring) :
  Forall (fun c => is_space c = true) w ->
  dropWhile is_space (w ++ s) = dropWhile is_space s.
Proof. induction 1 as [|c w Hc _ IH]; [reflexivity|]. simpl. now rewrite Hc. Qed.

Lemma trim_between (w1 s w2 : jsstring) :
  s <> [] -> is_space (hd 0%N s) = false -> is_space (last s 0%N) = false ->
  Forall (fun c => is_space c = true) w1 ->
  Forall (fun c => is_space c = true) w2 ->
  trim (w1 ++ s ++ w2) = s.
Proof.
  intros Hs Ha Hz H1 H2. unfold trim, trimStart, trimEnd.
  rewrite dropWhile_spaces by exact H1.
  destruct (exists_last Hs) as (s' & z & ->). rewrite last_last in Hz.
  assert (dropWhile is_space ((s' ++ [z]) ++ w2) = (s' ++ [z]) ++ w2) as ->.
  { destruct s' as [|a s']; cbn [app hd dropWhile] in *; [now rewrite Hz|now rewrite Ha]. }
  rewrite rev_app_distr, rev_app_distr.
  rewrite dropWhile_spaces by (apply Forall_rev; exact H2).
  cbn [rev app dropWhile]. rewrite Hz.
  cbn [rev]. now rewrite rev_involutive.
Qed.

Lemma last_append (a b : jsstring) (d : N) : b <> [] -> last (a ++ b) d = last b d.
Proof.
  intros Hb. destruct (exists_last Hb) as (b' & z & ->).
  now rewrite app_assoc, !last_last.
Qed.

(** ** The object between the braces *)

Lemma lastIndexOf_last (s : jsstring) (c : N) :
  lastIndexOf (s ++ [c]) [c] = Some (length s).
Proof.
  induction s as [|d s IH].
  - simpl. unfold startsWith. simpl. now rewrite N.eqb_refl.
  - cbn [app lastIndexOf length]. now rewrite IH.
Qed.

Lemma isolateObject_object (mid : jsstring) :
  isolateObject (123%N :: mid ++ [125%N]) = 123%N :: mid ++ [125%N].
Proof.
  unfold isolateObject.
  change (123%N :: mid ++ [125%N]) with ((123%N :: mid) ++ [125%N]) at 2.
  rewrite lastIndexOf_last.
  change (indexOf (123%N :: mid ++ [125%N]) [123%N]) with (Some 0%nat).
  cbn [length]. cbn [Nat.ltb Nat.leb]. unfold substring.
  rewrite Nat.sub_0_r. cbn [skipn].
  change (123%N :: mid ++ [125%N]) with ((123%N :: mid) ++ [125%N]).
  rewrite firstn_all2; [reflexivity|]. rewrite length_app. simpl. lia.
Qed.

(** The parser rejects a text that starts with an angle bracket. *)
Lemma JSON_parse_angle (s : jsstring) : JSON_parse (60%N :: s) = None.
Proof. unfold JSON_parse. cbn [length Nat.mul Nat.add]. reflexivity. Qed.

Lemma spaces_miss (ci : bool) (d : N) (w : jsstring) :
  is_space d = false -> (d <? 97)%N = true -> spaces w ->
  Forall (fun c => same ci d c = false) w.
Proof.
  intros Hd Hl Hw. eapply Forall_impl; [|exact Hw].
  intros c Hc. now apply space_not_same.
Qed.

Lemma same_backtick (c : N) : same true 96%N c = true -> c = 96%N.
Proof.
  unfold same, lower_unit. intros H. apply N.eqb_eq in H. cbn in H.
  destruct ((65 <=? c)%N && (c <=? 90)%N) eqn:C; [|congruence].
  apply andb_true_iff in C as [C1 C2]. apply N.leb_le in C1, C2. lia.
Qed.

Lemma matchesAt_prefix (ci : bool) (s a b : jsstring) :
  matchesAt ci s (a ++ b) = true -> matchesAt ci s a = true.
Proof.
  revert s. induction a as [|d a IH]; intros s H; [reflexivity|].
  destruct s as [|c s]; [discriminate|]. cbn [app matchesAt] in *.
  apply andb_true_iff in H as [H1 H2]. rewrite H1. now apply IH.
Qed.

Lemma matchesAt_exact (s p : jsstring) :
  Forall (fun d => forall c, same true d c = true -> c = d) p ->
  matchesAt true s p = true -> matchesAt false s p = true.
Proof.
  intros Hp. revert s. induction Hp as [|d p Hd _ IH]; intros s H; [reflexivity|].
  destruct s as [|c s]; [discriminate|]. cbn [matchesAt] in *.
  apply andb_true_iff in H as [H1 H2]. apply Hd in H1. subst c.
  cbn [same]. rewrite N.eqb_refl. now apply IH.
Qed.

Lemma fence_json_is_fence (s : jsstring) :
  occurs false s fence = false -> occurs true s fence_json = false.
Proof.
  induction s as [|c s IH]; intros H.
  - reflexivity.
  - apply occurs_cons in H as [Hm Ho]. cbn [occurs]. rewrite (IH Ho), orb_false_r.
    destruct (matchesAt true (c :: s) fence_json) eqn:E; [|reflexivity].
    rewrite <- Hm. symmetry. apply matchesAt_exact.
    + repeat constructor; intros ? ?; now apply same_backtick.
    + apply (matchesAt_prefix true (c :: s) fence (lit "json")). exact E.
Qed.

Lemma last_object (mid : jsstring) : last (123%N :: mid ++ [125%N]) 0%N = 125%N.
Proof. change (123%N :: mid ++ [125%N]) with ((123%N :: mid) ++ [125%N]). apply last_last. Qed.

Lemma cleanContent_object (mid : jsstring) :
  occurs false (123%N :: mid ++ [125%N]) fence = false ->
  occurs true (123%N :: mid ++ [125%N]) think_open = false ->
  cleanContent (123%N :: mid ++ [125%N]) = 123%N :: mid ++ [125%N].
Proof.
  intros Hf Ht. unfold cleanContent, stripFences.
  rewrite (stripThink_none _ Ht).
  assert (trim (123%N :: mid ++ [125%N]) = 123%N :: mid ++ [125%N]) as Htrim.
  { pose proof (trim_between [] (123%N :: mid ++ [125%N]) []) as T.
    cbn [app] in T. rewrite app_nil_r in T. apply T; try constructor; try discriminate.
    now rewrite last_object. }
  rewrite Htrim.
  change (removeAll true fence_json) with (removeAll_from true fence_json 0).
  change (removeAll false fence) with (removeAll_from false fence 0).
  rewrite (removeAll_from_none true _ _ (fence_json_is_fence _ Hf)).
  rewrite (removeAll_from_none false _ _ Hf).
  rewrite Htrim. apply isolateObject_object.
Qed.

Lemma cleanContent_wrapped (mid t w1 w2 w3 : jsstring) :
  occurs false (123%N :: mid ++ [125%N]) fence = false ->
  occurs true (123%N :: mid ++ [125%N]) think_open = false ->
  occurs true t think_close = false ->
  spaces w1 -> spaces w2 -> spaces w3 ->
  cleanContent (wrapped t w1 w2 w3 (123%N :: mid ++ [125%N])) = 123%N :: mid ++ [125%N].
Proof.
  intros Hf Ht Hc H1 H2 H3. set (payload := 123%N :: mid ++ [125%N]) in *.
  assert (payload <> []) as Hne by discriminate.
  assert (last payload 0%N = 125%N) as Hl by apply last_object.
  unfold cleanContent, wrapped.
  (* the reasoning block goes *)
  rewrite (stripThink_block t _ Hc). unfold stripThink.
  rewrite (stripThink_from_miss w1 _ (spaces_miss true 60%N w1 eq_refl eq_refl H1)).
  rewrite (stripThink_from_miss fence_json _) by (repeat constructor).
  rewrite (stripThink_from_miss w2 _ (spaces_miss true 60%N w2 eq_refl eq_refl H2)).
  rewrite (stripThink_from_through payload _ Hne Ht) by (now rewrite Hl).
  rewrite (stripThink_from_miss w3 _ (spaces_miss true 60%N w3 eq_refl eq_refl H3)).
  change (stripThink_from false 0 fence) with fence.
  (* the outer white space goes *)
  assert (trim (w1 ++ fence_json ++ w2 ++ payload ++ w3 ++ fence)
          = fence_json ++ w2 ++ payload ++ w3 ++ fence) as ->.
  { pose proof (trim_between w1 (fence_json ++ w2 ++ payload ++ w3 ++ fence) []) as T.
    rewrite app_nil_r in T. apply T; try constructor; try discriminate; try exact H1.
    rewrite !app_assoc. now rewrite last_append by discriminate. }
  (* the fences go *)
  unfold stripFences.
  change (removeAll true fence_json) with (removeAll_from true fence_json 0).
  change (removeAll false fence) with (removeAll_from false fence 0).
  assert (removeAll_from true fence_json 0 (fence_json ++ w2 ++ payload ++ w3 ++ fence)
          = w2 ++ payload ++ w3 ++ fence) as ->.
  { transitivity (removeAll_from true fence_json 0 (w2 ++ payload ++ w3 ++ fence));
      [reflexivity|].
    rewrite (removeAll_from_miss true _ w2 _) by (try discriminate; exact (spaces_miss true 96%N w2 eq_refl eq_refl H2)).
    rewrite (removeAll_from_through true fence_json payload _ Hne (fence_json_is_fence _ Hf))
      by (now rewrite Hl).
    rewrite (removeAll_from_miss true _ w3 _) by (try discriminate; exact (spaces_miss true 96%N w3 eq_refl eq_refl H3)).
    reflexivity. }
  assert (removeAll_from false fence 0 (w2 ++ payload ++ w3 ++ fence)
          = w2 ++ payload ++ w3) as ->.
  { rewrite (removeAll_from_miss false _ w2 _) by (try discriminate; exact (spaces_miss false 96%N w2 eq_refl eq_refl H2)).
    rewrite (removeAll_from_through false fence payload _ Hne Hf) by (now rewrite Hl).
    rewrite (removeAll_from_miss false _ w3 _) by (try discriminate; exact (spaces_miss false 96%N w3 eq_refl eq_refl H3)).
    change (removeAll_from false fence 0 fence) with (@nil N). now rewrite app_nil_r. }
  rewrite trim_between; try assumption; try discriminate.
  - apply isolateObject_object.
  - reflexivity.
  - now rewrite Hl.
Qed.


Lemma extractReplyFromText_bare (text : jsstring) :
  JSON_parse text = None ->
  match_reply text = None \/ match_reply text = Some [] ->
  extractReplyFromText text = text.
Proof.
  intros Hp Hm. unfold extractReplyFromText. destruct text as [|c text]; [reflexivity|].
  rewrite Hp. now destruct Hm as [-> | ->].
Qed.

(** C9 (as stated, refuted): a payload whose reply holds a code-fence
    marker does not come back as it was written: the marker is stripped
    from inside the string before the text is parsed. *)
Lemma extractJson_alters_fenced_reply :
  ~ (forall (reply : jsstring) (images : list json) (sentiment : jsstring),
        extractJsonFromAiResponse (stringify (reply_payload reply images sentiment))
        = Some (reply_payload reply images sentiment)).
Proof.
  intros H. specialize (H (lit "a```b") [] (lit "pos")).
  vm_compute in H. discriminate.
Qed.

(** A truncated payload is not JSON, and is not returned verbatim: the
    reply pattern digs the reply out of it. *)
Lemma extractReplyFromText_truncated :
  let text := lit "{" ++ quote (lit "reply") ++ lit ": " ++ quote (lit "Hello")
              ++ lit ", " ++ quote (lit "images") ++ lit ": [" in
  JSON_parse text = None /\ extractReplyFromText text = lit "Hello".
Proof. vm_compute. split; reflexivity. Qed.

(** C9 (amended): an object text, from its opening to its closing brace,
    that holds no code-fence marker and no opening think tag reaches
    [JSON.parse] unchanged; the same text behind a reasoning block that
    holds no closing tag and inside a [json] code fence, with white space
    between the parts, gives the identical result; and a text that
    [JSON.parse] rejects and in which the reply pattern finds no non-empty
    match is returned verbatim by [extractReplyFromText]. *)
Theorem parser_laws (mid t w1 w2 w3 text : jsstring) :
  occurs false (123%N :: mid ++ [125%N]) fence = false ->
  occurs true (123%N :: mid ++ [125%N]) think_open = false ->
  occurs true t think_close = false ->
  spaces w1 -> spaces w2 -> spaces w3 ->
  JSON_parse text = None ->
  match_reply text = None \/ match_reply text = Some [] ->
  extractJsonFromAiResponse (123%N :: mid ++ [125%N]) = JSON_parse (123%N :: mid ++ [125%N])
  /\ extractJsonFromAiResponse (wrapped t w1 w2 w3 (123%N :: mid ++ [125%N]))
     = JSON_parse (123%N :: mid ++ [125%N])
  /\ extractReplyFromText text = text.
Proof.
  intros Hf Ht Hc H1 H2 H3 Hp Hm. split; [|split].
  - unfold extractJsonFromAiResponse. rewrite (cleanContent_object _ Hf Ht).
    destruct (JSON_parse (123%N :: mid ++ [125%N])); reflexivity.
  - unfold extractJsonFromAiResponse.
    rewrite (cleanContent_wrapped _ _ _ _ _ Hf Ht Hc H1 H2 H3).
    destruct (JSON_parse (123%N :: mid ++ [125%N])); [reflexivity|].
    apply JSON_parse_angle.
  - now apply extractReplyFromText_bare.
Qed.

(** C9 on a small payload, bare and wrapped, and on a plain sentence. *)
Lemma parser_laws_witness :
  let payload := stringify (reply_payload (lit "hi") [] (lit "pos")) in
  extractJsonFromAiResponse payload = Some (reply_payload (lit "hi") [] (lit "pos"))
  /\ extractJsonFromAiResponse
       (wrapped (lit "the user greets {me}") [10%N] [10%N] [10%N] payload)
     = Some (reply_payload (lit "hi") [] (lit "pos"))
  /\ extractReplyFromText (lit "Hello there") = lit "Hello there".
Proof.
  refine (parser_laws
            (removelast (tl (stringify (reply_payload (lit "hi") [] (lit "pos")))))
            (lit "the user greets {me}") [10%N] [10%N] [10%N] (lit "Hello there")
            _ _ _ _ _ _ _ _);
    try reflexivity; try (constructor; [reflexivity|constructor]).
  left; reflexivity.
Defined.

(* ================================================================== *)
(** * The vision chain *)
(* ================================================================== *)

Section ChainFacts.

Import Vision.

Variable W : World.

Lemma askEndpoint_fails (st : Stage) (sp mt img k : jsstring) (h : list Event) :
  no_text W -> exists e, fst (askEndpoint W st sp mt img k h) = Throw e.
Proof.
  intros Hno. unfold askEndpoint, bind, call, raise.
  match goal with |- context [post W ?x] => pose proof (Hno x) as Hx;
                               destruct (post W x) as [a|e] end; cbn [fst snd].
  - rewrite Hx. eexists. reflexivity.
  - eexists. reflexivity.
Qed.

(** Without a text from any endpoint, the [try] block of a stage throws. *)
Lemma attempt_fails (st : Stage) (sp mt img : jsstring) (h : list Event) :
  no_text W -> exists e, fst (attempt W st sp mt img h) = Throw e.
Proof.
  intros Hno. unfold attempt, getSmartKey, bind, ret, raise, call.
  assert (forall k h' (es : list Event),
             exists e, fst (let (o, es') := askEndpoint W st sp mt img k h' in
                            (o, es ++ es')) = Throw e) as Hask.
  { intros k h' es. destruct (askEndpoint_fails st sp mt img k h' Hno) as [e He].
    destruct (askEndpoint W st sp mt img k h') as [o es']. cbn [fst] in *. now exists e. }
  destruct (smart_key W (h ++ [EGetSmartKey (provider st) (model st)])) as [first|e];
    cbn [app fst snd]; [|now exists e].
  destruct (key_of first) as [k|] eqn:Hk.
  - cbn [app fst snd]. rewrite Hk.
    destruct (Hask k ((h ++ [EGetSmartKey (provider st) (model st)]) ++ [])
                [EGetSmartKey (provider st) (model st)]) as [e He].
    destruct (askEndpoint W st sp mt img k _) as [o es']. cbn [fst app] in *. now exists e.
  - destruct (default_key st).
    + destruct (smart_key W _) as [second|e]; cbn [app fst snd]; [|now exists e].
      destruct (key_of second) as [k|]; [|eexists; reflexivity].
      match goal with
      | |- context [askEndpoint W st sp mt img k ?h'] =>
          destruct (askEndpoint_fails st sp mt img k h' Hno) as [e He];
          destruct (askEndpoint W st sp mt img k h') as [o es']
      end.
      cbn [fst] in *. now exists e.
    + cbn [app fst snd]. rewrite Hk. eexists. reflexivity.
Qed.

(** A stage never throws; when its [try] block throws, it adds one entry
    to the trail, under its own name, and logs it. *)
Lemma runStage_cases (st : Stage) (sp mt img : jsstring) (errors : list jsstring)
      (h : list Event) :
  (exists res es,
      attempt W st sp mt img h = (Ret res, es)
      /\ runStage W st sp mt img errors h = (Ret (Some res, errors), es))
  \/ (exists e es,
         attempt W st sp mt img h = (Throw e, es)
         /\ runStage W st sp mt img errors h
            = (Ret (None, errors ++ [trail_name st ++ lit ": " ++ errMsg e]),
               es ++ [ELogDebug (lit "[Vision] " ++ log_name st ++ lit ": " ++ errMsg e)])).
Proof.
  unfold runStage, try_catch, bind, ret, logDebug, call.
  destruct (attempt W st sp mt img h) as [[res|e] es]; cbn [app fst snd].
  - left. exists res, es. rewrite app_nil_r. now split.
  - right. exists e, es. split; reflexivity.
Qed.

(** The chain of stages never throws. *)
Lemma runStages_returns (sts : list Stage) (sp mt img : jsstring)
      (errors : list jsstring) (h : list Event) :
  exists r es, runStages W sts sp mt img errors h = (Ret r, es).
Proof.
  revert errors h. induction sts as [|st sts IH]; intros errors h.
  - cbn [runStages]. unfold bind, logDebug, call, ret. cbn [app]. eauto.
  - cbn [runStages]. unfold bind.
    destruct (runStage_cases st sp mt img errors h)
      as [(res & es & _ & ->) | (e & es & _ & ->)].
    + unfold ret. eauto.
    + destruct (IH (errors ++ [trail_name st ++ lit ": " ++ errMsg e])
                  (h ++ es ++ [ELogDebug (lit "[Vision] " ++ log_name st ++ lit ": "
                                           ++ errMsg e)])) as (r & es' & ->).
      eauto.
Qed.

(** When no endpoint answers with a text, the chain ends with the fixed
    sentinel, after one trail entry per stage. *)
Lemma runStages_exhausted (sts : list Stage) (sp mt img : jsstring)
      (errors : list jsstring) (h : list Event) :
  no_text W ->
  exists trail es,
    runStages W sts sp mt img errors h
    = (Ret (Described unavailable 0), es ++ [fatal_line (errors ++ trail)])
    /\ Forall2 (fun st entry => startsWith entry (trail_name st ++ lit ": ") = true)
               sts trail.
Proof.
  intros Hno. revert errors h. induction sts as [|st sts IH]; intros errors h.
  - exists [], []. split; [|constructor].
    cbn [runStages]. unfold bind, logDebug, call, ret, fatal_line.
    cbn [app]. now rewrite app_nil_r.
  - cbn [runStages]. unfold bind.
    destruct (runStage_cases st sp mt img errors h)
      as [(res & es & Ha & _) | (e & es & _ & ->)].
    + destruct (attempt_fails st sp mt img h Hno) as [e He]. rewrite Ha in He. discriminate.
    + destruct (IH (errors ++ [trail_name st ++ lit ": " ++ errMsg e])
                  (h ++ es ++ [ELogDebug (lit "[Vision] " ++ log_name st ++ lit ": "
                                           ++ errMsg e)])) as (trail & es' & -> & Hall).
      exists ((trail_name st ++ lit ": " ++ errMsg e) :: trail),
        ((es ++ [ELogDebug (lit "[Vision] " ++ log_name st ++ lit ": " ++ errMsg e)]) ++ es').
      split.
      * rewrite <- !app_assoc. reflexivity.
      * constructor; [|exact Hall].
        rewrite app_assoc. apply (matchesAt_app_self false).
Qed.

End ChainFacts.

(** C8 (counterexample): an image reference that cannot be downloaded,
    in a world where no endpoint can be reached either.  The chain
    returns a bare string that carries the reason of the download
    failure -- not the analysis-unavailable sentinel, and without a usage
    figure -- and it reaches no stage. *)
Lemma unreachable_reference_reports_download :
  let run := Vision.processImageWithVision unreachable_world None
               (lit "https://cdn.example/x.png") None [] in
  fst run = Ret (Vision.Text
                   (lit "Image found but failed to download/decode. Reason: connect ECONNREFUSED"))
  /\ fst run <> Ret (Vision.Described Vision.unavailable 0)
  /\ filter is_stage_call (snd run) = [].
Proof. vm_compute. repeat split. discriminate. Qed.

(** C8 (amended): the vision chain never raises to the caller.  When the
    image cannot be obtained (the download or the decoding of the
    reference throws), it returns the string that reports this failure
    with its reason, after one debug line and without running any stage.
    When the image is obtained and no endpoint answers with a text, it
    returns the fixed analysis-unavailable sentinel with usage 0: no stage
    failure aborts the chain, each stage of the chain leaves one entry on
    the diagnostic trail, in order and under its own name, and the trail
    is logged last. *)
Theorem vision_chain_never_raises (W : Vision.World) (page_access_token : option jsstring)
        (imageUrl : jsstring) (customOptions : option Vision.Options)
        (h : list Vision.Event) :
  (exists r, fst (Vision.processImageWithVision W page_access_token imageUrl
                    customOptions h) = Ret r)
  /\ (forall e es,
         Vision.preprocess W page_access_token imageUrl h = (Throw e, es) ->
         Vision.processImageWithVision W page_access_token imageUrl customOptions h
         = (Ret (Vision.Text (lit "Image found but failed to download/decode. Reason: "
                              ++ err_message e)),
            es ++ [Vision.ELogDebug (lit "[Vision] Pre-processing Failed: "
                                     ++ err_message e)]))
  /\ (forall image es,
         Vision.preprocess W page_access_token imageUrl h = (Ret image, es) ->
         no_text W ->
         exists trail es',
           Vision.processImageWithVision W page_access_token imageUrl customOptions h
           = (Ret (Vision.Described Vision.unavailable 0),
              es ++ es' ++ [fatal_line trail])
           /\ Forall2 (fun st entry =>
                         startsWith entry (Vision.trail_name st ++ lit ": ") = true)
                      (Vision.stages customOptions) trail).
Proof.
  unfold Vision.processImageWithVision, try_catch, bind, ret.
  unfold Vision.logDebug at 1 2. unfold call.
  destruct (Vision.preprocess W page_access_token imageUrl h) as [[[img mt]|e] es];
    cbn [app fst snd].
  - split; [|split].
    + match goal with
      | |- context [Vision.runStages W ?sts ?sp ?m ?i ?er ?h'] =>
          destruct (runStages_returns W sts sp m i er h') as (r & es' & ->)
      end.
      now exists r.
    + intros e es0 H. discriminate.
    + intros image es0 H Hno. injection H as <- <-.
      match goal with
      | |- context [Vision.runStages W ?sts ?sp ?m ?i ?er ?h'] =>
          destruct (runStages_exhausted W sts sp m i er h' Hno)
            as (trail & es' & -> & Hall)
      end.
      exists trail, es'. split; [|exact Hall].
      cbn [app]. rewrite app_nil_r. reflexivity.
  - split; [|split].
    + eexists. reflexivity.
    + intros e0 es0 H. injection H as <- <-. now rewrite app_nil_r.
    + intros image es0 H. discriminate.
Qed.

(** C8 on an image that arrives while every endpoint times out. *)
Lemma vision_chain_never_raises_witness :
  exists trail es',
    Vision.processImageWithVision blind_world None (lit "https://cdn.example/x.png")
                                  None []
    = (Ret (Vision.Described Vision.unavailable 0),
       [Vision.EDownload (lit "https://cdn.example/x.png") Vision.NoAuth;
        Vision.ELogDebug (lit "[Vision] Image Downloaded. Mime: image/png, Size: 4")]
       ++ es' ++ [fatal_line trail])
    /\ Forall2 (fun st entry =>
                  startsWith entry (Vision.trail_name st ++ lit ": ") = true)
               (Vision.stages None) trail.
Proof.
  destruct (vision_chain_never_raises blind_world None (lit "https://cdn.example/x.png")
              None []) as (_ & _ & H).
  apply (H (lit "aGk=", lit "image/png")).
  - vm_compute. reflexivity.
  - intros tr. exact I.
Defined.

(* ================================================================== *)
(** * The dispatcher: quarantine and the pooled keys *)
(* ================================================================== *)

Import Engine.

Ltac unfold_monad :=
  unfold bind, try_catch, call, ret, raise, lift in *.

(** Case analysis on the innermost scrutinee of the goal. *)
Ltac split_match :=
  match goal with
  | |- context [match ?x with _ => _ end] =>
      lazymatch x with
      | context [match _ with _ => _ end] => fail
      | _ => destruct x eqn:?
      end
  | |- context [if ?x then _ else _] =>
      lazymatch x with
      | context [match _ with _ => _ end] => fail
      | _ => destruct x eqn:?
      end
  end.

Ltac norm :=
  repeat (rewrite <- app_assoc || rewrite app_nil_r); cbn [app fst snd] in *.

Ltac split_all := repeat (split_match; cbn [fst snd app] in *).

Section Quarantine.

Variable W : World.

Lemma handleAiError_events (error : JsError) (apiKey modelName : jsstring) (h : list Event) :
  snd (handleAiError W error apiKey modelName h) = []
  \/ snd (handleAiError W error apiKey modelName h) = [EMarkKeyAsQuotaExceeded apiKey]
  \/ exists ms reason,
       snd (handleAiError W error apiKey modelName h) = [EMarkKeyAsDead apiKey ms reason].
Proof.
  unfold handleAiError, markKeyAsDead, markKeyAsQuotaExceeded, call, ret.
  repeat match goal with
         | |- context [if ?b then _ else _] => destruct b
         end; cbn [snd]; eauto.
Qed.

End Quarantine.

Section Swarm.

Variable W : World.
Variable pc : PageConfig.
Variable ms : list Message.
Variable total : Z.

Lemma phase2Parse_events (raw : jsstring) (tok : Z) (h : list Event) :
  snd (phase2Parse W pc total raw tok h) = []
  \/ exists q, snd (phase2Parse W pc total raw tok h)
               = [ESearch Phase2 (user_id pc) q (page_id pc)].
Proof.
  unfold phase2Parse, searchProducts. unfold_monad.
  split_all; eauto.
Qed.


(** How a turn of the swarm loop can go. *)
Lemma phase2Attempt_cases (h : list Event) :
  (* no usable key *)
  ((exists kd, smart_key W (h ++ [acquisition]) = Ret kd /\ usableKey kd = None)
   /\ phase2Attempt W pc ms total h = (Ret LeaveLoop, [acquisition]))
  (* the key service throws *)
  \/ ((exists e, smart_key W (h ++ [acquisition]) = Throw e)
      /\ phase2Attempt W pc ms total h = (Ret NextAttempt, [acquisition]))
  \/ exists kd k,
      smart_key W (h ++ [acquisition]) = Ret (Some kd)
      /\ usableKey (Some kd) = Some k
      /\ ((* the inference call throws *)
          (exists e,
              infer W (h ++ [acquisition; inference pc ms k]) = Throw e
              /\ phase2Attempt W pc ms total h
                 = (Ret NextAttempt,
                    [acquisition; inference pc ms k]
                    ++ snd (handleAiError W e k gemini_flash
                              (h ++ [acquisition; inference pc ms k]))))
          (* the completion has no first choice *)
          \/ (exists c e,
                 infer W (h ++ [acquisition; inference pc ms k]) = Ret c
                 /\ firstContent c = Throw e
                 /\ phase2Attempt W pc ms total h
                    = (Ret NextAttempt,
                       [acquisition; inference pc ms k]
                       ++ snd (handleAiError W e k gemini_flash
                                 (h ++ [acquisition; inference pc ms k]))))
          (* recording the usage throws *)
          \/ (exists c raw e,
                 infer W (h ++ [acquisition; inference pc ms k]) = Ret c
                 /\ firstContent c = Ret raw
                 /\ phase2Attempt W pc ms total h
                    = (Ret NextAttempt,
                       [acquisition; inference pc ms k; ERecordKeyUsage k (usage ms c raw)]
                       ++ snd (handleAiError W e k gemini_flash
                                 (h ++ [acquisition; inference pc ms k;
                                        ERecordKeyUsage k (usage ms c raw)]))))
          (* the turn answers *)
          \/ (exists c raw r,
                 infer W (h ++ [acquisition; inference pc ms k]) = Ret c
                 /\ firstContent c = Ret raw
                 /\ phase2Attempt W pc ms total h
                    = (Ret (Return (Some r)),
                       [acquisition; inference pc ms k; ERecordKeyUsage k (usage ms c raw)]
                       ++ snd (phase2Parse W pc total raw (usage ms c raw)
                                 (h ++ [acquisition; inference pc ms k;
                                        ERecordKeyUsage k (usage ms c raw)])))
                 /\ (fst (phase2Parse W pc total raw (usage ms c raw)
                            (h ++ [acquisition; inference pc ms k;
                                   ERecordKeyUsage k (usage ms c raw)])) = Ret r
                     \/ r = rawReply raw gemini_flash (usage ms c raw + total)))).
Proof.
  unfold phase2Attempt, getSmartKey, chat, recordKeyUsage. unfold_monad.
  fold acquisition.
  destruct (smart_key W (h ++ [acquisition])) as [kd|e] eqn:Hk; norm.
  2:{ right; left. split; [eauto|reflexivity]. }
  destruct (usableKey kd) as [k|] eqn:Hu; norm.
  2:{ left. split; [eauto|reflexivity]. }
  right; right. destruct kd as [kd|]; [|discriminate]. exists kd, k.
  split; [first [assumption|reflexivity]|]. split; [exact Hu|].
  fold (inference pc ms k).
  destruct (infer W (h ++ [acquisition; inference pc ms k])) as [c|e] eqn:Hi; norm.
  2:{ left. exists e. split; [first [assumption|reflexivity]|].
      destruct (handleAiError W e k gemini_flash _) as [[[]|?] ?]; norm; reflexivity. }
  right. destruct (firstContent c) as [raw|e] eqn:Hc; norm.
  2:{ left. exists c, e. split; [first [assumption|reflexivity]|]. split; [first [assumption|reflexivity]|].
      destruct (handleAiError W e k gemini_flash _) as [[[]|?] ?]; norm; reflexivity. }
  right. fold (usage ms c raw).
  destruct (key_op W _) as [[]|e] eqn:Hr; norm.
  2:{ left. exists c, raw, e. split; [first [assumption|reflexivity]|]. split; [first [assumption|reflexivity]|].
      destruct (handleAiError W e k gemini_flash _) as [[[]|?] ?]; norm; reflexivity. }
  right.
  destruct (phase2Parse W pc total raw (usage ms c raw) _) as [[r|e] es] eqn:Hp; norm.
  - exists c, raw, r. rewrite Hp. cbn [fst snd]. repeat split; eauto.
  - exists c, raw, (rawReply raw gemini_flash (usage ms c raw + total)).
    rewrite Hp. cbn [fst snd]. repeat split; eauto.
Qed.


Lemma count_app (f : Event -> bool) (a b : list Event) :
  count f (a ++ b) = count f a + count f b.
Proof. unfold count. now rewrite filter_app, length_app. Qed.

Lemma pooled_app (h es1 es2 : list Event) :
  pooled W h es1 -> pooled W (h ++ es1) es2 -> pooled W h (es1 ++ es2).
Proof.
  revert h. induction es1 as [|ev es1 IH]; intros h H1 H2.
  - now rewrite app_nil_r in H2.
  - cbn [app pooled] in *. destruct H1 as [Hev H1]. split; [exact Hev|].
    apply IH; [exact H1|]. now rewrite <- app_assoc.
Qed.

Lemma pooled_quiet (h es : list Event) :
  count is_infer es = 0 -> pooled W h es.
Proof.
  revert h. induction es as [|ev es IH]; intros h H; [exact I|].
  destruct ev; try discriminate; (split; [exact I|]); apply IH; exact H.
Qed.

Lemma handleAiError_quiet (e : JsError) (k m : jsstring) (h : list Event) (f : Event -> bool) :
  f (EMarkKeyAsQuotaExceeded k) = false ->
  (forall d r, f (EMarkKeyAsDead k d r) = false) ->
  count f (snd (handleAiError W e k m h)) = 0.
Proof.
  intros H1 H2.
  destruct (handleAiError_events W e k m h) as [-> | [-> | (d & r & ->)]];
    unfold count; cbn; rewrite ?H1, ?H2; reflexivity.
Qed.

Lemma phase2Parse_quiet (raw : jsstring) (tok : Z) (h : list Event) (f : Event -> bool) :
  (forall q, f (ESearch Phase2 (user_id pc) q (page_id pc)) = false) ->
  count f (snd (phase2Parse W pc total raw tok h)) = 0.
Proof.
  intros H.
  destruct (phase2Parse_events raw tok h) as [-> | [q ->]];
    unfold count; cbn; rewrite ?H; reflexivity.
Qed.

Lemma count_cons (f : Event -> bool) (ev : Event) (es : list Event) :
  count f (ev :: es) = (if f ev then 1 else 0) + count f es.
Proof. unfold count. cbn [filter]. now destruct (f ev). Qed.

(** A turn that made its inference call with the key it acquired. *)
Lemma attempt_with_call (h : list Event) (kd : KeyData) (k : jsstring)
      (tail : list Event) :
  smart_key W (h ++ [acquisition]) = Ret (Some kd) ->
  usableKey (Some kd) = Some k ->
  count is_acquire tail = 0 -> count is_infer tail = 0 ->
  count is_acquire (inference pc ms k :: tail) = 0
  /\ count is_infer (inference pc ms k :: tail) <= 1
  /\ pooled W h (acquisition :: inference pc ms k :: tail).
Proof.
  intros Hk Hu Ha Hi. rewrite !count_cons, Ha, Hi. cbn [is_acquire is_infer inference].
  split; [reflexivity|]. split; [lia|].
  cbn [pooled acquisition]. split; [exact I|]. split.
  - repeat split. exists h, kd. repeat split; assumption.
  - now apply pooled_quiet.
Qed.

(** What every turn of the swarm loop does. *)
Lemma phase2Attempt_summary (h : list Event) :
  exists flow tail,
    phase2Attempt W pc ms total h = (Ret flow, acquisition :: tail)
    /\ count is_acquire tail = 0
    /\ count is_infer tail <= 1
    /\ pooled W h (acquisition :: tail).
Proof.
  destruct (phase2Attempt_cases h)
    as [[_ E] | [[_ E] | (kd & k & Hk & Hu &
         [(e & Hi & E) | [(c & e & Hi & Hc & E) | [(c & raw & e & Hi & Hc & E)
          | (c & raw & r & Hi & Hc & E & _)]]])]].
  - exists LeaveLoop, []. split; [exact E|].
    split; [reflexivity|]. split; [apply Nat.le_0_l|]. split; exact I.
  - exists NextAttempt, []. split; [exact E|].
    split; [reflexivity|]. split; [apply Nat.le_0_l|]. split; exact I.
  - eexists NextAttempt, _. split; [exact E|].
    apply (attempt_with_call h kd k _ Hk Hu); now apply handleAiError_quiet.
  - eexists NextAttempt, _. split; [exact E|].
    apply (attempt_with_call h kd k _ Hk Hu); now apply handleAiError_quiet.
  - eexists NextAttempt, _. split; [exact E|].
    apply (attempt_with_call h kd k _ Hk Hu);
      rewrite count_cons, handleAiError_quiet; reflexivity.
  - eexists (Return (Some r)), _. split; [exact E|].
    apply (attempt_with_call h kd k _ Hk Hu);
      rewrite count_cons, phase2Parse_quiet; reflexivity.
Qed.

Lemma count_zero (f : Event -> bool) (es : list Event) :
  count f es = 0 -> Forall (fun ev => f ev = false) es.
Proof.
  unfold count. induction es as [|ev es IH]; intros H; [constructor|].
  cbn in H. destruct (f ev) eqn:E; [discriminate|]. constructor; auto.
Qed.

Lemma phase2Loop_summary (n : nat) (h : list Event) :
  exists r es,
    phase2Loop W pc ms total n h = (Ret r, es)
    /\ count is_acquire es <= n
    /\ count is_infer es <= count is_acquire es
    /\ Forall (fun ev => is_acquire ev = true -> ev = acquisition) es
    /\ pooled W h es.
Proof.
  revert h. induction n as [|n IH]; intros h.
  - exists None, []. split; [reflexivity|]. split; [apply Nat.le_0_l|].
    split; [apply Nat.le_0_l|]. split; [constructor|exact I].
  - destruct (phase2Attempt_summary h) as (flow & tail & Ha & Hq & Hi & Hp).
    cbn [phase2Loop]. unfold bind. rewrite Ha.
    assert (Forall (fun ev => is_acquire ev = true -> ev = acquisition) (acquisition :: tail))
      as Hall.
    { constructor; [reflexivity|]. apply count_zero in Hq.
      eapply Forall_impl; [|exact Hq]. intros ev H1 H2. congruence. }
    assert (count is_acquire (acquisition :: tail) = 1) as Hone.
    { change (acquisition :: tail) with ([acquisition] ++ tail).
      rewrite count_app, Hq. reflexivity. }
    assert (count is_infer (acquisition :: tail) <= 1) as Hinf.
    { change (acquisition :: tail) with ([acquisition] ++ tail).
      rewrite count_app. exact Hi. }
    destruct flow as [r| |].
    + exists r, (acquisition :: tail). unfold ret. rewrite app_nil_r.
      split; [reflexivity|]. split; [lia|]. split; [lia|]. split; assumption.
    + destruct (IH (h ++ acquisition :: tail)) as (r & es & -> & H1 & H2 & H3 & H4).
      exists r, ((acquisition :: tail) ++ es).
      split; [reflexivity|]. rewrite !count_app.
      split; [lia|]. split; [lia|]. split.
      * apply Forall_app. now split.
      * now apply pooled_app.
    + exists None, (acquisition :: tail). unfold ret. rewrite app_nil_r.
      split; [reflexivity|]. split; [lia|]. split; [lia|]. split; assumption.
Qed.

(** When no inference call ever returns, the loop ends with [null]. *)
Lemma phase2Loop_exhausted (n : nat) (h : list Event) :
  (forall h', exists e, infer W h' = Throw e) ->
  fst (phase2Loop W pc ms total n h) = Ret None.
Proof.
  intros Hfail. revert h. induction n as [|n IH]; intros h; [reflexivity|].
  cbn [phase2Loop]. unfold bind.
  destruct (phase2Attempt_cases h)
    as [[_ ->] | [[_ ->] | (kd & k & Hk & Hu &
         [(e & Hi & ->) | [(c & e & Hi & Hc & ->) | [(c & raw & e & Hi & Hc & ->)
          | (c & raw & r & Hi & Hc & -> & _)]]])]];
    try (destruct (Hfail (h ++ [acquisition; inference pc ms k])) as [e' He']; congruence).
  - reflexivity.
  - specialize (IH (h ++ [acquisition])). destruct (phase2Loop _ _ _ _ n _). exact IH.
  - match goal with
    | |- context [phase2Loop W pc ms total n ?h'] =>
        specialize (IH h'); destruct (phase2Loop W pc ms total n h')
    end. exact IH.
Qed.

(** When every inference call throws and the pool always has a key, every
    one of the [n] turns acquires a key and calls the model. *)
Lemma phase2Loop_retries (n : nat) (h : list Event) :
  (forall h', exists e, infer W h' = Throw e) ->
  (forall h', exists kd k, smart_key W h' = Ret (Some kd) /\ usableKey (Some kd) = Some k) ->
  count is_acquire (snd (phase2Loop W pc ms total n h)) = n
  /\ count is_infer (snd (phase2Loop W pc ms total n h)) = n.
Proof.
  intros Hfail Hkey. revert h. induction n as [|n IH]; intros h; [split; reflexivity|].
  cbn [phase2Loop]. unfold bind.
  destruct (phase2Attempt_cases h)
    as [[(kd & Hk & Hu) _] | [[(e & Hk) _] | (kd & k & Hk & Hu &
         [(e & Hi & ->) | [(c & e & Hi & Hc & ->) | [(c & raw & e & Hi & Hc & ->)
          | (c & raw & r & Hi & Hc & -> & _)]]])]];
    try (destruct (Hfail (h ++ [acquisition; inference pc ms k])) as [e' He']; congruence);
    try (destruct (Hkey (h ++ [acquisition])) as (kd' & k' & Hk' & Hu'); congruence).
  match goal with
  | |- context [phase2Loop W pc ms total n ?h'] =>
      specialize (IH h'); destruct (phase2Loop W pc ms total n h') as [o es]
  end.
  cbn [snd] in *. destruct IH as [IH1 IH2].
  rewrite !count_app, IH1, IH2.
  rewrite !handleAiError_quiet by reflexivity. split; reflexivity.
Qed.

(** When the pool never hands out a usable key, no inference call is made
    and the loop ends with the null result. *)
Lemma phase2Loop_no_key (n : nat) (h : list Event) :
  (forall h', match smart_key W h' with
              | Ret kd => usableKey kd = None
              | Throw _ => True
              end) ->
  fst (phase2Loop W pc ms total n h) = Ret None
  /\ count is_infer (snd (phase2Loop W pc ms total n h)) = 0.
Proof.
  intros Hnone. revert h. induction n as [|n IH]; intros h; [split; reflexivity|].
  cbn [phase2Loop]. unfold bind.
  destruct (phase2Attempt_cases h)
    as [[_ ->] | [[_ ->] | (kd & k & Hk & Hu & _)]].
  - split; reflexivity.
  - specialize (IH (h ++ [acquisition])).
    destruct (phase2Loop W pc ms total n (h ++ [acquisition])) as [o es].
    cbn [fst snd] in *. destruct IH as [-> IH2]. split; [reflexivity|].
    rewrite count_app, IH2. reflexivity.
  - specialize (Hnone (h ++ [acquisition])). rewrite Hk in Hnone. congruence.
Qed.

Lemma generateReply_managed (h : list Event) :
  userKeyAttempted W pc = false -> ownApiSelected W pc = false ->
  generateReply W pc ms total h = phase2Loop W pc ms total 3 h.
Proof.
  intros Hu Ho. unfold generateReply. rewrite Hu, Ho. unfold bind, ret.
  cbn [app]. rewrite !app_nil_r.
  destruct (phase2Loop W pc ms total 3 h) as [o es]. reflexivity.
Qed.

End Swarm.

(** C4: when no user key was attempted (and the own-API path is not
    selected), the request returns without raising and makes at most
    three attempts; every key it acquires is asked of the pool for
    [google] / [gemini-2.5-flash], every inference call follows an
    acquisition of its own and is a call of that model with the key just
    acquired.  When every inference call fails, whatever the failure, the
    request ends with the null result; and when the pool always has a key
    the loop goes on after each failure: three acquisitions and three
    calls are made before it gives up.  When the pool never hands out a
    usable key, the request ends with the null result without any
    inference call. *)
Theorem swarm_three_attempts (W : World) (pc : PageConfig) (ms : list Message)
        (total : Z) (h : list Event) :
  userKeyAttempted W pc = false -> ownApiSelected W pc = false ->
  let out := fst (generateReply W pc ms total h) in
  let calls := snd (generateReply W pc ms total h) in
  (exists r, out = Ret r)
  /\ count is_acquire calls <= 3
  /\ Forall (fun ev => is_acquire ev = true ->
                       ev = EGetSmartKey (lit "google") gemini_flash) calls
  /\ count is_infer calls <= count is_acquire calls
  /\ pooled W h calls
  /\ ((forall h', exists e, infer W h' = Throw e) ->
      out = Ret None
      /\ ((forall h', exists kd k,
              smart_key W h' = Ret (Some kd) /\ usableKey (Some kd) = Some k) ->
          count is_acquire calls = 3 /\ count is_infer calls = 3))
  /\ ((forall h', match smart_key W h' with
                  | Ret kd => usableKey kd = None
                  | Throw _ => True
                  end) ->
      out = Ret None /\ count is_infer calls = 0).
Proof.
  intros Hu Ho. cbv zeta. rewrite (generateReply_managed W pc ms total h Hu Ho).
  destruct (phase2Loop_summary W pc ms total 3 h) as (r & es & E & H1 & H2 & H3 & H4).
  split; [|split; [|split; [|split; [|split; [|split]]]]];
    [| | | | | |now apply phase2Loop_no_key].
  - rewrite E. now exists r.
  - now rewrite E.
  - now rewrite E.
  - now rewrite E.
  - now rewrite E.
  - intros Hfail. split.
    + now apply phase2Loop_exhausted.
    + intros Hkey. now apply phase2Loop_retries.
Qed.


Section Objects.

Lemma eqb_sym (a b : jsstring) : eqb a b = eqb b a.
Proof.
  destruct (eqb a b) eqn:E1, (eqb b a) eqn:E2; try reflexivity.
  - apply eqb_eq in E1. subst. now rewrite eqb_refl in E2.
  - apply eqb_eq in E2. subst. now rewrite eqb_refl in E1.
Qed.

Lemma obj_get_set_other {V : Type} (k k' : jsstring) (v : V) (o : list (jsstring * V)) :
  eqb k' k = false -> obj_get k' (obj_set k v o) = obj_get k' o.
Proof.
  intros Hk. induction o as [|[k0 v0] o IH]; cbn [obj_set obj_get].
  - now rewrite Hk.
  - destruct (eqb k k0) eqn:E; cbn [obj_get].
    + apply eqb_eq in E. subst k0. now rewrite Hk.
    + destruct (eqb k' k0); [reflexivity|exact IH].
Qed.

Lemma field_set_other (k k' : jsstring) (v : value) (o : object) :
  eqb k' k = false -> field (obj_set k v o) k' = field o k'.
Proof. intros H. unfold field. now rewrite obj_get_set_other. Qed.

Lemma digits_from_head (fuel : nat) (n : N) (acc : jsstring) :
  (exists d rest, acc = d :: rest /\ is_digit d = true) ->
  exists d rest, digits_from fuel n acc = d :: rest /\ is_digit d = true.
Proof.
  revert n acc. induction fuel as [|f IH]; intros n acc Hacc; [exact Hacc|].
  cbn [digits_from].
  assert (is_digit (48 + n mod 10)%N = true) as Hd.
  { unfold is_digit. assert (n mod 10 < 10)%N as Hm by (now apply N.mod_upper_bound).
    revert Hm. generalize (n mod 10)%N. intros r Hr.
    apply andb_true_iff. split; apply N.leb_le; lia. }
  destruct (n / 10 =? 0)%N; [eauto|]. apply IH. eauto.
Qed.

Lemma decimal_head (n : nat) :
  exists d rest, decimal n = d :: rest /\ is_digit d = true.
Proof.
  unfold decimal. cbn [digits_from].
  assert (is_digit (48 + N.of_nat n mod 10)%N = true) as Hd.
  { unfold is_digit.
    assert (N.of_nat n mod 10 < 10)%N as Hm by (now apply N.mod_upper_bound).
    revert Hm. generalize (N.of_nat n mod 10)%N. intros r Hr.
    apply andb_true_iff. split; apply N.leb_le; lia. }
  destruct (N.of_nat n / 10 =? 0)%N; [eauto|]. apply digits_from_head. eauto.
Qed.

(** A name that starts with a letter is not an index. *)
Lemma obj_get_indexed {A : Type} (f : A -> value) (i : nat) (l : list A)
      (c : N) (name : jsstring) :
  is_digit c = false -> obj_get (c :: name) (indexed f i l) = None.
Proof.
  intros Hc. revert i. induction l as [|a l IH]; intros i; [reflexivity|].
  cbn [indexed obj_get]. destruct (decimal_head i) as (d & rest & -> & Hd).
  cbn [eqb]. destruct (N.eqb_spec c d) as [->|_]; [congruence|]. cbn [andb]. apply IH.
Qed.

Lemma field_spread (parsed : json) (c : N) (name : jsstring) :
  is_digit c = false ->
  field (spread parsed) (c :: name) = prop parsed (c :: name).
Proof.
  intros Hc. unfold field. destruct parsed as [| | | s | items | fields]; try reflexivity.
  - cbn [spread]. now rewrite obj_get_indexed.
  - cbn [spread]. now rewrite obj_get_indexed.
  - cbn [spread prop]. induction fields as [|[k v] fields IH]; [reflexivity|].
    cbn [map obj_get fst snd]. destruct (eqb (c :: name) k); [reflexivity|exact IH].
Qed.

Lemma field_withReply (parsed : json) (o : object) :
  withReply parsed = Ret o ->
  field o (lit "error") = prop parsed (lit "error").
Proof.
  unfold withReply. intros H.
  pose proof (field_spread parsed 101%N (lit "rror") eq_refl) as Hs.
  destruct parsed; try discriminate;
    repeat match type of H with
           | (if ?b then _ else _) = _ => destruct b
           end;
    injection H as <-;
    rewrite ?field_set_other by reflexivity;
    exact Hs.
Qed.

End Objects.

Ltac tail_shape :=
  cbn [fst snd];
  match goal with
  | |- tool_tail [] => left; reflexivity
  | |- tool_tail [?s] => right; exists s; split; [reflexivity|left; reflexivity]
  | |- tool_tail [?s; ?r] =>
      right; exists s; split; [reflexivity|]; right; exists r; split;
      [reflexivity|left; reflexivity]
  | |- tool_tail [?s; ?r; ?b] =>
      right; exists s; split; [reflexivity|]; right; exists r; split; [reflexivity|];
      right; exists b; split; reflexivity
  end.

Section UserKeys.

Variable W : World.
Variable pc : PageConfig.
Variable ms : list Message.
Variable total : Z.

Lemma parseContent_Ret (raw : jsstring) (parsed : json) :
  parseContent raw = Ret parsed -> extractJsonFromAiResponse raw = Some parsed.
Proof. unfold parseContent. destruct (extractJsonFromAiResponse raw); congruence. Qed.

(** The tool loop of Phase 1. *)
Lemma phase1Tool_cases (k base model : jsstring) (parsed : json) (tok : Z)
      (h : list Event) :
  tool_tail (snd (phase1Tool W pc ms total k base model parsed tok h))
  /\ forall r,
      fst (phase1Tool W pc ms total k base model parsed tok h) = Ret r ->
      payloads_without_error W ->
      nullish (field r (lit "error")) = true.
Proof.
  unfold phase1Tool, searchProducts, chat, recordKeyUsage, swallow. unfold_monad.
  match goal with |- context [search W ?x] => destruct (search W x) as [products|e] eqn:Hs end;
    norm.
  2:{ split; [tail_shape | discriminate]. }
  match goal with |- context [infer W ?x] => destruct (infer W x) as [c2|e] eqn:Hi end; norm.
  2:{ split; [tail_shape | discriminate]. }
  destruct (firstContent c2) as [raw2|e] eqn:Hc; norm.
  2:{ split; [tail_shape | discriminate]. }
  match goal with |- context [key_op W ?x] => destruct (key_op W x) as [[]|e] eqn:Hr end; norm;
    (destruct (parseContent raw2) as [parsed2|e2] eqn:Hp; norm;
     [destruct (withReply parsed2) as [o|e3] eqn:Hw; norm|]);
    (split; [tail_shape|]);
    try discriminate;
    intros r Hr' Hfree; injection Hr' as <-;
    rewrite !field_set_other by reflexivity;
    rewrite (field_withReply _ _ Hw);
    eapply Hfree; eauto using parseContent_Ret.
Qed.


Lemma identifier_modelToUse (k p b : jsstring) :
  identifier (phase1HandlerScope W pc k p b) (lit "modelToUse")
  = Throw (ReferenceError (lit "modelToUse")).
Proof. reflexivity. Qed.

(** How a turn of the loop over the user keys can go. *)
Lemma phase1Attempt_cases (k : jsstring) (h : list Event) :
  (exists e,
      infer W (h ++ [userCall W pc ms k]) = Throw e
      /\ phase1Attempt W pc ms total k h
         = (Throw (ReferenceError (lit "modelToUse")), [userCall W pc ms k]))
  \/ (exists c,
         infer W (h ++ [userCall W pc ms k]) = Ret c
         /\ (choices c = None \/ choices c = Some [])
         /\ phase1Attempt W pc ms total k h = (Ret None, [userCall W pc ms k]))
  \/ (exists c c0 l r tail,
         infer W (h ++ [userCall W pc ms k]) = Ret c
         /\ choices c = Some (c0 :: l)
         /\ phase1Attempt W pc ms total k h
            = (Ret (Some r),
               [userCall W pc ms k; ERecordKeyUsage k (usage ms c (contentOf c0))] ++ tail)
         /\ tool_tail tail
         /\ (payloads_without_error W -> nullish (field r (lit "error")) = true)).
Proof.
  unfold phase1Attempt, chat, recordKeyUsage, swallow. unfold_monad.
  fold (userCall W pc ms k).
  destruct (infer W (h ++ [userCall W pc ms k])) as [c|e] eqn:Hi; norm.
  2:{ left. exists e. split; [reflexivity|]. now rewrite identifier_modelToUse. }
  right. destruct (choices c) as [[|c0 l]|] eqn:Hc; norm.
  1,3: left; exists c; repeat split; auto.
  right. fold (contentOf c0). fold (usage ms c (contentOf c0)).
  assert (firstContent c = Ret (contentOf c0)) as Hraw by (unfold firstContent; now rewrite Hc).
  set (h1 := h ++ [userCall W pc ms k; ERecordKeyUsage k (usage ms c (contentOf c0))]).
  destruct (key_op W h1) as [[]|e] eqn:Hk; norm; fold h1;
    (destruct (parseContent (contentOf c0)) as [parsed|e1] eqn:Hp; norm;
     [ destruct (isSearchCall parsed) as [[]|e2] eqn:Hs; norm;
       [ pose proof (phase1Tool_cases k (baseURLOf (providerOfKey W pc k))
                       (or_default (chatmodel pc) (defaultModel W pc)) parsed
                       (usage ms c (contentOf c0)) h1) as [Ht Hf];
         destruct (phase1Tool W pc ms total k _ _ parsed (usage ms c (contentOf c0)) h1)
           as [[r|e3] tail] eqn:Htool; norm
       | destruct (withReply parsed) as [o|e3] eqn:Hw; norm
       | ]
     | ]);
    eexists c, c0, l, _, _; (split; [reflexivity|]); (split; [exact Hc|]);
    (split; [reflexivity|]); (split; [first [exact Ht | tail_shape]|]);
    intros Hfree; try reflexivity.
  all: try (apply Hf; [reflexivity|exact Hfree]).
  all: rewrite !field_set_other by reflexivity;
       rewrite (field_withReply _ _ Hw);
       eapply Hfree; eauto using parseContent_Ret.
Qed.

End UserKeys.

Section Shuffle.

Variable A : Type.
Hypothesis dec : forall x y : A, {x = y} + {x <> y}.

Lemma nth_error_set_nth (i j : nat) (b : A) (l : list A) :
  nth_error l j = Some b -> nth_error (set_nth i b l) j = Some b.
Proof.
  revert i j. induction l as [|x l IH]; intros i j H; [now destruct j|].
  destruct i as [|i], j as [|j]; cbn in *; auto.
Qed.

Lemma count_occ_set_nth (i : nat) (a b x : A) (l : list A) :
  nth_error l i = Some a ->
  count_occ dec (set_nth i b l) x + (if dec a x then 1 else 0)
  = count_occ dec l x + (if dec b x then 1 else 0).
Proof.
  revert i. induction l as [|y l IH]; intros i H; [now destruct i|].
  destruct i as [|i]; cbn in H.
  - injection H as ->. cbn [set_nth count_occ].
    destruct (dec b x), (dec a x); lia.
  - cbn [set_nth count_occ]. specialize (IH i H).
    destruct (dec y x); lia.
Qed.

Lemma swap_Permutation (i j : nat) (l : list A) : Permutation (swap i j l) l.
Proof.
  unfold swap. destruct (nth_error l i) as [a|] eqn:Hi; [|reflexivity].
  destruct (nth_error l j) as [b|] eqn:Hj; [|reflexivity].
  apply (Permutation_count_occ dec). intros x.
  pose proof (count_occ_set_nth i a b x l Hi) as H1.
  pose proof (count_occ_set_nth j b a x (set_nth i b l)
                (nth_error_set_nth i j b l Hj)) as H2.
  lia.
Qed.

Lemma shuffle_from_Permutation (draw : nat -> nat) (i : nat) (l : list A) :
  Permutation (shuffle_from draw i l) l.
Proof.
  revert l. induction i as [|i IH]; intros l; [reflexivity|].
  cbn [shuffle_from]. rewrite IH. apply swap_Permutation.
Qed.

Lemma shuffle_Permutation (draw : nat -> nat) (l : list A) :
  Permutation (shuffle draw l) l.
Proof. apply shuffle_from_Permutation. Qed.

End Shuffle.

Lemma shuffle_single (A : Type) (draw : nat -> nat) (a : A) : shuffle draw [a] = [a].
Proof. reflexivity. Qed.

Lemma tool_tail_quiet (tail : list Event) :
  tool_tail tail ->
  count is_acquire tail = 0 /\ count is_swarm tail = 0 /\ attempted_keys tail = []
  /\ count is_search tail <= 1 /\ count is_requery tail <= 1.
Proof.
  intros [-> | (s & Hs & [-> | (r & Hr & [-> | (b & Hb & ->)])])];
    try (destruct s; try discriminate);
    try (destruct r as [| [] | | | | |]; try discriminate);
    try (destruct b; try discriminate);
    cbn; repeat split; lia.
Qed.

Lemma attempted_keys_app (a b : list Event) :
  attempted_keys (a ++ b) = attempted_keys a ++ attempted_keys b.
Proof. unfold attempted_keys. apply flat_map_app. Qed.

Section UserLoop.

Variable W : World.
Variable pc : PageConfig.
Variable ms : list Message.
Variable total : Z.

Lemma phase1Loop_summary (keys : list jsstring) (h : list Event) :
  exists out pre tail,
    phase1Loop W pc ms total keys h = (out, pre ++ tail)
    /\ count is_search pre = 0 /\ count is_requery pre = 0
    /\ tool_tail tail
    /\ count is_acquire pre = 0 /\ count is_swarm pre = 0
    /\ (exists n, attempted_keys pre = firstn n keys)
    /\ (forall r, out = Ret (Some r) ->
                  payloads_without_error W ->
                  nullish (field r (lit "error")) = true).
Proof.
  revert h. induction keys as [|k keys IH]; intros h.
  - exists (Ret None), [], []. cbn. repeat split; try (now left); try discriminate.
    now exists 0.
  - cbn [phase1Loop]. unfold bind.
    destruct (phase1Attempt_cases W pc ms total k h)
      as [(e & Hi & ->) | [(c & Hi & Hc & ->) | (c & c0 & l & r & tail & Hi & Hc & -> & Ht & Hf)]].
    + exists (Throw (ReferenceError (lit "modelToUse"))), [userCall W pc ms k], [].
      cbn. repeat split; try (now left); try discriminate. now exists 1.
    + destruct (IH (h ++ [userCall W pc ms k]))
        as (out & pre & tail & -> & H1 & H2 & H3 & H4 & H5 & (n & H6) & H7).
      exists out, (userCall W pc ms k :: pre), tail.
      change (userCall W pc ms k :: pre) with ([userCall W pc ms k] ++ pre).
      rewrite !count_app, H1, H2, H4, H5, attempted_keys_app, H6.
      repeat split; auto. now exists (S n).
    + exists (Ret (Some r)),
        [userCall W pc ms k; ERecordKeyUsage k (usage ms c (contentOf c0))], tail.
      unfold ret. rewrite app_nil_r.
      repeat split; auto.
      * now exists 1.
      * intros r' E. injection E as <-. exact Hf.
Qed.

End UserLoop.

Section Paths.

Variable W : World.
Variable pc : PageConfig.
Variable ms : list Message.
Variable total : Z.

Lemma own_paths_exclusive :
  userKeyAttempted W pc = true -> ownApiSelected W pc = false.
Proof.
  unfold userKeyAttempted, ownApiSelected, isOurOwnProvider.
  destruct (useCheapEngine pc); [discriminate|].
  destruct (eqb (defaultProvider W pc) (lit "salesmanchatbot")); [discriminate|].
  reflexivity.
Qed.

(** The dispatcher on a page that brings its own keys. *)
Lemma generateReply_own_keys (h : list Event) :
  userKeyAttempted W pc = true ->
  generateReply W pc ms total h
  = match phase1Loop W pc ms total (userKeys W pc) h with
    | (Ret (Some r), es) => (Ret (Some r), es)
    | (Ret None, es) => (Ret (Some (lockResponse W pc)), es)
    | (Throw e, es) => (Throw e, es)
    end.
Proof.
  intros Hu. unfold generateReply. rewrite Hu, (own_paths_exclusive Hu).
  unfold bind, ret. cbn [app]. rewrite app_nil_r. fold (userKeys W pc).
  destruct (phase1Loop W pc ms total (userKeys W pc) h) as [[[r|]|e] es];
    cbn [app]; rewrite ?app_nil_r; reflexivity.
Qed.

(** The own-API path makes one call, with the key of the page as bearer,
    and never throws. *)
Lemma ownApi_cases (h : list Event) :
  exists o,
    ownApi W pc ms total h = (Ret o, [(ownCall pc ms)])
    /\ forall r, o = Some r ->
                 nullish (field r (lit "error")) = true
                 \/ field r (lit "reply") = Json JNull.
Proof.
  unfold ownApi, try_catch, bind, call, ret. fold (ownCall pc ms).
  destruct (own_api W (h ++ [(ownCall pc ms)])) as [data|e]; cbn [app].
  - destruct (nonempty (own_content data)) as [aiText|]; cbn [app];
      eexists; (split; [reflexivity|]); intros r E; [|discriminate].
    injection E as <-. left. reflexivity.
  - eexists. split; [reflexivity|]. intros r E. injection E as <-. right. reflexivity.
Qed.

(** The dispatcher on a page that selects the own API. *)
Lemma generateReply_own_api (h : list Event) :
  ownApiSelected W pc = true ->
  exists o,
    ownApi W pc ms total h = (Ret o, [(ownCall pc ms)])
    /\ generateReply W pc ms total h
       = match o with
         | Some r => (Ret (Some r), [(ownCall pc ms)])
         | None =>
             (fst (phase2Loop W pc ms total 3 (h ++ [(ownCall pc ms)])),
              (ownCall pc ms) :: snd (phase2Loop W pc ms total 3 (h ++ [(ownCall pc ms)])))
         end.
Proof.
  intros Ho.
  assert (userKeyAttempted W pc = false) as Hu.
  { destruct (userKeyAttempted W pc) eqn:E; [|reflexivity].
    apply own_paths_exclusive in E. congruence. }
  destruct (ownApi_cases h) as (o & E & _). exists o. split; [exact E|].
  unfold generateReply. rewrite Ho, Hu. unfold bind. rewrite E.
  destruct o as [r|]; unfold ret; cbn [app]; [reflexivity|].
  rewrite app_nil_r.
  destruct (phase2Loop W pc ms total 3 (h ++ [(ownCall pc ms)])) as [o es]. reflexivity.
Qed.


Lemma synthesized_error_free (rows : list json) (tok : Z) (r : object) :
  synthesized rows tok = Ret r -> nullish (field r (lit "error")) = true.
Proof.
  unfold synthesized. destruct (productLines 0 rows); [|discriminate].
  intros E. injection E as <-. reflexivity.
Qed.

Lemma phase2Parse_error_free (raw : jsstring) (tok : Z) (h : list Event) (r : object) :
  fst (phase2Parse W pc total raw tok h) = Ret r ->
  (forall parsed, extractJsonFromAiResponse raw = Some parsed ->
                  nullish (prop parsed (lit "error")) = true) ->
  nullish (field r (lit "error")) = true.
Proof.
  unfold phase2Parse, searchProducts. unfold_monad. intros H Hfree.
  destruct (parseContent raw) as [parsed|e] eqn:Hp; norm; [|discriminate].
  apply parseContent_Ret in Hp. specialize (Hfree parsed Hp).
  assert (forall o, withReply parsed = Ret o ->
                    nullish (field (obj_set (lit "token_usage") (Num (tok + total))
                                      (obj_set (lit "model") (str gemini_flash) o))
                               (lit "error")) = true) as Hspread.
  { intros o Hw. rewrite !field_set_other by reflexivity.
    now rewrite (field_withReply _ _ Hw). }
  destruct (isSearchCall parsed) as [[]|e] eqn:Hs; norm; [| |discriminate].
  - match type of H with context [search W ?x] => destruct (search W x) as [[[|p rows]|]|e] end;
      norm; try discriminate.
    + destruct (withReply parsed) as [o|e] eqn:Hw; norm; [|discriminate].
      injection H as <-. now apply Hspread.
    + destruct (synthesized (p :: rows) (tok + total)) as [o|e] eqn:Hy; norm; [|discriminate].
      injection H as <-. now apply synthesized_error_free in Hy.
    + destruct (withReply parsed) as [o|e] eqn:Hw; norm; [|discriminate].
      injection H as <-. now apply Hspread.
  - destruct (withReply parsed) as [o|e] eqn:Hw; norm; [|discriminate].
    injection H as <-. now apply Hspread.
Qed.

Lemma tool_tail_search (s : Event) : is_search s = true -> tool_tail [s].
Proof. intros H. right. exists s. split; [exact H|now left]. Qed.

(** The tool events of a turn of the swarm loop, and its answer. *)
Lemma phase2Attempt_tools (h : list Event) :
  exists flow pre tail,
    phase2Attempt W pc ms total h = (Ret flow, pre ++ tail)
    /\ count is_search pre = 0 /\ count is_requery pre = 0
    /\ tool_tail tail
    /\ (tail <> [] -> exists r, flow = Return (Some r))
    /\ (forall r, flow = Return r ->
                  payloads_without_error W ->
                  exists r', r = Some r' /\ nullish (field r' (lit "error")) = true).
Proof.
  destruct (phase2Attempt_cases W pc ms total h)
    as [[_ E] | [[_ E] | (kd & k & Hk & Hu &
         [(e & Hi & E) | [(c & e & Hi & Hc & E) | [(c & raw & e & Hi & Hc & E)
          | (c & raw & r & Hi & Hc & E & Hr)]]])]].
  - exists LeaveLoop, [acquisition], []. rewrite app_nil_r.
    repeat split; try discriminate; try (now left); congruence.
  - exists NextAttempt, [acquisition], []. rewrite app_nil_r.
    repeat split; try discriminate; try (now left); congruence.
  - eexists NextAttempt, _, []. rewrite app_nil_r. split; [exact E|].
    rewrite !count_app, !handleAiError_quiet by reflexivity.
    repeat split; try discriminate; try (now left); congruence.
  - eexists NextAttempt, _, []. rewrite app_nil_r. split; [exact E|].
    rewrite !count_app, !handleAiError_quiet by reflexivity.
    repeat split; try discriminate; try (now left); congruence.
  - eexists NextAttempt, _, []. rewrite app_nil_r. split; [exact E|].
    rewrite !count_app, !handleAiError_quiet by reflexivity.
    repeat split; try discriminate; try (now left); congruence.
  - eexists (Return (Some r)), _, _. split; [exact E|].
    split; [reflexivity|]. split; [reflexivity|]. split; [|split].
    + destruct (phase2Parse_events W pc total raw (usage ms c raw)
                  (h ++ [acquisition; inference pc ms k;
                         ERecordKeyUsage k (usage ms c raw)])) as [-> | [q ->]].
      * now left.
      * now apply tool_tail_search.
    + intros _. now exists r.
    + intros r0 E0 Hfree. injection E0 as <-. exists r. split; [reflexivity|].
      destruct Hr as [Hr | ->]; [|reflexivity].
      apply (phase2Parse_error_free _ _ _ _ Hr).
      intros parsed Hp. exact (Hfree _ _ _ _ Hi Hc Hp).
Qed.

Lemma phase2Loop_tools (n : nat) (h : list Event) :
  exists out pre tail,
    phase2Loop W pc ms total n h = (Ret out, pre ++ tail)
    /\ count is_search pre = 0 /\ count is_requery pre = 0
    /\ tool_tail tail
    /\ (forall r, out = Some r -> payloads_without_error W ->
                  nullish (field r (lit "error")) = true).
Proof.
  revert h. induction n as [|n IH]; intros h.
  - exists None, [], []. repeat split; try (now left); discriminate.
  - cbn [phase2Loop]. unfold bind.
    destruct (phase2Attempt_tools h)
      as (flow & pre & tail & -> & H1 & H2 & H3 & H4 & H5).
    destruct flow as [r| |].
    + exists r, pre, tail. unfold ret. rewrite app_nil_r.
      repeat split; auto. intros r' -> Hfree.
      destruct (H5 _ eq_refl Hfree) as (r'' & E & Hn). now injection E as <-.
    + destruct tail as [|ev tail];
        [|destruct H4 as [r E]; [discriminate|discriminate]].
      rewrite app_nil_r.
      destruct (IH (h ++ pre)) as (out & pre' & tail' & -> & G1 & G2 & G3 & G4).
      exists out, (pre ++ pre'), tail'. rewrite app_assoc, !count_app, H1, H2, G1, G2.
      repeat split; auto.
    + destruct tail as [|ev tail];
        [|destruct H4 as [r E]; [discriminate|discriminate]].
      exists None, pre, []. unfold ret. rewrite !app_nil_r.
      repeat split; auto; try (now left); discriminate.
Qed.

End Paths.

(* ================================================================== *)
(** * The dispatcher: the keys of the page *)
(* ================================================================== *)

Section OwnKeys.

Variable W : World.
Variable pc : PageConfig.
Variable ms : list Message.
Variable total : Z.

(** Every turn of the loop over the user keys opens with its call. *)
Lemma phase1Loop_first_call (k : jsstring) (rest : list jsstring) (h : list Event) :
  exists more, snd (phase1Loop W pc ms total (k :: rest) h) = userCall W pc ms k :: more.
Proof.
  cbn [phase1Loop]. unfold bind.
  destruct (phase1Attempt_cases W pc ms total k h)
    as [(e & Hi & ->) | [(c & Hi & Hc & ->) | (c & c0 & l & r & tail & Hi & Hc & -> & _)]].
  - now exists [].
  - destruct (phase1Loop W pc ms total rest _) as [o es]. now exists es.
  - unfold ret. cbn [snd app]. eexists. reflexivity.
Qed.

(** A call that throws ends the loop, and the request, at once. *)
Lemma phase1Loop_throw (k : jsstring) (rest : list jsstring) (h : list Event) (e : JsError) :
  infer W (h ++ [userCall W pc ms k]) = Throw e ->
  phase1Loop W pc ms total (k :: rest) h
  = (Throw (ReferenceError (lit "modelToUse")), [userCall W pc ms k]).
Proof.
  intros Hi. cbn [phase1Loop]. unfold bind.
  destruct (phase1Attempt_cases W pc ms total k h)
    as [(e' & _ & ->) | [(c & Hi' & _) | (c & c0 & l & r & tail & Hi' & _)]];
    [reflexivity|congruence|congruence].
Qed.

(** A completion without choices sends the loop to the next key. *)
Lemma phase1Loop_next (k : jsstring) (rest : list jsstring) (h : list Event)
      (c : Completion) :
  infer W (h ++ [userCall W pc ms k]) = Ret c ->
  choices c = None \/ choices c = Some [] ->
  phase1Loop W pc ms total (k :: rest) h
  = (fst (phase1Loop W pc ms total rest (h ++ [userCall W pc ms k])),
     userCall W pc ms k :: snd (phase1Loop W pc ms total rest (h ++ [userCall W pc ms k]))).
Proof.
  intros Hi Hc. cbn [phase1Loop]. unfold bind.
  destruct (phase1Attempt_cases W pc ms total k h)
    as [(e' & Hi' & _) | [(c' & _ & _ & ->) | (c' & c0 & l & r & tail & Hi' & Hc' & _)]].
  - congruence.
  - destruct (phase1Loop W pc ms total rest _) as [o es]. reflexivity.
  - rewrite Hi in Hi'. injection Hi' as <-. destruct Hc; congruence.
Qed.

(** A completion with a first choice ends the loop with a response. *)
Lemma phase1Loop_answer (k : jsstring) (rest : list jsstring) (h : list Event)
      (c : Completion) (c0 : Choice) (l : list Choice) :
  infer W (h ++ [userCall W pc ms k]) = Ret c ->
  choices c = Some (c0 :: l) ->
  exists r tail,
    phase1Loop W pc ms total (k :: rest) h
    = (Ret (Some r),
       [userCall W pc ms k; ERecordKeyUsage k (usage ms c (contentOf c0))] ++ tail)
    /\ tool_tail tail.
Proof.
  intros Hi Hc. cbn [phase1Loop]. unfold bind.
  destruct (phase1Attempt_cases W pc ms total k h)
    as [(e' & Hi' & _) | [(c' & Hi' & Hc' & _)
                         | (c' & c0' & l' & r & tail & Hi' & Hc' & -> & Ht & _)]].
  - congruence.
  - rewrite Hi in Hi'. injection Hi' as <-. destruct Hc'; congruence.
  - rewrite Hi in Hi'. injection Hi' as <-. rewrite Hc in Hc'. injection Hc' as <- <-.
    exists r, tail. unfold ret. rewrite app_nil_r. now split.
Qed.

(** The plain answer of an attempt: no tool call in the parsed content. *)
Lemma phase1Attempt_plain (k : jsstring) (h : list Event) (c : Completion)
      (c0 : Choice) (l : list Choice) (parsed : json) (o : object) :
  infer W (h ++ [userCall W pc ms k]) = Ret c ->
  choices c = Some (c0 :: l) ->
  parseContent (contentOf c0) = Ret parsed ->
  isSearchCall parsed = Ret false ->
  withReply parsed = Ret o ->
  phase1Attempt W pc ms total k h
  = (Ret (Some (obj_set (lit "model")
                  (str (or_default (chatmodel pc) (defaultModel W pc)))
                  (obj_set (lit "token_usage")
                     (Num (usage ms c (contentOf c0) + total)) o))),
     [userCall W pc ms k; ERecordKeyUsage k (usage ms c (contentOf c0))]).
Proof.
  intros Hi Hc Hp Hs Hw.
  unfold phase1Attempt, chat, recordKeyUsage, swallow. unfold_monad.
  fold (userCall W pc ms k). rewrite Hi. norm. rewrite Hc. norm.
  fold (contentOf c0). fold (usage ms c (contentOf c0)).
  rewrite Hp. norm. rewrite Hs. norm. rewrite Hw. norm.
  destruct (key_op W _) as [[]|e]; norm; reflexivity.
Qed.

Lemma field_reply_withReply (parsed : json) (o : object) :
  withReply parsed = Ret o ->
  truthy (prop parsed (lit "reply")) = true ->
  field o (lit "reply") = prop parsed (lit "reply").
Proof.
  unfold withReply. intros H Ht.
  pose proof (field_spread parsed 114%N (lit "eply") eq_refl) as Hs.
  destruct parsed; try discriminate; rewrite ?Ht in H; injection H as <-; exact Hs.
Qed.

End OwnKeys.

Section Isolation.

Variable W : World.
Variable pc : PageConfig.
Variable ms : list Message.
Variable total : Z.

(** When every completion comes without choices, the loop runs through
    all the keys and leaves without a response. *)
Lemma phase1Loop_no_choices (keys : list jsstring) (h : list Event) :
  (forall tr, exists c, infer W tr = Ret c /\ (choices c = None \/ choices c = Some [])) ->
  fst (phase1Loop W pc ms total keys h) = Ret None.
Proof.
  intros Hnone. revert h. induction keys as [|k keys IH]; intros h; [reflexivity|].
  destruct (Hnone (h ++ [userCall W pc ms k])) as (c & Hi & Hc).
  rewrite (phase1Loop_next W pc ms total k keys h c Hi Hc). cbn [fst]. apply IH.
Qed.

(** A request of a page that brings its own keys never touches the pool. *)
Lemma generateReply_isolated (h : list Event) :
  userKeyAttempted W pc = true ->
  count is_acquire (snd (generateReply W pc ms total h)) = 0
  /\ count is_swarm (snd (generateReply W pc ms total h)) = 0.
Proof.
  intros Hu. rewrite (generateReply_own_keys W pc ms total h Hu).
  destruct (phase1Loop_summary W pc ms total (userKeys W pc) h)
    as (out & pre & tail & -> & _ & _ & Ht & Ha & Hs & _).
  destruct (tool_tail_quiet tail Ht) as (Ha' & Hs' & _).
  assert (count is_acquire (pre ++ tail) = 0 /\ count is_swarm (pre ++ tail) = 0) as Hq.
  { rewrite !count_app, Ha, Hs, Ha', Hs'. split; reflexivity. }
  destruct out as [[r|]|e]; exact Hq.
Qed.

End Isolation.

(** C1 (the code departs from the intended behaviour): on a page that brings its own
    keys the pool is never touched -- no pooled key is acquired and no
    call of the swarm is made, whatever happens.  But when the call with
    the key in turn throws, the handler of line 1041 reads [modelToUse],
    which is out of scope there, and the request ends with a
    [ReferenceError] instead of the response [{ reply: null, error }];
    the only call made is the one with that key.  Only when the attempts
    fail without throwing (every completion comes without choices) does
    the request return the response of the strict lock, with an [error]
    and [reply: null]. *)
Theorem own_key_failure_throws (W : World) (pc : PageConfig) (ms : list Message)
        (total : Z) (h : list Event) :
  userKeyAttempted W pc = true ->
  (count is_acquire (snd (generateReply W pc ms total h)) = 0
   /\ count is_swarm (snd (generateReply W pc ms total h)) = 0)
  /\ (forall k rest e,
         userKeys W pc = k :: rest ->
         infer W (h ++ [userCall W pc ms k]) = Throw e ->
         generateReply W pc ms total h
         = (Throw (ReferenceError (lit "modelToUse")), [userCall W pc ms k]))
  /\ ((forall tr, exists c,
           infer W tr = Ret c /\ (choices c = None \/ choices c = Some [])) ->
      fst (generateReply W pc ms total h) = Ret (Some (lockResponse W pc))
      /\ nullish (field (lockResponse W pc) (lit "error")) = false
      /\ field (lockResponse W pc) (lit "reply") = Json JNull).
Proof.
  intros Hu. split; [now apply generateReply_isolated|]. split.
  - intros k rest e Hk Hi. rewrite (generateReply_own_keys W pc ms total h Hu), Hk.
    now rewrite (phase1Loop_throw W pc ms total k rest h e Hi).
  - intros Hnone. split; [|split; reflexivity].
    rewrite (generateReply_own_keys W pc ms total h Hu).
    pose proof (phase1Loop_no_choices W pc ms total (userKeys W pc) h Hnone) as E.
    destruct (phase1Loop W pc ms total (userKeys W pc) h) as [o es].
    cbn [fst] in E. now rewrite E.
Qed.

(** C1 on the sample page with one key, when the provider answers 401. *)
Lemma own_key_failure_throws_witness :
  generateReply (failing_world unauthorized) own_key_page greeting 0 []
  = (Throw (ReferenceError (lit "modelToUse")),
     [EInfer Phase1 (lit "sk-or-v1-abc") (lit "https://openrouter.ai/api/v1")
             gemini_flash greeting true]).
Proof.
  apply (proj1 (proj2 (own_key_failure_throws (failing_world unauthorized) own_key_page
                         greeting 0 [] eq_refl))
           (lit "sk-or-v1-abc") [] unauthorized); reflexivity.
Defined.

(** C5 (as stated, refuted): with two keys and calls that all throw, the
    loop stops after the first key: the second one is never tried although
    no attempt succeeded. *)
Lemma own_keys_stop_at_first_throw :
  ~ (forall (W : World) (pc : PageConfig) (ms : list Message) (total : Z)
            (h : list Event),
        userKeyAttempted W pc = true ->
        (forall tr, exists e, infer W tr = Throw e) ->
        attempted_keys (snd (generateReply W pc ms total h)) = userKeys W pc).
Proof.
  intros H.
  specialize (H (failing_world unauthorized) two_key_page greeting 0%Z [] eq_refl
                (fun _ => ex_intro _ unauthorized eq_refl)).
  vm_compute in H. discriminate.
Qed.

(** C5 (amended): the keys of the page are split, trimmed and shuffled;
    the loop takes them in that order and the keys it tries are a prefix
    of the list.  For the key in turn: a call that throws ends the loop
    with no further key tried; a completion with a first choice ends it
    with a response and no further key tried; only a completion without
    choices moves on to the next key.  With a single key whose completion
    parses to a plain answer, the dispatcher makes that one call, records
    its usage and returns the parsed object with its reply. *)
Theorem own_keys_in_turn (W : World) (pc : PageConfig) (ms : list Message)
        (total : Z) (h : list Event) :
  userKeyAttempted W pc = true ->
  let calls := snd (generateReply W pc ms total h) in
  Permutation (userKeys W pc) (splitKeys (or_default (api_key pc) []))
  /\ (exists n, attempted_keys calls = firstn n (userKeys W pc))
  /\ (forall k rest,
         userKeys W pc = k :: rest ->
         (forall e, infer W (h ++ [userCall W pc ms k]) = Throw e ->
                    attempted_keys calls = [k])
         /\ (forall c c0 l,
                infer W (h ++ [userCall W pc ms k]) = Ret c ->
                choices c = Some (c0 :: l) ->
                attempted_keys calls = [k]
                /\ exists r, fst (generateReply W pc ms total h) = Ret (Some r))
         /\ (forall c k2 rest2,
                infer W (h ++ [userCall W pc ms k]) = Ret c ->
                choices c = None \/ choices c = Some [] ->
                rest = k2 :: rest2 ->
                exists more,
                  calls = userCall W pc ms k :: userCall W pc ms k2 :: more))
  /\ (forall k c c0 l parsed o,
         userKeys W pc = [k] ->
         infer W (h ++ [userCall W pc ms k]) = Ret c ->
         choices c = Some (c0 :: l) ->
         parseContent (contentOf c0) = Ret parsed ->
         isSearchCall parsed = Ret false ->
         withReply parsed = Ret o ->
         generateReply W pc ms total h
         = (Ret (Some (obj_set (lit "model")
                         (str (or_default (chatmodel pc) (defaultModel W pc)))
                         (obj_set (lit "token_usage")
                            (Num (usage ms c (contentOf c0) + total)) o))),
            [userCall W pc ms k; ERecordKeyUsage k (usage ms c (contentOf c0))])
         /\ (truthy (prop parsed (lit "reply")) = true ->
             field o (lit "reply") = prop parsed (lit "reply"))).
Proof.
  intros Hu. cbv zeta.
  assert (snd (generateReply W pc ms total h)
          = snd (phase1Loop W pc ms total (userKeys W pc) h)) as Hcalls.
  { rewrite (generateReply_own_keys W pc ms total h Hu).
    now destruct (phase1Loop W pc ms total (userKeys W pc) h) as [[[r|]|e] es]. }
  split; [apply shuffle_Permutation; apply (list_eq_dec N.eq_dec)|].
  split; [|split].
  - rewrite Hcalls.
    destruct (phase1Loop_summary W pc ms total (userKeys W pc) h)
      as (out & pre & tail & -> & _ & _ & Ht & _ & _ & Hn & _).
    cbn [snd]. rewrite attempted_keys_app.
    destruct (tool_tail_quiet tail Ht) as (_ & _ & -> & _). now rewrite app_nil_r.
  - intros k rest Hk. rewrite Hcalls, Hk. split; [|split].
    + intros e Hi. now rewrite (phase1Loop_throw W pc ms total k rest h e Hi).
    + intros c c0 l Hi Hc.
      destruct (phase1Loop_answer W pc ms total k rest h c c0 l Hi Hc)
        as (r & tail & E & Ht).
      split.
      * rewrite E. cbn [snd]. rewrite attempted_keys_app.
        destruct (tool_tail_quiet tail Ht) as (_ & _ & -> & _). reflexivity.
      * exists r. rewrite (generateReply_own_keys W pc ms total h Hu), Hk, E. reflexivity.
    + intros c k2 rest2 Hi Hc ->.
      rewrite (phase1Loop_next W pc ms total k (k2 :: rest2) h c Hi Hc). cbn [snd].
      destruct (phase1Loop_first_call W pc ms total k2 rest2 (h ++ [userCall W pc ms k]))
        as [more ->].
      now exists more.
  - intros k c c0 l parsed o Hk Hi Hc Hp Hs Hw. split.
    + rewrite (generateReply_own_keys W pc ms total h Hu), Hk.
      cbn [phase1Loop]. unfold bind.
      rewrite (phase1Attempt_plain W pc ms total k h c c0 l parsed o Hi Hc Hp Hs Hw).
      reflexivity.
    + now apply field_reply_withReply.
Qed.

(** C5 on the sample page with one key whose call answers a payload. *)
Lemma own_keys_in_turn_witness :
  let W := answering_world (stringify (reply_payload (lit "Hello") [] (lit "pos"))) in
  let call := userCall W own_key_page greeting (lit "sk-or-v1-abc") in
  exists r,
    generateReply W own_key_page greeting 0 []
    = (Ret (Some r), [call; ERecordKeyUsage (lit "sk-or-v1-abc") 42])
    /\ field r (lit "reply") = str (lit "Hello").
Proof.
  cbv zeta.
  destruct (own_keys_in_turn
              (answering_world (stringify (reply_payload (lit "Hello") [] (lit "pos"))))
              own_key_page greeting 0 [] eq_refl) as (_ & _ & _ & H).
  destruct (H (lit "sk-or-v1-abc")
              (mkCompletion
                 (Some [mkChoice (Some (stringify (reply_payload (lit "Hello") [] (lit "pos"))))])
                 (Some 42%Z))
              (mkChoice (Some (stringify (reply_payload (lit "Hello") [] (lit "pos")))))
              []
              (reply_payload (lit "Hello") [] (lit "pos"))
              (spread (reply_payload (lit "Hello") [] (lit "pos")))
              eq_refl eq_refl eq_refl eq_refl eq_refl eq_refl) as [E _].
  eexists. split; [exact E|]. reflexivity.
Defined.

Section WholeRequest.

Variable W : World.
Variable pc : PageConfig.
Variable ms : list Message.
Variable total : Z.

(** The calls of a request: calls without any tool event, then at most one
    tool round; and the answer, when no payload carries an error. *)
Lemma generateReply_summary (h : list Event) :
  exists pre tail,
    snd (generateReply W pc ms total h) = pre ++ tail
    /\ count is_search pre = 0 /\ count is_requery pre = 0
    /\ tool_tail tail
    /\ (forall r, fst (generateReply W pc ms total h) = Ret (Some r) ->
                  payloads_without_error W ->
                  nullish (field r (lit "error")) = true
                  \/ field r (lit "reply") = Json JNull).
Proof.
  destruct (userKeyAttempted W pc) eqn:Hu.
  - rewrite (generateReply_own_keys W pc ms total h Hu).
    destruct (phase1Loop_summary W pc ms total (userKeys W pc) h)
      as (out & pre & tail & -> & H1 & H2 & Ht & _ & _ & _ & Hf).
    exists pre, tail. destruct out as [[r|]|e]; cbn [fst snd];
      (split; [reflexivity|]); (split; [exact H1|]); (split; [exact H2|]);
      (split; [exact Ht|]); intros r' E Hfree; try discriminate.
    + left. injection E as <-. now apply Hf.
    + right. injection E as <-. reflexivity.
  - destruct (ownApiSelected W pc) eqn:Ho.
    + destruct (generateReply_own_api W pc ms total h Ho) as (o & Eo & ->).
      destruct (ownApi_cases W pc ms total h) as (o' & Eo' & Hown).
      rewrite Eo in Eo'. injection Eo' as <-.
      destruct o as [r|]; cbn [fst snd].
      * exists [ownCall pc ms], []. repeat split; try (now left).
        intros r' E _. injection E as <-. now apply Hown.
      * destruct (phase2Loop_tools W pc ms total 3 (h ++ [ownCall pc ms]))
          as (out & pre & tail & -> & H1 & H2 & Ht & Hf).
        exists (ownCall pc ms :: pre), tail. cbn [fst snd].
        split; [reflexivity|]. rewrite !count_cons, H1, H2.
        split; [reflexivity|]. split; [reflexivity|]. split; [exact Ht|].
        intros r' E Hfree. left. injection E as ->. now apply Hf.
    + rewrite (generateReply_managed W pc ms total h Hu Ho).
      destruct (phase2Loop_tools W pc ms total 3 h)
        as (out & pre & tail & -> & H1 & H2 & Ht & Hf).
      exists pre, tail. cbn [fst snd].
      split; [reflexivity|]. split; [exact H1|]. split; [exact H2|]. split; [exact Ht|].
      intros r' E Hfree. left. injection E as ->. now apply Hf.
Qed.

End WholeRequest.

(** C6: in every request at most one re-query is made and at most one
    tool search is run; the calls split into calls without any tool event
    followed by one tool round, which is a product search, then possibly
    the single re-query, then possibly the record of its usage: nothing is
    searched or inferred after the re-query, whatever its response asks. *)
Theorem tool_loop_once (W : World) (pc : PageConfig) (ms : list Message)
        (total : Z) (h : list Event) :
  let calls := snd (generateReply W pc ms total h) in
  count is_requery calls <= 1
  /\ count is_search calls <= 1
  /\ exists pre tail,
       calls = pre ++ tail
       /\ count is_search pre = 0 /\ count is_requery pre = 0
       /\ tool_tail tail.
Proof.
  cbv zeta.
  destruct (generateReply_summary W pc ms total h) as (pre & tail & E & H1 & H2 & Ht & _).
  destruct (tool_tail_quiet tail Ht) as (_ & _ & _ & Hs & Hr).
  rewrite E, !count_app, H1, H2.
  split; [exact Hr|]. split; [exact Hs|]. now exists pre, tail.
Qed.

(** C3 (as stated, refuted): a response built from a parsed payload keeps
    the payload's own [error] next to its [reply]. *)
Lemma spread_keeps_payload_error :
  ~ (forall (W : World) (pc : PageConfig) (ms : list Message) (total : Z)
            (h calls : list Event) (r : object),
        generateReply W pc ms total h = (Ret (Some r), calls) ->
        nullish (field r (lit "error")) = false ->
        field r (lit "reply") = Json JNull).
Proof.
  intros H.
  specialize (H (answering_world (stringify reply_with_error)) managed_page greeting
                0%Z [] _ _ eq_refl eq_refl).
  vm_compute in H. discriminate.
Qed.

(** C3 (amended): when no payload of the model carries an [error] field,
    every response with a non-null [error] has [reply = null]: the only
    responses in which [generateReply] itself writes [error] are those of
    the failed own-API call and of the strict lock, and both set
    [reply: null]. *)
Theorem error_implies_null_reply (W : World) (pc : PageConfig) (ms : list Message)
        (total : Z) (h calls : list Event) (r : object) :
  payloads_without_error W ->
  generateReply W pc ms total h = (Ret (Some r), calls) ->
  nullish (field r (lit "error")) = false ->
  field r (lit "reply") = Json JNull.
Proof.
  intros Hfree E Herr.
  destruct (generateReply_summary W pc ms total h) as (_ & _ & _ & _ & _ & _ & Hf).
  rewrite E in Hf. destruct (Hf r eq_refl Hfree) as [Hn | Hr]; [congruence|exact Hr].
Qed.

(** C3 on the response of the strict lock. *)
Lemma error_implies_null_reply_witness :
  field (lockResponse empty_world own_key_page) (lit "reply") = Json JNull.
Proof.
  apply (error_implies_null_reply empty_world own_key_page greeting 0 []
           [userCall empty_world own_key_page greeting (lit "sk-or-v1-abc")]).
  - intros h c raw parsed Hi Hc Hp. injection Hi as <-. discriminate Hc.
  - reflexivity.
  - reflexivity.
Defined.

(* ================================================================== *)
(** * The dispatcher: which path serves a request *)
(* ================================================================== *)

Section Gate.

Variable W : World.
Variable pc : PageConfig.






Variable ms : list Message.
Variable total : Z.



End Gate.


Section Entry.

Variable W : World.
Variable pc : PageConfig.
Variable ms : list Message.
Variable total : Z.









End Entry.




(** The swarm on the sample page when every call is refused: three turns,
    each with an acquisition, a call and a quarantine of a day. *)
Example swarm_exhaustion_run :
  generateReply (failing_world unauthorized) managed_page greeting 0 []
  = (Ret None,
     let turn := [ acquisition;
                   inference managed_page greeting (lit "AIzaSy-pool-1");
                   EMarkKeyAsDead (lit "AIzaSy-pool-1") 86400000 (lit "auth_error") ] in
     turn ++ turn ++ turn).
Proof. vm_compute. reflexivity. Qed.

(** C4 on the sample page when every call of the swarm is refused. *)
Lemma swarm_three_attempts_witness :
  fst (generateReply (failing_world unauthorized) managed_page greeting 0 []) = Ret None
  /\ count is_acquire
       (snd (generateReply (failing_world unauthorized) managed_page greeting 0 [])) = 3
  /\ count is_infer
       (snd (generateReply (failing_world unauthorized) managed_page greeting 0 [])) = 3.
Proof.
  destruct (swarm_three_attempts (failing_world unauthorized) managed_page greeting 0 []
              eq_refl eq_refl) as (_ & _ & _ & _ & _ & H & _).
  destruct (H (fun _ => ex_intro _ unauthorized eq_refl)) as [Hnull Hthree].
  split; [exact Hnull|].
  apply Hthree. intros tr. exists pool_key, (lit "AIzaSy-pool-1"). split; reflexivity.
Defined.

(* ================================================================== *)
(** * Which failures reach the quarantine *)
(* ================================================================== *)

Section Reach.

Variable W : World.
Variable pc : PageConfig.
Variable ms : list Message.
Variable total : Z.

(** A turn of the swarm whose call is refused hands the error and the
    key to the handler and goes on to the next turn. *)
Lemma phase2Attempt_refused (h : list Event) (kd : KeyData) (k : jsstring) (e : JsError) :
  smart_key W (h ++ [acquisition]) = Ret (Some kd) ->
  usableKey (Some kd) = Some k ->
  infer W (h ++ [acquisition; inference pc ms k]) = Throw e ->
  phase2Attempt W pc ms total h
  = (Ret NextAttempt,
     [acquisition; inference pc ms k]
     ++ snd (handleAiError W e k gemini_flash (h ++ [acquisition; inference pc ms k]))).
Proof.
  intros Hk Hu Hi. unfold phase2Attempt, getSmartKey, chat. unfold_monad.
  fold acquisition. rewrite Hk. norm. rewrite Hu. norm.
  fold (inference pc ms k). rewrite Hi. norm.
  destruct (handleAiError W e k gemini_flash _) as [[[]|e'] es]; norm; reflexivity.
Qed.

Lemma tool_tail_no_quarantine (tail : list Event) :
  tool_tail tail -> count is_quarantine tail = 0.
Proof.
  intros [->|(s & Hs & [->|(r & Hr & [->|(b & Hb & ->)])])]; [reflexivity| | |];
    destruct s; try discriminate; try reflexivity;
    destruct r; try discriminate; try reflexivity;
    destruct b; try discriminate; reflexivity.
Qed.

Lemma phase1Attempt_no_quarantine (k : jsstring) (h : list Event) :
  count is_quarantine (snd (phase1Attempt W pc ms total k h)) = 0.
Proof.
  destruct (phase1Attempt_cases W pc ms total k h)
    as [(e & _ & ->)|[(c & _ & _ & ->)|(c & c0 & l & r & tail & _ & _ & -> & Ht & _)]];
    cbn [snd]; try reflexivity.
  rewrite count_app. now rewrite (tool_tail_no_quarantine tail Ht).
Qed.

Lemma phase1Loop_no_quarantine (keys : list jsstring) (h : list Event) :
  count is_quarantine (snd (phase1Loop W pc ms total keys h)) = 0.
Proof.
  revert h. induction keys as [|k keys IH]; intros h; [reflexivity|].
  cbn [phase1Loop]. unfold bind.
  pose proof (phase1Attempt_no_quarantine k h) as Hk.
  destruct (phase1Attempt W pc ms total k h) as [[[r|]|e] es]; cbn [snd] in *.
  - unfold ret. now rewrite app_nil_r.
  - specialize (IH (h ++ es)).
    destruct (phase1Loop W pc ms total keys (h ++ es)) as [o es']; cbn [snd] in *.
    rewrite count_app. lia.
  - exact Hk.
Qed.

Lemma generateReply_no_quarantine (h : list Event) :
  userKeyAttempted W pc = true ->
  count is_quarantine (snd (generateReply W pc ms total h)) = 0.
Proof.
  intros Hu. rewrite (generateReply_own_keys W pc ms total h Hu).
  pose proof (phase1Loop_no_quarantine (userKeys W pc) h) as Hq.
  destruct (phase1Loop W pc ms total (userKeys W pc) h) as [[[r|]|e] es]; exact Hq.
Qed.

End Reach.

(** C7 (as stated, refuted): the class of a failure is not read off its
    status alone.  A refusal with status 403 whose message speaks of the
    quota marks the key quota-exceeded; it is not set aside for 24
    hours. *)
Lemma quota_message_overrides_status :
  ~ (forall (W : World) (error : JsError) (apiKey modelName : jsstring)
            (h : list Event),
        statusIs error 401 || statusIs error 403 = true ->
        snd (handleAiError W error apiKey modelName h)
        = [EMarkKeyAsDead apiKey (24 * 60 * 60 * 1000) (lit "auth_error")]).
Proof.
  intros H.
  specialize (H (failing_world unauthorized)
                (mkError (lit "Error") (Some 403%Z) None None
                         (lit "You exceeded your current quota"))
                (lit "AIzaSy-pool-1") gemini_flash [] eq_refl).
  vm_compute in H. discriminate H.
Qed.

(** C7 (amended): the quarantine that follows a failed call.  The
    classes are tested in order.  A failure classed as rate limit (status
    429, or a message that holds [429], [quota] or [Too Many Requests])
    marks the key quota-exceeded when its message holds [quota] in any
    case, and dead for 60 seconds otherwise; short of that class a status
    401 or 403 marks the key dead for 24 hours; short of both a status of
    500 or more marks it dead for 60 seconds; any other failure leaves
    the key alone.  The failures that reach this handler are those of the
    swarm: a turn of the swarm whose call is refused passes the error and
    its key on, with the model [gemini-2.5-flash], and goes on to the
    next turn; a request served with the keys of the page sets no key
    aside, whatever fails. *)
Theorem handleAiError_quarantine (W : World) (error : JsError)
        (apiKey modelName : jsstring) (h : list Event) :
  let message := err_message error in
  let rate_limited :=
    statusIs error 429 || includes message (lit "429")
    || includes message (lit "quota") || includes message (lit "Too Many Requests") in
  let calls := snd (handleAiError W error apiKey modelName h) in
  (rate_limited = true -> includes (toLowerCase message) (lit "quota") = true ->
   calls = [EMarkKeyAsQuotaExceeded apiKey])
  /\ (rate_limited = true -> includes (toLowerCase message) (lit "quota") = false ->
      calls = [EMarkKeyAsDead apiKey (60 * 1000) (lit "rate_limit_" ++ modelName)])
  /\ (rate_limited = false -> statusIs error 401 || statusIs error 403 = true ->
      calls = [EMarkKeyAsDead apiKey (24 * 60 * 60 * 1000) (lit "auth_error")])
  /\ (rate_limited = false -> statusIs error 401 || statusIs error 403 = false ->
      (exists z, statusOf error = Some z /\ (500 <= z)%Z) ->
      calls = [EMarkKeyAsDead apiKey (60 * 1000) (lit "server_error")])
  /\ (rate_limited = false -> statusIs error 401 || statusIs error 403 = false ->
      (forall z, statusOf error = Some z -> (z < 500)%Z) ->
      calls = [])
  /\ (forall (pc : PageConfig) (ms : list Message) (total : Z) (kd : KeyData),
         smart_key W (h ++ [acquisition]) = Ret (Some kd) ->
         usableKey (Some kd) = Some apiKey ->
         infer W (h ++ [acquisition; inference pc ms apiKey]) = Throw error ->
         let turn := [acquisition; inference pc ms apiKey] in
         let quarantine := snd (handleAiError W error apiKey gemini_flash (h ++ turn)) in
         phase2Attempt W pc ms total h = (Ret NextAttempt, turn ++ quarantine)
         /\ (userKeyAttempted W pc = false -> ownApiSelected W pc = false ->
             exists rest,
               snd (generateReply W pc ms total h) = turn ++ quarantine ++ rest))
  /\ (forall (pc : PageConfig) (ms : list Message) (total : Z),
         userKeyAttempted W pc = true ->
         count is_quarantine (snd (generateReply W pc ms total h)) = 0).
Proof.
  cbv zeta. split; [|split; [|split; [|split; [|split; [|split]]]]].
  - unfold handleAiError, markKeyAsDead, markKeyAsQuotaExceeded, call.
    intros -> ->. reflexivity.
  - unfold handleAiError, markKeyAsDead, markKeyAsQuotaExceeded, call.
    intros -> ->. reflexivity.
  - unfold handleAiError, markKeyAsDead, markKeyAsQuotaExceeded, call.
    intros -> ->. reflexivity.
  - unfold handleAiError, markKeyAsDead, markKeyAsQuotaExceeded, call.
    intros -> -> (z & -> & Hz). apply Z.leb_le in Hz. now rewrite Hz.
  - unfold handleAiError, markKeyAsDead, markKeyAsQuotaExceeded, call, ret.
    intros -> -> Hz. destruct (statusOf error) as [z|]; [|reflexivity].
    specialize (Hz z eq_refl). apply Z.leb_gt in Hz. now rewrite Hz.
  - intros pc ms total kd Hk Hu Hi.
    pose proof (phase2Attempt_refused W pc ms total h kd apiKey error Hk Hu Hi) as Ha.
    split; [exact Ha|].
    intros Hp Ho. rewrite (generateReply_managed W pc ms total h Hp Ho).
    change (phase2Loop W pc ms total 3 h)
      with (bind (phase2Attempt W pc ms total)
                 (fun flow => match flow with
                              | Return r => ret r
                              | NextAttempt => phase2Loop W pc ms total 2
                              | LeaveLoop => ret None
                              end) h).
    unfold bind at 1. rewrite Ha. cbv beta iota.
    match goal with
    | |- context [phase2Loop W pc ms total 2 ?hist] =>
        destruct (phase2Loop W pc ms total 2 hist) as [o rest]
    end.
    cbn [snd]. exists rest. now rewrite <- app_assoc.
  - intros pc ms total Hu. now apply generateReply_no_quarantine.
Qed.

(** C7 on a refusal with status 401: the key is set aside for a day, and
    the swarm of the sample page hands the refusal of its first call to
    the handler. *)
Lemma handleAiError_quarantine_witness :
  snd (handleAiError (failing_world unauthorized) unauthorized (lit "AIzaSy-pool-1")
                     gemini_flash [])
  = [EMarkKeyAsDead (lit "AIzaSy-pool-1") (24 * 60 * 60 * 1000) (lit "auth_error")]
  /\ phase2Attempt (failing_world unauthorized) managed_page greeting 0 []
     = (Ret NextAttempt,
        [acquisition; inference managed_page greeting (lit "AIzaSy-pool-1")]
        ++ snd (handleAiError (failing_world unauthorized) unauthorized
                  (lit "AIzaSy-pool-1") gemini_flash
                  ([] ++ [acquisition;
                          inference managed_page greeting (lit "AIzaSy-pool-1")]))).
Proof.
  pose proof (handleAiError_quarantine (failing_world unauthorized) unauthorized
                (lit "AIzaSy-pool-1") gemini_flash []) as H.
  cbv zeta in H. destruct H as (_ & _ & Hauth & _ & _ & Hreach & _).
  split.
  - apply Hauth; reflexivity.
  - apply (Hreach managed_page greeting 0%Z pool_key); reflexivity.
Defined.

(* ================================================================== *)
(** * Further facts about the dispatcher *)
(* ================================================================== *)

Import Notions.

Section Tokens.

Lemma fold_left_chars (ms : list Message) (acc : Z) :
  fold_left (fun a m => (a + len (content m))%Z) ms acc
  = (acc + fold_right (fun m a => len (content m) + a) 0 ms)%Z.
Proof.
  revert acc. induction ms as [|m ms IH]; intros acc; cbn [fold_left fold_right]; [lia|].
  rewrite IH. lia.
Qed.

Lemma chars_nonneg (ms : list Message) (reply : jsstring) : (0 <= chars ms reply)%Z.
Proof.
  unfold chars, len. induction ms as [|m ms IH]; cbn [fold_right]; lia.
Qed.

End Tokens.

(** X1.  The usage charged for a turn: the figure of the provider when it is
    positive; otherwise a quarter of the characters exchanged, rounded up,
    which is never negative. *)
Theorem estimateTokenUsage_bounds (ms : list Message) (reply : jsstring) (base : Z) :
  ((0 < base)%Z -> estimateTokenUsage ms reply base = base)
  /\ ((base <= 0)%Z ->
      (0 <= estimateTokenUsage ms reply base)%Z
      /\ (4 * estimateTokenUsage ms reply base - 3 <= chars ms reply)%Z
      /\ (chars ms reply <= 4 * estimateTokenUsage ms reply base)%Z).
Proof.
  unfold estimateTokenUsage. split.
  - intros H. apply Z.ltb_lt in H. now rewrite H.
  - intros H. apply Z.ltb_ge in H. rewrite H.
    rewrite fold_left_chars. cbn [Z.add].
    fold (chars ms reply). pose proof (chars_nonneg ms reply) as Hc.
    pose proof (Z.div_mod (chars ms reply + 3) 4 ltac:(lia)) as Hd.
    pose proof (Z.mod_pos_bound (chars ms reply + 3) 4 ltac:(lia)) as Hm.
    assert (0 <= (chars ms reply + 3) / 4)%Z by (apply Z.div_pos; lia).
    lia.
Qed.

(** [estimateTokenUsage_bounds] on a turn for which the provider reports
    120 tokens. *)
Lemma estimateTokenUsage_bounds_witness :
  estimateTokenUsage greeting (lit "hi") 120 = 120%Z.
Proof.
  apply (proj1 (estimateTokenUsage_bounds greeting (lit "hi") 120)). lia.
Defined.

Section Keys.

Lemma split_from_piece (sep : N) (p cur : jsstring) :
  ~ In sep p -> split_from sep cur p = [rev cur ++ p].
Proof.
  revert cur. induction p as [|c p IH]; intros cur Hp; cbn [split_from].
  - now rewrite app_nil_r.
  - destruct (N.eqb_spec c sep) as [->|Hc]; [exfalso; apply Hp; now left|].
    rewrite IH by (intro; apply Hp; now right).
    cbn [rev]. now rewrite <- app_assoc.
Qed.

Lemma split_from_cons (sep : N) (p cur rest : jsstring) :
  ~ In sep p ->
  split_from sep cur (p ++ sep :: rest) = (rev cur ++ p) :: split_from sep [] rest.
Proof.
  revert cur. induction p as [|c p IH]; intros cur Hp; cbn [split_from app].
  - rewrite N.eqb_refl. now rewrite app_nil_r.
  - destruct (N.eqb_spec c sep) as [->|Hc]; [exfalso; apply Hp; now left|].
    rewrite IH by (intro; apply Hp; now right).
    cbn [rev]. now rewrite <- app_assoc.
Qed.

Lemma split_from_pieces (sep : N) (s cur : jsstring) :
  ~ In sep cur ->
  Forall (fun p => ~ In sep p /\ forall c, In c p -> In c cur \/ In c s)
         (split_from sep cur s).
Proof.
  revert cur. induction s as [|c s IH]; intros cur Hcur; cbn [split_from].
  - constructor; [|constructor]. split.
    + intros H. apply in_rev in H. now apply Hcur.
    + intros d H. left. now apply in_rev.
  - destruct (N.eqb_spec c sep) as [->|Hc].
    + constructor.
      * split; [intros H; apply in_rev in H; now apply Hcur|].
        intros d H. left. now apply in_rev.
      * eapply Forall_impl; [|apply (IH []); intros []].
        intros p [H1 H2]. split; [exact H1|]. intros d Hd.
        destruct (H2 d Hd) as [[]|H]. right. now right.
    + eapply Forall_impl; [|apply (IH (c :: cur))].
      * intros p [H1 H2]. split; [exact H1|]. intros d Hd.
        destruct (H2 d Hd) as [[<-|H]|H]; [right; now left|now left|right; now right].
      * intros [E|H]; [now apply Hc|now apply Hcur].
Qed.

Lemma dropWhile_head (f : N -> bool) (s : jsstring) (c : N) (r : jsstring) :
  dropWhile f s = c :: r -> f c = false.
Proof.
  induction s as [|d s IH]; cbn [dropWhile]; [discriminate|].
  destruct (f d) eqn:E; [exact IH|]. intros H. injection H as <- _. exact E.
Qed.

Lemma dropWhile_last (f : N -> bool) (s : jsstring) :
  dropWhile f s <> [] -> last (dropWhile f s) 0%N = last s 0%N.
Proof.
  induction s as [|d s IH]; cbn [dropWhile]; [reflexivity|].
  destruct (f d) eqn:E; [|reflexivity].
  intros H. rewrite (IH H). destruct s as [|e s]; [now cbn in H|reflexivity].
Qed.

Lemma last_rev_hd (s : jsstring) : last (rev s) 0%N = hd 0%N s.
Proof.
  destruct s as [|c s]; [reflexivity|]. cbn [rev hd]. apply last_last.
Qed.

Lemma hd_rev_last (s : jsstring) : hd 0%N (rev s) = last s 0%N.
Proof. rewrite <- (rev_involutive s) at 2. now rewrite last_rev_hd. Qed.

(** What [trim] returns is empty or has no white space at either end. *)
Lemma trim_trimmed (s : jsstring) : trim s <> [] -> trimmed (trim s).
Proof.
  unfold trim, trimEnd, trimStart, trimmed. intros H.
  set (a := dropWhile is_space s) in *.
  destruct (dropWhile is_space (rev a)) as [|c r] eqn:E; [now cbn in H|].
  pose proof (dropWhile_head _ _ _ _ E) as Hc.
  split.
  - rewrite <- last_rev_hd, rev_involutive.
    rewrite <- E. rewrite dropWhile_last by (rewrite E; discriminate).
    rewrite last_rev_hd.
    destruct a as [|d a'] eqn:Ea; [now cbn in E|].
    cbn [hd]. exact (dropWhile_head _ _ _ _ Ea).
  - rewrite <- hd_rev_last, rev_involutive. exact Hc.
Qed.

Lemma trim_fixed (s : jsstring) : s <> [] -> trimmed s -> trim s = s.
Proof.
  intros Hs [Ha Hz]. pose proof (trim_between [] s [] Hs Ha Hz) as T.
  cbn [app] in T. rewrite app_nil_r in T. apply T; constructor.
Qed.

Lemma split_join (sep : N) (k : jsstring) (ks : list jsstring) :
  Forall (fun p => ~ In sep p) (k :: ks) ->
  split sep (join [sep] (k :: ks)) = k :: ks.
Proof.
  unfold split. revert k. induction ks as [|k2 ks IH]; intros k H.
  - cbn [join]. rewrite split_from_piece; [reflexivity|]. now inversion H.
  - change (join [sep] (k :: k2 :: ks)) with (k ++ sep :: join [sep] (k2 :: ks)).
    inversion H as [|? ? Hk Hks]; subst.
    rewrite split_from_cons by exact Hk. cbn [rev app].
    now rewrite IH.
Qed.

End Keys.

(** X2.  The keys that the page's credential string is split into: each is
    non-empty, made of units of the string, free of commas and of white
    space at either end; and a list of such keys joined by commas is split
    back into the same list. *)
Theorem splitKeys_clean (apiKey : jsstring) (keys : list jsstring) :
  Forall (fun k => k <> [] /\ ~ In 44%N k /\ trimmed k /\ incl k apiKey)
         (splitKeys apiKey)
  /\ (Forall (fun k => k <> [] /\ ~ In 44%N k /\ trimmed k) keys ->
      splitKeys (join [44%N] keys) = keys).
Proof.
  split.
  - unfold splitKeys. apply Forall_forall. intros k Hk.
    apply filter_In in Hk as [Hin Hne]. apply in_map_iff in Hin as (p & <- & Hp).
    pose proof (split_from_pieces 44%N apiKey [] (fun f => f)) as Hall.
    rewrite Forall_forall in Hall. destruct (Hall p Hp) as [Hsep Hsub].
    assert (trim p <> []) as Hn by (destruct (trim p); [discriminate|discriminate]).
    split; [exact Hn|]. split; [|split].
    + intros H. apply trim_incl in H. now apply Hsep.
    + now apply trim_trimmed.
    + intros c Hc. apply trim_incl in Hc. destruct (Hsub c Hc) as [[]|H]. exact H.
  - intros H. unfold splitKeys. destruct keys as [|k keys]; [reflexivity|].
    rewrite split_join.
    2:{ eapply Forall_impl; [|exact H]. intros a Ha. apply Ha. }
    induction H as [|a l (Hne & _ & Ht) _ IH]; [reflexivity|].
    cbn [map filter]. rewrite (trim_fixed a Hne Ht).
    destruct a as [|c a]; [congruence|]. now rewrite IH.
Qed.

(** [splitKeys_clean] on two keys joined by a comma. *)
Lemma splitKeys_clean_witness :
  splitKeys (join [44%N] [lit "sk-or-v1-a"; lit "gsk_b"]) = [lit "sk-or-v1-a"; lit "gsk_b"].
Proof.
  apply (proj2 (splitKeys_clean [] [lit "sk-or-v1-a"; lit "gsk_b"])).
  repeat constructor; try discriminate; intros H; cbn in H;
    repeat (destruct H as [H|H]; [discriminate H|]); exact H.
Defined.

(** X3.  The quarantine handler makes at most one call to the key service, and
    only about the key it was given; an error outside the three classes
    (no rate limit, no status 401 or 403, no status of 500 or more, as a
    timeout without status) leaves the key alone. *)
Theorem handleAiError_at_most_once (W : World) (error : JsError)
        (apiKey modelName : jsstring) (h : list Event) :
  let calls := snd (handleAiError W error apiKey modelName h) in
  (length calls <= 1)%nat
  /\ Forall (fun ev => ev = EMarkKeyAsQuotaExceeded apiKey
                       \/ exists d r, ev = EMarkKeyAsDead apiKey d r) calls
  /\ (statusIs error 429 = false ->
      includes (err_message error) (lit "429") = false ->
      includes (err_message error) (lit "quota") = false ->
      includes (err_message error) (lit "Too Many Requests") = false ->
      statusIs error 401 = false -> statusIs error 403 = false ->
      (forall z, statusOf error = Some z -> (z < 500)%Z) ->
      calls = []).
Proof.
  cbv zeta. unfold handleAiError, markKeyAsDead, markKeyAsQuotaExceeded, call, ret.
  split; [|split].
  - repeat match goal with |- context [if ?b then _ else _] => destruct b end;
      cbn [snd length]; lia.
  - repeat match goal with |- context [if ?b then _ else _] => destruct b end;
      cbn [snd]; [| | | |constructor]; (constructor; [|constructor]);
      first [left; reflexivity | right; eexists; eexists; reflexivity].
  - intros -> -> -> -> -> -> Hz. cbn [orb].
    destruct (statusOf error) as [z|]; [|reflexivity].
    specialize (Hz z eq_refl). apply Z.leb_gt in Hz. now rewrite Hz.
Qed.

(** [handleAiError_at_most_once] on a timeout that carries no status. *)
Lemma handleAiError_at_most_once_witness :
  snd (handleAiError (failing_world unauthorized)
         (PlainError (lit "timeout of 20000ms exceeded"))
         (lit "AIzaSy-pool-1") gemini_flash []) = [].
Proof.
  apply (proj2 (proj2 (handleAiError_at_most_once (failing_world unauthorized)
                         (PlainError (lit "timeout of 20000ms exceeded"))
                         (lit "AIzaSy-pool-1") gemini_flash [])));
    try reflexivity.
  intros z H. discriminate H.
Defined.

Section Encoding.

Lemma small_units (P : N -> Prop) :
  (forall n : nat, (n < 32)%nat -> P (N.of_nat n)) -> forall c, (c < 32)%N -> P c.
Proof.
  intros H c Hc. rewrite <- (N2Nat.id c). apply H. lia.
Qed.

Lemma parse_chars_control (c : N) (rest : jsstring) :
  (c < 32)%N ->
  parse_chars (escape_unit c ++ rest) = push c (parse_chars rest).
Proof.
  revert c. apply small_units. intros n Hn.
  do 32 (destruct n as [|n]; [reflexivity|]). lia.
Qed.

Lemma parse_chars_unit (c : N) (rest : jsstring) :
  parse_chars (escape_unit c ++ rest) = push c (parse_chars rest).
Proof.
  destruct (N.ltb_spec c 32) as [Hc|Hc]; [now apply parse_chars_control|].
  destruct (N.eqb_spec c 34) as [->|H34]; [reflexivity|].
  destruct (N.eqb_spec c 92) as [->|H92]; [reflexivity|].
  unfold escape_unit.
  repeat match goal with
         | |- context [(c =? ?k)%N] =>
             let E := fresh in
             destruct (N.eqb_spec c k) as [E|E]; [lia|]
         end.
  destruct (N.ltb_spec c 32) as [?|_]; [lia|].
  cbn [app parse_chars].
  destruct (N.eqb_spec c 34) as [?|_]; [lia|].
  destruct (N.eqb_spec c 92) as [?|_]; [lia|].
  destruct (N.ltb_spec c 32) as [?|_]; [lia|]. reflexivity.
Qed.

(** A string literal written by [JSON.stringify] is read back as the
    string it was written from. *)
Lemma parse_chars_quote (s rest : jsstring) :
  parse_chars (flat_map escape_unit s ++ 34%N :: rest) = Some (s, rest).
Proof.
  induction s as [|c s IH]; [reflexivity|].
  cbn [flat_map]. rewrite <- app_assoc, parse_chars_unit, IH. reflexivity.
Qed.

End Encoding.

Section ToolCall.


End ToolCall.

Section SwarmTurn.

Variable W : World.
Variable pc : PageConfig.
Variable ms : list Message.
Variable total : Z.

(** A turn of the swarm that gets a completion answers the request. *)
Lemma phase2Attempt_answer (h : list Event) (k : jsstring) (c : Completion)
      (raw : jsstring) :
  swarm_turn W pc ms h k c raw ->
  phase2Attempt W pc ms total h
  = (Ret (Return (Some
       match fst (phase2Parse W pc total raw (usage ms c raw)
                    (h ++ swarm_calls pc ms k c raw)) with
       | Ret r => r
       | Throw _ => rawReply raw gemini_flash (usage ms c raw + total)
       end)),
     swarm_calls pc ms k c raw
     ++ snd (phase2Parse W pc total raw (usage ms c raw)
               (h ++ swarm_calls pc ms k c raw))).
Proof.
  intros ((kd & Hk & Hu) & Hi & Hc & Hr).
  unfold phase2Attempt, getSmartKey, chat, recordKeyUsage. unfold_monad.
  fold acquisition. rewrite Hk. norm. rewrite Hu. norm.
  fold (inference pc ms k). rewrite Hi. norm. rewrite Hc. norm.
  fold (usage ms c raw). rewrite Hr. norm.
  unfold swarm_calls.
  destruct (phase2Parse W pc total raw (usage ms c raw) _) as [[r|e] es]; norm; reflexivity.
Qed.

Lemma generateReply_swarm_answer (h : list Event) (k : jsstring) (c : Completion)
      (raw : jsstring) :
  userKeyAttempted W pc = false -> ownApiSelected W pc = false ->
  swarm_turn W pc ms h k c raw ->
  generateReply W pc ms total h
  = (Ret (Some
       match fst (phase2Parse W pc total raw (usage ms c raw)
                    (h ++ swarm_calls pc ms k c raw)) with
       | Ret r => r
       | Throw _ => rawReply raw gemini_flash (usage ms c raw + total)
       end),
     swarm_calls pc ms k c raw
     ++ snd (phase2Parse W pc total raw (usage ms c raw)
               (h ++ swarm_calls pc ms k c raw))).
Proof.
  intros Hu Ho Ht. rewrite (generateReply_managed W pc ms total h Hu Ho).
  cbn [phase2Loop]. unfold bind. rewrite (phase2Attempt_answer h k c raw Ht).
  unfold ret. now rewrite app_nil_r.
Qed.

End SwarmTurn.

Section ToolCalls.

(** What the test of a tool call finds. *)
Lemma isSearchCall_shape (parsed : json) :
  isSearchCall parsed = Ret true ->
  (exists fields, parsed = JObj fields)
  /\ prop parsed (lit "tool") = str (lit "search_products")
  /\ truthy (prop parsed (lit "query")) = true
  /\ hasToolShape parsed = true.
Proof.
  intros E.
  assert (exists fields, parsed = JObj fields) as (fields & ->).
  { destruct parsed as [| | | | |fields]; try discriminate E. now exists fields. }
  split; [now exists fields|].
  unfold isSearchCall in E. cbn [read] in E.
  remember (prop (JObj fields) (lit "tool")) as tool eqn:Ep.
  remember (prop (JObj fields) (lit "query")) as query eqn:Eq.
  assert (is_the_string tool (lit "search_products") && truthy query = true) as H
      by congruence.
  apply andb_true_iff in H as [Ht Hq].
  destruct tool as [|[| | |t| |]|]; try discriminate Ht.
  cbn [is_the_string] in Ht. apply eqb_eq in Ht. subst t.
  split; [reflexivity|]. split; [exact Hq|].
  unfold hasToolShape. rewrite <- Ep. reflexivity.
Qed.

Lemma withReply_object (fields : list (jsstring * json)) :
  withReply (JObj fields)
  = Ret (if truthy (prop (JObj fields) (lit "reply")) then spread (JObj fields)
         else obj_set (lit "reply")
                (or_else (prop (JObj fields) (lit "response"))
                         (prop (JObj fields) (lit "text")))
                (spread (JObj fields))).
Proof. unfold withReply. now destruct (truthy _). Qed.

Lemma field_set_same (k : jsstring) (v : value) (o : object) :
  field (obj_set k v o) k = v.
Proof.
  unfold field. induction o as [|[k0 v0] o IH]; cbn [obj_set obj_get].
  - now rewrite eqb_refl.
  - destruct (eqb k k0) eqn:E; cbn [obj_get]; [now rewrite eqb_refl|now rewrite E].
Qed.

(** The fields of the response that carries a tool call on. *)
Lemma field_carried (fields : list (jsstring * json)) (o : object) :
  withReply (JObj fields) = Ret o ->
  field o (lit "reply") = reply_of (JObj fields)
  /\ forall c name,
       is_digit c = false -> eqb (c :: name) (lit "reply") = false ->
       field o (c :: name) = prop (JObj fields) (c :: name).
Proof.
  rewrite withReply_object. intros E.
  assert (o = if truthy (prop (JObj fields) (lit "reply")) then spread (JObj fields)
              else obj_set (lit "reply")
                     (or_else (prop (JObj fields) (lit "response"))
                              (prop (JObj fields) (lit "text")))
                     (spread (JObj fields))) as -> by congruence.
  clear E. unfold reply_of.
  destruct (truthy (prop (JObj fields) (lit "reply"))).
  - split; [now apply field_spread|]. intros c name Hc _. now apply field_spread.
  - split; [apply field_set_same|]. intros c name Hc Hr.
    rewrite field_set_other by exact Hr. now apply field_spread.
Qed.




Lemma productLines_length (rows : list json) (n : nat) (lines : list jsstring) :
  productLines n rows = Ret lines -> length lines = length rows.
Proof.
  revert n lines. induction rows as [|a l IH]; intros n lines H; cbn [productLines] in H.
  - now injection H as <-.
  - destruct (productLine n a); [|discriminate].
    destruct (productLines (S n) l) as [ls|] eqn:E; [|discriminate].
    injection H as <-. cbn [length]. f_equal. now apply (IH (S n)).
Qed.

End ToolCalls.

Section SwarmTool.

Variable W : World.
Variable pc : PageConfig.
Variable ms : list Message.
Variable total : Z.

(** The tool round of the swarm, step by step. *)
Lemma phase2Parse_tool (raw : jsstring) (parsed : json) (tok : Z) (h : list Event) :
  parseContent raw = Ret parsed ->
  isSearchCall parsed = Ret true ->
  phase2Parse W pc total raw tok h
  = match search W (h ++ [swarm_search_of pc parsed]) with
    | Throw e => (Throw e, [swarm_search_of pc parsed])
    | Ret (Some (p :: rows)) =>
        (synthesized (p :: rows) (tok + total), [swarm_search_of pc parsed])
    | Ret _ =>
        (match withReply parsed with
         | Ret o => Ret (obj_set (lit "token_usage") (Num (tok + total))
                           (obj_set (lit "model") (str gemini_flash) o))
         | Throw e => Throw e
         end,
         [swarm_search_of pc parsed])
    end.
Proof.
  intros Hp Hs. unfold phase2Parse. rewrite Hp.
  unfold searchProducts. unfold_monad. norm. rewrite Hs. norm.
  fold (swarm_search_of pc parsed).
  destruct (search W (h ++ [swarm_search_of pc parsed])) as [[[|p rows]|]|e]; norm;
    try reflexivity.
  - destruct (withReply parsed); reflexivity.
  - destruct (synthesized (p :: rows) (tok + total)); reflexivity.
  - destruct (withReply parsed); reflexivity.
Qed.

End SwarmTool.




(** X5.  When the model of the swarm asks for a product search, one
    search follows and no second inference call.  Rows found are answered
    from the rows: one line per row, the pictures of the rows that have
    one, model [gemini-2.5-flash]; when a row cannot be written (it is
    [null], or its description is no string) the fallback on the raw text
    answers.  When nothing is found the response is the tool call itself
    with its fields, and its reply is the [reply] of the call, or else
    its [response], or else its [text]. *)
Theorem swarm_search_answers (W : World) (pc : PageConfig)
        (ms : list Message) (total : Z) (h : list Event) (k : jsstring)
        (c : Completion) (raw : jsstring) (parsed : json) :
  userKeyAttempted W pc = false -> ownApiSelected W pc = false ->
  swarm_turn W pc ms h k c raw ->
  parseContent raw = Ret parsed ->
  isSearchCall parsed = Ret true ->
  let calls := swarm_calls pc ms k c raw ++ [swarm_search_of pc parsed] in
  let found := search W (h ++ calls) in
  let tokens := (usage ms c raw + total)%Z in
  exists out,
    generateReply W pc ms total h = (out, calls)
    /\ (forall p rows,
           found = Ret (Some (p :: rows)) ->
           (forall lines,
               productLines 0 (p :: rows) = Ret lines ->
               length lines = length (p :: rows)
               /\ out = Ret (Some [ (lit "reply", str (join [32; 10]%N lines));
                                    (lit "images", Json (JArr (productImages (p :: rows))));
                                    (lit "sentiment", str (lit "pos"));
                                    (lit "dm_message", Json JNull);
                                    (lit "bad_words", Json JNull);
                                    (lit "order_details", Json JNull);
                                    (lit "model", str gemini_flash);
                                    (lit "token_usage", Num tokens) ]))
           /\ (forall e,
                  productLines 0 (p :: rows) = Throw e ->
                  out = Ret (Some (rawReply raw gemini_flash tokens))))
    /\ (found = Ret None \/ found = Ret (Some []) ->
        exists r,
          out = Ret (Some r)
          /\ field r (lit "reply") = reply_of parsed
          /\ field r (lit "tool") = str (lit "search_products")
          /\ field r (lit "query") = prop parsed (lit "query")
          /\ field r (lit "model") = str gemini_flash
          /\ field r (lit "token_usage") = Num tokens
          /\ (forall d name,
                 is_digit d = false ->
                 eqb (d :: name) (lit "reply") = false ->
                 eqb (d :: name) (lit "model") = false ->
                 eqb (d :: name) (lit "token_usage") = false ->
                 field r (d :: name) = prop parsed (d :: name))).
Proof.
  intros Hu Ho Hturn Hp Hs. cbv zeta.
  rewrite (generateReply_swarm_answer W pc ms total h k c raw Hu Ho Hturn).
  rewrite (phase2Parse_tool W pc total raw parsed _ _ Hp Hs).
  rewrite <- app_assoc.
  destruct (isSearchCall_shape parsed Hs) as ((fields & ->) & Htool & Hq & _).
  destruct (withReply (JObj fields)) as [o|e0] eqn:Hw;
    [|rewrite withReply_object in Hw; discriminate].
  destruct (field_carried fields o Hw) as [Hreply Hrest].
  assert (exists r,
             Ret (Some (obj_set (lit "token_usage") (Num (usage ms c raw + total))
                          (obj_set (lit "model") (str gemini_flash) o)))
             = Ret (Some r)
             /\ field r (lit "reply") = reply_of (JObj fields)
             /\ field r (lit "tool") = str (lit "search_products")
             /\ field r (lit "query") = prop (JObj fields) (lit "query")
             /\ field r (lit "model") = str gemini_flash
             /\ field r (lit "token_usage") = Num (usage ms c raw + total)
             /\ (forall d name,
                    is_digit d = false ->
                    eqb (d :: name) (lit "reply") = false ->
                    eqb (d :: name) (lit "model") = false ->
                    eqb (d :: name) (lit "token_usage") = false ->
                    field r (d :: name) = prop (JObj fields) (d :: name))) as Hnone.
  { eexists. split; [reflexivity|].
    split; [now rewrite !field_set_other by reflexivity|].
    split; [rewrite !field_set_other by reflexivity;
            rewrite <- Htool; now apply Hrest|].
    split; [rewrite !field_set_other by reflexivity; now apply Hrest|].
    split; [rewrite field_set_other by reflexivity; apply field_set_same|].
    split; [apply field_set_same|].
    intros d name Hd H1 H2 H3. rewrite !field_set_other by assumption. now apply Hrest. }
  destruct (search W _) as [[[|p rows]|]|e] eqn:Hfound; cbn [fst snd];
    (eexists; split; [reflexivity|]);
    (split; [intros p' rows' Hf'|intros Hf']);
    try discriminate; try (destruct Hf'; discriminate); try exact Hnone.
  injection Hf' as <- <-. split.
  - intros lines Hl. split; [exact (productLines_length _ _ _ Hl)|].
    unfold synthesized. now rewrite Hl.
  - intros e Hl. unfold synthesized. now rewrite Hl.
Qed.

(** [swarm_search_answers] when the tool call is spelled as the prompt
    dictates and the search finds one row with a picture. *)
Lemma swarm_search_answers_witness :
  exists r,
    generateReply
      (shop_world (spaced_call (lit "red shirt")) (Ret (Some [red_shirt])))
      managed_page greeting 0 []
    = (Ret (Some r),
       [ acquisition;
         inference managed_page greeting (lit "AIzaSy-pool-1");
         ERecordKeyUsage (lit "AIzaSy-pool-1") 42;
         swarm_search managed_page (lit "red shirt") ])
    /\ field r (lit "images")
       = Json (JArr [JObj [ (lit "url", JStr (lit "https://cdn.example/red.png"));
                            (lit "title", JStr (lit "Red Shirt")) ]]).
Proof.
  destruct (swarm_search_answers
              (shop_world (spaced_call (lit "red shirt")) (Ret (Some [red_shirt])))
              managed_page greeting 0 [] (lit "AIzaSy-pool-1")
              (mkCompletion (Some [mkChoice (Some (spaced_call (lit "red shirt")))])
                            (Some 42%Z))
              (spaced_call (lit "red shirt")) (search_call (lit "red shirt"))
              eq_refl eq_refl
              (conj (ex_intro _ pool_key (conj eq_refl eq_refl))
                    (conj eq_refl (conj eq_refl eq_refl)))
              eq_refl eq_refl)
    as (out & E & Hrows & _).
  destruct (Hrows red_shirt [] eq_refl) as (Hlines & _).
  destruct (Hlines _ eq_refl) as (_ & ->).
  eexists. split; [exact E|reflexivity].
Defined.


Section UserTurn.

Variable W : World.
Variable pc : PageConfig.
Variable ms : list Message.
Variable total : Z.

(** The turn of a user key whose completion asks for a product search. *)
Lemma phase1Attempt_tool (k : jsstring) (h : list Event) (c : Completion)
      (c0 : Choice) (l : list Choice) (parsed : json) :
  infer W (h ++ [userCall W pc ms k]) = Ret c ->
  choices c = Some (c0 :: l) ->
  parseContent (contentOf c0) = Ret parsed ->
  isSearchCall parsed = Ret true ->
  let first := [userCall W pc ms k; ERecordKeyUsage k (usage ms c (contentOf c0))] in
  let round := phase1Tool W pc ms total k (baseURLOf (providerOfKey W pc k))
                 (or_default (chatmodel pc) (defaultModel W pc)) parsed
                 (usage ms c (contentOf c0)) (h ++ first) in
  phase1Attempt W pc ms total k h
  = (Ret (Some match fst round with
               | Ret r => r
               | Throw _ =>
                   rawReply (contentOf c0)
                            (or_default (chatmodel pc) (defaultModel W pc))
                            (usage ms c (contentOf c0) + total)
               end),
     first ++ snd round).
Proof.
  intros Hi Hc Hp Hs. cbv zeta.
  unfold phase1Attempt, chat, recordKeyUsage, swallow. unfold_monad.
  fold (userCall W pc ms k). rewrite Hi. norm. rewrite Hc. norm.
  fold (contentOf c0). fold (usage ms c (contentOf c0)).
  rewrite Hp. norm. rewrite Hs. norm.
  destruct (key_op W _) as [[]|e]; norm;
    destruct (phase1Tool W pc ms total k _ _ parsed _ _) as [[r|e'] es]; norm; reflexivity.
Qed.

End UserTurn.

Section UserTool.

Variable W : World.
Variable pc : PageConfig.
Variable ms : list Message.
Variable total : Z.

(** The tool round of Phase 1, step by step. *)
Lemma phase1Tool_round (k : jsstring) (parsed : json) (tok : Z) (h : list Event) :
  let base := baseURLOf (providerOfKey W pc k) in
  let model := or_default (chatmodel pc) (defaultModel W pc) in
  let run := phase1Tool W pc ms total k base model parsed tok h in
  match search W (h ++ [user_search_of pc parsed]) with
  | Throw e => run = (Throw e, [user_search_of pc parsed])
  | Ret products =>
      let again := requery W pc ms k parsed products in
      match infer W (h ++ [user_search_of pc parsed; again]) with
      | Throw e => run = (Throw e, [user_search_of pc parsed; again])
      | Ret c2 =>
          forall raw2 parsed2 o,
            firstContent c2 = Ret raw2 ->
            parseContent raw2 = Ret parsed2 ->
            withReply parsed2 = Ret o ->
            let tok2 := estimateTokenUsage (requery_messages ms parsed products) raw2
                          (reported c2) in
            run = (Ret (obj_set (lit "model") (str model)
                          (obj_set (lit "token_usage") (Num (tok + tok2 + total)) o)),
                   [user_search_of pc parsed; again; ERecordKeyUsage k tok2])
      end
  end.
Proof.
  cbv zeta. unfold phase1Tool, searchProducts, chat, recordKeyUsage, swallow.
  unfold_monad.
  fold (user_search_of pc parsed).
  destruct (search W (h ++ [user_search_of pc parsed])) as [products|e]; norm;
    [|reflexivity].
  fold (requery_messages ms parsed products).
  fold (requery W pc ms k parsed products).
  destruct (infer W _) as [c2|e]; norm; [|reflexivity].
  intros raw2 parsed2 o Hc Hp Hw. rewrite Hc. norm.
  destruct (key_op W _) as [[]|e]; norm; rewrite Hp; norm; rewrite Hw; norm; reflexivity.
Qed.

End UserTool.




(** X7.  The tool round of a user key when it succeeds: after the product
    search, one re-query is made with the same key, endpoint and model,
    in JSON format, on the messages of the first call followed by the tool
    call, written as JSON, and the rows found; its usage is recorded, and
    the response carries the parsed second answer with the usage of both
    calls.  The tool call may come spaced, fenced, amid prose or with
    further fields; it is taken to hold no number, no array index as a
    name and no surrogate, which are written back otherwise than they
    were read. *)
Theorem user_key_tool_round (W : World) (pc : PageConfig)
        (ms : list Message) (total : Z) (h : list Event) (k : jsstring)
        (rest : list jsstring) (c c2 : Completion) (c0 : Choice) (l : list Choice)
        (parsed : json) (raw2 : jsstring) (products : option (list json))
        (parsed2 : json) (o : object) :
  userKeyAttempted W pc = true ->
  userKeys W pc = k :: rest ->
  infer W (h ++ [userCall W pc ms k]) = Ret c ->
  choices c = Some (c0 :: l) ->
  parseContent (contentOf c0) = Ret parsed ->
  isSearchCall parsed = Ret true ->
  plain parsed = true ->
  let first := [userCall W pc ms k; ERecordKeyUsage k (usage ms c (contentOf c0))] in
  let again := requery W pc ms k parsed products in
  let tok2 := estimateTokenUsage (requery_messages ms parsed products) raw2
                (reported c2) in
  search W (h ++ first ++ [user_search_of pc parsed]) = Ret products ->
  infer W (h ++ first ++ [user_search_of pc parsed; again]) = Ret c2 ->
  firstContent c2 = Ret raw2 ->
  parseContent raw2 = Ret parsed2 ->
  withReply parsed2 = Ret o ->
  generateReply W pc ms total h
  = (Ret (Some (obj_set (lit "model")
                  (str (or_default (chatmodel pc) (defaultModel W pc)))
                  (obj_set (lit "token_usage")
                     (Num (usage ms c (contentOf c0) + tok2 + total)) o))),
     first ++ [user_search_of pc parsed; again; ERecordKeyUsage k tok2]).
Proof.
  intros Hu Hk Hi Hc Hp Hs _. cbv zeta. intros Hsearch Hi2 Hc2 Hp2 Hw.
  rewrite (generateReply_own_keys W pc ms total h Hu), Hk.
  cbn [phase1Loop]. unfold bind.
  rewrite (phase1Attempt_tool W pc ms total k h c c0 l _ Hi Hc Hp Hs).
  pose proof (phase1Tool_round W pc ms total k parsed (usage ms c (contentOf c0))
                (h ++ [userCall W pc ms k;
                       ERecordKeyUsage k (usage ms c (contentOf c0))])) as Hrun.
  cbv zeta in Hrun. rewrite <- !app_assoc in Hrun. cbn [app] in Hrun, Hsearch, Hi2.
  rewrite Hsearch in Hrun. cbv beta iota zeta in Hrun.
  rewrite <- ?app_assoc in Hrun. cbn [app] in Hrun. rewrite Hi2 in Hrun.
  rewrite (Hrun raw2 parsed2 o Hc2 Hp2 Hw). unfold ret. cbn [fst snd app].
  reflexivity.
Qed.

(** [user_key_tool_round] when the tool call comes inside a code fence,
    the search finds a row and the model asks for the search once more:
    the second tool call is not run. *)
Lemma user_key_tool_round_witness :
  let W := shop_world (fenced_call (lit "red shirt")) (Ret (Some [red_shirt])) in
  exists r tok2,
    generateReply W own_key_page greeting 0 []
    = (Ret (Some r),
       [ userCall W own_key_page greeting (lit "sk-or-v1-abc");
         ERecordKeyUsage (lit "sk-or-v1-abc") 42;
         user_search own_key_page (lit "red shirt");
         requery W own_key_page greeting (lit "sk-or-v1-abc")
                 (search_call (lit "red shirt")) (Some [red_shirt]);
         ERecordKeyUsage (lit "sk-or-v1-abc") tok2 ])
    /\ field r (lit "token_usage") = Num (42 + tok2 + 0).
Proof.
  cbv zeta. eexists. eexists. split.
  - apply (user_key_tool_round
             (shop_world (fenced_call (lit "red shirt")) (Ret (Some [red_shirt])))
             own_key_page greeting 0 [] (lit "sk-or-v1-abc") []
             (mkCompletion (Some [mkChoice (Some (fenced_call (lit "red shirt")))])
                           (Some 42%Z))
             (mkCompletion (Some [mkChoice (Some (fenced_call (lit "red shirt")))])
                           (Some 42%Z))
             (mkChoice (Some (fenced_call (lit "red shirt")))) []
             (search_call (lit "red shirt")) (fenced_call (lit "red shirt"))
             (Some [red_shirt]) (search_call (lit "red shirt"))
             (obj_set (lit "reply") Undefined (spread (search_call (lit "red shirt")))));
      try reflexivity; discriminate.
  - reflexivity.
Defined.


(** X8.  The three ways the own-API path ends.  A call that throws is answered
    with an error and a null reply; an answer with a text is returned as
    the reply, with the usage the API reports; an answer without text is
    not an error: the request goes on into the swarm of pooled keys. *)
Theorem own_api_outcomes (W : World) (pc : PageConfig) (ms : list Message)
        (total : Z) (h : list Event) :
  ownApiSelected W pc = true ->
  let model := or_default (chatmodel pc) (lit "salesmanchatbot-pro") in
  (forall e,
      own_api W (h ++ [ownCall pc ms]) = Throw e ->
      generateReply W pc ms total h
      = (Ret (Some [ (lit "reply", Json JNull);
                     (lit "error",
                      str (lit "SalesmanChatbot API Error: " ++ err_message e
                           ++ lit ". Check your API key/model."));
                     (lit "token_usage", Num 0);
                     (lit "model", str model) ]),
         [ownCall pc ms]))
  /\ (forall data text,
         own_api W (h ++ [ownCall pc ms]) = Ret data ->
         nonempty (own_content data) = Some text ->
         generateReply W pc ms total h
         = (Ret (Some [ (lit "reply", str text);
                        (lit "sentiment", str (lit "neutral"));
                        (lit "token_usage",
                         Num (match own_total_tokens data with
                              | Some n => n
                              | None => 0
                              end + total));
                        (lit "model", str model) ]),
            [ownCall pc ms]))
  /\ (forall data,
         own_api W (h ++ [ownCall pc ms]) = Ret data ->
         nonempty (own_content data) = None ->
         generateReply W pc ms total h
         = (fst (phase2Loop W pc ms total 3 (h ++ [ownCall pc ms])),
            ownCall pc ms :: snd (phase2Loop W pc ms total 3 (h ++ [ownCall pc ms])))).
Proof.
  intros Ho. cbv zeta.
  destruct (generateReply_own_api W pc ms total h Ho) as (o & Eo & ->).
  revert Eo. unfold ownApi, try_catch, bind, call, ret. fold (ownCall pc ms).
  destruct (own_api W (h ++ [ownCall pc ms])) as [data|e]; cbn [app].
  - destruct (nonempty (own_content data)) as [text|] eqn:Hn; cbn [app];
      intros E; injection E as <-; (split; [|split]); try discriminate.
    + intros d t Hd Ht. injection Hd as <-. rewrite Hn in Ht. injection Ht as <-.
      reflexivity.
    + intros d Hd Ht. injection Hd as <-. congruence.
    + intros d t Hd Ht. injection Hd as <-. congruence.
    + intros d Hd _. reflexivity.
  - intros E. injection E as <-. split; [|split]; try discriminate.
    intros e' He. injection He as <-. reflexivity.
Qed.

(** [own_api_outcomes] when the own API is down. *)
Lemma own_api_outcomes_witness :
  field (match fst (generateReply (failing_world unauthorized) own_api_page greeting 0 [])
         with
         | Ret (Some r) => r
         | _ => []
         end) (lit "reply") = Json JNull
  /\ snd (generateReply (failing_world unauthorized) own_api_page greeting 0 [])
     = [ownCall own_api_page greeting].
Proof.
  rewrite (proj1 (own_api_outcomes (failing_world unauthorized) own_api_page greeting 0 []
                    eq_refl) unauthorized eq_refl).
  split; reflexivity.
Defined.

(* ================================================================== *)
(** * Further facts about the parser *)
(* ================================================================== *)

Section Prose.

Lemma dropWhile_app_stop (f : N -> bool) (a b : jsstring) :
  b <> [] -> f (hd 0%N b) = false -> dropWhile f (a ++ b) = dropWhile f a ++ b.
Proof.
  intros Hb Hf. induction a as [|c a IH]; cbn [app dropWhile].
  - destruct b as [|d b]; [congruence|]. cbn [hd] in Hf. cbn [dropWhile]. now rewrite Hf.
  - destruct (f c); [exact IH|reflexivity].
Qed.

Lemma dropWhile_suffix (f : N -> bool) (s : jsstring) :
  exists w, s = w ++ dropWhile f s.
Proof.
  induction s as [|c s [w IH]]; [now exists []|]. cbn [dropWhile].
  destruct (f c); [|now exists []]. exists (c :: w). cbn [app]. now rewrite <- IH.
Qed.

(** Trimming a text around a block that starts and ends with a unit that
    is not white space trims the text before it and the text after it. *)
Lemma trim_around (pre obj post : jsstring) :
  obj <> [] -> is_space (hd 0%N obj) = false -> is_space (last obj 0%N) = false ->
  trim (pre ++ obj ++ post) = trimStart pre ++ obj ++ trimEnd post.
Proof.
  intros Hne Ha Hz. unfold trim, trimStart, trimEnd.
  rewrite (dropWhile_app_stop is_space pre (obj ++ post)).
  2:{ destruct obj; [congruence|discriminate]. }
  2:{ destruct obj; [congruence|exact Ha]. }
  rewrite !rev_app_distr, <- app_assoc.
  rewrite (dropWhile_app_stop is_space (rev post)).
  2:{ intros H. apply app_eq_nil in H as [H _].
      apply (f_equal (@rev N)) in H. rewrite rev_involutive in H. now apply Hne. }
  2:{ destruct (rev obj) as [|c r] eqn:E.
      - apply (f_equal (@rev N)) in E. rewrite rev_involutive in E. now apply Hne in E.
      - cbn [app hd]. rewrite <- Hz, <- hd_rev_last, E. reflexivity. }
  rewrite !rev_app_distr, !rev_involutive, <- app_assoc. reflexivity.
Qed.

Lemma matchesAt_extend (ci : bool) (s t p : jsstring) :
  matchesAt ci s p = true -> matchesAt ci (s ++ t) p = true.
Proof.
  revert s. induction p as [|c p IH]; intros s H; [reflexivity|].
  destruct s as [|d s]; [discriminate|]. cbn [matchesAt app] in *.
  apply andb_true_iff in H as [H1 H2]. now rewrite H1, IH.
Qed.

Lemma occurs_suffix (ci : bool) (a s p : jsstring) :
  occurs ci (a ++ s) p = false -> occurs ci s p = false.
Proof.
  induction a as [|c a IH]; intros H; [exact H|].
  cbn [app] in H. apply occurs_cons in H as [_ H]. now apply IH.
Qed.

Lemma occurs_prefix (ci : bool) (s t p : jsstring) :
  occurs ci (s ++ t) p = false -> occurs ci s p = false.
Proof.
  induction s as [|c s IH]; intros H.
  - cbn [occurs]. destruct (matchesAt ci [] p) eqn:E; [|reflexivity].
    apply (matchesAt_extend ci [] t) in E. cbn [app] in *.
    destruct t; cbn [occurs] in H; rewrite E in H; discriminate.
  - cbn [app] in H. apply occurs_cons in H as [Hm Ho]. cbn [occurs].
    rewrite (IH Ho), orb_false_r.
    destruct (matchesAt ci (c :: s) p) eqn:E; [|reflexivity].
    apply (matchesAt_extend ci (c :: s) t) in E. cbn [app] in E. congruence.
Qed.

Lemma occurs_infix (ci : bool) (a s b p : jsstring) :
  occurs ci (a ++ s ++ b) p = false -> occurs ci s p = false.
Proof. intros H. apply occurs_suffix in H. now apply occurs_prefix in H. Qed.

Lemma indexOf_first (c : N) (pre rest : jsstring) :
  ~ In c pre -> indexOf (pre ++ c :: rest) [c] = Some (length pre).
Proof.
  induction pre as [|d pre IH]; intros H; cbn [app indexOf length].
  - unfold startsWith. cbn [matchesAt]. unfold same. now rewrite N.eqb_refl.
  - unfold startsWith. cbn [matchesAt]. unfold same.
    destruct (N.eqb_spec c d) as [->|Hd]; [exfalso; apply H; now left|].
    cbn [andb]. rewrite IH by (intro; apply H; now right). reflexivity.
Qed.

Lemma lastIndexOf_absent (c : N) (s : jsstring) : ~ In c s -> lastIndexOf s [c] = None.
Proof.
  induction s as [|d s IH]; intros H; cbn [lastIndexOf]; [reflexivity|].
  rewrite IH by (intro; apply H; now right).
  unfold startsWith. cbn [matchesAt]. unfold same.
  destruct (N.eqb_spec c d) as [->|Hd]; [exfalso; apply H; now left|reflexivity].
Qed.

Lemma lastIndexOf_final (c : N) (s post : jsstring) :
  ~ In c post -> lastIndexOf (s ++ c :: post) [c] = Some (length s).
Proof.
  intros H. induction s as [|d s IH]; cbn [app lastIndexOf length].
  - rewrite (lastIndexOf_absent c post H). unfold startsWith. cbn [matchesAt].
    unfold same. now rewrite N.eqb_refl.
  - now rewrite IH.
Qed.

Lemma isolateObject_around (pre mid post : jsstring) :
  ~ In 123%N pre -> ~ In 125%N post ->
  isolateObject (pre ++ (123%N :: mid ++ [125%N]) ++ post) = 123%N :: mid ++ [125%N].
Proof.
  intros Hpre Hpost. unfold isolateObject.
  cbn [app]. rewrite (indexOf_first 123%N pre _ Hpre).
  replace (pre ++ 123%N :: (mid ++ [125%N]) ++ post)
    with ((pre ++ 123%N :: mid) ++ 125%N :: post)
    by (rewrite <- !app_assoc; reflexivity).
  rewrite (lastIndexOf_final 125%N _ post Hpost).
  rewrite length_app. cbn [length].
  destruct (Nat.ltb_spec (length pre) (length pre + S (length mid))) as [_|?]; [|lia].
  unfold substring. rewrite <- app_assoc. cbn [app].
  rewrite skipn_app, skipn_all, Nat.sub_diag. cbn [skipn app].
  replace (length pre + S (length mid) + 1 - length pre) with (S (S (length mid))) by lia.
  change (firstn (S (S (length mid))) (123%N :: mid ++ 125%N :: post))
    with (123%N :: firstn (S (length mid)) (mid ++ 125%N :: post)).
  f_equal. rewrite firstn_app.
  replace (S (length mid) - length mid) with 1 by lia.
  rewrite firstn_all2 by lia. reflexivity.
Qed.

End Prose.

(** X9.  A JSON object answered amid prose is still read: when the text holds
    no code-fence marker and no opening think tag, whatever comes before
    the first opening brace and after the last closing brace is dropped
    and the object between them is parsed. *)
Theorem extractJson_ignores_prose (pre mid post : jsstring) (v : json) :
  ~ In 123%N pre -> ~ In 125%N post ->
  occurs false (pre ++ (123%N :: mid ++ [125%N]) ++ post) fence = false ->
  occurs true (pre ++ (123%N :: mid ++ [125%N]) ++ post) think_open = false ->
  JSON_parse (123%N :: mid ++ [125%N]) = Some v ->
  extractJsonFromAiResponse (pre ++ (123%N :: mid ++ [125%N]) ++ post) = Some v.
Proof.
  intros Hpre Hpost Hf Ht Hv.
  set (obj := 123%N :: mid ++ [125%N]) in *.
  assert (obj <> []) as Hne by discriminate.
  assert (is_space (hd 0%N obj) = false) as Ha by reflexivity.
  assert (is_space (last obj 0%N) = false) as Hz
      by (unfold obj; now rewrite last_object).
  unfold extractJsonFromAiResponse, cleanContent, stripFences.
  rewrite (stripThink_none _ Ht), (trim_around pre obj post Hne Ha Hz).
  set (t := trimStart pre ++ obj ++ trimEnd post).
  assert (exists a b, pre ++ obj ++ post = a ++ t ++ b) as (a & b & E).
  { destruct (dropWhile_suffix is_space pre) as [w1 E1].
    destruct (dropWhile_suffix is_space (rev post)) as [w2 E2].
    exists w1, (rev w2). unfold t, trimStart, trimEnd.
    rewrite E1 at 1.
    apply (f_equal (@rev N)) in E2. rewrite rev_involutive, rev_app_distr in E2.
    rewrite E2 at 1. rewrite <- !app_assoc. reflexivity. }
  assert (occurs false t fence = false) as Hf'
      by (rewrite E in Hf; now apply occurs_infix in Hf).
  assert (trim t = t) as Htrim.
  { unfold t. rewrite <- (trim_around pre obj post Hne Ha Hz).
    apply trim_fixed.
    - rewrite (trim_around pre obj post Hne Ha Hz).
      intros H. apply app_eq_nil in H as [_ H]. now apply app_eq_nil in H as [H _].
    - apply trim_trimmed. rewrite (trim_around pre obj post Hne Ha Hz).
      intros H. apply app_eq_nil in H as [_ H]. now apply app_eq_nil in H as [H _]. }
  change (removeAll true fence_json t) with (removeAll_from true fence_json 0 t).
  rewrite (removeAll_from_none true fence_json t (fence_json_is_fence t Hf')).
  change (removeAll false fence t) with (removeAll_from false fence 0 t).
  rewrite (removeAll_from_none false fence t Hf'), Htrim.
  unfold t, obj. rewrite isolateObject_around.
  - fold obj. now rewrite Hv.
  - intros H. apply dropWhile_incl in H. now apply Hpre.
  - intros H. unfold trimEnd in H. apply in_rev in H. apply dropWhile_incl in H.
    apply in_rev in H. now apply Hpost.
Qed.

(** [extractJson_ignores_prose] on a payload announced and signed off. *)
Lemma extractJson_ignores_prose_witness :
  extractJsonFromAiResponse
    (lit "Here is the answer: "
     ++ stringify (reply_payload (lit "hi") [] (lit "pos")) ++ lit " Thanks!")
  = Some (reply_payload (lit "hi") [] (lit "pos")).
Proof.
  apply (extractJson_ignores_prose
           (lit "Here is the answer: ")
           (removelast (tl (stringify (reply_payload (lit "hi") [] (lit "pos")))))
           (lit " Thanks!"));
    try reflexivity;
    intros H; cbn in H; repeat (destruct H as [H|H]; [discriminate H|]); exact H.
Defined.

Section Salvage.

Lemma scan_body_control (c : N) (rest : jsstring) :
  (c < 32)%N ->
  scan_body (escape_unit c ++ rest)
  = match scan_body rest with
    | Some b => Some (escape_unit c ++ b)
    | None => None
    end.
Proof.
  revert c. apply small_units. intros n Hn.
  do 32 (destruct n as [|n]; [cbn; destruct (scan_body rest); reflexivity|]). lia.
Qed.

Lemma scan_body_unit (c : N) (rest : jsstring) :
  scan_body (escape_unit c ++ rest)
  = match scan_body rest with
    | Some b => Some (escape_unit c ++ b)
    | None => None
    end.
Proof.
  destruct (N.ltb_spec c 32) as [Hc|Hc]; [now apply scan_body_control|].
  destruct (N.eqb_spec c 34) as [->|H34]; [cbn; destruct (scan_body rest); reflexivity|].
  destruct (N.eqb_spec c 92) as [->|H92]; [cbn; destruct (scan_body rest); reflexivity|].
  unfold escape_unit.
  repeat match goal with
         | |- context [(c =? ?k)%N] =>
             let E := fresh in
             destruct (N.eqb_spec c k) as [E|E]; [lia|]
         end.
  destruct (N.ltb_spec c 32) as [?|_]; [lia|].
  cbn [app scan_body].
  destruct (N.eqb_spec c 34) as [?|_]; [lia|].
  destruct (N.eqb_spec c 92) as [?|_]; [lia|]. reflexivity.
Qed.

(** The reply pattern takes a string literal written by [JSON.stringify]
    whole, up to its closing quote. *)
Lemma scan_body_quote (s rest : jsstring) :
  scan_body (flat_map escape_unit s ++ 34%N :: rest) = Some (flat_map escape_unit s).
Proof.
  induction s as [|c s IH]; [reflexivity|].
  cbn [flat_map]. rewrite <- app_assoc, scan_body_unit, IH. reflexivity.
Qed.

Lemma JSON_parse_quote (s : jsstring) : JSON_parse (quote s) = Some (JStr s).
Proof.
  unfold JSON_parse, quote. cbn [app length Nat.mul Nat.add].
  cbn [parse_value skip_ws dropWhile is_json_ws N.eqb Pos.eqb orb].
  change (parse_chars (flat_map escape_unit s ++ [34%N]))
    with (parse_chars (flat_map escape_unit s ++ 34%N :: [])).
  rewrite parse_chars_quote. reflexivity.
Qed.

Lemma escape_unit_nonempty (c : N) : escape_unit c <> [].
Proof.
  unfold escape_unit.
  repeat match goal with |- context [if ?b then _ else _] => destruct b end; discriminate.
Qed.

Lemma match_reply_here (s b : jsstring) :
  match_reply_at s = Some b -> match_reply s = Some b.
Proof. intros H. destruct s; cbn [match_reply]; now rewrite H. Qed.

Lemma match_reply_skip (c : N) (s : jsstring) :
  match_reply_at (c :: s) = None -> match_reply (c :: s) = match_reply s.
Proof. intros H. cbn [match_reply]. now rewrite H. Qed.

End Salvage.

(** X10.  The salvage of a reply from a text that is not JSON.  When the text
    opens an object whose first field is [reply], written as
    [JSON.stringify] writes a string, the reply comes back as it was
    before it was written, its escapes undone, whatever follows it. *)
Theorem extractReplyFromText_salvages (s w1 w2 post : jsstring) :
  s <> [] -> spaces w1 -> spaces w2 ->
  let text := 123%N :: reply_name ++ w1 ++ 58%N :: w2 ++ quote s ++ post in
  JSON_parse text = None ->
  extractReplyFromText text = s.
Proof.
  intros Hs H1 H2. cbv zeta. intros Hp.
  unfold extractReplyFromText. rewrite Hp.
  assert (match_reply (123%N :: reply_name ++ w1 ++ 58%N :: w2 ++ quote s ++ post)
          = Some (flat_map escape_unit s)) as ->.
  { rewrite match_reply_skip by reflexivity. apply match_reply_here.
    unfold match_reply_at, startsWith. rewrite matchesAt_app_self.
    change (skipn 7 (reply_name ++ ?t)) with t.
    rewrite (dropWhile_spaces w1 _ H1). cbn [dropWhile is_space].
    change (is_space 58) with false. cbv beta iota.
    change (58 =? 58)%N with true. cbv beta iota.
    rewrite (dropWhile_spaces w2 _ H2). unfold quote. cbn [app dropWhile].
    change (is_space 34) with false. cbv beta iota.
    change (34 =? 34)%N with true. cbv beta iota.
    rewrite <- app_assoc. cbn [app]. apply scan_body_quote. }
  destruct (flat_map escape_unit s) as [|c body] eqn:E.
  - destruct s as [|c s]; [congruence|]. cbn [flat_map] in E.
    apply app_eq_nil in E as [E _]. now apply escape_unit_nonempty in E.
  - change ([34%N] ++ c :: body ++ [34%N]) with ([34%N] ++ (c :: body) ++ [34%N]).
    rewrite <- E. fold (quote s). now rewrite JSON_parse_quote.
Qed.

(** [extractReplyFromText_salvages] on an answer cut off in the middle. *)
Lemma extractReplyFromText_salvages_witness :
  extractReplyFromText
    (123%N :: reply_name ++ lit ": " ++ quote (lit "Line one" ++ [10%N] ++ lit "two")
     ++ lit ", " ++ [34%N] ++ lit "images" ++ [34%N] ++ lit ": [")
  = lit "Line one" ++ [10%N] ++ lit "two".
Proof.
  apply (extractReplyFromText_salvages (lit "Line one" ++ [10%N] ++ lit "two")
           [] [32%N] (lit ", " ++ [34%N] ++ lit "images" ++ [34%N] ++ lit ": ["));
    try discriminate; try reflexivity; repeat constructor.
Defined.

(* ================================================================== *)
(** * Further facts about the vision chain *)
(* ================================================================== *)

Section ChainEvents.

Import Vision.

Variable W : World.
Variable P : Event -> Prop.
Hypothesis P_key : forall p m, P (EGetSmartKey p m).
Hypothesis P_post : forall u b m s t i, P (EPost u b m s t i).
Hypothesis P_log : forall m, P (ELogDebug m).

Lemma askEndpoint_calls (st : Stage) (sp mt img k : jsstring) (h : list Event) :
  Forall P (snd (askEndpoint W st sp mt img k h)).
Proof.
  unfold askEndpoint, bind, call, raise, ret, logDebug.
  destruct (post W _) as [a|e]; cbn [fst snd app].
  - destruct (Engine.nonempty (answer_text a)); cbn [fst snd app]; repeat constructor; auto.
  - repeat constructor; auto.
Qed.

Lemma attempt_calls (st : Stage) (sp mt img : jsstring) (h : list Event) :
  Forall P (snd (attempt W st sp mt img h)).
Proof.
  unfold attempt, getSmartKey, bind, call, raise, ret.
  destruct (smart_key W _) as [first|e]; cbn [fst snd app]; [|repeat constructor; auto].
  assert (forall k h', Forall P (EGetSmartKey (provider st) (model st)
                                 :: snd (askEndpoint W st sp mt img k h'))) as Hask.
  { intros k h'. constructor; [auto|apply askEndpoint_calls]. }
  destruct (key_of first) as [k|] eqn:Hk; cbn [fst snd app].
  - rewrite Hk. specialize (Hask k ((h ++ [EGetSmartKey (provider st) (model st)]) ++ [])).
    destruct (askEndpoint W st sp mt img k _). exact Hask.
  - destruct (default_key st).
    + destruct (smart_key W _) as [second|e]; cbn [fst snd app]; [|repeat constructor; auto].
      destruct (key_of second) as [k|]; cbn [fst snd app]; [|repeat constructor; auto].
      pose proof (askEndpoint_calls st sp mt img k
                    ((h ++ [EGetSmartKey (provider st) (model st)])
                     ++ [EGetSmartKey (provider st) (lit "default")])) as H.
      destruct (askEndpoint W st sp mt img k _). cbn [snd] in *.
      repeat constructor; auto.
    + cbn [fst snd app]. rewrite Hk. repeat constructor; auto.
Qed.

Lemma runStage_calls (st : Stage) (sp mt img : jsstring) (errors : list jsstring)
      (h : list Event) :
  Forall P (snd (runStage W st sp mt img errors h)).
Proof.
  destruct (runStage_cases W st sp mt img errors h)
    as [(res & es & Ha & ->) | (e & es & Ha & ->)];
    pose proof (attempt_calls st sp mt img h) as H; rewrite Ha in H; cbn [snd] in *.
  - exact H.
  - apply Forall_app. split; [exact H|repeat constructor; auto].
Qed.

Lemma runStages_calls (sts : list Stage) (sp mt img : jsstring) (errors : list jsstring)
      (h : list Event) :
  Forall P (snd (runStages W sts sp mt img errors h)).
Proof.
  revert errors h. induction sts as [|st sts IH]; intros errors h; cbn [runStages].
  - unfold bind, logDebug, call, ret. cbn [snd app]. repeat constructor; auto.
  - unfold bind. pose proof (runStage_calls st sp mt img errors h) as H.
    destruct (runStage W st sp mt img errors h) as [[[[res|] errors']|e] es];
      cbn [snd] in *.
    + unfold ret. now rewrite app_nil_r.
    + specialize (IH errors' (h ++ es)).
      destruct (runStages W sts sp mt img errors' (h ++ es)) as [o es'].
      cbn [snd] in *. apply Forall_app. now split.
    + exact H.
Qed.

End ChainEvents.

Section Pieces.

Lemma split_from_nonempty (sep : N) (cur s : jsstring) : split_from sep cur s <> [].
Proof.
  revert cur. induction s as [|c s IH]; intros cur; cbn [split_from]; [discriminate|].
  destruct (c =? sep)%N; [discriminate|apply IH].
Qed.

Lemma join_split_from (sep : N) (s cur : jsstring) :
  join [sep] (split_from sep cur s) = rev cur ++ s.
Proof.
  revert cur. induction s as [|c s IH]; intros cur; cbn [split_from].
  - cbn [join]. now rewrite app_nil_r.
  - destruct (N.eqb_spec c sep) as [->|Hc].
    + pose proof (split_from_nonempty sep [] s) as Hne. specialize (IH []).
      destruct (split_from sep [] s) as [|p ps]; [congruence|].
      change (join [sep] (rev cur :: p :: ps))
        with (rev cur ++ [sep] ++ join [sep] (p :: ps)).
      now rewrite IH.
    + rewrite IH. cbn [rev]. now rewrite <- app_assoc.
Qed.

(** The pieces of a string, joined by the separator, are the string. *)
Lemma join_split (sep : N) (s : jsstring) : join [sep] (split sep s) = s.
Proof. apply join_split_from. Qed.

End Pieces.

(** X11.  An image given inline as a data URI is decoded in place: nothing is
    downloaded, whatever the stages do afterwards.  Without a comma the
    URI is refused with the reason and no stage is run; with one, the
    image is what follows the first comma, without its white space, and
    its type is read between the colon and the semicolon of the part
    before, [image/jpeg] when that part has none. *)
Theorem data_uri_decoded_in_place (W : Vision.World) (token : option jsstring)
        (imageUrl : jsstring) (customOptions : option Vision.Options)
        (h : list Vision.Event) :
  startsWith imageUrl (lit "data:") = true ->
  Forall (fun ev => is_download ev = false)
         (snd (Vision.processImageWithVision W token imageUrl customOptions h))
  /\ (~ In 44%N imageUrl ->
      Vision.processImageWithVision W token imageUrl customOptions h
      = (Ret (Vision.Text (lit "Image found but failed to download/decode. Reason: Invalid Data URI format (missing comma)")),
         [Vision.ELogDebug (lit "[Vision] Pre-processing Failed: Invalid Data URI format (missing comma)")]))
  /\ (forall head rest,
         imageUrl = head ++ 44%N :: rest -> ~ In 44%N head ->
         Vision.preprocess W token imageUrl h
         = (Ret (filter (fun c => negb (is_space c)) rest,
                 match Vision.mimeMatch head with
                 | Some m => m
                 | None => lit "image/jpeg"
                 end), [])).
Proof.
  intros Hdata.
  assert (forall head rest,
             imageUrl = head ++ 44%N :: rest -> ~ In 44%N head ->
             Vision.preprocess W token imageUrl h
             = (Ret (filter (fun c => negb (is_space c)) rest,
                     match Vision.mimeMatch head with
                     | Some m => m
                     | None => lit "image/jpeg"
                     end), [])) as Hdecode.
  { intros head rest -> Hhead. unfold Vision.preprocess. rewrite Hdata.
    unfold split. rewrite (split_from_cons 44%N head [] rest Hhead). cbn [rev app].
    pose proof (split_from_nonempty 44%N [] rest) as Hne.
    pose proof (join_split_from 44%N rest []) as Hj. cbn [rev app] in Hj.
    destruct (split_from 44%N [] rest) as [|p ps]; [congruence|].
    now rewrite Hj. }
  assert (~ In 44%N imageUrl ->
          Vision.preprocess W token imageUrl h
          = (Throw (PlainError (lit "Invalid Data URI format (missing comma)")), []))
    as Hrefuse.
  { intros Hno. unfold Vision.preprocess. rewrite Hdata.
    unfold split. rewrite (split_from_piece 44%N imageUrl [] Hno). reflexivity. }
  split; [|split; [|exact Hdecode]].
  - destruct (in_dec N.eq_dec 44%N imageUrl) as [Hin|Hno].
    + apply in_split in Hin as (a & b & E).
      assert (exists head rest, imageUrl = head ++ 44%N :: rest /\ ~ In 44%N head)
        as (head & rest & E' & Hhead).
      { clear - E. revert imageUrl E. induction a as [|c a IH]; intros u E.
        - exists [], b. split; [exact E|intros []].
        - destruct (N.eq_dec c 44%N) as [->|Hc].
          + exists [], (a ++ 44%N :: b). split; [exact E|intros []].
          + destruct (IH (a ++ 44%N :: b) eq_refl) as (hd' & rs & E2 & Hh).
            exists (c :: hd'), rs. split.
            * rewrite E. cbn [app]. now rewrite E2.
            * intros [H|H]; [now apply Hc|now apply Hh]. }
      unfold Vision.processImageWithVision, try_catch, bind, ret.
      rewrite (Hdecode head rest E' Hhead). cbn [app fst snd].
      match goal with
      | |- context [Vision.runStages W ?sts ?sp ?m ?i ?er ?h'] =>
          pose proof (runStages_calls W (fun ev => is_download ev = false)
                        (fun _ _ => eq_refl) (fun _ _ _ _ _ _ => eq_refl)
                        (fun _ => eq_refl) sts sp m i er h') as Hq;
          destruct (Vision.runStages W sts sp m i er h') as [o es]
      end.
      exact Hq.
    + unfold Vision.processImageWithVision, try_catch, bind, ret.
      rewrite (Hrefuse Hno). unfold Vision.logDebug, call. cbn [app fst snd].
      repeat constructor.
  - intros Hno. unfold Vision.processImageWithVision, try_catch, bind, ret.
    rewrite (Hrefuse Hno). unfold Vision.logDebug, call. cbn [app fst snd].
    reflexivity.
Qed.

(** [data_uri_decoded_in_place] on a small PNG given inline. *)
Lemma data_uri_decoded_in_place_witness :
  Vision.preprocess blind_world None (lit "data:image/png;base64,aG k=") []
  = (Ret (lit "aGk=", lit "image/png"), []).
Proof.
  apply (proj2 (proj2 (data_uri_decoded_in_place blind_world None
                         (lit "data:image/png;base64,aG k=") None [] eq_refl))
           (lit "data:image/png;base64") (lit "aG k=") eq_refl).
  intros H. cbn in H. repeat (destruct H as [H|H]; [discriminate H|]). exact H.
Defined.

(** X12.  An image given by reference is downloaded once, first, from that very
    reference.  The WAHA key goes only with a URL that contains the base
    URL or the host name of the WAHA server; the access token of the page
    only with a URL that contains [graph.facebook.com] and neither of the
    former; a URL that contains none of the three is fetched without
    credentials. *)
Theorem download_credentials (W : Vision.World) (token : option jsstring)
        (imageUrl : jsstring) (customOptions : option Vision.Options)
        (h : list Vision.Event) :
  startsWith imageUrl (lit "data:") = false ->
  exists auth rest,
    snd (Vision.processImageWithVision W token imageUrl customOptions h)
    = Vision.EDownload imageUrl auth :: rest
    /\ Forall (fun ev => is_download ev = false) rest
    /\ (forall k, auth = Vision.WahaKey k ->
                  k = Vision.WAHA_API_KEY W /\ waha_url W imageUrl = true)
    /\ (forall t, auth = Vision.FacebookToken t ->
                  token = Some t /\ t <> []
                  /\ includes imageUrl (lit "graph.facebook.com") = true
                  /\ waha_url W imageUrl = false)
    /\ (waha_url W imageUrl = false ->
        includes imageUrl (lit "graph.facebook.com") = false ->
        auth = Vision.NoAuth).
Proof.
  intros Hdata.
  unfold Vision.processImageWithVision, Vision.preprocess, try_catch, bind, ret, call.
  rewrite Hdata. fold (waha_url W imageUrl).
  set (auth := if waha_url W imageUrl then _ else _).
  exists auth.
  assert ((forall k, auth = Vision.WahaKey k ->
                     k = Vision.WAHA_API_KEY W /\ waha_url W imageUrl = true)
          /\ (forall t, auth = Vision.FacebookToken t ->
                        token = Some t /\ t <> []
                        /\ includes imageUrl (lit "graph.facebook.com") = true
                        /\ waha_url W imageUrl = false)
          /\ (waha_url W imageUrl = false ->
              includes imageUrl (lit "graph.facebook.com") = false ->
              auth = Vision.NoAuth)) as Hauth.
  { subst auth. destruct (waha_url W imageUrl).
    - split; [|split]; intros; try discriminate.
      split; [congruence|reflexivity].
    - destruct (includes imageUrl (lit "graph.facebook.com")).
      + destruct token as [[|c t]|]; cbn [Engine.nonempty];
          (split; [|split]); intros; try discriminate.
        match goal with H : Vision.FacebookToken _ = Vision.FacebookToken _ |- _ =>
                          injection H as <- end.
        repeat split; discriminate.
      + split; [|split]; intros; try discriminate. reflexivity. }
  destruct (Vision.download W (h ++ [Vision.EDownload imageUrl auth])) as [d|e];
    unfold Vision.logDebug, call; cbn [app fst snd].
  - match goal with
    | |- context [Vision.runStages W ?sts ?sp ?m ?i ?er ?h'] =>
        pose proof (runStages_calls W (fun ev => is_download ev = false)
                      (fun _ _ => eq_refl) (fun _ _ _ _ _ _ => eq_refl)
                      (fun _ => eq_refl) sts sp m i er h') as Hq;
        destruct (Vision.runStages W sts sp m i er h') as [o es]
    end.
    eexists. split; [reflexivity|]. split; [|exact Hauth].
    constructor; [reflexivity|exact Hq].
  - eexists. split; [reflexivity|]. split; [|exact Hauth]. repeat constructor.
Qed.

(** [download_credentials] on a picture of an unrelated host, for a page
    that has an access token. *)
Lemma download_credentials_witness :
  exists rest,
    snd (Vision.processImageWithVision blind_world (Some (lit "EAAB-page-token"))
           (lit "https://cdn.example/x.png") None [])
    = Vision.EDownload (lit "https://cdn.example/x.png") Vision.NoAuth :: rest.
Proof.
  destruct (download_credentials blind_world (Some (lit "EAAB-page-token"))
              (lit "https://cdn.example/x.png") None [] eq_refl)
    as (auth & rest & E & _ & _ & _ & Hnone).
  exists rest. rewrite E. now rewrite (Hnone eq_refl eq_refl).
Defined.

Section FirstStage.

Import Vision.

Variable W : World.

Lemma askEndpoint_event (st : Stage) (sp mt img k : jsstring) :
  (if eqb (provider st) (lit "openrouter")
   then EPost (lit "https://openrouter.ai/api/v1/chat/completions") (Some k)
              (model st) sp mt img
   else EPost (lit "https://generativelanguage.googleapis.com/v1beta/models/"
               ++ model st ++ lit ":generateContent?key=" ++ k)
              None (model st) sp mt img)
  = EPost (if eqb (provider st) (lit "openrouter")
           then lit "https://openrouter.ai/api/v1/chat/completions"
           else lit "https://generativelanguage.googleapis.com/v1beta/models/"
                ++ model st ++ lit ":generateContent?key=" ++ k)
          (if eqb (provider st) (lit "openrouter") then Some k else None)
          (model st) sp mt img.
Proof. now destruct (eqb (provider st) (lit "openrouter")). Qed.

(** A stage that gets a key at once and a text from its endpoint. *)
Lemma attempt_succeeds (st : Stage) (sp mt img k text : jsstring) (kd : KeyData)
      (a : Answer) (h : list Event) :
  smart_key W (h ++ [EGetSmartKey (provider st) (model st)]) = Ret (Some kd) ->
  key_of (Some kd) = Some k ->
  post W (h ++ [EGetSmartKey (provider st) (model st); stage_post st sp mt img k])
  = Ret a ->
  Engine.nonempty (answer_text a) = Some text ->
  let usage := match answer_tokens a with Some n => n | None => 0%Z end in
  attempt W st sp mt img h
  = (Ret (Described text usage),
     [ EGetSmartKey (provider st) (model st);
       stage_post st sp mt img k;
       ELogDebug (lit "[Vision] Success with " ++ success_name st ++ lit ": "
                  ++ firstn 30 text ++ lit "... Usage: "
                  ++ Engine.display (Num usage)) ]).
Proof.
  intros Hk Hkey Hp Ht. cbv zeta.
  unfold attempt, getSmartKey, bind, call, ret. rewrite Hk. cbn [app fst snd].
  rewrite Hkey. cbn [app fst snd]. rewrite Hkey.
  unfold askEndpoint, bind, call, ret, logDebug. rewrite <- askEndpoint_event.
  fold (stage_post st sp mt img k).
  rewrite app_nil_r, <- app_assoc. cbn [app]. rewrite Hp. cbn [app fst snd].
  rewrite Ht. cbn [app fst snd]. reflexivity.
Qed.

(** A stage without a key makes no request to an endpoint. *)
Lemma attempt_without_key (st : Stage) (sp mt img : jsstring) (h : list Event) :
  no_vision_key W ->
  exists e, fst (attempt W st sp mt img h) = Throw e
            /\ Forall (fun ev => is_post ev = false) (snd (attempt W st sp mt img h)).
Proof.
  intros Hno. unfold attempt, getSmartKey, bind, call, raise, ret.
  pose proof (Hno (h ++ [EGetSmartKey (provider st) (model st)])) as H1.
  destruct (smart_key W _) as [first|e]; cbn [fst snd app].
  2:{ eexists. split; [reflexivity|repeat constructor]. }
  rewrite H1. destruct (default_key st).
  - pose proof (Hno ((h ++ [EGetSmartKey (provider st) (model st)])
                     ++ [EGetSmartKey (provider st) (lit "default")])) as H2.
    destruct (smart_key W _) as [second|e]; cbn [fst snd app].
    + rewrite H2. eexists. split; [reflexivity|repeat constructor].
    + eexists. split; [reflexivity|repeat constructor].
  - cbn [fst snd app]. rewrite H1. eexists. split; [reflexivity|repeat constructor].
Qed.

Lemma runStages_without_key (sts : list Stage) (sp mt img : jsstring)
      (errors : list jsstring) (h : list Event) :
  no_vision_key W ->
  fst (runStages W sts sp mt img errors h) = Ret (Described unavailable 0)
  /\ Forall (fun ev => is_post ev = false) (snd (runStages W sts sp mt img errors h)).
Proof.
  intros Hno. revert errors h. induction sts as [|st sts IH]; intros errors h;
    cbn [runStages].
  - unfold bind, logDebug, call, ret. cbn [fst snd app]. split; [reflexivity|].
    repeat constructor.
  - unfold bind.
    destruct (attempt_without_key st sp mt img h Hno) as (e & He & Hq).
    destruct (runStage_cases W st sp mt img errors h)
      as [(res & es & Ha & _) | (e' & es & Ha & ->)];
      rewrite Ha in He, Hq; cbn [fst snd] in He, Hq; [discriminate|].
    match goal with
    | |- context [runStages W sts sp mt img ?er ?h'] =>
        destruct (IH er h') as [IH1 IH2];
        destruct (runStages W sts sp mt img er h') as [o es']
    end.
    cbn [fst snd] in *. split; [exact IH1|].
    apply Forall_app. split; [|exact IH2].
    apply Forall_app. split; [exact Hq|repeat constructor].
Qed.

End FirstStage.

(** X13.  The chain stops at the first stage that succeeds.  When the first
    stage gets a key and a text from its endpoint, that text and the
    token count of the answer are returned, and after the preparation of
    the image the chain has asked for one key and made one request: no
    later stage is run. *)
Theorem vision_first_success (W : Vision.World) (token : option jsstring)
        (imageUrl : jsstring) (customOptions : option Vision.Options)
        (h pre : list Vision.Event) (image mimeType k text : jsstring)
        (st : Vision.Stage) (later : list Vision.Stage) (kd : Vision.KeyData)
        (a : Vision.Answer) :
  Vision.preprocess W token imageUrl h = (Ret (image, mimeType), pre) ->
  Vision.stages customOptions = st :: later ->
  let prompt :=
    Engine.or_default
      (match customOptions with Some o => Vision.opt_prompt o | None => None end)
      (lit "Describe this image in detail.") in
  let ask := Vision.EGetSmartKey (Vision.provider st) (Vision.model st) in
  let request := stage_post st prompt mimeType image k in
  Vision.smart_key W (h ++ pre ++ [ask]) = Ret (Some kd) ->
  Vision.key_of (Some kd) = Some k ->
  Vision.post W (h ++ pre ++ [ask; request]) = Ret a ->
  Engine.nonempty (Vision.answer_text a) = Some text ->
  exists line,
    Vision.processImageWithVision W token imageUrl customOptions h
    = (Ret (Vision.Described text
              (match Vision.answer_tokens a with Some n => n | None => 0%Z end)),
       pre ++ [ask; request; Vision.ELogDebug line]).
Proof.
  intros Hpre Hst. cbv zeta. intros Hk Hkey Hp Ht.
  unfold Vision.processImageWithVision, try_catch, bind, ret.
  rewrite Hpre. cbn [app fst snd]. rewrite Hst. cbn [Vision.runStages].
  unfold bind.
  destruct (runStage_cases W st
              (Engine.or_default
                 (match customOptions with Some o => Vision.opt_prompt o | None => None end)
                 (lit "Describe this image in detail."))
              mimeType image [] (h ++ pre ++ []))
    as [(res & es & Ha & ->) | (e & es & Ha & _)];
    rewrite app_nil_r in Ha;
    rewrite (attempt_succeeds W st _ mimeType image k text kd a (h ++ pre)) in Ha;
    try (rewrite <- app_assoc; assumption); try assumption.
  - injection Ha as <- <-. unfold ret. eexists. rewrite !app_nil_r. reflexivity.
  - discriminate.
Qed.

(** [vision_first_success] when the first endpoint describes the image. *)
Lemma vision_first_success_witness :
  exists line,
    Vision.processImageWithVision seeing_world None (lit "https://cdn.example/x.png")
                                  None []
    = (Ret (Vision.Described (lit "A red shirt.") 12),
       [ Vision.EDownload (lit "https://cdn.example/x.png") Vision.NoAuth;
         Vision.ELogDebug (lit "[Vision] Image Downloaded. Mime: image/png, Size: 4");
         Vision.EGetSmartKey (lit "google") (lit "gemini-2.5-flash");
         stage_post Vision.flashStage (lit "Describe this image in detail.")
                    (lit "image/png") (lit "aGk=") (lit "AIzaSy-pool-1");
         Vision.ELogDebug line ]).
Proof.
  apply (vision_first_success seeing_world None (lit "https://cdn.example/x.png") None []
           [ Vision.EDownload (lit "https://cdn.example/x.png") Vision.NoAuth;
             Vision.ELogDebug (lit "[Vision] Image Downloaded. Mime: image/png, Size: 4") ]
           (lit "aGk=") (lit "image/png") (lit "AIzaSy-pool-1") (lit "A red shirt.")
           Vision.flashStage [Vision.liteStage; Vision.qwenStage]
           (Vision.mkKeyData (Some (lit "AIzaSy-pool-1")))
           (Vision.mkAnswer (Some (lit "A red shirt.")) (Some 12%Z)));
    reflexivity.
Defined.

(** X14.  Without a key from the pool no request goes to any endpoint: every
    stage fails before it would send the image, and the chain returns the
    fixed sentinel with usage 0. *)
Theorem vision_without_keys (W : Vision.World) (token : option jsstring)
        (imageUrl : jsstring) (customOptions : option Vision.Options)
        (h pre : list Vision.Event) (image : jsstring * jsstring) :
  no_vision_key W ->
  Vision.preprocess W token imageUrl h = (Ret image, pre) ->
  fst (Vision.processImageWithVision W token imageUrl customOptions h)
  = Ret (Vision.Described Vision.unavailable 0)
  /\ Forall (fun ev => is_post ev = false)
            (snd (Vision.processImageWithVision W token imageUrl customOptions h)).
Proof.
  intros Hno Hpre.
  assert (Forall (fun ev => is_post ev = false) pre) as Hq.
  { revert Hpre. unfold Vision.preprocess.
    destruct (startsWith imageUrl (lit "data:")).
    - destruct (split 44 imageUrl) as [|a [|b l]]; unfold raise, ret; intros E;
        injection E as _ <-; constructor.
    - unfold bind, call, Vision.logDebug, ret.
      destruct (Vision.download W _); cbn [app fst snd]; intros E; injection E as _ <-;
        repeat constructor. }
  unfold Vision.processImageWithVision, try_catch, bind, ret.
  rewrite Hpre. destruct image as [img mt]. cbn [app fst snd].
  match goal with
  | |- context [Vision.runStages W ?sts ?sp ?m ?i ?er ?h'] =>
      destruct (runStages_without_key W sts sp m i er h' Hno) as [H1 H2];
      destruct (Vision.runStages W sts sp m i er h') as [o es]
  end.
  cbn [fst snd] in *. split; [exact H1|].
  rewrite app_nil_r. apply Forall_app. now split.
Qed.

(** [vision_without_keys] when the pool is empty. *)
Lemma vision_without_keys_witness :
  fst (Vision.processImageWithVision keyless_world None (lit "https://cdn.example/x.png")
         None [])
  = Ret (Vision.Described Vision.unavailable 0).
Proof.
  apply (vision_without_keys keyless_world None (lit "https://cdn.example/x.png") None []
           [ Vision.EDownload (lit "https://cdn.example/x.png") Vision.NoAuth;
             Vision.ELogDebug (lit "[Vision] Image Downloaded. Mime: image/png, Size: 4") ]
           (lit "aGk=", lit "image/png")).
  - intros tr. reflexivity.
  - reflexivity.
Defined.

(* ================================================================== *)
(** * Facts about the routes *)
(* ================================================================== *)

Section Guard.

Import Router.

Variable W : World.

Lemma lists_shares (pageId : value) (team : list Row) :
  existsb (lists pageId) team = true <-> shares team pageId.
Proof.
  unfold shares, lists. split.
  - intros H. apply existsb_exists in H as (t & Ht & H).
    apply existsb_exists in H as (s & Hs & E). apply in_map_iff in Hs as (p & <- & Hp).
    apply eqb_eq in E. now exists t, p.
  - intros (t & p & Ht & Hp & E). apply existsb_exists. exists t. split; [exact Ht|].
    apply existsb_exists. exists (Engine.toString p). split.
    + now apply in_map.
    + rewrite E. apply eqb_refl.
Qed.

(** What the shared part of the two [/config] routes has established when
    it lets a request through. *)
Lemma guard_allows (id : jsstring) (authHeader : option jsstring) (h es : list Event)
      (configRow : Row) :
  guard W id authHeader h = (Ret (inr configRow), es) ->
  admitted W h id authHeader configRow es.
Proof.
  unfold admitted, guard, getUser, rowOf, rowsOf. unfold_monad.
  destruct (Engine.nonempty authHeader) as [header|] eqn:Hh; [|discriminate].
  destruct (get_user W (h ++ [EGetUser (tokenOf header)])) as [reply|e] eqn:Hu; norm;
    [|discriminate].
  destruct (auth_error reply) eqn:Ha; norm; [discriminate|].
  destruct (user reply) as [u|] eqn:Hr; norm; [|discriminate].
  destruct (select_one W (h ++ [EGetUser (tokenOf header); EConfig id]))
    as [config|e] eqn:Hc; norm; [|discriminate].
  destruct (error config) eqn:He; norm; [discriminate|].
  destruct (data config) as [row|] eqn:Hd; norm; [|discriminate].
  destruct (select_one W (h ++ [EGetUser (tokenOf header); EConfig id;
                                EPage (col row (lit "page_id"))]))
    as [page|e] eqn:Hp; norm; [|discriminate].
  destruct (error page) eqn:Hpe; norm; [discriminate|].
  set (owner := match data page with
                | Some pageRow => strict_eq (col pageRow (lit "email")) (user_email u)
                | None => false
                end).
  destruct owner eqn:Ho; cbn [negb andb]; norm.
  - intros E. injection E as <- <-.
    exists header, reply, u, config, page. repeat (split; [first [assumption|reflexivity]|]).
    left. split; [|reflexivity]. unfold owns. subst owner.
    destruct (data page) as [pageRow|]; [|discriminate]. now exists pageRow.
  - destruct (truthy (user_email u)) eqn:Ht; norm; [|discriminate].
    destruct (select_rows W _) as [team|e] eqn:Hteam; norm; [|discriminate].
    destruct (existsb (lists (col row (lit "page_id"))) (rowsOrNone team)) eqn:Hl; norm;
      [|discriminate].
    intros E. injection E as <- <-.
    exists header, reply, u, config, page. repeat (split; [first [assumption|reflexivity]|]).
    right. split; [exact Ht|]. exists team. split; [exact Hteam|].
    split; [now apply lists_shares|reflexivity].
Qed.

(** The shared part never writes. *)
Lemma guard_reads (id : jsstring) (authHeader : option jsstring) (h : list Event) :
  Forall (fun ev => is_update ev = false) (snd (guard W id authHeader h)).
Proof.
  unfold guard, getUser, rowOf, rowsOf. unfold_monad.
  repeat match goal with
         | |- context [match ?x with _ => _ end] =>
             lazymatch x with
             | context [match _ with _ => _ end] => fail
             | _ => destruct x eqn:?
             end; norm
         end; repeat constructor.
Qed.

End Guard.

(** X15.  [GET /config/:id] hands a configuration over only to a caller who may
    see it: when it answers 200, the body is the configuration row that
    the database returned for the id, the token of the request names a
    user, and that user owns the page of the configuration or is on an
    active team that lists the page. *)
Theorem getConfig_authorized (W : Router.World) (id : jsstring)
        (authHeader : option jsstring) (h es : list Router.Event)
        (resp : Router.Response) :
  Router.getConfig W id authHeader h = (Ret resp, es) ->
  Router.status resp = 200%Z ->
  exists configRow,
    Router.body resp = Router.BRow (Some configRow)
    /\ Router.admitted W h id authHeader configRow es.
Proof.
  unfold Router.getConfig, try_catch, bind, ret. intros E Hs.
  destruct (Router.guard W id authHeader h) as [[[refusal|configRow]|e] es0] eqn:Hg;
    cbn [app fst snd] in E; injection E as <- <-; rewrite ?app_nil_r.
  - exfalso. revert Hg Hs. unfold Router.guard, Router.getUser, Router.rowOf, Router.rowsOf.
    unfold_monad.
    repeat match goal with
           | |- context [match ?x with _ => _ end] =>
               lazymatch x with
               | context [match _ with _ => _ end] => fail
               | _ => destruct x eqn:?
               end; norm
           end; intros Hg; try discriminate; injection Hg as <- _; discriminate.
  - exists configRow. split; [reflexivity|]. now apply guard_allows.
  - discriminate.
Qed.

(** [getConfig_authorized] for the owner of the page. *)
Lemma getConfig_authorized_witness :
  exists configRow,
    Router.body (Router.mkResponse 200 (Router.BRow (Some Router.config_7)))
    = Router.BRow (Some configRow)
    /\ Router.admitted (Router.office (lit "alice@example.com")) [] (lit "7")
                       (Some (lit "Bearer token-of-alice")) configRow
                       [ Router.EGetUser (lit "token-of-alice");
                         Router.EConfig (lit "7");
                         Router.EPage (Json (JStr (lit "1001"))) ].
Proof.
  apply (getConfig_authorized (Router.office (lit "alice@example.com")) (lit "7")
           (Some (lit "Bearer token-of-alice")) []); reflexivity.
Defined.

Section Updates.

Import Router.

Lemma updatesOf_from (keys : list jsstring) (requestBody : Row) (k : jsstring) (v : json) :
  In (k, v) (flat_map (fun key => match obj_get key requestBody with
                                  | Some v => [(key, v)]
                                  | None => []
                                  end) keys)
  <-> In k keys /\ obj_get k requestBody = Some v.
Proof.
  rewrite in_flat_map. split.
  - intros (key & Hin & H). destruct (obj_get key requestBody) as [v'|] eqn:E; [|destruct H].
    destruct H as [H|[]]. injection H as <- <-. now split.
  - intros [Hin E]. exists k. split; [exact Hin|]. rewrite E. now left.
Qed.

Lemma updatesOf_keys (keys : list jsstring) (requestBody : Row) :
  NoDup keys ->
  NoDup (map fst (flat_map (fun key => match obj_get key requestBody with
                                       | Some v => [(key, v)]
                                       | None => []
                                       end) keys)).
Proof.
  induction 1 as [|k keys Hk Hnd IH]; cbn [flat_map map]; [constructor|].
  destruct (obj_get k requestBody) as [v|]; cbn [app map fst]; [|exact IH].
  constructor; [|exact IH]. intros H. apply in_map_iff in H as ([k' v'] & E & H).
  cbn [fst] in E. subst k'. apply updatesOf_from in H as [H _]. now apply Hk.
Qed.

End Updates.

(** X16.  [PUT /config/:id] writes at most once, last, and only for a caller who
    may: the row it changes is the one of the id that was checked, and the
    columns it sends are exactly the columns of the body that are on the
    list of eleven, each once, with the value of the body; no other
    column of the body reaches the database. *)
Theorem putConfig_writes_allowed_columns (W : Router.World) (id : jsstring)
        (authHeader : option jsstring) (requestBody : Router.Row)
        (h : list Router.Event) :
  let es := snd (Router.putConfig W id authHeader requestBody h) in
  (Forall (fun ev => Router.is_update ev = false) es
   \/ exists configRow pre,
        es = pre ++ [Router.EUpdate id (Router.updatesOf requestBody)]
        /\ Forall (fun ev => Router.is_update ev = false) pre
        /\ Router.admitted W h id authHeader configRow pre)
  /\ (forall k v,
         In (k, v) (Router.updatesOf requestBody)
         <-> In k Router.allowedKeys /\ obj_get k requestBody = Some v)
  /\ NoDup (map fst (Router.updatesOf requestBody)).
Proof.
  cbv zeta. split; [|split].
  - unfold Router.putConfig, try_catch, bind, ret, Router.rowOf, call.
    pose proof (guard_reads W id authHeader h) as Hr.
    destruct (Router.guard W id authHeader h) as [[[refusal|configRow]|e] es0] eqn:Hg;
      cbn [app fst snd] in *.
    + left. now rewrite app_nil_r.
    + right. exists configRow, es0. split.
      * destruct (Router.select_one W _) as [updated|e]; cbn [app fst snd];
          [destruct (Router.error updated)|]; cbn [app fst snd];
          now rewrite ?app_nil_r.
      * split; [exact Hr|]. now apply guard_allows.
    + left. now rewrite app_nil_r.
  - intros k v. apply updatesOf_from.
  - apply updatesOf_keys. unfold Router.allowedKeys.
    repeat (constructor; [intros H; cbn in H;
                          repeat (destruct H as [H|H]; [discriminate H|]); exact H|]).
    constructor.
Qed.

(** [putConfig_writes_allowed_columns] when the owner sends a prompt
    together with a column that is not on the list. *)
Lemma putConfig_writes_allowed_columns_witness :
  exists pre,
    snd (Router.putConfig (Router.office (lit "alice@example.com")) (lit "7")
           (Some (lit "Bearer token-of-alice"))
           [ (lit "page_id", JStr (lit "2002"));
             (lit "text_prompt", JStr (lit "Be kind.")) ]
           [])
    = pre ++ [Router.EUpdate (lit "7") [ (lit "text_prompt", JStr (lit "Be kind.")) ]].
Proof.
  destruct (proj1 (putConfig_writes_allowed_columns
                     (Router.office (lit "alice@example.com")) (lit "7")
                     (Some (lit "Bearer token-of-alice"))
                     [ (lit "page_id", JStr (lit "2002"));
                       (lit "text_prompt", JStr (lit "Be kind.")) ] []))
    as [H | (configRow & pre & E & _)].
  - exfalso. vm_compute in H.
    inversion H as [|? ? _ H1]; subst. inversion H1 as [|? ? _ H2]; subst.
    inversion H2 as [|? ? _ H3]; subst. inversion H3 as [|? ? H4 _]; subst.
    discriminate H4.
  - exists pre. exact E.
Defined.

(** X17.  A caller who is not identified reads no table.  Without an
    [Authorization] header the three routes answer 401 at once; with a
    header whose token names no user they answer 401 after the one call
    that checks the token. *)
Theorem routes_refuse_unidentified (W : Router.World) (id : jsstring)
        (authHeader : option jsstring) (requestBody : Router.Row)
        (h : list Router.Event) :
  (Engine.nonempty authHeader = None ->
   Router.getPages W authHeader h = (Ret (Router.refuse 401 (lit "Unauthorized")), [])
   /\ Router.getConfig W id authHeader h
      = (Ret (Router.refuse 401 (lit "Unauthorized")), [])
   /\ Router.putConfig W id authHeader requestBody h
      = (Ret (Router.refuse 401 (lit "Unauthorized")), []))
  /\ (forall header reply,
         Engine.nonempty authHeader = Some header ->
         Router.get_user W (h ++ [Router.EGetUser (Router.tokenOf header)]) = Ret reply ->
         Router.user reply = None ->
         Router.getPages W authHeader h
         = (Ret (Router.refuse 401 (lit "Unauthorized")),
            [Router.EGetUser (Router.tokenOf header)])
         /\ Router.getConfig W id authHeader h
            = (Ret (Router.refuse 401 (lit "Invalid token")),
               [Router.EGetUser (Router.tokenOf header)])
         /\ Router.putConfig W id authHeader requestBody h
            = (Ret (Router.refuse 401 (lit "Invalid token")),
               [Router.EGetUser (Router.tokenOf header)])).
Proof.
  split.
  - intros Hn.
    unfold Router.getPages, Router.getConfig, Router.putConfig, Router.guard.
    unfold_monad. rewrite Hn. repeat split; reflexivity.
  - intros header reply Hh Hu Hr.
    unfold Router.getPages, Router.getConfig, Router.putConfig, Router.guard,
      Router.getUser.
    unfold_monad. rewrite Hh, Hu, Hr. norm.
    destruct (Router.auth_error reply); repeat split; reflexivity.
Qed.

(** [routes_refuse_unidentified] on a request without a header. *)
Lemma routes_refuse_unidentified_witness :
  Router.putConfig (Router.office (lit "alice@example.com")) (lit "7") None
                   [ (lit "text_prompt", JStr (lit "Be kind.")) ] []
  = (Ret (Router.refuse 401 (lit "Unauthorized")), []).
Proof.
  apply (proj1 (routes_refuse_unidentified (Router.office (lit "alice@example.com"))
                  (lit "7") None [ (lit "text_prompt", JStr (lit "Be kind.")) ] [])
           eq_refl).
Defined.

Section Pages.

Import Router.

Lemma strict_eq_eq (a b : value) : strict_eq a b = true -> a = b.
Proof.
  destruct a as [|[| | | | |]|], b as [|[| | | | |]|]; cbn [strict_eq];
    try discriminate; try reflexivity; intros H.
  - apply Bool.eqb_prop in H. now subst.
  - apply eqb_eq in H. now subst.
  - apply eqb_eq in H. now subst.
Qed.

Lemma strict_eq_sym (a b : value) : strict_eq a b = strict_eq b a.
Proof.
  destruct a as [|[| | | | |]|], b as [|[| | | | |]|]; cbn [strict_eq];
    try reflexivity.
  - now destruct b0, b.
  - apply eqb_sym.
  - apply eqb_sym.
Qed.

Lemma map_set_keyed (r : Row) (m : list (value * Row)) :
  keyed m -> keyed (map_set (col r (lit "page_id")) r m).
Proof.
  unfold keyed. induction 1 as [|[k v] m Hk Hm IH]; cbn [map_set].
  - repeat constructor.
  - destruct (strict_eq (col r (lit "page_id")) k); constructor; auto.
Qed.

Lemma map_set_keys (k : value) (v : Row) (m : list (value * Row)) (x : value) :
  In x (map fst (map_set k v m)) <-> x = k \/ In x (map fst m).
Proof.
  induction m as [|[k' v'] m IH]; cbn [map_set map fst In].
  - intuition.
  - destruct (strict_eq k k') eqn:E; cbn [map fst In].
    + apply strict_eq_eq in E. subst k'. intuition.
    + rewrite IH. intuition.
Qed.

Lemma map_set_apart (k : value) (v : Row) (m : list (value * Row)) :
  apart m -> apart (map_set k v m).
Proof.
  unfold apart. induction 1 as [|[k' v'] m Hk Hm IH]; cbn [map_set].
  - repeat constructor.
  - destruct (strict_eq k k') eqn:E.
    + apply strict_eq_eq in E. subst k'. constructor; [exact Hk|exact Hm].
    + constructor; [|exact IH].
      apply Forall_forall. intros [k2 v2] Hin. cbn [fst].
      assert (In k2 (map fst (map_set k v m))) as Hk2
          by (apply in_map_iff; now exists (k2, v2)).
      apply map_set_keys in Hk2 as [->|Hk2].
      * now rewrite strict_eq_sym.
      * apply in_map_iff in Hk2 as ([k3 v3] & E3 & H3). cbn [fst] in E3. subst k3.
        rewrite Forall_forall in Hk. exact (Hk _ H3).
Qed.

Lemma map_set_values (k : value) (v : Row) (m : list (value * Row)) (x : Row) :
  In x (map snd (map_set k v m)) -> x = v \/ In x (map snd m).
Proof.
  induction m as [|[k' v'] m IH]; cbn [map_set map snd In].
  - intuition.
  - destruct (strict_eq k k'); cbn [map snd In]; intuition.
Qed.

Lemma fold_map_set (rows : list Row) (m : list (value * Row)) :
  keyed m -> apart m ->
  let m' := fold_left (fun m r => map_set (col r (lit "page_id")) r m) rows m in
  keyed m' /\ apart m'
  /\ (forall x, In x (map snd m') -> In x rows \/ In x (map snd m))
  /\ (forall p, In p rows -> In (col p (lit "page_id")) (map fst m'))
  /\ (forall k, In k (map fst m) -> In k (map fst m')).
Proof.
  revert m. induction rows as [|r rows IH]; intros m Hk Ha; cbn [fold_left].
  - repeat split; auto. intros p [].
  - destruct (IH _ (map_set_keyed r m Hk) (map_set_apart _ r m Ha))
      as (H1 & H2 & H3 & H4 & H5).
    repeat split; auto.
    + intros x Hx. destruct (H3 x Hx) as [H|H]; [left; now right|].
      apply map_set_values in H as [->|H]; [left; now left|now right].
    + intros p [<-|Hp]; [|now apply H4].
      apply H5. apply map_set_keys. now left.
    + intros k Hin. apply H5. apply map_set_keys. now right.
Qed.

(** The pages of a list, each once. *)
Lemma uniqueByPage_distinct (rows : list Row) :
  distinct_pages (uniqueByPage rows)
  /\ incl (uniqueByPage rows) rows
  /\ (forall p, In p rows ->
                exists r, In r (uniqueByPage rows)
                          /\ col r (lit "page_id") = col p (lit "page_id")).
Proof.
  unfold uniqueByPage, distinct_pages.
  destruct (fold_map_set rows [] (Forall_nil _) (FOP_nil _)) as (Hk & Ha & Hv & Hc & _).
  cbv zeta in *. unfold keyed, apart in *.
  set (m := fold_left _ rows []) in *.
  split; [|split].
  - clear Hv Hc. induction m as [|[k v] m IH]; cbn [map snd]; [constructor|].
    inversion Hk as [|? ? Hk1 Hk2]; subst. inversion Ha as [|? ? Ha1 Ha2]; subst.
    constructor; [|now apply IH].
    cbn [fst snd] in Hk1. rewrite <- Hk1.
    apply Forall_forall. intros x Hx. apply in_map_iff in Hx as ([k2 v2] & <- & Hin).
    rewrite Forall_forall in Ha1, Hk2. specialize (Ha1 _ Hin). specialize (Hk2 _ Hin).
    cbn [fst snd] in *. now rewrite <- Hk2.
  - intros x Hx. destruct (Hv x Hx) as [H|[]]. exact H.
  - intros p Hp. specialize (Hc p Hp). apply in_map_iff in Hc as ([k v] & E & Hin).
    cbn [fst] in E. subst k. exists v. split; [apply in_map_iff; now exists (col p (lit "page_id"), v)|].
    rewrite Forall_forall in Hk. symmetry. exact (Hk _ Hin).
Qed.

Lemma obj_get_set_same {V : Type} (k : jsstring) (v : V) (o : list (jsstring * V)) :
  obj_get k (obj_set k v o) = Some v.
Proof.
  induction o as [|[k0 v0] o IH]; cbn [obj_set obj_get].
  - now rewrite eqb_refl.
  - destruct (eqb k k0) eqn:E; cbn [obj_get]; rewrite ?eqb_refl, ?E; auto.
Qed.

Lemma enhance_flag (dbConfigs : list Row) (userEmail : value) (p : Row) :
  col (enhance dbConfigs userEmail p) (lit "is_shared")
  = Json (JBool (negb (strict_eq (col p (lit "email")) userEmail))).
Proof. unfold enhance, col, prop. now rewrite obj_get_set_same. Qed.

End Pages.

Section SharedPages.

Import Router.

Variable W : World.

(** Step 3 of [/pages] reads what the teams of the user share, or
    throws. *)
Lemma fetchSharedPages_cases (userEmail : value) (h : list Event) :
  (exists shared es,
      fetchSharedPages W userEmail h = (Ret shared, es)
      /\ shared_with W h userEmail shared es)
  \/ exists e es, fetchSharedPages W userEmail h = (Throw e, es).
Proof.
  unfold fetchSharedPages, rowsOf, shared_with. unfold_monad.
  fold (team_query userEmail).
  destruct (truthy userEmail) eqn:Ht; norm.
  2:{ left. exists [], []. split; [reflexivity|]. left. auto. }
  destruct (select_rows W (h ++ [team_query userEmail])) as [team|e] eqn:Hteam; norm.
  2:{ right. eexists. eexists. reflexivity. }
  destruct (flat_map sharedIds (rowsOrNone team)) as [|i ids] eqn:Hids; norm.
  - left. exists [], [team_query userEmail]. split; [reflexivity|].
    right. split; [reflexivity|]. exists team. split; [reflexivity|].
    cbv zeta. rewrite Hids. left. auto.
  - destruct (select_rows W (h ++ [team_query userEmail; EPagesIn (i :: ids)]))
      as [found|e] eqn:Hfound; norm.
    + left. exists (rowsOrNone found), [team_query userEmail; EPagesIn (i :: ids)].
      split; [reflexivity|]. right. split; [reflexivity|]. exists team.
      split; [reflexivity|]. cbv zeta. rewrite Hids. right.
      split; [discriminate|]. exists found. auto.
    + right. eexists. eexists. reflexivity.
Qed.

(** Step 5 of [/pages] reads the configurations of the pages, or
    throws. *)
Lemma fetchDbConfigs_cases (pages : list Row) (h : list Event) :
  (exists configs es,
      fetchDbConfigs W (map (fun p => col p (lit "page_id")) pages) h = (Ret configs, es)
      /\ configs_of W h pages configs es)
  \/ exists e es,
       fetchDbConfigs W (map (fun p => col p (lit "page_id")) pages) h = (Throw e, es).
Proof.
  unfold fetchDbConfigs, rowsOf, configs_of. unfold_monad. cbv zeta.
  destruct (map (fun p => col p (lit "page_id")) pages) as [|i ids] eqn:Hids.
  - left. exists [], []. split; [reflexivity|]. left. auto.
  - destruct (select_rows W (h ++ [EConfigsIn (i :: ids)])) as [found|e] eqn:Hf; norm.
    + left. exists (rowsOrNone found), [EConfigsIn (i :: ids)].
      split; [reflexivity|]. right. split; [discriminate|]. exists found. auto.
    + right. eexists. eexists. reflexivity.
Qed.

Lemma enhance_flags (configs : list Row) (userEmail : value) (pages : list Row) :
  Forall2 (fun p row =>
             col row (lit "is_shared")
             = Json (JBool (negb (strict_eq (col p (lit "email")) userEmail))))
          pages (map (enhance configs userEmail) pages).
Proof.
  induction pages as [|p l IH]; cbn [map]; constructor; [apply enhance_flag|exact IH].
Qed.

End SharedPages.

(** X18.  [GET /pages] lists each page once, and only pages of the user.
    When it answers 200, the token names a user with an id; the pages
    listed are the rows that the database returns as the user's own,
    followed by the rows that it returns for the page ids listed by the
    active teams of the user, with only the last row of each page id
    kept, at the place of the first; every own page is on the list; each
    row sent is the page merged with its configuration, and says
    [is_shared] exactly when the e-mail address of the page is not the
    user's.  The calls are the check of the token, the four queries at
    most, and nothing else. *)
Theorem getPages_lists_each_page_once (W : Router.World)
        (authHeader : option jsstring) (h es : list Router.Event)
        (resp : Router.Response) :
  Router.getPages W authHeader h = (Ret resp, es) ->
  Router.status resp = 200%Z ->
  exists header reply u mine shared configs es1 es2,
    Engine.nonempty authHeader = Some header
    /\ Router.get_user W (h ++ [Router.EGetUser (Router.tokenOf header)]) = Ret reply
    /\ Router.user reply = Some u
    /\ truthy (Router.user_id u) = true
    /\ let first := [Router.EGetUser (Router.tokenOf header);
                     Router.EOwnPages (Router.user_email u)] in
       let own := match Router.data mine with Some rows => rows | None => [] end in
       let pages := Router.uniqueByPage (own ++ shared) in
       Router.select_rows W (h ++ first) = Ret mine
       /\ Router.error mine = None
       /\ Router.shared_with W (h ++ first) (Router.user_email u) shared es1
       /\ Router.configs_of W (h ++ first ++ es1) pages configs es2
       /\ es = first ++ es1 ++ es2
       /\ Router.body resp
          = Router.BRows (map (Router.enhance configs (Router.user_email u)) pages)
       /\ Router.distinct_pages pages
       /\ incl pages (own ++ shared)
       /\ (forall p, In p own ->
                     exists r, In r pages
                               /\ Router.col r (lit "page_id")
                                  = Router.col p (lit "page_id"))
       /\ Forall2 (fun p row =>
                     Router.col row (lit "is_shared")
                     = Json (JBool (negb (Router.strict_eq
                                            (Router.col p (lit "email"))
                                            (Router.user_email u)))))
                  pages (map (Router.enhance configs (Router.user_email u)) pages).
Proof.
  unfold Router.getPages, Router.getUser, Router.rowsOf. unfold_monad.
  intros E Hs. revert E.
  destruct (Engine.nonempty authHeader) as [header|] eqn:Hh; norm.
  2:{ intros E. inversion E; subst. discriminate Hs. }
  destruct (Router.get_user W _) as [reply|e] eqn:Hu; norm.
  2:{ intros E. inversion E; subst. discriminate Hs. }
  destruct (Router.user reply) as [u|] eqn:Hr; norm.
  2:{ intros E. inversion E; subst. discriminate Hs. }
  destruct (truthy (Router.user_id u)) eqn:Hid; cbn [negb]; norm.
  2:{ intros E. inversion E; subst. discriminate Hs. }
  destruct (Router.select_rows W (h ++ [Router.EGetUser (Router.tokenOf header);
                                        Router.EOwnPages (Router.user_email u)]))
    as [mine|e] eqn:Hm; norm.
  2:{ intros E. inversion E; subst. discriminate Hs. }
  destruct (Router.error mine) eqn:He; norm.
  1:{ intros E. inversion E; subst. discriminate Hs. }
  destruct (fetchSharedPages_cases W (Router.user_email u)
              (h ++ [Router.EGetUser (Router.tokenOf header);
                     Router.EOwnPages (Router.user_email u)]))
    as [(shared & es1 & -> & Hshared)|(e & es1 & ->)]; norm.
  2:{ intros E. inversion E; subst. discriminate Hs. }
  set (own := match Router.data mine with Some rows => rows | None => [] end) in *.
  destruct (fetchDbConfigs_cases W (Router.uniqueByPage (own ++ shared))
              (h ++ Router.EGetUser (Router.tokenOf header)
                 :: Router.EOwnPages (Router.user_email u) :: es1))
    as [(configs & es2 & -> & Hconfigs)|(e & es2 & ->)]; norm.
  2:{ intros E. inversion E; subst. discriminate Hs. }
  intros E. injection E as <- <-.
  destruct (uniqueByPage_distinct (own ++ shared)) as (H1 & H2 & H3).
  exists header, reply, u, mine, shared, configs, es1, es2.
  split; [reflexivity|]. split; [exact Hu|]. split; [exact Hr|]. split; [exact Hid|].
  cbv zeta. fold own. cbn [app].
  split; [exact Hm|]. split; [exact He|]. split; [exact Hshared|].
  split; [exact Hconfigs|]. split; [reflexivity|]. split; [reflexivity|].
  split; [exact H1|]. split; [exact H2|]. split.
  - intros p Hp. apply H3. apply in_or_app. now left.
  - apply enhance_flags.
Qed.

(** [getPages_lists_each_page_once] for a user who owns one page and is
    given two by a team, one of them her own. *)
Lemma getPages_lists_each_page_once_witness :
  exists rows,
    Router.getPages Router.directory (Some (lit "Bearer token-of-alice")) []
    = (Ret (Router.mkResponse 200 (Router.BRows rows)),
       [ Router.EGetUser (lit "token-of-alice");
         Router.EOwnPages (Router.user_email Router.alice);
         Router.team_query (Router.user_email Router.alice);
         Router.EPagesIn [lit "1001"; lit "2002"];
         Router.EConfigsIn [Json (JStr (lit "1001")); Json (JStr (lit "2002"))] ])
    /\ map (fun row => Router.col row (lit "page_id")) rows
       = [Json (JStr (lit "1001")); Json (JStr (lit "2002"))]
    /\ map (fun row => Router.col row (lit "is_shared")) rows
       = [Json (JBool false); Json (JBool true)].
Proof.
  destruct (getPages_lists_each_page_once Router.directory
              (Some (lit "Bearer token-of-alice")) []
              (snd (Router.getPages Router.directory
                      (Some (lit "Bearer token-of-alice")) []))
              (match fst (Router.getPages Router.directory
                            (Some (lit "Bearer token-of-alice")) []) with
               | Ret resp => resp
               | Throw _ => Router.refuse 500 []
               end) eq_refl eq_refl)
    as (header & reply & u & mine & shared & configs & es1 & es2 & _).
  eexists. split; [vm_compute; reflexivity|]. split; reflexivity.
Defined.


(* ================================================================== *)
(** * Facts about the audio chain *)
(* ================================================================== *)

Section AudioChain.

Import Audio.

Variable W : World.

Lemma audioMime_supported (contentType : jsstring) : In (audioMime contentType) supported.
Proof.
  unfold audioMime, supported.
  repeat match goal with |- context [if ?b then _ else _] => destruct b end;
    cbn [In]; tauto.
Qed.

(** A Google option asks for a key and, with one, makes one request to
    the Gemini endpoint of its model. *)
Lemma tryOption_google (m : jsstring) (audio : list N) (mimeType : jsstring)
      (h : list Event) :
  exists r es,
    tryOption W (mkOption (lit "google") m) audio mimeType h = (Ret r, es)
    /\ (es = [EGetSmartKey (lit "google") m]
        \/ exists k, es = [EGetSmartKey (lit "google") m;
                           EPostGemini (google_models ++ m
                                        ++ lit ":generateContent?key=" ++ k)
                                       mimeType audio])
    /\ (forall t n, r = Some (Transcribed t n) ->
                    exists k a text,
                      es = [EGetSmartKey (lit "google") m;
                            EPostGemini (google_models ++ m
                                         ++ lit ":generateContent?key=" ++ k)
                                        mimeType audio]
                      /\ post_gemini W (h ++ es) = Ret a
                      /\ Engine.nonempty (answer_text a) = Some text
                      /\ t = trim text
                      /\ n = match answer_tokens a with Some n => n | None => 0%Z end)
    /\ (forall s, r <> Some (Text s)).
Proof.
  unfold tryOption, getSmartKey, try_catch, bind, call, ret.
  cbn [provider model]. change (eqb (lit "google") (lit "openrouter")) with false.
  change (eqb (lit "google") (lit "google")) with true. cbn [andb orb].
  destruct (smart_key W _) as [kd|e]; cbn [app fst snd].
  2:{ eexists. eexists. split; [reflexivity|]. split; [now left|].
      split; intros; discriminate. }
  destruct (key_of kd) as [k|]; cbn [app fst snd].
  2:{ eexists. eexists. split; [reflexivity|]. split; [now left|].
      split; intros; discriminate. }
  change (lit "https://generativelanguage.googleapis.com/v1beta" ++ lit "/models/"
          ++ m ++ lit ":generateContent?key=" ++ k)
    with (google_models ++ m ++ lit ":generateContent?key=" ++ k).
  destruct (post_gemini W _) as [a|e] eqn:Hp; cbn [app fst snd].
  2:{ eexists. eexists. split; [reflexivity|]. split; [right; now exists k|].
      split; intros; discriminate. }
  destruct (Engine.nonempty (answer_text a)) as [text|] eqn:Ht; cbn [app fst snd].
  - eexists. eexists. split; [reflexivity|]. split; [right; now exists k|].
    split; [|intros; discriminate].
    intros t n E. injection E as <- <-. exists k, a, text.
    rewrite <- app_assoc in Hp. cbn [app] in Hp. repeat split; auto.
  - eexists. eexists. split; [reflexivity|]. split; [right; now exists k|].
    split; intros; discriminate.
Qed.

(** The OpenRouter option never transcribes: at most it asks for a key. *)
Lemma tryOption_openrouter (m : jsstring) (audio : list N) (mimeType : jsstring)
      (h : list Event) :
  exists es,
    tryOption W (mkOption (lit "openrouter") m) audio mimeType h = (Ret None, es)
    /\ (es = [] \/ es = [EGetSmartKey (lit "openrouter") m]).
Proof.
  unfold tryOption, getSmartKey, try_catch, bind, call, ret.
  cbn [provider model]. change (eqb (lit "openrouter") (lit "openrouter")) with true.
  change (eqb (lit "openrouter") (lit "google")) with false. cbn [andb orb].
  destruct (negb (includes m (lit "gemini")) && negb (includes m (lit "claude")));
    cbn [app fst snd].
  - eexists. split; [reflexivity|now left].
  - destruct (smart_key W _) as [kd|e]; cbn [app fst snd].
    2:{ eexists. split; [reflexivity|now right]. }
    destruct (key_of kd) as [k|]; cbn [app fst snd].
    2:{ eexists. split; [reflexivity|now right]. }
    destruct (includes m (lit "google/gemini")); cbn [app fst snd];
      eexists; (split; [reflexivity|now right]).
Qed.

(** The fallback to Groq: at most one request, no usage. *)
Lemma whisper_cases (audio : list N) (mimeType : jsstring) (h : list Event) :
  exists r es,
    whisper W audio mimeType h = (Ret r, es)
    /\ (es = [EGetSmartKey (lit "groq") (lit "whisper-large-v3")]
        \/ exists k, es = [EGetSmartKey (lit "groq") (lit "whisper-large-v3");
                           EPostGroq k (lit "audio." ++ extension mimeType)
                                     mimeType audio])
    /\ (forall res, r = Some res -> exists t, res = Transcribed t 0).
Proof.
  unfold whisper, getSmartKey, try_catch, bind, call, ret.
  destruct (smart_key W _) as [kd|e]; cbn [app fst snd].
  2:{ eexists. eexists. split; [reflexivity|]. split; [now left|]. intros; discriminate. }
  destruct (key_of kd) as [k|]; cbn [app fst snd].
  2:{ eexists. eexists. split; [reflexivity|]. split; [now left|].
      intros res E. injection E as <-. eauto. }
  destruct (post_groq W _) as [text|e]; cbn [app fst snd].
  2:{ eexists. eexists. split; [reflexivity|]. split; [right; now exists k|].
      intros; discriminate. }
  destruct (Engine.nonempty text) as [t|]; cbn [app fst snd];
    eexists; eexists; (split; [reflexivity|]); (split; [right; now exists k|]);
    intros res E; [injection E as <-; eauto|discriminate].
Qed.

Lemma known_google (m k mimeType : jsstring) (audio : list N) :
  m = lit "gemini-2.5-flash" \/ m = lit "gemini-2.5-flash-lite" ->
  In mimeType supported ->
  known_request (EPostGemini (google_models ++ m ++ lit ":generateContent?key=" ++ k)
                             mimeType audio).
Proof.
  intros Hm Hs. unfold known_request. split; [|exact Hs]. exists k.
  destruct Hm as [-> | ->]; [now left|now right].
Qed.

(** The three options and the fallback, for a supported MIME type. *)
Lemma chain_cases (audio : list N) (mimeType : jsstring) (h : list Event) :
  In mimeType supported ->
  let run := transcribeFrom W audio mimeType h in
  exists r,
    fst run = Ret r
    /\ Forall known_request (snd run)
    /\ length (filter is_post (snd run)) <= 3
    /\ (forall s, r <> Text s)
    /\ (forall t n, r = Transcribed t n -> n <> 0%Z ->
                    exists a text,
                      post_gemini W (h ++ snd run) = Ret a
                      /\ Engine.nonempty (answer_text a) = Some text
                      /\ t = trim text /\ answer_tokens a = Some n).
Proof.
  intros Hs. cbv zeta. unfold transcribeFrom, priorityChain. cbn [tryOptions]. unfold bind.
  assert (forall m (es : list Event),
             m = lit "gemini-2.5-flash" \/ m = lit "gemini-2.5-flash-lite" ->
             (es = [EGetSmartKey (lit "google") m]
              \/ exists k, es = [EGetSmartKey (lit "google") m;
                                 EPostGemini (google_models ++ m
                                              ++ lit ":generateContent?key=" ++ k)
                                             mimeType audio]) ->
             Forall known_request es /\ length (filter is_post es) <= 1) as Hgoogle.
  { intros m es Hm [-> | [k ->]]; (split; [|cbn; lia]).
    - repeat constructor.
    - constructor; [exact I|]. constructor; [now apply known_google|constructor]. }
  assert (forall n a,
             n = match answer_tokens a with Some n => n | None => 0%Z end ->
             n <> 0%Z -> answer_tokens a = Some n) as Husage.
  { intros n a -> Hn. destruct (answer_tokens a); congruence. }
  (* the first option *)
  destruct (tryOption_google (lit "gemini-2.5-flash") audio mimeType h)
    as (r1 & es1 & -> & Hes1 & Hr1 & Ht1).
  destruct (Hgoogle _ es1 (or_introl eq_refl) Hes1) as [K1 L1].
  destruct r1 as [[s|t n]|]; [exfalso; now apply (Ht1 s)| |].
  { unfold ret. cbn [fst snd]. rewrite !app_nil_r. exists (Transcribed t n).
    split; [reflexivity|]. split; [exact K1|]. split; [lia|].
    split; [discriminate|]. intros t' n' E Hn. injection E as <- <-.
    destruct (Hr1 t n eq_refl) as (k & a & text & _ & Hp & Hx & -> & Hu).
    exists a, text. repeat split; auto; now apply Husage. }
  (* the second option *)
  destruct (tryOption_google (lit "gemini-2.5-flash-lite") audio mimeType (h ++ es1))
    as (r2 & es2 & -> & Hes2 & Hr2 & Ht2).
  destruct (Hgoogle _ es2 (or_intror eq_refl) Hes2) as [K2 L2].
  destruct r2 as [[s|t n]|]; [exfalso; now apply (Ht2 s)| |].
  { unfold ret. cbn [fst snd]. rewrite !app_nil_r. exists (Transcribed t n).
    split; [reflexivity|]. split; [now apply Forall_app|].
    split; [rewrite filter_app, length_app; lia|].
    split; [discriminate|]. intros t' n' E Hn. injection E as <- <-.
    destruct (Hr2 t n eq_refl) as (k & a & text & _ & Hp & Hx & -> & Hu).
    exists a, text. rewrite app_assoc. repeat split; auto; now apply Husage. }
  (* the third option *)
  destruct (tryOption_openrouter (best_free_voice W) audio mimeType ((h ++ es1) ++ es2))
    as (es3 & -> & Hes3).
  assert (Forall known_request es3 /\ length (filter is_post es3) = 0) as [K3 L3].
  { destruct Hes3 as [-> | ->]; split; repeat constructor. }
  unfold ret. cbn [fst snd]. rewrite !app_nil_r.
  (* the fallback *)
  destruct (whisper_cases audio mimeType (h ++ es1 ++ es2 ++ es3))
    as (r4 & es4 & -> & Hes4 & Hr4).
  assert (Forall known_request es4 /\ length (filter is_post es4) <= 1) as [K4 L4].
  { destruct Hes4 as [-> | [k ->]]; (split; [|cbn; lia]).
    - repeat constructor.
    - constructor; [exact I|]. constructor; [|constructor]. split; [exact Hs|reflexivity]. }
  assert (Forall known_request (es1 ++ es2 ++ es3 ++ es4)) as K
      by (repeat (apply Forall_app; split); assumption).
  assert (length (filter is_post (es1 ++ es2 ++ es3 ++ es4)) <= 3) as L
      by (rewrite !filter_app, !length_app; lia).
  destruct r4 as [res|]; cbn [fst snd]; rewrite ?app_nil_r, <- ?app_assoc.
  - destruct (Hr4 res eq_refl) as [t ->]. exists (Transcribed t 0).
    split; [reflexivity|]. split; [exact K|]. split; [exact L|].
    split; [discriminate|]. intros t' n' E Hn. injection E as _ <-. congruence.
  - eexists. split; [reflexivity|]. split; [exact K|]. split; [exact L|].
    split; [discriminate|]. intros t' n' E Hn. injection E as _ <-. congruence.
Qed.

End AudioChain.

Section AudioFetch.

Import Audio.

Variable W : World.
Variable token : option jsstring.

(** What the download step leaves: the audio with a supported type after
    the download and a debug line, or a failure after the download
    alone. *)
Lemma fetch_cases (audioUrl : jsstring) (h : list Event) :
  exists auth,
    (exists audio mimeType line,
        fetch W token audioUrl h
        = (Ret (audio, mimeType), [EDownload audioUrl auth; ELogDebug line])
        /\ In mimeType supported)
    \/ (exists e, fetch W token audioUrl h = (Throw e, [EDownload audioUrl auth])).
Proof.
  unfold fetch, bind, call, logDebug, ret.
  match goal with |- context [EDownload audioUrl ?a] => exists a end.
  destruct (download W _) as [d|e]; cbn [app fst snd].
  - left. eexists. eexists. eexists. split; [reflexivity|apply audioMime_supported].
  - right. now exists e.
Qed.

End AudioFetch.

(** X19.  The audio chain never raises to the caller, and the only bare string
    it returns is the one of a failed download: when the download throws,
    nothing else is attempted -- no key is asked for, no request made --
    and the result is [[Audio Download Failed]]. *)
Theorem transcribeAudio_never_raises (W : Audio.World) (token : option jsstring)
        (audioUrl : jsstring) (h : list Audio.Event) :
  (exists r, fst (Audio.transcribeAudio W token audioUrl h) = Ret r)
  /\ (forall e es,
         Audio.fetch W token audioUrl h = (Throw e, es) ->
         Audio.transcribeAudio W token audioUrl h
         = (Ret (Audio.Text (lit "[Audio Download Failed]")), es)
         /\ exists auth, es = [Audio.EDownload audioUrl auth])
  /\ (forall s,
         fst (Audio.transcribeAudio W token audioUrl h) = Ret (Audio.Text s) ->
         s = lit "[Audio Download Failed]"
         /\ exists e es, Audio.fetch W token audioUrl h = (Throw e, es)).
Proof.
  unfold Audio.transcribeAudio, try_catch, bind.
  destruct (fetch_cases W token audioUrl h)
    as (auth & [(audio & mimeType & line & E & Hs) | (e & E)]); rewrite E;
    unfold ret; cbn [app fst snd].
  - destruct (chain_cases W audio mimeType
                (h ++ [Audio.EDownload audioUrl auth; Audio.ELogDebug line])
                Hs) as (r & Hr & _ & _ & Ht & _).
    cbv zeta in Hr.
    destruct (Audio.transcribeFrom W audio mimeType _) as [o es'].
    cbn [fst snd] in *. subst o. split; [now exists r|]. split.
    + intros e es H. discriminate.
    + intros s H. injection H as ->. exfalso. now apply (Ht s).
  - split; [eexists; reflexivity|]. split.
    + intros e' es H. injection H as <- <-. split; [reflexivity|now exists auth].
    + intros s H. injection H as <-. split; [reflexivity|].
      now exists e, [Audio.EDownload audioUrl auth].
Qed.

(** [transcribeAudio_never_raises] when the audio is gone. *)
Lemma transcribeAudio_never_raises_witness :
  Audio.transcribeAudio Audio.offline None (lit "https://cdn.example/a.ogg") []
  = (Ret (Audio.Text (lit "[Audio Download Failed]")),
     [Audio.EDownload (lit "https://cdn.example/a.ogg") Audio.NoAuth]).
Proof.
  apply (proj1 (proj2 (transcribeAudio_never_raises Audio.offline None
                         (lit "https://cdn.example/a.ogg") []))
           (PlainError (lit "Request failed with status code 404"))).
  reflexivity.
Defined.

(** X20.  Where the audio goes.  After the download, every request of the chain
    is one to the Gemini endpoint of Google, for [gemini-2.5-flash] or
    [gemini-2.5-flash-lite], or the one to the speech-to-text endpoint of
    Groq; the free model of OpenRouter is never asked to transcribe.  The
    audio is announced under one of four MIME types, the file sent to Groq
    is named after it, at most three requests are made, and a usage other
    than 0 is only ever the token count of a Gemini answer, whose text is
    returned trimmed. *)
Theorem transcribeAudio_requests (W : Audio.World) (token : option jsstring)
        (audioUrl : jsstring) (h : list Audio.Event) :
  let calls := snd (Audio.transcribeAudio W token audioUrl h) in
  Forall Audio.known_request calls
  /\ length (filter Audio.is_post calls) <= 3
  /\ (forall t n,
         fst (Audio.transcribeAudio W token audioUrl h) = Ret (Audio.Transcribed t n) ->
         n <> 0%Z ->
         exists a text,
           Audio.post_gemini W (h ++ calls) = Ret a
           /\ Engine.nonempty (Audio.answer_text a) = Some text
           /\ t = trim text /\ Audio.answer_tokens a = Some n).
Proof.
  cbv zeta. unfold Audio.transcribeAudio, try_catch, bind.
  destruct (fetch_cases W token audioUrl h)
    as (auth & [(audio & mimeType & line & E & Hs) | (e & E)]); rewrite E;
    unfold ret; cbn [app fst snd].
  - destruct (chain_cases W audio mimeType
                (h ++ [Audio.EDownload audioUrl auth; Audio.ELogDebug line])
                Hs) as (r & Hr & Hk & Hl & _ & Hu).
    cbv zeta in Hr, Hk, Hl, Hu.
    destruct (Audio.transcribeFrom W audio mimeType _) as [o es'].
    cbn [fst snd app] in *. subst o. split; [|split].
    + repeat (constructor; [exact I|]). exact Hk.
    + exact Hl.
    + intros t n H Hn. injection H as ->.
      destruct (Hu t n eq_refl Hn) as (a & text & Hp & Hx).
      exists a, text. split; [|exact Hx]. rewrite <- Hp. f_equal.
      rewrite <- !app_assoc. reflexivity.
  - split; [|split].
    + repeat constructor.
    + cbn. lia.
    + intros t n H. discriminate.
Qed.

(** [transcribeAudio_requests] when Gemini is silent and Groq answers. *)
Lemma transcribeAudio_requests_witness :
  Forall Audio.known_request
         [ Audio.EDownload (lit "https://cdn.example/a.mp3") Audio.NoAuth;
           Audio.ELogDebug (lit "[Audio] Downloaded. Size: 3, Type: audio/mp3");
           Audio.EGetSmartKey (lit "google") (lit "gemini-2.5-flash");
           Audio.EPostGemini
             (Audio.google_models ++ lit "gemini-2.5-flash:generateContent?key=key-1")
             (lit "audio/mp3") [73; 68; 51]%N;
           Audio.EGetSmartKey (lit "google") (lit "gemini-2.5-flash-lite");
           Audio.EPostGemini
             (Audio.google_models ++ lit "gemini-2.5-flash-lite:generateContent?key=key-1")
             (lit "audio/mp3") [73; 68; 51]%N;
           Audio.EGetSmartKey (lit "openrouter") (lit "google/gemini-2.0-flash-exp:free");
           Audio.EGetSmartKey (lit "groq") (lit "whisper-large-v3");
           Audio.EPostGroq (lit "key-1") (lit "audio.mp3") (lit "audio/mp3")
                           [73; 68; 51]%N ].
Proof.
  exact (proj1 (transcribeAudio_requests Audio.studio None
                  (lit "https://cdn.example/a.mp3") [])).
Defined.

(* ================================================================== *)
(** * The picture of a link *)
(* ================================================================== *)

Section Picture.

Import OgImage.

Lemma span_parts (f : N -> bool) (s a b : jsstring) :
  span f s = (a, b) ->
  s = a ++ b /\ Forall (fun c => f c = true) a /\
  match b with [] => True | q :: _ => f q = false end.
Proof.
  revert a b. induction s as [|c s IH]; intros a b E; cbn [span] in E.
  - inversion E; subst. repeat split. constructor.
  - destruct (f c) eqn:Hc.
    + destruct (span f s) as [a' b'] eqn:Es. inversion E; subst.
      destruct (IH a' b eq_refl) as (-> & Ha & Hb).
      split; [reflexivity|]. split; [now constructor|exact Hb].
    + inversion E; subst. split; [reflexivity|]. split; [constructor|exact Hc].
Qed.

Lemma skipn_parts (n : nat) (s : jsstring) (q : N) (t : jsstring) :
  skipn n s = q :: t -> s = firstn n s ++ q :: t.
Proof. intros E. rewrite <- E. symmetry. apply firstn_skipn. Qed.

Lemma tag_at_quoted (a b c s g : jsstring) :
  tag_at a b c s = Some g -> quoted_in s g.
Proof.
  unfold tag_at.
  destruct (matchesAt true s a); [|discriminate].
  destruct (skipn (length a) s) as [|q1 s1] eqn:E1; [discriminate|].
  destruct (is_quote q1 && matchesAt true s1 b); [|discriminate].
  destruct (skipn (length b) s1) as [|q2 s2] eqn:E2; [discriminate|].
  destruct (is_quote q2 && matchesAt true s2 c); [|discriminate].
  destruct (skipn (length c) s2) as [|q3 s3] eqn:E3; [discriminate|].
  destruct (is_quote q3); [|discriminate].
  destruct (span (fun x => negb (is_quote x)) s3) as [[|x group] [|q4 post]] eqn:Es;
    try discriminate.
  intros G. inversion G; subst g.
  apply span_parts in Es as (Hs & Hg & Hq).
  apply skipn_parts in E1, E2, E3.
  exists (firstn (length a) s ++ q1 :: firstn (length b) s1 ++ q2 :: firstn (length c) s2 ++ [q3]),
    q4, post.
  split.
  { rewrite E1 at 1. rewrite E2 at 1. rewrite E3 at 1. rewrite Hs.
    rewrite <- !app_assoc. cbn [app]. rewrite <- !app_assoc. cbn [app].
    rewrite <- !app_assoc. reflexivity. }
  split; [now apply negb_false_iff|].
  split; [discriminate|].
  eapply Forall_impl; [|exact Hg]. intros y Hy. now apply negb_true_iff.
Qed.

Lemma tag_quoted (a b c s g : jsstring) :
  tag a b c s = Some g -> quoted_in s g.
Proof.
  induction s as [|d s IH]; cbn [tag].
  - destruct (tag_at a b c []) eqn:E; [|discriminate].
    intros G. inversion G; subst. now apply tag_at_quoted in E.
  - destruct (tag_at a b c (d :: s)) eqn:E.
    + intros G. inversion G; subst. now apply tag_at_quoted in E.
    + intros G. destruct (IH G) as (pre & q & post & -> & Hq & Hn & Hf).
      exists (d :: pre), q, post. repeat split; assumption.
Qed.

End Picture.

(** X21.  [fetchOgImage] makes one request and never throws.  What it returns
    is a piece of the page: not empty, without a quote, closed by a quote.
    A picture named by an Open Graph tag is preferred to the one of a
    Twitter tag, and that one to an [image_src] link; an answer that is
    no text, or a request that fails, gives [null]. *)
Theorem fetchOgImage_picture (W : OgImage.World) (url : jsstring) (h : list OgImage.Event) :
  exists r,
    OgImage.fetchOgImage W url h = (Ret r, [OgImage.EGet url]) /\
    match OgImage.get W (h ++ [OgImage.EGet url]) with
    | Throw _ => r = None
    | Ret None => r = None
    | Ret (Some html) =>
        (forall u, r = Some u -> OgImage.quoted_in html u) /\
        r = match OgImage.og_image html with
            | Some u => Some u
            | None =>
                match OgImage.twitter_image html with
                | Some u => Some u
                | None => OgImage.image_src html
                end
            end
    end.
Proof.
  unfold OgImage.fetchOgImage, try_catch, bind, call, ret.
  destruct (OgImage.get W (h ++ [OgImage.EGet url])) as [[html|]|e].
  - destruct (OgImage.og_image html) as [u|] eqn:E1.
    + eexists. split; [reflexivity|]. split; [|reflexivity].
      intros v Hv. inversion Hv; subst. exact (tag_quoted _ _ _ _ _ E1).
    + destruct (OgImage.twitter_image html) as [u|] eqn:E2.
      * eexists. split; [reflexivity|]. split; [|reflexivity].
        intros v Hv. inversion Hv; subst. exact (tag_quoted _ _ _ _ _ E2).
      * destruct (OgImage.image_src html) as [u|] eqn:E3.
        -- eexists. split; [reflexivity|]. split; [|reflexivity].
           intros v Hv. inversion Hv; subst. exact (tag_quoted _ _ _ _ _ E3).
        -- eexists. split; [reflexivity|]. split; [|reflexivity]. discriminate.
  - eexists. split; [reflexivity|]. reflexivity.
  - eexists. split; [reflexivity|]. reflexivity.
Qed.

(** [fetchOgImage_picture] on a page that names a picture for Twitter
    before the one for Open Graph. *)
Lemma fetchOgImage_picture_witness :
  exists r,
    OgImage.fetchOgImage (OgImage.site OgImage.two_pictures)
                         (lit "https://shop.example/p/1") []
    = (Ret r, [OgImage.EGet (lit "https://shop.example/p/1")])
    /\ r = Some (lit "https://cdn.example/og.png").
Proof.
  destruct (fetchOgImage_picture (OgImage.site OgImage.two_pictures)
              (lit "https://shop.example/p/1") []) as (r & Hr & H).
  exists r. split; [exact Hr|].
  cbv beta iota delta [OgImage.site OgImage.get] in H.
  destruct H as [_ H]. rewrite H. vm_compute. reflexivity.
Defined.

(* ================================================================== *)
(** * The choice of the free models *)
(* ================================================================== *)

Section FreeModels.

Import Optimizer.

Lemma isFree_free (all : list Model) (m : Model) :
  In m all -> isFree m = Ret true -> free_id all (id_of m).
Proof.
  intros Hin. unfold isFree, id_of.
  destruct (pricing m) as [p|] eqn:Hp; [|discriminate].
  destruct (is_zero (prompt p) && is_zero (completion p)) eqn:Hz; [|discriminate].
  apply andb_true_iff in Hz as [Hz1 Hz2].
  destruct (id m) as [s|] eqn:Hi; [|discriminate].
  intros E. inversion E as [Hg]. apply negb_true_iff in Hg.
  exists m, p, s. repeat split; assumption.
Qed.

Lemma freeOf_free (all l filtered : list Model) :
  incl l all -> freeOf l = Ret filtered ->
  Forall (fun m => free_id all (id_of m)) filtered.
Proof.
  revert filtered. induction l as [|m l IH]; intros filtered Hin; cbn [freeOf].
  - intros E. inversion E; subst. constructor.
  - destruct (isFree m) as [keep|e] eqn:Hm; [|discriminate].
    destruct (freeOf l) as [ms|e] eqn:Hl; [|discriminate].
    intros E. inversion E; subst.
    assert (Forall (fun m => free_id all (id_of m)) ms) as Hms.
    { apply IH; [|reflexivity]. intros x Hx. apply Hin. now right. }
    destruct keep; [|exact Hms].
    constructor; [|exact Hms]. apply isFree_free; [|exact Hm]. apply Hin. now left.
Qed.

Lemma insert_In (m x : Model) (l : list Model) :
  In x (insert m l) -> x = m \/ In x l.
Proof.
  induction l as [|y l IH]; cbn [insert].
  - intros [->|[]]. now left.
  - destruct (context m <? context y)%Z.
    + intros [->|H]; [right; now left|]. destruct (IH H) as [->|H']; [now left|].
      right. now right.
    + intros [->|H]; [now left|now right].
Qed.

Lemma sort_In (x : Model) (l : list Model) : In x (sort l) -> In x l.
Proof.
  induction l as [|m l IH]; cbn [sort fold_right]; [tauto|].
  intros H. apply insert_In in H as [->|H]; [now left|]. right. now apply IH.
Qed.

Lemma insert_cons (m : Model) (l : list Model) : insert m l <> [].
Proof. destruct l as [|y l]; cbn [insert]; [discriminate|]. now destruct (_ <? _)%Z. Qed.

Lemma ruleBased_free (all freeModels : list Model) :
  Forall (fun m => free_id all (id_of m)) freeModels -> freeModels <> [] ->
  exists best, ruleBased freeModels = Ret best /\
    free_id all (text best) /\ free_id all (vision best) /\ free_id all (voice best).
Proof.
  intros Hall Hne. rewrite Forall_forall in Hall.
  destruct freeModels as [|first rest]; [congruence|].
  assert (forall f, match find f (first :: rest) with Some m => Some m
                    | None => hd_error (first :: rest) end
                    = Some match find f (first :: rest) with Some m => m | None => first end)
    as Hor by (intros f; now destruct (find f (first :: rest))).
  assert (forall f, In match find f (first :: rest) with Some m => m | None => first end
                       (first :: rest)) as Hin.
  { intros f. destruct (find f (first :: rest)) as [m|] eqn:E; [|now left].
    now apply find_some in E. }
  unfold ruleBased. rewrite !Hor.
  destruct (find (fun m => has "flash" m && has "gemini" m) (first :: rest)) as [o|] eqn:Eo.
  - eexists. split; [reflexivity|]. cbn [text vision voice].
    split; [apply Hall, Hin|]. split; [apply Hall, Hin|].
    apply Hall. now apply find_some in Eo.
  - eexists. split; [reflexivity|]. cbn [text vision voice].
    split; [apply Hall, Hin|]. split; apply Hall, Hin.
Qed.

Lemma gemini_answers_one (W : World) (h : list Event) (freeModels : list Model)
      (k1 k2 a1 a2 : jsstring) :
  gemini_answers W h freeModels k1 a1 -> gemini_answers W h freeModels k2 a2 ->
  k1 = k2 /\ a1 = a2.
Proof.
  intros (d1 & Hs1 & Hk1 & Ha1) (d2 & Hs2 & Hk2 & Ha2).
  assert (d1 = d2) by congruence. subst d2.
  assert (k1 = k2) by congruence. subst k2.
  split; [reflexivity|congruence].
Qed.

Lemma names_three_one (answer : jsstring) (b1 b2 : Best) :
  names_three answer b1 -> names_three answer b2 -> b1 = b2.
Proof.
  intros (r1 & Hp1 & -> & _) (r2 & Hp2 & -> & _).
  assert (r1 = r2) by congruence. now subst.
Qed.

(** The choice by Gemini either returns the three fields of the answer
    that the world gave, or throws, and then no such answer was given. *)
Lemma askGemini_cases (W : World) (freeModels : list Model) (h : list Event) :
  (exists best es,
      askGemini W (map candidate freeModels) h = (Ret best, es)
      /\ chosen_by_gemini W h freeModels es best)
  \/ (exists e es,
         askGemini W (map candidate freeModels) h = (Throw e, es)
         /\ (forall apiKey answer,
                gemini_answers W h freeModels apiKey answer ->
                forall b, ~ names_three answer b)
         /\ (es = [key_request]
             \/ exists apiKey, es = [key_request; choice_request apiKey freeModels])).
Proof.
  unfold askGemini. unfold_monad. fold key_request.
  destruct (smart_key W (h ++ [key_request])) as [keyData|e] eqn:Hs; norm.
  2:{ right. eexists. eexists. split; [reflexivity|]. split; [|now left].
      intros k a (d & Hd & _). congruence. }
  destruct (key_of keyData) as [apiKey|] eqn:Hk; norm.
  2:{ right. eexists. eexists. split; [reflexivity|]. split; [|now left].
      intros k a (d & Hd & Hk' & _). congruence. }
  fold (choice_request apiKey freeModels).
  assert (forall k a, gemini_answers W h freeModels k a ->
                      ask W (h ++ [key_request; choice_request apiKey freeModels])
                      = Ret (Some a)) as Hsame.
  { intros k a (d & Hd & Hk' & Ha).
    assert (d = keyData) by congruence. subst d.
    assert (k = apiKey) by congruence. now subst k. }
  destruct (ask W (h ++ [key_request; choice_request apiKey freeModels]))
    as [[answer|]|e] eqn:Ha; norm.
  2:{ right. eexists. eexists. split; [reflexivity|]. split; [|right; now exists apiKey].
      intros k a Hg. apply Hsame in Hg. discriminate. }
  2:{ right. eexists. eexists. split; [reflexivity|]. split; [|right; now exists apiKey].
      intros k a Hg. apply Hsame in Hg. discriminate. }
  assert (forall k a b, gemini_answers W h freeModels k a -> names_three a b ->
                        exists result, JSON_parse answer = Some result
                        /\ truthy (prop result (lit "text")) = true
                        /\ truthy (prop result (lit "vision")) = true
                        /\ truthy (prop result (lit "voice")) = true) as Hnames.
  { intros k a b Hg (r & Hp & -> & H1 & H2 & H3). apply Hsame in Hg.
    assert (a = answer) by congruence. subst a. exists r. auto. }
  destruct (JSON_parse answer) as [result|] eqn:Hp; norm.
  2:{ right. eexists. eexists. split; [reflexivity|]. split; [|right; now exists apiKey].
      intros k a Hg b Hn. destruct (Hnames k a b Hg Hn) as (r & Hr & _). discriminate. }
  destruct (truthy (prop result (lit "text")) && truthy (prop result (lit "vision"))
            && truthy (prop result (lit "voice"))) eqn:Ht.
  - apply andb_true_iff in Ht as [Ht Ho]. apply andb_true_iff in Ht as [Ht Hv].
    left.
    assert (chosen_by_gemini W h freeModels
              [key_request; choice_request apiKey freeModels]
              (mkBest (prop result (lit "text")) (prop result (lit "vision"))
                      (prop result (lit "voice")))) as Hc.
    { exists apiKey, answer. split; [exists keyData; auto|].
      split; [|reflexivity]. exists result. cbn [text vision voice]. auto. }
    destruct result; rewrite ?Ht, ?Hv, ?Ho; cbn [andb]; norm;
      try discriminate;
      (eexists; eexists; split; [reflexivity|exact Hc]).
  - right.
    assert (forall k a, gemini_answers W h freeModels k a ->
                        forall b, ~ names_three a b) as Hno.
    { intros k a Hg b Hn. destruct (Hnames k a b Hg Hn) as (r & Hr & H1 & H2 & H3).
      inversion Hr; subst r. rewrite H1, H2, H3 in Ht. discriminate. }
    destruct result; rewrite ?Ht; norm;
      (eexists; eexists; split; [reflexivity|];
       split; [exact Hno|right; now exists apiKey]).
Qed.

End FreeModels.

(** X22.  [updateBestFreeModels] never throws.  When the list cannot be had,
    is no array, holds an entry priced at zero without an id, or holds no
    free model, [bestFreeModels] keeps its value and the list was the
    only call.  Otherwise the sorted free models are put to Gemini with
    the key of the pool.  When the pool hands out a key and Gemini
    answers the request with JSON whose [text], [vision] and [voice] are
    truthy, the new value is these three fields, whatever they name.  In
    every other case the new value is the choice by rule, and each of the
    three is the id of an entry of the list whose prompt and completion
    cost nothing and whose id does not contain gemini-2.0. *)
Theorem updateBestFreeModels_choice
    (W : Optimizer.World) (best : Optimizer.Best) (h : list Optimizer.Event) :
  exists best' es,
    Optimizer.updateBestFreeModels W best h = (Ret best', es) /\
    match Optimizer.models W (h ++ [Optimizer.EGetModels]) with
    | Ret (Some all) =>
        match Optimizer.freeOf all with
        | Ret (first :: rest) =>
            let freeModels := Optimizer.sort (first :: rest) in
            let asked := h ++ [Optimizer.EGetModels] in
            exists es',
              es = Optimizer.EGetModels :: es'
              /\ (Optimizer.chosen_by_gemini W asked freeModels es' best'
                  \/ (Optimizer.chosen_by_rule W asked freeModels es' best'
                      /\ Optimizer.free_id all (Optimizer.text best')
                      /\ Optimizer.free_id all (Optimizer.vision best')
                      /\ Optimizer.free_id all (Optimizer.voice best')))
              /\ (forall apiKey answer picked,
                     Optimizer.gemini_answers W asked freeModels apiKey answer ->
                     Optimizer.names_three answer picked ->
                     best' = picked
                     /\ es' = [Optimizer.key_request;
                               Optimizer.choice_request apiKey freeModels])
        | _ => best' = best /\ es = [Optimizer.EGetModels]
        end
    | _ => best' = best /\ es = [Optimizer.EGetModels]
    end.
Proof.
  unfold Optimizer.updateBestFreeModels, try_catch at 1, bind, call, lift, raise, ret.
  destruct (Optimizer.models W (h ++ [Optimizer.EGetModels])) as [[all|]|e];
    [|eexists; eexists; split; [reflexivity|split; reflexivity] ..].
  destruct (Optimizer.freeOf all) as [[|first rest]|e] eqn:Hf;
    [eexists; eexists; split; [reflexivity|split; reflexivity]| |
     eexists; eexists; split; [reflexivity|split; reflexivity]].
  pose proof (freeOf_free all all _ (incl_refl _) Hf) as Hall.
  assert (Forall (fun m => Optimizer.free_id all (Optimizer.id_of m))
                 (Optimizer.sort (first :: rest))) as Hs.
  { rewrite Forall_forall in *. intros x Hx. apply Hall. now apply sort_In. }
  assert (Optimizer.sort (first :: rest) <> []) as Hne by apply insert_cons.
  destruct (ruleBased_free _ _ Hs Hne) as (ruled & Hr & Hfree).
  unfold try_catch. rewrite app_nil_r. cbv zeta.
  destruct (askGemini_cases W (Optimizer.sort (first :: rest))
              (h ++ [Optimizer.EGetModels]))
    as [(picked & es & -> & Hc)|(e & es & -> & Hno & Hes)].
  - eexists. eexists. split; [reflexivity|]. exists es. cbn [app].
    split; [reflexivity|]. split; [left; exact Hc|].
    intros apiKey answer b Hg Hn.
    destruct Hc as (k & a & Hg' & Hn' & ->).
    destruct (gemini_answers_one _ _ _ _ _ _ _ Hg Hg') as [-> ->].
    split; [exact (names_three_one _ _ _ Hn' Hn)|reflexivity].
  - rewrite Hr. eexists. eexists. split; [reflexivity|]. exists es.
    rewrite app_nil_r. cbn [app].
    split; [reflexivity|]. split.
    + right. split; [|exact Hfree]. split; [exact Hr|]. split; [exact Hno|exact Hes].
    + intros apiKey answer b Hg Hn. destruct (Hno apiKey answer Hg b Hn).
Qed.

(** [updateBestFreeModels_choice] where Gemini names a model that is not
    free, which is taken, and where the pool has no key of Gemini. *)
Lemma updateBestFreeModels_choice_witness :
  Optimizer.updateBestFreeModels Optimizer.advised Optimizer.defaults []
  = (Ret (Optimizer.mkBest
            (Json (JStr (lit "openai/gpt-4o")))
            (Json (JStr (lit "qwen/qwen-2.5-vl-7b-instruct:free")))
            (Json (JStr (lit "mistralai/mistral-7b-instruct:free")))),
     [ Optimizer.EGetModels; Optimizer.key_request;
       Optimizer.choice_request (lit "AIzaSy-pool-1")
         (Optimizer.sort (skipn 2 Optimizer.catalogue)) ])
  /\ Optimizer.updateBestFreeModels Optimizer.keyless Optimizer.defaults []
     = (Ret (Optimizer.mkBest
               (Json (JStr (lit "qwen/qwen-2.5-vl-7b-instruct:free")))
               (Json (JStr (lit "qwen/qwen-2.5-vl-7b-instruct:free")))
               (Json (JStr (lit "qwen/qwen-2.5-vl-7b-instruct:free")))),
        [ Optimizer.EGetModels; Optimizer.key_request ]).
Proof.
  destruct (updateBestFreeModels_choice Optimizer.advised Optimizer.defaults [])
    as (b1 & es1 & H1 & _).
  split; vm_compute; reflexivity.
Defined.

(* ================================================================== *)
(** * The wrapper of the controllers *)
(* ================================================================== *)

(** X23.  with a [config] at hand (or on Messenger, where it is not read),
    [generateResponse] always reaches [generateReply], whatever the two
    lookups do, and passes [config] on unchanged.  The prompts of the
    page are read exactly on Messenger and when [config] has no truthy
    [text_prompt]; the row read is used as it comes, and [config] itself
    when the reading throws or was not made.  The contact is read
    exactly on WhatsApp when the caller gave no name or the name
    Unknown; its name is used when it is truthy and not Unknown, and in
    every other case the name is the one given or, without one, the user
    id.  These readings, in this order, are the only calls. *)
Theorem generateResponse_resolves
    (Config : Type) (text_prompt : Config -> value) (W : Wrapper.World Config)
    (pageId userId : value) (config : option Config) (platform : value)
    (explicitSenderName : option jsstring) (h : list Wrapper.Event) :
  is_the_string platform (lit "messenger") = true \/ config <> None ->
  let given := match Engine.nonempty explicitSenderName with
               | Some n => Json (JStr n)
               | None => userId
               end in
  let fetch := is_the_string platform (lit "messenger")
               || match config with
                  | Some c => negb (truthy (text_prompt c))
                  | None => false
                  end in
  let lookup := match Engine.nonempty explicitSenderName with
                | Some n => eqb n (lit "Unknown")
                | None => true
                end && is_the_string platform (lit "whatsapp") in
  let es1 := if fetch then [Wrapper.EGetPagePrompts pageId] else [] in
  let es2 := if lookup then [Wrapper.EContact userId pageId] else [] in
  let prompts := if fetch
                 then match Wrapper.page_prompts Config W (h ++ es1) with
                      | Ret row => row
                      | Throw _ => config
                      end
                 else config in
  let name := if lookup
              then match Wrapper.contact Config W (h ++ es1 ++ es2) with
                   | Ret (Some n) =>
                       if truthy n && negb (is_the_string n (lit "Unknown"))
                       then n else given
                   | _ => given
                   end
              else given in
  Wrapper.generateResponse Config text_prompt W pageId userId config platform
                           explicitSenderName h
  = (Ret (Wrapper.mkReplyCall Config config prompts name), es1 ++ es2).
Proof.
  intros Hc given fetch lookup es1 es2 prompts name.
  assert (Wrapper.resolvePrompts Config text_prompt W pageId config platform h
          = (Ret prompts, es1)) as Hp.
  { unfold Wrapper.resolvePrompts, prompts, es1, fetch. unfold_monad.
    destruct (is_the_string platform (lit "messenger")) eqn:Hm; cbn [orb].
    - norm. destruct (Wrapper.page_prompts Config W _); norm; reflexivity.
    - destruct Hc as [Hc|Hc]; [discriminate|].
      destruct config as [c|]; [|congruence].
      destruct (negb (truthy (text_prompt c))); norm; [|reflexivity].
      destruct (Wrapper.page_prompts Config W _); norm; reflexivity. }
  assert (Wrapper.resolveSender Config W pageId userId platform explicitSenderName
                                (h ++ es1)
          = (Ret name, es2)) as Hn.
  { unfold Wrapper.resolveSender, name, es2, lookup. fold given. unfold_monad.
    destruct (match Engine.nonempty explicitSenderName with
              | Some n => eqb n (lit "Unknown")
              | None => true
              end); cbn [andb]; [|reflexivity].
    destruct (is_the_string platform (lit "whatsapp")); norm; [|reflexivity].
    rewrite <- ?app_assoc.
    destruct (Wrapper.contact Config W _) as [[n|]|e]; norm; try reflexivity.
    destruct (truthy n && negb (is_the_string n (lit "Unknown"))); norm; reflexivity. }
  unfold Wrapper.generateResponse. unfold bind at 1. rewrite Hp.
  unfold bind at 1. rewrite Hn. unfold ret. rewrite app_nil_r. reflexivity.
Qed.

(** On WhatsApp, with the name Unknown given and both lookups failing,
    the engine is called with the name Unknown, after the contact was
    asked for. *)
Lemma generateResponse_resolves_witness :
  Wrapper.generateResponse jsstring (fun c => Json (JStr c)) Wrapper.down
    Wrapper.session Wrapper.phone (Some (lit "You are a shop."))
    (Json (JStr (lit "whatsapp"))) (Some (lit "Unknown")) []
  = (Ret (Wrapper.mkReplyCall jsstring (Some (lit "You are a shop."))
            (Some (lit "You are a shop.")) Wrapper.unknown),
     [Wrapper.EContact Wrapper.phone Wrapper.session]).
Proof.
  assert (Some (lit "You are a shop.") <> None) as Hc by discriminate.
  pose proof (generateResponse_resolves jsstring (fun c => Json (JStr c)) Wrapper.down
              Wrapper.session Wrapper.phone (Some (lit "You are a shop."))
              (Json (JStr (lit "whatsapp"))) (Some (lit "Unknown")) []
              (or_intror Hc)) as H.
  cbv zeta in H. rewrite H. vm_compute. reflexivity.
Defined.


(* ================================================================== *)
(** * The images named in the message *)
(* ================================================================== *)

Section Marker.

Import Media.

Lemma marker_at_elsewhere (c : N) (s : jsstring) : c <> 91%N -> marker_at (c :: s) = None.
Proof.
  intros Hc. unfold marker_at, marker_open.
  cbn [lit map list_ascii_of_string matchesAt]. unfold same.
  change (N_of_ascii "[") with 91%N.
  destruct (N.eqb_spec 91 c) as [E|E]; [congruence|reflexivity].
Qed.

Lemma imageMatch_none (s : jsstring) : ~ In 91%N s -> imageMatch s = None.
Proof.
  induction s as [|c s IH]; intros H; [reflexivity|].
  cbn [imageMatch]. rewrite marker_at_elsewhere by (intros ->; apply H; now left).
  apply IH. intros Hin. apply H. now right.
Qed.

Lemma lazy_group_found (group post : jsstring) :
  Forall in_group group -> lazy_group (group ++ 93%N :: post) = Some group.
Proof.
  induction 1 as [|c group [Hc Hl] _ IH]; cbn [app lazy_group].
  - reflexivity.
  - destruct (N.eqb_spec c 93) as [E|_]; [congruence|]. rewrite Hl, IH. reflexivity.
Qed.

Lemma skipn_own (a b : jsstring) : skipn (length a) (a ++ b) = b.
Proof. induction a as [|c a IH]; [reflexivity|exact IH]. Qed.

Lemma firstn_own (a b : jsstring) : firstn (length a) (a ++ b) = a.
Proof. induction a as [|c a IH]; [reflexivity|]. cbn [length app firstn]. now rewrite IH. Qed.

Lemma imageMatch_found (pre group post : jsstring) :
  ~ In 91%N pre -> Forall in_group group ->
  imageMatch (pre ++ marker_open ++ group ++ 93%N :: post)
  = Some (marker_open ++ group ++ [93%N], group).
Proof.
  intros Hpre Hg. induction pre as [|c pre IH].
  - cbn [app]. assert (marker_at (marker_open ++ group ++ 93%N :: post) = Some group) as Hm.
    { unfold marker_at. rewrite (matchesAt_app_self false), skipn_own.
      now apply lazy_group_found. }
    destruct (marker_open ++ group ++ 93%N :: post) eqn:E; cbn [imageMatch]; now rewrite Hm.
  - cbn [app imageMatch].
    rewrite marker_at_elsewhere by (intros ->; apply Hpre; now left).
    apply IH. intros Hin. apply Hpre. now right.
Qed.

Lemma indexOf_marker (pre rest : jsstring) (p : jsstring) :
  ~ In 91%N pre -> indexOf (pre ++ 91%N :: p ++ rest) (91%N :: p) = Some (length pre).
Proof.
  induction pre as [|c pre IH]; intros H.
  - cbn [app length].
    assert (startsWith (91%N :: p ++ rest) (91%N :: p) = true) as Hs
      by apply (matchesAt_app_self false (91%N :: p)).
    cbn [indexOf]. now rewrite Hs.
  - cbn [app length indexOf]. unfold startsWith at 1. cbn [matchesAt]. unfold same.
    destruct (N.eqb_spec 91 c) as [E|_]; [exfalso; apply H; now left|].
    cbn [andb]. rewrite IH by (intros Hin; apply H; now right). reflexivity.
Qed.

Lemma removeFirst_marker (pre body post : jsstring) :
  ~ In 91%N pre ->
  removeFirst (91%N :: body) (pre ++ 91%N :: body ++ post) = pre ++ post.
Proof.
  intros H. unfold removeFirst. rewrite indexOf_marker by exact H.
  rewrite firstn_own. f_equal.
  replace (length pre + length (91%N :: body))%nat
    with (length (91%N :: body) + length pre)%nat by lia.
  rewrite <- skipn_skipn, skipn_own. apply (skipn_own (91%N :: body)).
Qed.

End Marker.

(** X24.  a message that names its images in the marker of the controllers
    is split as meant: with no opening bracket before the marker, and a
    group that is not empty and holds neither a closing bracket nor a line
    break, the pieces of the group between commas, trimmed, are added to
    the images, and the message goes on as the text around the marker,
    trimmed.  A message without any opening bracket is left as it is. *)
Theorem extractImages_marker
    (imageUrls : list jsstring) (pre group post : jsstring) :
  ~ In 91%N pre -> group <> [] -> Forall Media.in_group group ->
  Media.extractImages (pre ++ Media.marker_open ++ group ++ [93%N] ++ post) imageUrls
  = (imageUrls ++ map trim (split 44 group), trim (pre ++ post))
  /\ Media.extractImages pre imageUrls = (imageUrls, pre).
Proof.
  intros Hpre Hne Hg. split.
  - unfold Media.extractImages. cbn [app].
    rewrite imageMatch_found by assumption.
    destruct group as [|c group]; [congruence|].
    f_equal. f_equal.
    change (Media.marker_open ++ (c :: group) ++ [93%N])
      with (91%N :: tl Media.marker_open ++ (c :: group) ++ [93%N]).
    replace (pre ++ Media.marker_open ++ (c :: group) ++ 93%N :: post)
      with (pre ++ 91%N :: (tl Media.marker_open ++ (c :: group) ++ [93%N]) ++ post).
    + now apply removeFirst_marker.
    + f_equal. change Media.marker_open with (91%N :: tl Media.marker_open) at 2.
      cbn [app]. f_equal. rewrite <- !app_assoc. cbn [app].
      rewrite <- app_assoc. reflexivity.
  - unfold Media.extractImages. now rewrite imageMatch_none.
Qed.

(** Two links after a greeting. *)
Lemma extractImages_marker_witness :
  Media.extractImages
    (lit "Price? " ++ Media.marker_open ++ lit "https://a.example/1.jpg, https://a.example/2.jpg"
     ++ [93%N] ++ [])
    []
  = ([] ++ map trim (split 44 (lit "https://a.example/1.jpg, https://a.example/2.jpg")),
     trim (lit "Price? " ++ [])).
Proof.
  apply (extractImages_marker [] (lit "Price? ")
           (lit "https://a.example/1.jpg, https://a.example/2.jpg") []).
  - vm_compute. intuition discriminate.
  - discriminate.
  - repeat (constructor; [split; [discriminate|reflexivity]|]). constructor.
Defined.
